(** * Wechatsync: request signer, content transformer, platform adapters,
      sync orchestrator and control-channel client

    A shallow embedding of the TypeScript sources into Rocq, with the
    properties of the design document stated and settled on the embedding.

    Conventions.
    - A JavaScript [number] that only ever holds an integer is a [Z] (a
      [nat] for a counter); the 32-bit conversions of the bit operators
      ([ToInt32], [ToUint32]) are written out.
    - Text that is inspected character by character (markup, query
      strings) is a [jsstring], a list of UTF-16 code units; identifiers,
      URLs and messages, which are only passed around and compared, are
      [string]s.
    - An [async] function is a function from the state it can touch to an
      [Outcome] (resolved or rejected) and the next state; what lies
      outside the program (the network, the background page, the storage)
      is a world that answers the calls made to it.
    - A value thrown or used as a rejection reason is an [Error] carrying
      its [message], as the sources themselves assume when they write
      [(error as Error).message].
    - Logging and analytics calls, which never feed back into the program,
      are left out.

    The first part holds the definitions, module by module; the second
    part holds the properties. *)

From Stdlib Require Import ZArith List Bool Lia String Ascii.
From Stdlib Require Import Strings.Byte DecimalString DecimalZ.
From Stdlib Require Import Permutation Sorted Arith.
Import ListNotations.

Local Open Scope Z_scope.

(* ================================================================== *)
(** * JavaScript 32-bit integer operators *)
(* ================================================================== *)

Module JsInt.

Definition ToUint32 (x : Z) : Z := x mod 2 ^ 32.

Definition ToInt32 (x : Z) : Z :=
  let u := x mod 2 ^ 32 in
  if u <? 2 ^ 31 then u else u - 2 ^ 32.

(** [a ^ b]: both operands go through [ToInt32]; the result is a signed
    32-bit integer. *)
Definition xor (a b : Z) : Z := Z.lxor (ToInt32 a) (ToInt32 b).

(** [a & b] *)
Definition and (a b : Z) : Z := Z.land (ToInt32 a) (ToInt32 b).

(** [a >>> n]: the left operand goes through [ToUint32], the shift count
    is taken modulo 32; the result is unsigned. *)
Definition ushr (a n : Z) : Z := Z.shiftr (ToUint32 a) (n mod 32).

End JsInt.

(* ================================================================== *)
(** * Request signer: the CRC-32 checksum utility *)
(* ================================================================== *)

Module Crc32.
Import JsInt.

(** The module-level variable [crc32Table: Uint32Array | null]. *)
Definition TableCache := option (list Z).

(** Inner loop of [getCRC32Table]:
    [for (j = 0; j < 8; j++) c = (c & 1) ? (0xEDB88320 ^ (c >>> 1)) : (c >>> 1)] *)
Fixpoint entryLoop (j : nat) (c : Z) : Z :=
  match j with
  | O => c
  | S j' =>
      entryLoop j'
        (if and c 1 =? 0 then ushr c 1 else xor 0xEDB88320 (ushr c 1))
  end.

(** [crc32Table[i] = c]: a store into a [Uint32Array] applies [ToUint32]. *)
Definition buildTable : list Z :=
  map (fun i => ToUint32 (entryLoop 8 (Z.of_nat i))) (seq 0 256).

(** [getCRC32Table]: returns the cached table when there is one, otherwise
    builds it and stores it in the cache. *)
Definition getCRC32Table (cache : TableCache) : list Z * TableCache :=
  match cache with
  | Some t => (t, cache)
  | None => let t := buildTable in (t, Some t)
  end.

Definition byteZ (b : byte) : Z := Z.of_N (Byte.to_N b).

(** One iteration of the loop of [crc32]:
    [crc = (crc >>> 8) ^ table[(crc ^ data[i]) & 0xFF]] *)
Definition update (table : list Z) (crc : Z) (b : byte) : Z :=
  xor (ushr crc 8) (nth (Z.to_nat (and (xor crc (byteZ b)) 0xFF)) table 0).

(** [Number.prototype.toString(16)] on a non-negative integer. *)
Definition hexDigit (d : Z) : ascii :=
  match String.get (Z.to_nat d) "0123456789abcdef" with
  | Some c => c
  | None => "0"%char
  end.

Fixpoint toString16_aux (fuel : nat) (n : Z) (acc : string) : string :=
  match fuel with
  | O => acc
  | S f =>
      let acc' := String (hexDigit (n mod 16)) acc in
      if n / 16 =? 0 then acc' else toString16_aux f (n / 16) acc'
  end.

Definition toString16 (n : Z) : string :=
  toString16_aux (S (Z.to_nat (Z.log2 n))) n EmptyString.

Fixpoint repeatChar (k : nat) (c : ascii) : string :=
  match k with
  | O => EmptyString
  | S k' => String c (repeatChar k' c)
  end.

(** [s.padStart(len, c)] for a one-character filler. *)
Definition padStart (len : nat) (c : ascii) (s : string) : string :=
  (repeatChar (len - String.length s) c ++ s)%string.

(** [crc32(data)], with the table cache threaded through. *)
Definition crc32 (data : list byte) (cache : TableCache) : string * TableCache :=
  let '(table, cache') := getCRC32Table cache in
  let crc := fold_left (update table) data 0xFFFFFFFF in
  (padStart 8 "0"%char (toString16 (ushr (xor crc 0xFFFFFFFF) 0)), cache').

(** ** The reference algorithm, written from the specification's words

    CRC-32/ISO-HDLC: reflected polynomial 0xEDB88320, initial value
    0xFFFFFFFF, final XOR 0xFFFFFFFF, processed bit by bit (no table). *)

Definition refStep (c : Z) : Z :=
  if Z.testbit c 0 then Z.lxor (Z.shiftr c 1) 0xEDB88320 else Z.shiftr c 1.

Definition refByte (c : Z) (b : byte) : Z :=
  Nat.iter 8 refStep (Z.lxor c (byteZ b)).

Definition crc32_iso_hdlc (data : list byte) : Z :=
  Z.lxor (fold_left refByte data 0xFFFFFFFF) 0xFFFFFFFF.

(** Reading an unsigned hexadecimal numeral back. *)
Definition hexValueOfChar (c : ascii) : option Z :=
  let n := Z.of_nat (nat_of_ascii c) in
  if (48 <=? n) && (n <=? 57) then Some (n - 48)
  else if (97 <=? n) && (n <=? 102) then Some (n - 87)
  else None.

Fixpoint hexValue_aux (s : string) (acc : Z) : option Z :=
  match s with
  | EmptyString => Some acc
  | String c s' =>
      match hexValueOfChar c with
      | Some d => hexValue_aux s' (16 * acc + d)
      | None => None
      end
  end.

(** [Some n] exactly for strings of lowercase hexadecimal digits. *)
Definition hexValue (s : string) : option Z := hexValue_aux s 0.

(** The states the cache can be in: empty, or holding the built table. *)
Definition cacheOk (cache : TableCache) : Prop :=
  cache = None \/ cache = Some buildTable.

End Crc32.


(* ================================================================== *)
(** * Asynchronous functions: outcomes over a threaded state *)
(* ================================================================== *)

Module Async.

(** A thrown value or rejection reason; the sources read its [message]. *)
Record Error : Type := mkError { message : string }.

(** How a promise settles. *)
Inductive Outcome (A : Type) : Type :=
| Resolved (a : A)
| Rejected (e : Error).
Arguments Resolved {A} a.
Arguments Rejected {A} e.

(** An [async] function over the state [S] it reads and writes. *)
Definition M (S A : Type) : Type := S -> Outcome A * S.

Definition ret {S A} (a : A) : M S A := fun s => (Resolved a, s).

Definition throw {S A} (e : Error) : M S A := fun s => (Rejected e, s).

(** [await c; k]: a rejection skips the continuation. *)
Definition bind {S A B} (c : M S A) (k : A -> M S B) : M S B :=
  fun s =>
    match c s with
    | (Resolved a, s') => k a s'
    | (Rejected e, s') => (Rejected e, s')
    end.

(** [try { c } catch (error) { h error }]: state changes made before the
    throw are kept. *)
Definition tryCatch {S A} (c : M S A) (h : Error -> M S A) : M S A :=
  fun s =>
    match c s with
    | (Resolved a, s') => (Resolved a, s')
    | (Rejected e, s') => h e s'
    end.

Definition get {S} : M S S := fun s => (Resolved s, s).
Definition put {S} (s : S) : M S unit := fun _ => (Resolved tt, s).
Definition modify {S} (f : S -> S) : M S unit := fun s => (Resolved tt, f s).

Definition isResolved {A} (o : Outcome A) : bool :=
  match o with Resolved _ => true | Rejected _ => false end.

Declare Scope async_scope.
Delimit Scope async_scope with async.
Notation "x <- c ;; k" := (bind c (fun x => k))
  (at level 61, c at next level, right associativity) : async_scope.
Notation "c ;;; k" := (bind c (fun _ => k))
  (at level 61, right associativity) : async_scope.

End Async.

(* ================================================================== *)
(** * Control-channel client ([McpClient]) *)
(* ================================================================== *)

Module Mcp.
Import Async.
Local Open Scope string_scope.
Local Open Scope list_scope.

(** [interface RequestMessage] *)
Record RequestMessage (Params : Type) : Type := mkRequest {
  req_id : string;
  req_method : string;
  req_token : option string;
  req_params : option Params
}.
Arguments mkRequest {Params}.
Arguments req_id {Params}.
Arguments req_method {Params}.
Arguments req_token {Params}.
Arguments req_params {Params}.

(** [interface ResponseMessage] *)
Record ResponseMessage (Result : Type) : Type := mkResponse {
  resp_id : string;
  resp_result : option Result;
  resp_error : option (Z * string)   (* {code, message} *)
}.
Arguments mkResponse {Result}.
Arguments resp_id {Result}.
Arguments resp_result {Result}.
Arguments resp_error {Result}.

(** [WebSocket.readyState] *)
Inductive ReadyState := CONNECTING | OPEN | CLOSING | CLOSED.

(** The socket object the client holds, with the frames handed to [send]
    while it was open. *)
Record WebSocket (Result : Type) : Type := mkSocket {
  readyState : ReadyState;
  outbox : list (ResponseMessage Result)
}.
Arguments mkSocket {Result}.
Arguments readyState {Result}.
Arguments outbox {Result}.

(** The private fields of [class McpClient]. A pending [reconnectTimer]
    is recorded with the delay it was armed with, in milliseconds. *)
Record McpClient (Result : Type) : Type := mkClient {
  ws : option (WebSocket Result);
  reconnectTimer : option Z;
  token : option string;
  reconnectAttempts : nat
}.
Arguments mkClient {Result}.
Arguments ws {Result}.
Arguments reconnectTimer {Result}.
Arguments token {Result}.
Arguments reconnectAttempts {Result}.

Definition minReconnectInterval : Z := 1000.
Definition maxReconnectInterval : Z := 30000.
Definition maxReconnectAttempts : nat := 100.

Section Client.
Context {Result : Type}.
#[local] Abbreviation Client := (McpClient Result).

Definition initial : Client := mkClient None None None 0.

Definition setToken (t : string) (c : Client) : Client :=
  mkClient (ws c) (reconnectTimer c) (Some t) (reconnectAttempts c).

Definition clearToken (c : Client) : Client :=
  mkClient (ws c) (reconnectTimer c) None (reconnectAttempts c).

(** [this.ws?.readyState === WebSocket.OPEN] *)
Definition isConnected (c : Client) : bool :=
  match ws c with
  | Some s => match readyState s with OPEN => true | _ => false end
  | None => false
  end.

(** [Math.min(minReconnectInterval * Math.pow(2, attempts),
    maxReconnectInterval)]. The product is an integer that a double
    holds exactly for every counter value below the maximum. *)
Definition reconnectDelay (attempts : nat) : Z :=
  Z.min (minReconnectInterval * 2 ^ Z.of_nat attempts) maxReconnectInterval.

(** [scheduleReconnect] *)
Definition scheduleReconnect (c : Client) : Client :=
  match reconnectTimer c with
  | Some _ => c
  | None =>
      if (maxReconnectAttempts <=? reconnectAttempts c)%nat then c
      else mkClient (ws c)
                    (Some (reconnectDelay (reconnectAttempts c)))
                    (token c)
                    (S (reconnectAttempts c))
  end.

(** [connect]. [ctorThrows] says whether [new WebSocket(url)] throws. *)
Definition connect (ctorThrows : bool) (c : Client) : Client :=
  if isConnected c then c
  else
    (* any stale socket is dropped: [this.ws = null] *)
    if ctorThrows then
      scheduleReconnect
        (mkClient None (reconnectTimer c) (token c) (reconnectAttempts c))
    else
      mkClient (Some (mkSocket CONNECTING []))
               (reconnectTimer c) (token c) (reconnectAttempts c).

(** [ws.onopen] *)
Definition onopen (c : Client) : Client :=
  mkClient
    (match ws c with
     | Some s => Some (mkSocket OPEN (outbox s))
     | None => None
     end)
    None (token c) 0.

(** [ws.onclose] *)
Definition onclose (c : Client) : Client :=
  scheduleReconnect
    (mkClient None (reconnectTimer c) (token c) (reconnectAttempts c)).

(** The callback given to [setTimeout] in [scheduleReconnect]. *)
Definition onReconnectTimer (ctorThrows : bool) (c : Client) : Client :=
  connect ctorThrows
    (mkClient (ws c) None (token c) (reconnectAttempts c)).

(** [disconnect] *)
Definition disconnect (c : Client) : Client :=
  mkClient None None (token c) maxReconnectAttempts.

(** [resetReconnect] *)
Definition resetReconnect (ctorThrows : bool) (c : Client) : Client :=
  let c' := mkClient (ws c) (reconnectTimer c) (token c) 0 in
  if isConnected c' then c' else connect ctorThrows c'.

(** [!this.token]: [null] and the empty string are falsy. *)
Definition tokenMissing (c : Client) : bool :=
  match token c with
  | None => true
  | Some t => String.eqb t ""
  end.

(** A token counts as configured when [this.token] is truthy. *)
Definition tokenConfigured (c : Client) : bool := negb (tokenMissing c).

(** [message.token !== this.token], with [this.token] a string. *)
Definition tokenDiffers {Params} (m : RequestMessage Params) (c : Client) : bool :=
  match req_token m, token c with
  | Some a, Some b => negb (String.eqb a b)
  | _, _ => true
  end.

(** [this.ws?.send(frame)]: nothing happens without a socket; a socket
    that is still connecting throws; a closing or closed socket drops
    the frame. *)
Definition send (frame : ResponseMessage Result) (c : Client)
  : Outcome unit * Client :=
  match ws c with
  | None => (Resolved tt, c)
  | Some s =>
      match readyState s with
      | OPEN =>
          (Resolved tt,
           mkClient (Some (mkSocket OPEN (outbox s ++ [frame])))
                    (reconnectTimer c) (token c) (reconnectAttempts c))
      | CONNECTING =>
          (Rejected (mkError "InvalidStateError"), c)
      | _ => (Resolved tt, c)
      end
  end.

Section Dispatch.
(** What lies behind the method table: the registry, the page and the
    extension messaging, as a state [World] that [handleMethod] may
    change. [JSON_parse] is [None] when parsing throws or yields
    [null]. *)
Context {Params World : Type}.
Variable JSON_parse : string -> option (RequestMessage Params).
Variable handleMethod :
  string -> option Params -> World -> Outcome Result * World.

(** The response [handleMessage] builds, and the world after it. *)
Definition respond (m : RequestMessage Params) (c : Client) (w : World)
  : ResponseMessage Result * World :=
  if tokenMissing c then
    (mkResponse (req_id m) None (Some (401, "MCP token not configured")), w)
  else if tokenDiffers m c then
    (mkResponse (req_id m) None (Some (403, "Invalid or missing token")), w)
  else
    match handleMethod (req_method m) (req_params m) w with
    | (Resolved r, w') => (mkResponse (req_id m) (Some r) None, w')
    | (Rejected e, w') =>
        (mkResponse (req_id m) None (Some (-1, message e)), w')
    end.

(** [handleMessage]: every exception, from parsing or from [send], is
    caught and logged; the promise always resolves. *)
Definition handleMessage (data : string) (c : Client) (w : World)
  : Client * World :=
  match JSON_parse data with
  | None => (c, w)
  | Some m =>
      let '(response, w') := respond m c w in
      (snd (send response c), w')
  end.

(** The response to a request that is turned away: the request's id,
    no result, and the error. *)
Definition rejection (m : RequestMessage Params) (code : Z) (msg : string)
  : ResponseMessage Result :=
  mkResponse (req_id m) None (Some (code, msg)).

(** What it means for [handleMessage] to turn a request away with
    [code] and [msg] without dispatching it. *)
Definition turnedAway (data : string) (m : RequestMessage Params)
           (c : Client) (w : World) (code : Z) (msg : string) : Prop :=
  let c' := fst (handleMessage data c w) in
  (* the world behind the method table is untouched *)
  snd (handleMessage data c w) = w
  (* the socket is in the ready state it was in; nothing else moved *)
  /\ option_map readyState (ws c') = option_map readyState (ws c)
  /\ reconnectTimer c' = reconnectTimer c
  /\ token c' = token c
  /\ reconnectAttempts c' = reconnectAttempts c
  (* on an open socket exactly the rejection is sent *)
  /\ (forall s, ws c = Some s -> readyState s = OPEN ->
                ws c' = Some (mkSocket OPEN (outbox s ++ [rejection m code msg]))).
End Dispatch.
End Client.

End Mcp.

(* ================================================================== *)
(** * Sync orchestrator (the popup's sync store) *)
(* ================================================================== *)

Module Sync.
Import Async.
Local Open Scope string_scope.
Local Open Scope list_scope.

(** ** Data model *)

Inductive SourceType := dsl | cms.

(** [interface Platform]; the icon, homepage, avatar and CMS kind are
    never read by the actions below and are left out. *)
Record Platform : Type := mkPlatform {
  id : string;
  name : string;
  isAuthenticated : bool;
  sourceType : SourceType
}.

Record Article : Type := mkArticle {
  title : string;
  content : string;
  summary : option string;
  cover : option string
}.

Record SyncResult : Type := mkResult {
  platform : string;
  platformName : option string;
  success : bool;
  postUrl : option string;
  draftOnly : option bool;
  error : option string
}.

Record ImageProgress : Type := mkProgress {
  ip_platform : string;
  ip_current : Z;
  ip_total : Z
}.

Record SyncHistoryItem : Type := mkHistoryItem {
  h_id : string;
  h_title : string;
  h_cover : option string;
  h_timestamp : Z;
  h_results : list SyncResult
}.

Inductive Status := loading | idle | syncing | completed.

(** The data fields of [interface SyncState]. *)
Record SyncState : Type := mkState {
  status : Status;
  article : option Article;
  platforms : list Platform;
  selectedPlatforms : list string;
  results : list SyncResult;
  st_error : option string;
  imageProgress : option ImageProgress;
  history : list SyncHistoryItem;
  recovered : bool
}.

(** The store as [create] initialises it. *)
Definition initialState : SyncState :=
  mkState loading None [] [] [] None None [] false.

(** ** What lies across the messaging boundary *)

(** A call that leaves the popup. *)
Inductive Call :=
| SYNC_ARTICLE (a : Article) (platformIds : list string) (skipHistory : bool)
| SYNC_TO_CMS (accountId : string) (a : Article)
| StorageGetHistory
| StorageSetHistory (h : list SyncHistoryItem).

(** The world outside the store: the ['syncHistory'] slot of
    [chrome.storage.local] ([None] when the key is absent), and the calls
    made so far, oldest first. *)
Record World : Type := mkWorld {
  syncHistory : option (list SyncHistoryItem);
  calls : list Call
}.

(** The response to [SYNC_ARTICLE]; [results] may be missing. *)
Record SyncArticleResponse : Type := mkSyncArticleResponse {
  sa_results : option (list SyncResult)
}.

(** The response to [SYNC_TO_CMS]. *)
Record CmsResponse : Type := mkCmsResponse {
  cms_success : bool;
  cms_postUrl : option string;
  cms_draftOnly : option bool;
  cms_error : option string
}.

(** A message the background sends to the popup while a pass runs; the
    payload of [IMAGE_PROGRESS] may be [null]. *)
Inductive Progress :=
| SYNC_PROGRESS (result : SyncResult)
| IMAGE_PROGRESS (payload : option ImageProgress).

(** The collaborators, as functions of the world at the time of the call
    (which includes the whole trace, so that answers may differ from call
    to call). A message resolves with [None] when the other side answers
    with [undefined]. The background may rewrite the stored history while
    it handles a message: the second component is the slot afterwards.
    [incoming] lists the progress messages that reach the popup's listener
    while the call made in this world is pending, oldest first. *)
Record Env : Type := mkEnv {
  onSyncArticle :
    World -> Article -> list string -> bool ->
    Outcome (option SyncArticleResponse) * option (list SyncHistoryItem);
  onSyncToCms :
    World -> string -> Article ->
    Outcome (option CmsResponse) * option (list SyncHistoryItem);
  storageGetFails : World -> option Error;
  storageSetFails : World -> list SyncHistoryItem -> option Error;
  incoming : World -> list Progress
}.

(** The state an action runs over: the store and the world. *)
Definition St : Type := SyncState * World.

(** ** [set] with the partial states the actions use *)

Definition set_error (e : option string) (s : SyncState) : SyncState :=
  mkState (status s) (article s) (platforms s) (selectedPlatforms s)
          (results s) e (imageProgress s) (history s) (recovered s).

Definition set_history (h : list SyncHistoryItem) (s : SyncState) : SyncState :=
  mkState (status s) (article s) (platforms s) (selectedPlatforms s)
          (results s) (st_error s) (imageProgress s) h (recovered s).

(** [set({ status, results, error: null, imageProgress: null })] *)
Definition set_pass_started (rs : list SyncResult) (s : SyncState) : SyncState :=
  mkState syncing (article s) (platforms s) (selectedPlatforms s)
          rs None None (history s) (recovered s).

(** [set({ status: 'completed', results, history, imageProgress: null })] *)
Definition set_pass_completed (rs : list SyncResult)
           (h : list SyncHistoryItem) (s : SyncState) : SyncState :=
  mkState completed (article s) (platforms s) (selectedPlatforms s)
          rs (st_error s) None h (recovered s).

(** [set({ error, status, imageProgress: null })] *)
Definition set_pass_failed (e : Error) (st : Status) (s : SyncState) : SyncState :=
  mkState st (article s) (platforms s) (selectedPlatforms s)
          (results s) (Some (message e)) None (history s) (recovered s).

Definition setState (f : SyncState -> SyncState) : M St unit :=
  modify (fun '(s, w) => (f s, w)).

(** ** The progress listener *)

(** [updateProgress]: [set(state => ({ results: [...state.results, result] }))] *)
Definition updateProgress (result : SyncResult) (s : SyncState) : SyncState :=
  mkState (status s) (article s) (platforms s) (selectedPlatforms s)
          (results s ++ [result]) (st_error s) (imageProgress s) (history s)
          (recovered s).

(** [updateImageProgress]: [set({ imageProgress: progress })] *)
Definition updateImageProgress (progress : option ImageProgress) (s : SyncState)
  : SyncState :=
  mkState (status s) (article s) (platforms s) (selectedPlatforms s)
          (results s) (st_error s) progress (history s) (recovered s).

(** The listener registered with [chrome.runtime.onMessage]. *)
Definition onMessage (m : Progress) (s : SyncState) : SyncState :=
  match m with
  | SYNC_PROGRESS result => updateProgress result s
  | IMAGE_PROGRESS payload => updateImageProgress payload s
  end.

(** The store after the listener handled [ms] in order. *)
Definition deliver (ms : list Progress) (s : SyncState) : SyncState :=
  fold_left (fun s m => onMessage m s) ms s.

(** The store when a call made in world [w] settles: an action that
    awaits yields to the listener until then. *)
Definition listen (env : Env) (w : World) (s : SyncState) : SyncState :=
  deliver (incoming env w) s.

(** ** The awaited calls *)

Definition logCall (c : Call) (h : option (list SyncHistoryItem)) (w : World) : World :=
  mkWorld h (calls w ++ [c]).

(** A property read on [undefined] throws. *)
Definition undefinedResponse : Error :=
  mkError "Cannot read properties of undefined".

(** [await chrome.runtime.sendMessage({type: 'SYNC_ARTICLE', ...})] *)
Definition sendSyncArticle (env : Env) (a : Article) (ids : list string)
           (skipHistory : bool) : M St (option SyncArticleResponse) :=
  fun '(s, w) =>
    let '(out, h) := onSyncArticle env w a ids skipHistory in
    (out, (listen env w s, logCall (SYNC_ARTICLE a ids skipHistory) h w)).

(** [await chrome.runtime.sendMessage({type: 'SYNC_TO_CMS', ...})] *)
Definition sendSyncToCms (env : Env) (accountId : string) (a : Article)
  : M St (option CmsResponse) :=
  fun '(s, w) =>
    let '(out, h) := onSyncToCms env w accountId a in
    (out, (listen env w s, logCall (SYNC_TO_CMS accountId a) h w)).

(** [(await chrome.storage.local.get('syncHistory')).syncHistory || []] *)
Definition readHistory (env : Env) : M St (list SyncHistoryItem) :=
  fun '(s, w) =>
    let w' := logCall StorageGetHistory (syncHistory w) w in
    match storageGetFails env w with
    | Some e => (Rejected e, (listen env w s, w'))
    | None =>
        (Resolved (match syncHistory w with Some h => h | None => [] end),
         (listen env w s, w'))
    end.

(** [await chrome.storage.local.set({ syncHistory: h })] *)
Definition writeHistory (env : Env) (h : list SyncHistoryItem) : M St unit :=
  fun '(s, w) =>
    match storageSetFails env w h with
    | Some e =>
        (Rejected e,
         (listen env w s, logCall (StorageSetHistory h) (syncHistory w) w))
    | None =>
        (Resolved tt, (listen env w s, logCall (StorageSetHistory h) (Some h) w))
    end.

(** ** Shared pieces of [startSync] and [retryFailed] *)

(** [platforms.find(p => p.id === id)] *)
Definition findPlatform (ps : list Platform) (pid : string) : option Platform :=
  find (fun p => String.eqb (id p) pid) ps.

(** [platforms.find(p => p.id === id)?.sourceType === kind] *)
Definition hasSourceType (ps : list Platform) (kind : SourceType) (pid : string) : bool :=
  match findPlatform ps pid with
  | Some p =>
      match sourceType p, kind with
      | dsl, dsl | cms, cms => true
      | _, _ => false
      end
  | None => false
  end.

(** [{...r, platformName: platforms.find(p => p.id === r.platform)?.name
    || r.platform}] *)
Definition withName (ps : list Platform) (r : SyncResult) : SyncResult :=
  mkResult (platform r)
           (Some (match findPlatform ps (platform r) with
                  | Some p => if String.eqb (name p) "" then platform r else name p
                  | None => platform r
                  end))
           (success r) (postUrl r) (draftOnly r) (error r).

(** The body of the [for] loop over the CMS accounts: a rejected message,
    or an [undefined] response, becomes a failed result. *)
Definition publishToCms (env : Env) (a : Article) (accountId : string)
  : M St SyncResult :=
  tryCatch
    (response <- sendSyncToCms env accountId a ;;
     match response with
     | Some r =>
         ret (mkResult accountId None (cms_success r) (cms_postUrl r)
                       (cms_draftOnly r) (cms_error r))
     | None => throw undefinedResponse
     end)%async
    (fun e => ret (mkResult accountId None false None None (Some (message e)))).

Fixpoint publishAllCms (env : Env) (a : Article) (ids : list string)
         (acc : list SyncResult) : M St (list SyncResult) :=
  match ids with
  | [] => ret acc
  | accountId :: rest =>
      (r <- publishToCms env a accountId ;;
       publishAllCms env a rest (acc ++ [r]))%async
  end.

(** The batch of built-in platforms, when there is any. *)
Definition publishDsl (env : Env) (a : Article) (ids : list string)
           (skipHistory : bool) : M St (list SyncResult) :=
  match ids with
  | [] => ret []
  | _ :: _ =>
      (response <- sendSyncArticle env a ids skipHistory ;;
       match response with
       | None => throw undefinedResponse
       | Some r =>
           ret (match sa_results r with Some rs => rs | None => [] end)
       end)%async
  end.

(** The publishing part common to both [try] blocks. *)
Definition publishSelected (env : Env) (a : Article) (ps : list Platform)
           (ids : list string) (skipHistory : bool) : M St (list SyncResult) :=
  (let dslPlatformIds := filter (hasSourceType ps dsl) ids in
   let cmsPlatformIds := filter (hasSourceType ps cms) ids in
   fromDsl <- publishDsl env a dslPlatformIds skipHistory ;;
   allResults <- publishAllCms env a cmsPlatformIds fromDsl ;;
   ret (map (withName ps) allResults))%async.

(** ** [startSync] *)

Definition startSyncBody (env : Env) (a : Article) (ps : list Platform)
           (selected : list string) : M St unit :=
  (resultsWithNames <- publishSelected env a ps selected false ;;
   newHistory <- readHistory env ;;
   setState (set_pass_completed resultsWithNames newHistory))%async.

Definition startSync (env : Env) : M St unit :=
  fun '(s, w) =>
    match article s with
    | None => (Resolved tt, (set_error (Some "未检测到文章内容") s, w))
    | Some a =>
        match selectedPlatforms s with
        | [] => (Resolved tt, (set_error (Some "请选择要同步的平台") s, w))
        | _ :: _ =>
            tryCatch
              (startSyncBody env a (platforms s) (selectedPlatforms s))
              (fun e => setState (set_pass_failed e idle))
              (set_pass_started [] s, w)
        end
    end.

(** ** [retryFailed] *)

Definition failedPlatformIds (rs : list SyncResult) : list string :=
  map platform (filter (fun r => negb (success r)) rs).

Definition successResults (rs : list SyncResult) : list SyncResult :=
  filter success rs.

(** [updatedHistory[0] = {...updatedHistory[0], results: allResults}] *)
Definition replaceLatest (h : list SyncHistoryItem) (rs : list SyncResult)
  : list SyncHistoryItem :=
  match h with
  | [] => []
  | latest :: older =>
      mkHistoryItem (h_id latest) (h_title latest) (h_cover latest)
                    (h_timestamp latest) rs :: older
  end.

Definition retryFailedBody (env : Env) (a : Article) (ps : list Platform)
           (failed : list string) (kept : list SyncResult) : M St unit :=
  (retryResultsWithNames <- publishSelected env a ps failed true ;;
   let allResults := kept ++ retryResultsWithNames in
   existingHistory <- readHistory env ;;
   match existingHistory with
   | [] => ret tt
   | _ :: _ =>
       let updatedHistory := replaceLatest existingHistory allResults in
       writeHistory env updatedHistory ;;;
       setState (set_history updatedHistory)
   end ;;;
   setState (fun s => set_pass_completed allResults (history s) s))%async.

Definition retryFailed (env : Env) : M St unit :=
  fun '(s, w) =>
    match article s with
    | None => (Resolved tt, (set_error (Some "未检测到文章内容") s, w))
    | Some a =>
        match failedPlatformIds (results s) with
        | [] => (Resolved tt, (s, w))
        | failed =>
            tryCatch
              (retryFailedBody env a (platforms s) failed
                               (successResults (results s)))
              (fun e => setState (set_pass_failed e completed))
              (set_pass_started (successResults (results s)) s, w)
        end
    end.

(** The publish calls of a trace, in order. *)
Definition isPublishCall (c : Call) : bool :=
  match c with
  | SYNC_ARTICLE _ _ _ | SYNC_TO_CMS _ _ => true
  | _ => false
  end.

Definition publishCalls (w : World) : list Call := filter isPublishCall (calls w).

(** The platforms a publish call addresses. *)
Definition publishedBy (c : Call) : list string :=
  match c with
  | SYNC_ARTICLE _ ids _ => ids
  | SYNC_TO_CMS accountId _ => [accountId]
  | _ => []
  end.

(** ** Conditions and sample data used in the statements *)

(** [s'] is [s] but for what the progress listener does: results may
    have been appended and the image progress replaced. *)
Definition progressed (s s' : SyncState) : Prop :=
  status s' = status s
  /\ article s' = article s
  /\ platforms s' = platforms s
  /\ selectedPlatforms s' = selectedPlatforms s
  /\ st_error s' = st_error s
  /\ history s' = history s
  /\ recovered s' = recovered s
  /\ exists extra, results s' = results s ++ extra.

(** Every id of [ids] is found in the platform list. *)
Definition allListed (ps : list Platform) (ids : list string) : Prop :=
  forall pid, In pid ids -> findPlatform ps pid <> None.

(** Collaborators that keep their side of a retry: the background answers
    a [skipHistory] batch with one result per requested platform and
    leaves the stored history alone, publishing to a CMS account does not
    touch the stored history, and the storage calls resolve. *)
Definition Cooperative (env : Env) : Prop :=
  (forall w a ids,
      ids <> [] ->
      exists rs,
        onSyncArticle env w a ids true
        = (Resolved (Some (mkSyncArticleResponse (Some rs))), syncHistory w)
        /\ Permutation (map platform rs) ids)
  /\ (forall w pid a, snd (onSyncToCms env w pid a) = syncHistory w)
  /\ (forall w, storageGetFails env w = None)
  /\ (forall w h, storageSetFails env w h = None).

(** A background that publishes every requested platform successfully. *)
Definition publishedOk (pid : string) : SyncResult :=
  mkResult pid None true (Some ("https://example.org/" ++ pid)%string) (Some true) None.

Definition obligingEnv : Env :=
  mkEnv (fun w _ ids _ =>
           (Resolved (Some (mkSyncArticleResponse (Some (map publishedOk ids)))),
            syncHistory w))
        (fun w _ _ =>
           (Resolved (Some (mkCmsResponse true None (Some true) None)),
            syncHistory w))
        (fun _ => None)
        (fun _ _ => None)
        (fun _ => []).

(** A background that cannot be reached: the batch message rejects. *)
Definition unreachableEnv : Env :=
  mkEnv (fun w _ _ _ =>
           (Rejected (mkError "Could not establish connection. Receiving end does not exist."),
            syncHistory w))
        (fun w _ _ =>
           (Rejected (mkError "Could not establish connection. Receiving end does not exist."),
            syncHistory w))
        (fun _ => None)
        (fun _ _ => None)
        (fun _ => []).

Definition sampleArticle : Article := mkArticle "T" "<p>hello</p>" None None.

Definition juejinOk : SyncResult :=
  mkResult "juejin" (Some "掘金") true (Some "https://juejin.cn/editor/drafts/1") (Some true) None.

Definition weixinFailed : SyncResult :=
  mkResult "weixin" (Some "微信公众号") false None None (Some "请先登录微信公众号").

Definition sampleHistory : list SyncHistoryItem :=
  [mkHistoryItem "h1" "T" None 1700000000000 [juejinOk; weixinFailed]].

(** A completed pass with one success and one failure, in which both
    platforms are still in the platform list. *)
Definition completedPass : SyncState :=
  mkState completed (Some sampleArticle)
          [mkPlatform "juejin" "掘金" true dsl; mkPlatform "weixin" "微信公众号" true dsl]
          ["juejin"; "weixin"] [juejinOk; weixinFailed] None None
          sampleHistory true.

(** The same pass after [loadPlatforms] reloaded the platform list while
    the platform that failed was signed out: the list holds the
    authenticated platforms and the connected accounts only. *)
Definition completedPassUnlisted : SyncState :=
  mkState completed (Some sampleArticle)
          [mkPlatform "juejin" "掘金" true dsl; mkPlatform "blog" "My blog" true cms]
          ["juejin"; "weixin"] [juejinOk; weixinFailed] None None
          sampleHistory true.


(** A background that reports one platform done and an image under way,
    and then goes away before it answers the batch message. *)
Definition droppingEnv : Env :=
  mkEnv (fun w _ _ _ =>
           (Rejected (mkError "The message port closed before a response was received."),
            syncHistory w))
        (fun w _ _ =>
           (Rejected (mkError "The message port closed before a response was received."),
            syncHistory w))
        (fun _ => None)
        (fun _ _ => None)
        (fun w => match calls w with
                  | [] => [SYNC_PROGRESS juejinOk;
                           IMAGE_PROGRESS (Some (mkProgress "weixin" 1 3))]
                  | _ :: _ => []
                  end).

Definition sampleWorld : World := mkWorld (Some sampleHistory) [].

End Sync.


(* ================================================================== *)
(** * JavaScript strings as sequences of UTF-16 code units *)
(* ================================================================== *)

Module JsString.
Local Open Scope N_scope.

Definition jsstring : Type := list N.

(** A literal made of ASCII characters. *)
Definition js (s : string) : jsstring :=
  map N_of_ascii (list_ascii_of_string s).

(** The double quote, which the literals above do not contain. *)
Definition dq : jsstring := [34].

Definition inRange (lo hi c : N) : bool := (lo <=? c) && (c <=? hi).

(** The characters [encodeURIComponent] leaves alone:
    [A-Z a-z 0-9 - _ . ! ~ * ' ( )]. *)
Definition isUnreserved (c : N) : bool :=
  inRange 65 90 c || inRange 97 122 c || inRange 48 57 c
  || existsb (N.eqb c) [45; 95; 46; 33; 126; 42; 39; 40; 41].

(** The UTF-8 octets of a code point. *)
Definition utf8 (v : N) : list N :=
  if v <? 0x80 then [v]
  else if v <? 0x800 then [0xC0 + v / 64; 0x80 + v mod 64]
  else if v <? 0x10000 then
    [0xE0 + v / 4096; 0x80 + (v / 64) mod 64; 0x80 + v mod 64]
  else
    [0xF0 + v / 262144; 0x80 + (v / 4096) mod 64;
     0x80 + (v / 64) mod 64; 0x80 + v mod 64].

Definition hexUpper (d : N) : N := if d <? 10 then 48 + d else 55 + d.

(** [%XX] *)
Definition percent (octet : N) : jsstring :=
  [37; hexUpper (octet / 16); hexUpper (octet mod 16)].

Definition isHighSurrogate (c : N) : bool := inRange 0xD800 0xDBFF c.
Definition isLowSurrogate (c : N) : bool := inRange 0xDC00 0xDFFF c.

(** [encodeURIComponent]; [None] is the [URIError] thrown on a lone
    surrogate. *)
Fixpoint encodeURIComponent (s : jsstring) : option jsstring :=
  match s with
  | [] => Some []
  | c :: rest =>
      if isUnreserved c then option_map (cons c) (encodeURIComponent rest)
      else if isLowSurrogate c then None
      else if isHighSurrogate c then
        match rest with
        | d :: rest' =>
            if isLowSurrogate d then
              option_map
                (app (flat_map percent
                        (utf8 ((c - 0xD800) * 0x400 + (d - 0xDC00) + 0x10000))))
                (encodeURIComponent rest')
            else None
        | [] => None
        end
      else option_map (app (flat_map percent (utf8 c))) (encodeURIComponent rest)
  end.

(** White space and line terminators, as [String.prototype.trim] sees
    them. *)
Definition isWhiteSpace (c : N) : bool :=
  existsb (N.eqb c)
          [9; 10; 11; 12; 13; 32; 160; 0x1680; 0x2028; 0x2029; 0x202F;
           0x205F; 0x3000; 0xFEFF]
  || inRange 0x2000 0x200A c.

Fixpoint trimStart (s : jsstring) : jsstring :=
  match s with
  | [] => []
  | c :: rest => if isWhiteSpace c then trimStart rest else s
  end.

Definition trim (s : jsstring) : jsstring :=
  rev (trimStart (rev (trimStart s))).

(** [parts.join(sep)] *)
Fixpoint join (sep : jsstring) (parts : list jsstring) : jsstring :=
  match parts with
  | [] => []
  | [p] => p
  | p :: rest => p ++ sep ++ join sep rest
  end.

(** Code-unit order, as a three-way comparison. *)
Fixpoint ordinalCompare (x y : jsstring) : Z :=
  match x, y with
  | [], [] => 0%Z
  | [], _ :: _ => (-1)%Z
  | _ :: _, [] => 1%Z
  | a :: x', b :: y' =>
      match N.compare a b with
      | Lt => (-1)%Z
      | Gt => 1%Z
      | Eq => ordinalCompare x' y'
      end
  end.

End JsString.

(* ================================================================== *)
(** * Request signer: the canonical query string of [signAWS4] *)
(* ================================================================== *)

Module Signer.
Import JsString.

(** [Array.prototype.sort(cmp)]. The sort is stable; with a consistent
    comparator its result is the one arrangement that is sorted and keeps
    tied elements in their original order, which is what inserting the
    elements from the right computes. *)
Section Sort.
Context {A : Type}.
Variable cmp : A -> A -> Z.

Fixpoint insertBy (x : A) (l : list A) : list A :=
  match l with
  | [] => [x]
  | y :: l' => if (0 <? cmp x y)%Z then y :: insertBy x l' else x :: l
  end.

Definition sortBy (l : list A) : list A := fold_right insertBy [] l.
End Sort.

Fixpoint mapM {A B : Type} (f : A -> option B) (l : list A) : option (list B) :=
  match l with
  | [] => Some []
  | x :: rest =>
      match f x, mapM f rest with
      | Some y, Some ys => Some (y :: ys)
      | _, _ => None
      end
  end.

Section Canonical.
(** [String.prototype.localeCompare] and the parsing done by
    [new URLSearchParams(queryString)] belong to the platform. *)
Variable localeCompare : jsstring -> jsstring -> Z.
Variable URLSearchParams : jsstring -> list (jsstring * jsstring).

(** [Array.from(queryParams.entries()).sort((a, b) =>
      a[0].localeCompare(b[0]))] *)
Definition sortedParams (entries : list (jsstring * jsstring))
  : list (jsstring * jsstring) :=
  sortBy (fun a b => localeCompare (fst a) (fst b)) entries.

(** [`${encodeURIComponent(k)}=${encodeURIComponent(v)}`] *)
Definition encodePair (kv : jsstring * jsstring) : option jsstring :=
  match encodeURIComponent (fst kv), encodeURIComponent (snd kv) with
  | Some k, Some v => Some (k ++ js "=" ++ v)
  | _, _ => None
  end.

(** [sortedParams.map(...).join('&')] *)
Definition canonicalOfEntries (entries : list (jsstring * jsstring))
  : option jsstring :=
  option_map (join (js "&")) (mapM encodePair (sortedParams entries)).

(** [canonicalQueryString], from the query string of the URL. *)
Definition canonicalQueryString (queryString : jsstring) : option jsstring :=
  canonicalOfEntries (URLSearchParams queryString).

(** A comparator is consistent when it is antisymmetric in sign and
    transitive. *)
Definition Consistent : Prop :=
  (forall x y, (localeCompare x y < 0)%Z <-> (0 < localeCompare y x)%Z)
  /\ (forall x y z, (localeCompare x y <= 0)%Z -> (localeCompare y z <= 0)%Z ->
                    (localeCompare x z <= 0)%Z).

(** Entries whose names tie under the comparator are the same pair. *)
Definition tiesAreEqual (entries : list (jsstring * jsstring)) : Prop :=
  forall a b, In a entries -> In b entries ->
              localeCompare (fst a) (fst b) = 0%Z -> a = b.
End Canonical.

(** A collation that, as [localeCompare] does, takes canonically
    equivalent spellings for equal. Only the composition used in the
    example below is written out: [e] followed by the combining acute
    accent U+0301 reads as U+00E9; the rest is code-unit order. *)
Fixpoint compose (s : jsstring) : jsstring :=
  match s with
  | [] => []
  | c :: rest =>
      match rest with
      | [] => [c]
      | d :: rest' =>
          if (N.eqb c 0x65 && N.eqb d 0x301)%bool
          then 0xE9%N :: compose rest'
          else c :: compose rest
      end
  end.

Definition equivalenceCompare (x y : jsstring) : Z :=
  ordinalCompare (compose x) (compose y).

(** What [URLSearchParams] yields on a query string in which names and
    values are made of unreserved ASCII characters: the pieces between
    ['&'], each split at its first ['=']. *)
Fixpoint splitOn (sep : N) (s : jsstring) : jsstring * list jsstring :=
  match s with
  | [] => ([], [])
  | c :: rest =>
      let '(cur, more) := splitOn sep rest in
      if N.eqb c sep then ([], cur :: more) else (c :: cur, more)
  end.

Definition splitAll (sep : N) (s : jsstring) : list jsstring :=
  let '(cur, more) := splitOn sep s in cur :: more.

Definition splitPair (piece : jsstring) : jsstring * jsstring :=
  let '(k, more) := splitOn 61 piece in (k, join (js "=") more).

Definition plainEntries (queryString : jsstring) : list (jsstring * jsstring) :=
  map splitPair
      (filter (fun p => match p with [] => false | _ => true end)
              (splitAll 38 queryString)).

End Signer.


(* ================================================================== *)
(** * Content transformer: the formula step of the Weixin adapter *)
(* ================================================================== *)

Module Latex.
Import JsString.
Local Open Scope N_scope.

(** [/[\\^_{}]/]: backslash, caret, underscore, braces. *)
Definition isCommandChar (c : N) : bool :=
  existsb (N.eqb c) [0x5C; 0x5E; 0x5F; 0x7B; 0x7D].

(** [/[α-ωΑ-Ω]/]: U+03B1..U+03C9 and U+0391..U+03A9. *)
Definition isGreekLetter (c : N) : bool :=
  inRange 0x3B1 0x3C9 c || inRange 0x391 0x3A9 c.

(** [/[∑∏∫∂∇∞≠≤≥±×÷√]/] *)
Definition isMathGlyph (c : N) : bool :=
  existsb (N.eqb c)
          [0x2211; 0x220F; 0x222B; 0x2202; 0x2207; 0x221E; 0x2260; 0x2264;
           0x2265; 0xB1; 0xD7; 0xF7; 0x221A].

(** [isLatexFormula] *)
Definition isLatexFormula (text : jsstring) : bool :=
  if existsb isCommandChar text then true
  else if existsb isGreekLetter text then true
  else if existsb isMathGlyph text then true
  else false.

Definition LATEX_API : jsstring := js "https://latex.codecogs.com/png.latex".

Definition isDollar (c : N) : bool := N.eqb c 36.

Definition dollars (n : nat) : jsstring := repeat 36 n.

(** [n] leading dollar signs, removed. *)
Fixpoint stripDollars (n : nat) (s : jsstring) : option jsstring :=
  match n with
  | O => Some s
  | S n' =>
      match s with
      | c :: rest => if isDollar c then stripDollars n' rest else None
      | [] => None
      end
  end.

(** The longest prefix without a dollar sign, and what follows it. *)
Fixpoint spanNotDollar (s : jsstring) : jsstring * jsstring :=
  match s with
  | [] => ([], [])
  | c :: rest =>
      if isDollar c then ([], s)
      else let '(body, after) := spanNotDollar rest in (c :: body, after)
  end.

(** A match of [/\$([^$]+)\$/] ([n = 1]) or [/\$\$([^$]+)\$\$/] ([n = 2])
    at the start of [s]: the captured group and the rest of the input.
    The group is the whole run of non-dollar characters: giving some of it
    back would leave a non-dollar character where the closing delimiter
    has to be. *)
Definition matchAt (n : nat) (s : jsstring) : option (jsstring * jsstring) :=
  match stripDollars n s with
  | None => None
  | Some s1 =>
      match spanNotDollar s1 with
      | ([], _) => None
      | (body, s2) =>
          match stripDollars n s2 with
          | Some rest => Some (body, rest)
          | None => None
          end
      end
  end.

(** [content.replace(regex, callback)] with the [g] flag: matches are
    looked for from left to right, each search resuming after the previous
    match. [None] when the callback throws. One unit of fuel is spent per
    step, and every step consumes input. *)
Fixpoint replaceSpans_fuel (fuel : nat) (n : nat)
         (callback : jsstring -> jsstring -> option jsstring)
         (s : jsstring) : option jsstring :=
  match fuel with
  | O => Some s
  | S fuel' =>
      match s with
      | [] => Some []
      | c :: s' =>
          match matchAt n s with
          | Some (latex, rest) =>
              match callback (dollars n ++ latex ++ dollars n) latex with
              | Some replacement =>
                  option_map (app replacement)
                             (replaceSpans_fuel fuel' n callback rest)
              | None => None
              end
          | None => option_map (cons c) (replaceSpans_fuel fuel' n callback s')
          end
      end
  end.

Definition replaceSpans (n : nat)
           (callback : jsstring -> jsstring -> option jsstring)
           (s : jsstring) : option jsstring :=
  replaceSpans_fuel (List.length s) n callback s.

(** The callback of the block rule. *)
Definition blockFormula (matched latex : jsstring) : option jsstring :=
  if negb (isLatexFormula latex) then Some matched
  else
    match encodeURIComponent (trim latex) with
    | None => None
    | Some encoded =>
        Some (js "<p style=" ++ dq ++ js "text-align: center;" ++ dq
              ++ js "><img src=" ++ dq ++ LATEX_API ++ js "?\dpi{150}"
              ++ encoded ++ dq ++ js " alt=" ++ dq ++ js "formula" ++ dq
              ++ js " style=" ++ dq
              ++ js "vertical-align: middle; max-width: 100%;" ++ dq
              ++ js "></p>")
    end.

(** The callback of the inline rule. *)
Definition inlineFormula (matched latex : jsstring) : option jsstring :=
  if negb (isLatexFormula latex) then Some matched
  else
    match encodeURIComponent (trim latex) with
    | None => None
    | Some encoded =>
        Some (js "<img src=" ++ dq ++ LATEX_API ++ js "?\dpi{120}"
              ++ encoded ++ dq ++ js " alt=" ++ dq ++ js "formula" ++ dq
              ++ js " style=" ++ dq ++ js "vertical-align: middle;" ++ dq
              ++ js ">")
    end.

(** [processLatex]: the block rule, then the inline rule on its output. *)
Definition processLatex (content : jsstring) : option jsstring :=
  match replaceSpans 2 blockFormula content with
  | None => None
  | Some content' => replaceSpans 1 inlineFormula content'
  end.

(** The image tag the block rule produces for an encoded formula. *)
Definition centeredFormulaImage (encoded : jsstring) : jsstring :=
  js "<p style=" ++ dq ++ js "text-align: center;" ++ dq
  ++ js "><img src=" ++ dq ++ js "https://latex.codecogs.com/png.latex?\dpi{150}"
  ++ encoded ++ dq ++ js " alt=" ++ dq ++ js "formula" ++ dq
  ++ js " style=" ++ dq ++ js "vertical-align: middle; max-width: 100%;" ++ dq
  ++ js "></p>".

(** The image tag the inline rule produces for an encoded formula. *)
Definition inlineFormulaImage (encoded : jsstring) : jsstring :=
  js "<img src=" ++ dq ++ js "https://latex.codecogs.com/png.latex?\dpi{120}"
  ++ encoded ++ dq ++ js " alt=" ++ dq ++ js "formula" ++ dq
  ++ js " style=" ++ dq ++ js "vertical-align: middle;" ++ dq ++ js ">".

(** The address the block rule gives the rendered formula. *)
Definition blockFormulaUrl (encoded : jsstring) : jsstring :=
  js "https://latex.codecogs.com/png.latex?\dpi{150}" ++ encoded.

(** The markup of the block rule around an image address. *)
Definition centeredImage (src : jsstring) : jsstring :=
  js "<p style=" ++ dq ++ js "text-align: center;" ++ dq
  ++ js "><img src=" ++ dq ++ src ++ dq ++ js " alt=" ++ dq ++ js "formula" ++ dq
  ++ js " style=" ++ dq ++ js "vertical-align: middle; max-width: 100%;" ++ dq
  ++ js "></p>".

(** Neither a dollar sign, nor a double quote, nor an opening angle
    bracket. *)
Definition plainChar (c : N) : Prop := c <> 36 /\ c <> 34 /\ c <> 60.

(** A character that makes the classifier answer yes. *)
Definition isTrigger (c : N) : bool :=
  isCommandChar c || isGreekLetter c || isMathGlyph c.

(** No dollar sign in [s]. *)
Definition noDollar (s : jsstring) : bool :=
  forallb (fun c => negb (isDollar c)) s.

End Latex.


(* ================================================================== *)
(** * Platform adapters: shared data *)
(* ================================================================== *)

(** Identifiers, URLs and messages, which the adapters pass around without
    looking inside, are [string]s; markup and query strings, which are
    inspected character by character, are [jsstring]s. *)

Module Adapter.
Import Async.
Local Open Scope string_scope.
Local Open Scope list_scope.

(** A value produced by [JSON.parse]. A number is kept as an integer: the
    adapters only test numbers for truthiness and for being [0]. *)
#[warnings="-register-all"]
Inductive Json : Type :=
| JNull
| JBool (b : bool)
| JNum (n : Z)
| JStr (s : string)
| JArr (items : list Json)
| JObj (fields : list (string * Json)).

(** A JavaScript value read from such data: [None] is [undefined]. *)
Definition JsValue : Type := option Json.

(** [!!v] *)
Definition truthy (v : JsValue) : bool :=
  match v with
  | None | Some JNull => false
  | Some (JBool b) => b
  | Some (JNum n) => negb (n =? 0)%Z
  | Some (JStr s) => negb (String.eqb s "")
  | Some (JArr _) | Some (JObj _) => true
  end.

Fixpoint lookup (key : string) (fields : list (string * Json)) : JsValue :=
  match fields with
  | [] => None
  | (k, v) :: rest => if String.eqb k key then Some v else lookup key rest
  end.

Definition typeError : Error := mkError "TypeError: Cannot read properties".

(** [v.key], for the keys the adapters read (none of them is a property of
    a string, a number or an array): reading from [null] or [undefined]
    throws. *)
Definition getProp (v : JsValue) (key : string) : Outcome JsValue :=
  match v with
  | None | Some JNull => Rejected typeError
  | Some (JObj fields) => Resolved (lookup key fields)
  | Some _ => Resolved None
  end.

(** [v?.key] *)
Definition getPropOpt (v : JsValue) (key : string) : JsValue :=
  match v with
  | Some (JObj fields) => lookup key fields
  | _ => None
  end.

(** [v !== 0] *)
Definition notZero (v : JsValue) : bool :=
  match v with
  | Some (JNum n) => negb (n =? 0)%Z
  | _ => true
  end.

(** [interface AuthResult]; the optional fields hold whatever the
    destination sent. *)
Record AuthResult : Type := mkAuth {
  isAuthenticated : bool;
  userId : JsValue;
  username : JsValue;
  avatar : JsValue;
  auth_error : JsValue
}.

Definition notAuthenticated : AuthResult := mkAuth false None None None None.

(** [{ isAuthenticated: false, error: (error as Error).message }] *)
Definition authFailed (e : Error) : AuthResult :=
  mkAuth false None None None (Some (JStr (message e))).

(** [interface ImageUploadResult] *)
Record ImageUploadResult : Type := mkUpload { url : JsValue }.

Definition Blob : Type := string.

Inductive Body : Type :=
| NoBody
| JsonBody (payload : Json)
| FormBody (file : Blob).

(** What is handed to [runtime.fetch]. *)
Record Request : Type := mkRequest {
  req_url : string;
  req_method : string;
  req_headers : list (string * string);
  req_body : Body
}.

(** The parts of a [Response] the adapters use; reading the body may
    reject. *)
Record Response : Type := mkResponse {
  resp_ok : bool;
  resp_text : Outcome string;
  resp_json : Outcome Json;
  resp_header : string -> option string
}.

(** Lifting a settled promise into an asynchronous function. *)
Definition await {S A} (o : Outcome A) : M S A := fun s => (o, s).

(** [s.replace(pattern, replacement)] with a string pattern: the first
    occurrence only. *)
Fixpoint replaceFirst (pattern replacement s : string) : string :=
  if String.prefix pattern s then
    (replacement ++ String.substring (String.length pattern)
                                     (String.length s - String.length pattern) s)%string
  else
    match s with
    | EmptyString => EmptyString
    | String c rest => String c (replaceFirst pattern replacement rest)
    end.

(** [s.split(',')] *)
Fixpoint splitComma (s : string) : string * list string :=
  match s with
  | EmptyString => (EmptyString, [])
  | String c rest =>
      let '(cur, more) := splitComma rest in
      if Ascii.eqb c ","%char then (EmptyString, cur :: more)
      else (String c cur, more)
  end.

Definition split (s : string) : list string :=
  let '(cur, more) := splitComma s in cur :: more.

End Adapter.

(* ================================================================== *)
(** * Juejin adapter *)
(* ================================================================== *)

Module Juejin.
Import Async Adapter.
Local Open Scope string_scope.
Local Open Scope list_scope.

Section Juejin.
(** The world the injected capability acts on. *)
Context {World : Type}.

(** [this.runtime.fetch] *)
Variable runtime_fetch : Request -> World -> Outcome Response * World.

(** The global [fetch(src).then(r => r.blob())], used for data URIs. *)
Variable fetch_blob : string -> World -> Outcome Blob * World.

(** [String(v)] for the values thrown as error messages. *)
Variable stringOf : Json -> string.

(** [new Error(v || fallback).message] *)
Definition messageOr (v : JsValue) (fallback : string) : string :=
  if truthy v then
    match v with
    | Some (JStr s) => s
    | Some j => stringOf j
    | None => fallback
    end
  else fallback.

(** The adapter's private field [cachedCsrfToken], with the world. *)
Definition St : Type := option string * World.

Definition fetch (r : Request) : M St Response :=
  fun '(cached, w) =>
    let '(out, w') := runtime_fetch r w in (out, (cached, w')).

Definition fetchBlob (src : string) : M St Blob :=
  fun '(cached, w) =>
    let '(out, w') := fetch_blob src w in (out, (cached, w')).

(** [checkAuth] *)
Definition checkAuth : M St AuthResult :=
  tryCatch
    (response <- fetch (mkRequest "https://api.juejin.cn/user_api/v1/user/get"
                                  "GET" [] NoBody) ;;
     data <- await (resp_json response) ;;
     inner <- await (getProp (Some data) "data") ;;
     if truthy (getPropOpt inner "user_id") then
       ret (mkAuth true (getPropOpt inner "user_id")
                        (getPropOpt inner "user_name")
                        (getPropOpt inner "avatar_large") None)
     else ret notAuthenticated)%async
    (fun e => ret (authFailed e)).

(** [getCsrfToken] *)
Definition getCsrfToken : M St string :=
  fun '(cached, w) =>
    match cached with
    | Some (String c t) => (Resolved (String c t), (cached, w))
    | _ =>
        (response <- fetch (mkRequest "https://api.juejin.cn/user_api/v1/sys/token"
                                      "HEAD"
                                      [("x-secsdk-csrf-request", "1");
                                       ("x-secsdk-csrf-version", "1.2.10")]
                                      NoBody) ;;
         match resp_header response "x-ware-csrf-token" with
         | None | Some EmptyString =>
             throw (mkError "Failed to get CSRF token")
         | Some wareToken =>
             match split wareToken with
             | _ :: part1 :: _ =>
                 fun '(_, w') => (Resolved part1, (Some part1, w'))
             | _ => throw (mkError "Invalid CSRF token format")
             end
         end)%async (cached, w)
    end.

(** [uploadImageBinaryInternal] *)
Definition uploadImageBinaryInternal (file : Blob) : M St Json :=
  (csrfToken <- getCsrfToken ;;
   response <- fetch (mkRequest "https://api.juejin.cn/content_api/v1/upload/image"
                                "POST"
                                [("x-secsdk-csrf-token", csrfToken)]
                                (FormBody file)) ;;
   data <- await (resp_json response) ;;
   inner <- await (getProp (Some data) "data") ;;
   if truthy (getPropOpt inner "url") then
     match getPropOpt inner "url" with
     | Some u => ret u
     | None => throw typeError
     end
   else throw (mkError (messageOr (getPropOpt (Some data) "err_msg")
                                  "Failed to upload image")))%async.

(** The request of the URL-upload call. *)
Definition urlSaveRequest (src : string) : Request :=
  mkRequest "https://juejin.cn/image/urlSave" "POST"
            [("Content-Type", "application/json")]
            (JsonBody (JObj [("url", JStr src)])).

(** [uploadImageByUrl]: every failure inside the [try] block, on either
    path, is answered with the original source. *)
Definition uploadImageByUrl (src : string) : M St ImageUploadResult :=
  tryCatch
    (if String.prefix "data:" src then
       (blob <- fetchBlob src ;;
        u <- uploadImageBinaryInternal blob ;;
        ret (mkUpload (Some u)))
     else
       (response <- fetch (urlSaveRequest src) ;;
        data <- await (resp_json response) ;;
        err_no <- await (getProp (Some data) "err_no") ;;
        if truthy err_no && notZero err_no then ret (mkUpload (Some (JStr src)))
        else
          if truthy (getPropOpt (Some data) "data") then
            ret (mkUpload (getPropOpt (Some data) "data"))
          else ret (mkUpload (Some (JStr src)))))%async
    (fun _ => ret (mkUpload (Some (JStr src)))).

End Juejin.

(** A capability on which every request fails, and a data URI. *)
Definition offline : Request -> unit -> Outcome Response * unit :=
  fun _ w => (Rejected (mkError "Failed to fetch"), w).

Definition blobOf : string -> unit -> Outcome Blob * unit :=
  fun src w => (Resolved src, w).

Definition sampleDataUri : string := "data:image/png;base64,iVBORw0KGgo=".

End Juejin.


(* ================================================================== *)
(** * Imooc adapter *)
(* ================================================================== *)

Module Imooc.
Import Async Adapter.
Local Open Scope string_scope.
Local Open Scope list_scope.

Section Imooc.
Context {World : Type}.

(** [this.runtime.fetch] *)
Variable runtime_fetch : Request -> World -> Outcome Response * World.

(** [this.runtime.headerRules], an optional part of the capability:
    [add] resolves with the id of the new rule, [remove] takes an id. *)
Record HeaderRules : Type := mkHeaderRules {
  add : World -> Outcome string * World;
  remove : string -> World -> Outcome unit * World
}.
Variable headerRules : option HeaderRules.

(** [JSON.parse]; a rejection is the [SyntaxError]. *)
Variable JSON_parse : string -> Outcome Json.

(** The adapter's private field [headerRuleId], with the world. *)
Definition St : Type := option string * World.

Definition fetch (r : Request) : M St Response :=
  fun '(ruleId, w) =>
    let '(out, w') := runtime_fetch r w in (out, (ruleId, w')).

(** [addHeaderRules] *)
Definition addHeaderRules : M St unit :=
  fun '(ruleId, w) =>
    match headerRules with
    | None => (Resolved tt, (ruleId, w))
    | Some rules =>
        match add rules w with
        | (Resolved newId, w') => (Resolved tt, (Some newId, w'))
        | (Rejected e, w') => (Rejected e, (ruleId, w'))
        end
    end.

(** [removeHeaderRules]: the id is cleared only after [remove] resolved. *)
Definition removeHeaderRules : M St unit :=
  fun '(ruleId, w) =>
    match headerRules with
    | None => (Resolved tt, (ruleId, w))
    | Some rules =>
        match ruleId with
        | Some (String c t) =>
            match remove rules (String c t) w with
            | (Resolved _, w') => (Resolved tt, (None, w'))
            | (Rejected e, w') => (Rejected e, (ruleId, w'))
            end
        | _ => (Resolved tt, (ruleId, w))
        end
    end.

(** [checkAuth]. The [catch] block itself awaits [removeHeaderRules]. *)
Definition checkAuth : M St AuthResult :=
  tryCatch
    (addHeaderRules ;;;
     response <- fetch (mkRequest "https://www.imooc.com/u/card" "GET" [] NoBody) ;;
     text <- await (resp_text response) ;;
     let text := replaceFirst "})" "}" (replaceFirst "jsonpcallback(" "" text) in
     result <- await (JSON_parse text) ;;
     removeHeaderRules ;;;
     code <- await (getProp (Some result) "result") ;;
     if notZero code then
       ret (mkAuth false None None None
                   (if truthy (getPropOpt (Some result) "msg")
                    then getPropOpt (Some result) "msg"
                    else Some (JStr "未登录")))
     else
       (data <- await (getProp (Some result) "data") ;;
        uid <- await (getProp data "uid") ;;
        nickname <- await (getProp data "nickname") ;;
        img <- await (getProp data "img") ;;
        ret (mkAuth true uid nickname img None)))%async
    (fun e => (removeHeaderRules ;;; ret (authFailed e))%async).

End Imooc.

(** A capability whose requests fail and whose header rule, once added,
    cannot be removed. *)
Definition failingFetch : Request -> unit -> Outcome Response * unit :=
  fun _ w => (Rejected (mkError "Failed to fetch"), w).

Definition stuckRules : HeaderRules (World := unit) :=
  mkHeaderRules (fun w => (Resolved "rule-1", w))
                (fun _ w => (Rejected (mkError "rule removal failed"), w)).

Definition anyParse : string -> Outcome Json := fun _ => Resolved JNull.

End Imooc.

(* ================================================================== *)
(** * Weixin adapter *)
(* ================================================================== *)

Module Weixin.
Import Async Adapter JsString.
Local Open Scope string_scope.
Local Open Scope list_scope.

(** [interface WeixinMeta]. [svrTime] is [None] when the page carries no
    time and the clock is read instead. *)
Record WeixinMeta : Type := mkMeta {
  token : string;
  userName : string;
  nickName : string;
  ticket : string;
  svrTime : option string;
  meta_avatar : string
}.

(** What the regular expressions of [checkAuth] capture from the page: the
    first group of each, [None] when there is no match. With Q standing
    for either quote character, the patterns are
    - token: data:\s*\{[\s\S]*?t:\s*Q([^Q]+)Q
    - ticket, user_name, nick_name, head_img: the key, a colon, \s*, then
      Q([^Q]+)Q
    - time: time:\s*Q(\d+)Q
    - avatar: the class attribute weui-desktop-account__thumb, [^>]*, then
      the src attribute's value. *)
Record PageMatches : Type := mkMatches {
  tokenMatch : option string;
  ticketMatch : option string;
  userNameMatch : option string;
  nickNameMatch : option string;
  timeMatch : option string;
  headImgMatch : option string;
  avatarMatch : option string
}.

(** [article: Article] of the core package. *)
Record Article : Type := mkArticle {
  title : string;
  html : option jsstring;
  markdown : option jsstring
}.

Definition orEmpty (m : option string) : string :=
  match m with Some s => s | None => "" end.

Section Weixin.
Context {World : Type}.

(** [this.runtime.fetch] *)
Variable runtime_fetch : Request -> World -> Outcome Response * World.

(** The regular-expression engine applied to the patterns above. *)
Variable scanPage : string -> PageMatches.

(** The adapter's private field [weixinMeta], with the world. *)
Definition St : Type := option WeixinMeta * World.

Definition fetch (r : Request) : M St Response :=
  fun '(meta, w) =>
    let '(out, w') := runtime_fetch r w in (out, (meta, w')).

Definition setMeta (m : WeixinMeta) : M St unit :=
  fun '(_, w) => (Resolved tt, (Some m, w)).

(** [checkAuth] *)
Definition checkAuth : M St AuthResult :=
  tryCatch
    (response <- fetch (mkRequest "https://mp.weixin.qq.com/" "GET" [] NoBody) ;;
     html <- await (resp_text response) ;;
     let m := scanPage html in
     match tokenMatch m with
     | None => ret notAuthenticated
     | Some t =>
         let avatar0 :=
           match avatarMatch m with
           | Some a => a
           | None => orEmpty (headImgMatch m)
           end in
         let avatar :=
           if String.prefix "http://" avatar0
           then replaceFirst "http://" "https://" avatar0
           else avatar0 in
         let meta := mkMeta t (orEmpty (userNameMatch m))
                            (orEmpty (nickNameMatch m))
                            (orEmpty (ticketMatch m))
                            (timeMatch m) avatar in
         setMeta meta ;;;
         ret (mkAuth true (Some (JStr (userName meta)))
                     (Some (JStr (nickName meta)))
                     (Some (JStr (meta_avatar meta))) None)
     end)%async
    (fun e => ret (authFailed e)).

(** The helpers of the base class and of the core package that [publish]
    calls; their code is not part of these sources. *)
Variable markdownToHtml : option jsstring -> Outcome jsstring.
Variable cleanHtml : jsstring -> Outcome jsstring.
Variable processImages :
  jsstring -> (jsstring -> M St ImageUploadResult) -> list jsstring ->
  M St jsstring.
Variable processContent : jsstring -> Outcome jsstring.

(** [uploadImageByUrl] of this adapter (download, then upload to the
    destination); only passed on here. *)
Variable uploadImageByUrl : jsstring -> M St ImageUploadResult.

Definition skipPatterns : list jsstring :=
  [js "mmbiz.qpic.cn"; js "mmbiz.qlogo.cn"].

(** Steps 1 to 6 of [publish]: ensure the login, take the HTML, clean it,
    turn formulas into images, process the images, inline the style. A
    rejection here is what the [catch] of [publish] turns into a failed
    result. The draft request that follows is not modelled. *)
Definition prepareContent (article : Article) : M St jsstring :=
  ((fun '(meta, w) =>
      match meta with
      | Some _ => (Resolved tt, (meta, w))
      | None =>
          (auth <- checkAuth ;;
           if isAuthenticated auth then ret tt
           else throw (mkError "请先登录微信公众号"))%async (meta, w)
      end) ;;;
   rawHtml <- await (match html article with
                     | Some (c :: h) => Resolved (c :: h)
                     | _ => markdownToHtml (markdown article)
                     end) ;;
   content <- await (cleanHtml rawHtml) ;;
   content <- await (match Latex.processLatex content with
                     | Some c => Resolved c
                     | None => Rejected (mkError "URI malformed")
                     end) ;;
   content <- processImages content uploadImageByUrl skipPatterns ;;
   await (processContent content))%async.

End Weixin.
End Weixin.


(* ================================================================== *)
(** * Content transformer: the image pipeline *)
(* ================================================================== *)

Module ImagePipeline.
Import Async Adapter JsString.
Local Open Scope list_scope.

(** Modelled from the spec: what the image pipeline does when the upload
    of one image fails, which the spec leaves to each adapter (abort the
    whole operation, or keep the original address and continue). *)
Inductive FailurePolicy := abortOperation | keepOriginal.

(** Modelled from the spec: how an image reference is written in the
    markup. The spec does not say; here it is the value of the [src]
    attribute that opens an [img] tag, which is the form the formula step
    writes. *)
Definition imgOpen : jsstring := js "<img src=" ++ dq.

(** Modelled from the spec: [s] without the leading [pat], when it
    starts with it. *)
Fixpoint startsWith (pat s : jsstring) : option jsstring :=
  match pat with
  | [] => Some s
  | p :: pat' =>
      match s with
      | c :: s' => if N.eqb p c then startsWith pat' s' else None
      | [] => None
      end
  end.

(** Modelled from the spec: the scan for the next image reference; what
    comes before the opening of the tag, and what follows [src=] and its
    quote. *)
Fixpoint findImage (s : jsstring) : option (jsstring * jsstring) :=
  match s with
  | [] => None
  | c :: s' =>
      match startsWith imgOpen s with
      | Some after => Some ([], after)
      | None =>
          match findImage s' with
          | Some (before, after) => Some (c :: before, after)
          | None => None
          end
      end
  end.

(** Modelled from the spec: the reference itself, up to the closing
    quote, and the markup from that quote on. *)
Fixpoint spanNotQuote (s : jsstring) : jsstring * jsstring :=
  match s with
  | [] => ([], [])
  | c :: rest =>
      if N.eqb c 34 then ([], s)
      else let '(src, after) := spanNotQuote rest in (c :: src, after)
  end.

(** Modelled from the spec: an entry matches the skip-pattern list when
    one of the patterns occurs in it. *)
Fixpoint contains (pat s : jsstring) : bool :=
  match startsWith pat s with
  | Some _ => true
  | None =>
      match s with
      | [] => false
      | _ :: s' => contains pat s'
      end
  end.

Definition skipped (skipPatterns : list jsstring) (src : jsstring) : bool :=
  existsb (fun pat => contains pat src) skipPatterns.

(** Modelled from the spec: the destination address an upload returned;
    an upload that returns none counts as failed. *)
Definition hostedUrl (r : ImageUploadResult) : option jsstring :=
  match url r with
  | Some (JStr u) => Some (js u)
  | _ => None
  end.

Section Pipeline.
Context {State : Type}.
Variable policy : FailurePolicy.
Variable upload : jsstring -> M State ImageUploadResult.
Variable skipPatterns : list jsstring.

(** Modelled from the spec: one image handed to the upload function; the
    address to write in place of [src]. *)
Definition rehost (src : jsstring) : M State jsstring :=
  tryCatch
    (r <- upload src ;;
     match hostedUrl r with
     | Some hosted => ret hosted
     | None => throw (mkError "no address returned")
     end)%async
    (fun e =>
       match policy with
       | abortOperation => throw e
       | keepOriginal => ret src
       end).

(** Modelled from the spec: the image pipeline ([processImages] of the
    adapters' base class, whose code is not part of these sources). It
    scans the markup for image references; an entry that matches the
    skip-pattern list is left untouched; the others are handed one at a
    time, in order of appearance, to the upload function, and the
    rewritten markup has the returned destination address in place of the
    original source. The progress callback is left out. One unit of fuel
    is spent per image, and every image consumes input. *)
Fixpoint processImages_fuel (fuel : nat) (content : jsstring) : M State jsstring :=
  match fuel with
  | O => ret content
  | S fuel' =>
      match findImage content with
      | None => ret content
      | Some (before, after) =>
          let '(src, rest) := spanNotQuote after in
          (newSrc <- (if skipped skipPatterns src then ret src else rehost src) ;;
           rest' <- processImages_fuel fuel' rest ;;
           ret (before ++ imgOpen ++ newSrc ++ rest'))%async
      end
  end.
End Pipeline.

(** Modelled from the spec: the image pipeline, with the arguments in the
    order in which [publish] passes them. *)
Definition processImages {State : Type} (policy : FailurePolicy)
           (content : jsstring) (upload : jsstring -> M State ImageUploadResult)
           (skipPatterns : list jsstring) : M State jsstring :=
  processImages_fuel policy upload skipPatterns (List.length content) content.

End ImagePipeline.


(* ================================================================== *)
(** * Control-channel client: the life of a connection *)
(* ================================================================== *)

Module McpLife.
Import Async Mcp.
Local Open Scope string_scope.
Local Open Scope list_scope.

(** What can happen to the client: a call of one of its public methods,
    or one of the callbacks it registered firing. The flag of an event
    that runs [connect] says whether [new WebSocket] throws. *)
Inductive Event : Type :=
| Connect (ctorThrows : bool)          (* startMcpClient / connect() *)
| Opened                               (* ws.onopen *)
| Closed                               (* ws.onclose *)
| TimerFired (ctorThrows : bool)       (* the reconnect timer *)
| Disconnect                           (* stopMcpClient / disconnect() *)
| ResetReconnect (ctorThrows : bool)   (* resetReconnect() *)
| SetToken (t : string)
| ClearToken.

Section Life.
Context {Result : Type}.

Definition step (c : McpClient Result) (e : Event) : McpClient Result :=
  match e with
  | Connect b => connect b c
  | Opened => onopen c
  | Closed => onclose c
  | TimerFired b => onReconnectTimer b c
  | Disconnect => disconnect c
  | ResetReconnect b => resetReconnect b c
  | SetToken t => setToken t c
  | ClearToken => clearToken c
  end.

Definition run (events : list Event) (c : McpClient Result) : McpClient Result :=
  fold_left step events c.

(** The counter never passes the maximum, and a pending timer was armed
    with a delay between the base and the cap. *)
Definition withinBounds (c : McpClient Result) : Prop :=
  (reconnectAttempts c <= maxReconnectAttempts)%nat
  /\ (forall d, reconnectTimer c = Some d ->
                minReconnectInterval <= d <= maxReconnectInterval).

(** One reconnect attempt that fails: the timer fires and either the
    constructor throws, or the new socket closes without opening. *)
Definition failedAttempt (ctorThrows : bool) : list Event :=
  if ctorThrows then [TimerFired true] else [TimerFired false; Closed].

(** A connected client whose socket closes, followed by reconnect
    attempts that all fail. *)
Definition outage (attempts : list bool) : list Event :=
  Closed :: flat_map failedAttempt attempts.

Definition connectedClient : McpClient Result :=
  mkClient (Some (mkSocket OPEN [])) None None 0.

(** The delays of the first [n] reconnect attempts, added up. *)
Fixpoint totalDelay (n : nat) : Z :=
  match n with
  | O => 0
  | S k => totalDelay k + reconnectDelay k
  end.

(** Events that do not come from a call of [connect] or [resetReconnect]
    by the owner of the client. *)
Definition isPassive (e : Event) : bool :=
  match e with
  | Connect _ | ResetReconnect _ | Opened | TimerFired _ => false
  | _ => true
  end.

End Life.
End McpLife.


(* ================================================================== *)
(** * Control-channel client: the method table ([handleMethod]) *)
(* ================================================================== *)

Module McpMethods.
Import Async Adapter.
Local Open Scope string_scope.
Local Open Scope list_scope.

(** The article and the platform list put in the [SYNC_ARTICLE] message;
    the source is always ['mcp']. *)
Record SyncArticleMessage : Type := mkSyncArticleMessage {
  sam_title : JsValue;
  sam_content : Json;
  sam_html : Json;
  sam_markdown : Json;
  sam_cover : JsValue;
  sam_platforms : JsValue;
  sam_source : string
}.

Section Methods.
Context {World : Type}.

(** An adapter as [uploadImage] sees it: it may or may not have an
    [uploadImageBase64] method, which resolves with a value whose [url] is
    read. *)
Definition Uploader : Type :=
  option (Json -> Json -> World -> Outcome JsValue * World).

(** What the method table calls: the adapter registry, the markdown
    converter and the extension APIs. [activeTabId] is [tabs[0]?.id] of
    the tab query, [extractInTab] is [results[0]?.result] of the injected
    script, [getAdapter] resolves with [None] for [null]. *)
Record Backend : Type := mkBackend {
  checkAllPlatformsAuth : Json -> World -> Outcome JsValue * World;
  checkPlatformAuth : Json -> World -> Outcome JsValue * World;
  markdownToHtml : Json -> Outcome Json;
  sendSyncArticle : SyncArticleMessage -> World -> Outcome JsValue * World;
  activeTabId : World -> Outcome JsValue * World;
  extractInTab : JsValue -> World -> Outcome JsValue * World;
  getAdapter : Json -> World -> Outcome (option Uploader) * World;
  stringOf : Json -> string
}.

Variable backend : Backend.

(** [v ?? fallback] *)
Definition orElse (v : JsValue) (fallback : Json) : Json :=
  match v with
  | None | Some JNull => fallback
  | Some j => j
  end.

(** [v || fallback] *)
Definition orDefault (v : JsValue) (fallback : Json) : Json :=
  match v with
  | Some j => if truthy v then j else fallback
  | None => fallback
  end.

(** [v?.length]: the length of an array or of a string, the [length]
    field of an object. *)
Definition lengthOf (v : JsValue) : JsValue :=
  match v with
  | Some (JArr items) => Some (JNum (Z.of_nat (List.length items)))
  | Some (JStr s) => Some (JNum (Z.of_nat (String.length s)))
  | Some (JObj fields) => lookup "length" fields
  | _ => None
  end.

(** [s.replace(/\n/g, '<br>')] *)
Fixpoint newlinesToBr (s : string) : string :=
  match s with
  | EmptyString => EmptyString
  | String c rest =>
      if Ascii.eqb c (Ascii.ascii_of_nat 10)
      then ("<br>" ++ newlinesToBr rest)%string
      else String c (newlinesToBr rest)
  end.

(** The HTML of the article: the converted markdown when there is
    markdown, with line breaks as the fallback when the converter throws,
    and the given content otherwise. *)
Definition articleHtml (content markdown : Json) : Outcome Json :=
  if truthy (Some markdown) then
    match markdownToHtml backend markdown with
    | Resolved h => Resolved h
    | Rejected _ =>
        match markdown with
        | JStr s => Resolved (JStr (newlinesToBr s))
        | _ => Rejected typeError
        end
    end
  else Resolved content.

Definition text (j : Json) : string :=
  match j with
  | JStr s => s
  | _ => stringOf backend j
  end.

(** [handleMethod] *)
Definition handleMethod (method : string) (params : JsValue)
  : M World JsValue :=
  if String.eqb method "listPlatforms" then
    checkAllPlatformsAuth backend
      (orElse (getPropOpt params "forceRefresh") (JBool false))
  else if String.eqb method "checkAuth" then
    match getPropOpt params "platform" with
    | Some platform =>
        if truthy (Some platform) then checkPlatformAuth backend platform
        else throw (mkError "Missing platform parameter")
    | None => throw (mkError "Missing platform parameter")
    end
  else if String.eqb method "syncArticle" then
    let platforms := getPropOpt params "platforms" in
    let articleData := getPropOpt params "article" in
    if negb (truthy (lengthOf platforms)) then
      throw (mkError "Missing platforms parameter")
    else if negb (truthy (getPropOpt articleData "title")) then
      throw (mkError "Missing article title")
    else if negb (truthy (getPropOpt articleData "markdown"))
            && negb (truthy (getPropOpt articleData "content")) then
      throw (mkError "Missing article content (markdown or content required)")
    else
      let content := orDefault (getPropOpt articleData "content") (JStr "") in
      let markdown := orDefault (getPropOpt articleData "markdown") (JStr "") in
      (htmlContent <- await (articleHtml content markdown) ;;
       response <- sendSyncArticle backend
                     (mkSyncArticleMessage
                        (getPropOpt articleData "title") htmlContent htmlContent
                        markdown (getPropOpt articleData "cover") platforms "mcp") ;;
       err <- await (getProp response "error") ;;
       if truthy err then
         throw (mkError (match err with Some e => text e | None => "" end))
       else await (getProp response "results"))%async
  else if String.eqb method "extractArticle" then
    (tabId <- activeTabId backend ;;
     if truthy tabId then
       (result <- extractInTab backend tabId ;;
        ret (Some (orDefault result JNull)))
     else throw (mkError "No active tab found"))%async
  else if String.eqb method "uploadImage" then
    let imageData := getPropOpt params "imageData" in
    let mimeType := getPropOpt params "mimeType" in
    let platform := orDefault (getPropOpt params "platform") (JStr "weibo") in
    if negb (truthy imageData) then
      throw (mkError "Missing imageData parameter")
    else if negb (truthy mimeType) then
      throw (mkError "Missing mimeType parameter")
    else
      (adapter <- getAdapter backend platform ;;
       match adapter with
       | None => throw (mkError ("Platform not found: " ++ text platform))
       | Some None =>
           throw (mkError ("Platform " ++ text platform
                           ++ " does not support base64 image upload"))
       | Some (Some uploadImageBase64) =>
           result <- uploadImageBase64 (orElse imageData JNull)
                                       (orElse mimeType JNull) ;;
           uploaded <- await (getProp result "url") ;;
           ret (Some (JObj (match uploaded with
                            | Some u => [("url", u); ("platform", platform)]
                            | None => [("platform", platform)]
                            end)))
       end)%async
  else throw (mkError ("Unknown method: " ++ method)).

(** The five entries of the method table. *)
Definition knownMethods : list string :=
  ["listPlatforms"; "checkAuth"; "syncArticle"; "extractArticle"; "uploadImage"].

End Methods.
End McpMethods.


(* ================================================================== *)
(** * Traces of the sync store *)
(* ================================================================== *)

Module SyncTrace.
Import Sync.
Local Open Scope list_scope.

(** The platform ids a list of calls addresses. *)
Definition addressed (cs : list Call) : list string :=
  List.concat (map publishedBy cs).

End SyncTrace.


(* ================================================================== *)
(** * Sync store: the platform list and the selection *)
(* ================================================================== *)

Module SyncSelect.
Import Async Sync.
Local Open Scope string_scope.
Local Open Scope list_scope.

(** An entry of ['cmsAccounts'] in [chrome.storage.local]; its type, url
    and user name only feed the fields that [Platform] leaves out. *)
Record CmsAccount : Type := mkAccount {
  acc_id : string;
  acc_name : string;
  acc_isConnected : bool
}.

(** What [Promise.all] of the [CHECK_ALL_AUTH] message and of the read of
    ['cmsAccounts'] settles with, and whether the storage calls on
    ['selectedPlatforms'] fail. The response of the message may be
    [undefined], and its [platforms] may be missing; so may the stored
    accounts. *)
Record Env : Type := mkEnv {
  authAndAccounts :
    Outcome (option (option (list Platform)) * option (list CmsAccount));
  selectionGetFails : bool;
  selectionSetFails : list string -> bool
}.

(** The store, and the ['selectedPlatforms'] slot of
    [chrome.storage.local] ([None] when the key is absent). *)
Definition St : Type := SyncState * option (list string).

Definition set_selected (ids : list string) (s : SyncState) : SyncState :=
  mkState (status s) (article s) (platforms s) ids
          (results s) (st_error s) (imageProgress s) (history s) (recovered s).

Definition set_status (st : Status) (s : SyncState) : SyncState :=
  mkState st (article s) (platforms s) (selectedPlatforms s)
          (results s) (st_error s) (imageProgress s) (history s) (recovered s).

Definition set_platforms (ps : list Platform) (s : SyncState) : SyncState :=
  mkState (status s) (article s) ps (selectedPlatforms s)
          (results s) (st_error s) (imageProgress s) (history s) (recovered s).

(** [set({ platforms, status: 'idle', selectedPlatforms })] *)
Definition set_loaded (ps : list Platform) (ids : list string)
           (s : SyncState) : SyncState :=
  mkState idle (article s) ps ids
          (results s) (st_error s) (imageProgress s) (history s) (recovered s).

(** [set({ status: 'idle', error })] *)
Definition set_load_failed (e : Error) (s : SyncState) : SyncState :=
  mkState idle (article s) (platforms s) (selectedPlatforms s)
          (results s) (Some (message e)) (imageProgress s) (history s)
          (recovered s).

Definition setStore (f : SyncState -> SyncState) : M St unit :=
  modify (fun '(s, slot) => (f s, slot)).

(** [saveSelectedPlatforms]: a failed write is logged and swallowed. The
    actions below do not await it; the write is issued before they
    return and is taken as settled by then. *)
Definition saveSelectedPlatforms (env : Env) (platformIds : list string)
  : M St unit :=
  tryCatch
    (fun '(s, slot) =>
       if selectionSetFails env platformIds
       then (Rejected (mkError "storage"), (s, slot))
       else (Resolved tt, (s, Some platformIds)))
    (fun _ => ret tt).

(** [loadSelectedPlatforms]: [result[KEY] || null], and [null] when the
    read fails. A stored empty array is truthy and comes back as such. *)
Definition loadSelectedPlatforms (env : Env) : M St (option (list string)) :=
  tryCatch
    (fun '(s, slot) =>
       if selectionGetFails env
       then (Rejected (mkError "storage"), (s, slot))
       else (Resolved slot, (s, slot)))
    (fun _ => ret None).

(** [selectedPlatforms.includes(platformId)] *)
Definition includes (ids : list string) (pid : string) : bool :=
  existsb (String.eqb pid) ids.

(** [togglePlatform] (the analytics call has no part in the store) *)
Definition togglePlatform (env : Env) (platformId : string) : M St unit :=
  (st <- get ;;
   let selected := selectedPlatforms (fst st) in
   let isSelected := includes selected platformId in
   let newSelected :=
     if isSelected
     then filter (fun id => negb (String.eqb id platformId)) selected
     else selected ++ [platformId] in
   setStore (set_selected newSelected) ;;;
   saveSelectedPlatforms env newSelected)%async.

(** [selectAll] *)
Definition selectAll (env : Env) : M St unit :=
  (st <- get ;;
   let allIds := map id (filter isAuthenticated (platforms (fst st))) in
   setStore (set_selected allIds) ;;;
   saveSelectedPlatforms env allIds)%async.

(** [deselectAll] *)
Definition deselectAll (env : Env) : M St unit :=
  (setStore (set_selected []) ;;;
   saveSelectedPlatforms env [])%async.

(** [{...p, sourceType: 'dsl'}] *)
Definition asDsl (p : Platform) : Platform :=
  mkPlatform (id p) (name p) (isAuthenticated p) dsl.

(** The platform made of a connected CMS account. *)
Definition asCms (a : CmsAccount) : Platform :=
  mkPlatform (acc_id a) (acc_name a) true cms.

Definition preserved (st : Status) : bool :=
  match st with
  | syncing | completed => true
  | _ => false
  end.

(** [loadPlatforms] *)
Definition loadPlatforms (env : Env) : M St unit :=
  (st <- get ;;
   let preserveStatus := preserved (status (fst st)) in
   (if preserveStatus then ret tt else setStore (set_status loading)) ;;;
   tryCatch
     (both <- Adapter.await (authAndAccounts env) ;;
      let '(platformResponse, cmsStorage) := both in
      listed <- match platformResponse with
                | None => throw undefinedResponse
                | Some field => ret field
                end ;;
      let dslPlatforms :=
        match listed with
        | Some ps => map asDsl (filter isAuthenticated ps)
        | None => []
        end in
      let cmsAccounts := match cmsStorage with Some l => l | None => [] end in
      let cmsPlatforms := map asCms (filter acc_isConnected cmsAccounts) in
      let allPlatforms := dslPlatforms ++ cmsPlatforms in
      savedSelections <- loadSelectedPlatforms env ;;
      let authenticatedIds :=
        map id (filter isAuthenticated allPlatforms) in
      let selected :=
        match savedSelections with
        | Some (x :: l) => filter (includes authenticatedIds) (x :: l)
        | _ => []
        end in
      if preserveStatus then setStore (set_platforms allPlatforms)
      else setStore (set_loaded allPlatforms selected))
     (fun e =>
        if preserveStatus then ret tt
        else setStore (set_load_failed e)))%async.

(** Collaborators for the examples: two built-in platforms, one of them
    signed out, one connected account, and a storage that works. *)
Definition sampleEnv : Env :=
  mkEnv (Resolved (Some (Some [mkPlatform "juejin" "掘金" true dsl;
                               mkPlatform "weixin" "微信公众号" false dsl]),
                   Some [mkAccount "blog" "My blog" true]))
        false (fun _ => false).

End SyncSelect.


(* ================================================================== *)
(** * Request signer: hexadecimal text, dates and signed headers *)
(* ================================================================== *)

Module SignerText.
Import JsString Signer.
Local Open Scope list_scope.

(** [arrayBufferToHex]: every octet as two lowercase hexadecimal digits. *)
Definition arrayBufferToHex (buffer : list byte) : string :=
  String.concat ""
    (map (fun b => Crc32.padStart 2 "0"%char (Crc32.toString16 (Crc32.byteZ b)))
         buffer).

(** Reading such a text back, two digits at a time. *)
Fixpoint fromHex (fuel : nat) (s : string) : option (list Z) :=
  match fuel, s with
  | _, EmptyString => Some []
  | S fuel', String hi (String lo rest) =>
      match Crc32.hexValueOfChar hi, Crc32.hexValueOfChar lo, fromHex fuel' rest with
      | Some h, Some l, Some octets => Some ((16 * h + l)%Z :: octets)
      | _, _, _ => None
      end
  | _, _ => None
  end.

(** The UTC fields of a valid [Date]. *)
Record Date : Type := mkDate {
  year : Z;
  month : N;
  day : N;
  hours : N;
  minutes : N;
  seconds : N;
  milliseconds : N
}.

(** A number in decimal, on [width] digits. *)
Fixpoint digits (width : nat) (n : N) : jsstring :=
  match width with
  | O => []
  | S w => digits w (n / 10) ++ [48 + n mod 10]%N
  end.

(** [Date.prototype.toISOString]: four digits for the years 0 to 9999, a
    sign and six digits for the others. *)
Definition toISOString (d : Date) : jsstring :=
  (if (0 <=? year d)%Z && (year d <=? 9999)%Z then digits 4 (Z.to_N (year d))
   else (if (year d <? 0)%Z then js "-" else js "+")
        ++ digits 6 (Z.to_N (Z.abs (year d))))
  ++ js "-" ++ digits 2 (month d) ++ js "-" ++ digits 2 (day d)
  ++ js "T" ++ digits 2 (hours d) ++ js ":" ++ digits 2 (minutes d)
  ++ js ":" ++ digits 2 (seconds d) ++ js "." ++ digits 3 (milliseconds d)
  ++ js "Z".

Definition isDigit (c : N) : bool := inRange 48 57 c.

(** [s.replace(/[:-]|\.\d{3}/g, '')]: colons and hyphens go, and so does
    a full stop together with the three digits after it. *)
Fixpoint stripAmz (s : jsstring) : jsstring :=
  match s with
  | [] => []
  | c :: rest =>
      if N.eqb c 58 || N.eqb c 45 then stripAmz rest
      else if N.eqb c 46 then
        match rest with
        | d1 :: d2 :: d3 :: rest' =>
            if isDigit d1 && isDigit d2 && isDigit d3 then stripAmz rest'
            else c :: stripAmz rest
        | _ => c :: stripAmz rest
        end
      else c :: stripAmz rest
  end.

(** [s.replace(/-/g, '')] *)
Definition stripHyphens (s : jsstring) : jsstring :=
  filter (fun c => negb (N.eqb c 45)) s.

(** [formatAmzDate] *)
Definition formatAmzDate (date : Date) : jsstring :=
  stripAmz (toISOString date).

(** [formatDateStamp] *)
Definition formatDateStamp (date : Date) : jsstring :=
  stripHyphens (firstn 10 (toISOString date)).

Section Headers.
(** [String.prototype.toLowerCase] belongs to the platform. *)
Variable toLowerCase : jsstring -> jsstring.

Fixpoint eqbString (x y : jsstring) : bool :=
  match x, y with
  | [], [] => true
  | a :: x', b :: y' => N.eqb a b && eqbString x' y'
  | _, _ => false
  end.

(** [obj[k] = v]: an existing key keeps its place. *)
Fixpoint setKey (k v : jsstring) (obj : list (jsstring * jsstring))
  : list (jsstring * jsstring) :=
  match obj with
  | [] => [(k, v)]
  | (k', v') :: rest =>
      if eqbString k' k then (k', v) :: rest else (k', v') :: setKey k v rest
  end.

(** [Object.assign(target, source)] *)
Definition assign (target source : list (jsstring * jsstring))
  : list (jsstring * jsstring) :=
  fold_left (fun obj kv => setKey (fst kv) (snd kv) obj) source target.

(** [signedHeadersObj] of [signAWS4], as its entries. (Keys that are
    array indices would come first; the entries are sorted below.) *)
Definition signedHeadersObj (amzDate : jsstring)
           (securityToken : option jsstring)
           (headers : list (jsstring * jsstring))
  : list (jsstring * jsstring) :=
  assign ((js "x-amz-date", amzDate)
            :: match securityToken with
               | Some (c :: t) => [(js "x-amz-security-token", c :: t)]
               | _ => []
               end)
         headers.

(** The default [Array.prototype.sort()]: by code units. *)
Definition sortStrings (l : list jsstring) : list jsstring :=
  sortBy ordinalCompare l.

Definition headerName (kv : jsstring * jsstring) : jsstring :=
  toLowerCase (fst kv).

(** [`${k.toLowerCase()}:${v.trim()}`] *)
Definition headerLine (kv : jsstring * jsstring) : jsstring :=
  toLowerCase (fst kv) ++ js ":" ++ trim (snd kv).

(** The sorted lower-case names, before [join(';')]. *)
Definition signedNames (obj : list (jsstring * jsstring)) : list jsstring :=
  sortStrings (map headerName obj).

(** [signedHeaderNames] *)
Definition signedHeaderNames (obj : list (jsstring * jsstring)) : jsstring :=
  join (js ";") (signedNames obj).

(** The sorted lines, before [join('\n')]. *)
Definition canonicalLines (obj : list (jsstring * jsstring)) : list jsstring :=
  sortStrings (map headerLine obj).

(** [canonicalHeaders] *)
Definition canonicalHeaders (obj : list (jsstring * jsstring)) : jsstring :=
  join [10%N] (canonicalLines obj) ++ [10%N].

End Headers.

(** [a] is a prefix of [b] and not all of it. *)
Fixpoint properPrefix (a b : jsstring) : bool :=
  match a, b with
  | [], _ :: _ => true
  | x :: a', y :: b' => N.eqb x y && properPrefix a' b'
  | _, _ => false
  end.

(** No name is a proper prefix of another. *)
Definition prefixFree (names : list jsstring) : bool :=
  forallb (fun a => forallb (fun b => negb (properPrefix a b)) names) names.

(** A [toLowerCase] for header names written in ASCII. *)
Definition asciiLower (s : jsstring) : jsstring :=
  map (fun c => if inRange 65 90 c then (c + 32)%N else c) s.

End SignerText.


(* ================================================================== *)
(** * Article extractor: formulas *)
(* ================================================================== *)

Module Reader.
Import JsString.
Local Open Scope N_scope.
Local Open Scope list_scope.

(** [greekMap] of [unicodeToLatex], keyed by code unit: the capital
    letters, the small letters, the variant forms. *)
Definition greekMap : list (N * jsstring) :=
  [(0x391, js "A"); (0x392, js "B"); (0x393, js "\Gamma");
   (0x394, js "\Delta"); (0x395, js "E"); (0x396, js "Z");
   (0x397, js "H"); (0x398, js "\Theta"); (0x399, js "I");
   (0x39A, js "K"); (0x39B, js "\Lambda"); (0x39C, js "M");
   (0x39D, js "N"); (0x39E, js "\Xi"); (0x39F, js "O");
   (0x3A0, js "\Pi"); (0x3A1, js "P"); (0x3A3, js "\Sigma");
   (0x3A4, js "T"); (0x3A5, js "\Upsilon"); (0x3A6, js "\Phi");
   (0x3A7, js "X"); (0x3A8, js "\Psi"); (0x3A9, js "\Omega");
   (0x3B1, js "\alpha"); (0x3B2, js "\beta"); (0x3B3, js "\gamma");
   (0x3B4, js "\delta"); (0x3B5, js "\epsilon"); (0x3B6, js "\zeta");
   (0x3B7, js "\eta"); (0x3B8, js "\theta"); (0x3B9, js "\iota");
   (0x3BA, js "\kappa"); (0x3BB, js "\lambda"); (0x3BC, js "\mu");
   (0x3BD, js "\nu"); (0x3BE, js "\xi"); (0x3BF, js "o");
   (0x3C0, js "\pi"); (0x3C1, js "\rho"); (0x3C3, js "\sigma");
   (0x3C4, js "\tau"); (0x3C5, js "\upsilon"); (0x3C6, js "\phi");
   (0x3C7, js "\chi"); (0x3C8, js "\psi"); (0x3C9, js "\omega");
   (0x3D5, js "\varphi"); (0x3F5, js "\varepsilon");
   (0x3D1, js "\vartheta"); (0x3D6, js "\varpi"); (0x3F1, js "\varrho");
   (0x3C2, js "\varsigma")].

(** The character class of the pattern: the ranges from capital alpha to
    capital omega and from small alpha to small omega, and six more
    letters. *)
Definition inGreekClass (c : N) : bool :=
  inRange 0x391 0x3A9 c || inRange 0x3B1 0x3C9 c
  || existsb (N.eqb c) [0x3D5; 0x3F5; 0x3D1; 0x3D6; 0x3F1; 0x3C2].

(** [greekMap[char]] *)
Fixpoint lookupGreek (table : list (N * jsstring)) (c : N) : option jsstring :=
  match table with
  | [] => None
  | (k, v) :: rest => if N.eqb k c then Some v else lookupGreek rest c
  end.

(** The callback of the replacement: [greekMap[char] || char]. *)
Definition greekToLatex (c : N) : jsstring :=
  match lookupGreek greekMap c with
  | Some (x :: r) => x :: r
  | _ => [c]
  end.

(** [unicodeToLatex] *)
Definition unicodeToLatex (latex : jsstring) : jsstring :=
  flat_map (fun c => if inGreekClass c then greekToLatex c else [c]) latex.

(** What [extractLatex] reads from its container: the text content of
    the first [annotation] element with the TeX encoding and of the first
    element of class [katex-mathml]; [None] when there is no such element
    or it has no text content. *)
Record Container : Type := mkContainer {
  annotationText : option jsstring;
  mathmlText : option jsstring
}.

(** A backslash, or one of [^ _ { }]. *)
Definition isLatexLine (line : jsstring) : bool :=
  existsb (fun c => existsb (N.eqb c) [92; 94; 95; 123; 125]) line.

Definition nonEmpty (s : jsstring) : bool :=
  match s with [] => false | _ :: _ => true end.

(** [text.split('\n').map(l => l.trim()).filter(l => l.length > 0)] *)
Definition candidateLines (text : jsstring) : list jsstring :=
  filter nonEmpty (map trim (Signer.splitAll 10 text)).

(** The loop from the last line backwards, then the fallback to the last
    line. *)
Definition pickLine (lines : list jsstring) : option jsstring :=
  match find isLatexLine (rev lines) with
  | Some line => Some line
  | None =>
      match rev lines with
      | last :: _ => Some last
      | [] => None
      end
  end.

(** [extractLatex]; [None] is [null]. *)
Definition extractLatex (container : Container) : option jsstring :=
  let latex :=
    match annotationText container with
    | Some (c :: t) => Some (trim (c :: t))
    | _ =>
        match mathmlText container with
        | Some (c :: t) => pickLine (candidateLines (trim (c :: t)))
        | _ => None
        end
    end in
  match latex with
  | Some (c :: t) => Some (unicodeToLatex (c :: t))
  | _ => None
  end.

(** A letter that the table rewrites. *)
Definition isMapped (c : N) : bool :=
  inGreekClass c && nonEmpty (match lookupGreek greekMap c with
                              | Some v => v
                              | None => []
                              end).

End Reader.


(* ================================================================== *)
(** * Juejin adapter: the requests it sends *)
(* ================================================================== *)

Module JuejinTrace.
Import Async Adapter.
Local Open Scope string_scope.
Local Open Scope list_scope.

(** A capability that keeps the requests it was handed, oldest first, and
    answers from what it has seen so far. *)
Definition logged (respond : Request -> list Request -> Outcome Response)
  : Request -> list Request -> Outcome Response * list Request :=
  fun r log => (respond r log, log ++ [r]).

(** The request of [getCsrfToken]. *)
Definition tokenRequest : Request :=
  mkRequest "https://api.juejin.cn/user_api/v1/sys/token" "HEAD"
            [("x-secsdk-csrf-request", "1");
             ("x-secsdk-csrf-version", "1.2.10")]
            NoBody.

(** The request of [uploadImageBinaryInternal]. *)
Definition uploadRequest (csrfToken : string) (file : Blob) : Request :=
  mkRequest "https://api.juejin.cn/content_api/v1/upload/image" "POST"
            [("x-secsdk-csrf-token", csrfToken)]
            (FormBody file).

(** A server that hands out a token and stores every image. *)
Definition friendly (r : Request) (log : list Request) : Outcome Response :=
  Resolved
    (mkResponse true (Resolved "")
                (Resolved (JObj [("data", JObj [("url", JStr "https://p3-juejin.byteimg.com/1.png")])]))
                (fun name =>
                   if String.eqb name "x-ware-csrf-token"
                   then Some "0,tok123,86370000,success,sid" else None)).

(** The same server, when the token field of its header is empty. *)
Definition blankToken (r : Request) (log : list Request) : Outcome Response :=
  Resolved
    (mkResponse true (Resolved "")
                (Resolved (JObj [("data", JObj [("url", JStr "https://p3-juejin.byteimg.com/1.png")])]))
                (fun name =>
                   if String.eqb name "x-ware-csrf-token"
                   then Some "0,,x" else None)).

End JuejinTrace.


(* ================================================================== *)
(** * Imooc adapter: image upload and publishing *)
(* ================================================================== *)

Module ImoocPublish.
Import Async Adapter Imooc.
Local Open Scope string_scope.
Local Open Scope list_scope.

(** The fields of the [Article] of the core package that [publish]
    reads. *)
Record Article : Type := mkArticle {
  title : string;
  html : option string;
  markdown : option string
}.

(** The [SyncResult] that [publish] builds. *)
Record SyncResult : Type := mkSyncResult {
  platform : string;
  success : bool;
  postId : JsValue;
  postUrl : option string;
  draftOnly : option bool;
  error : option string;
  timestamp : Z
}.

(** [a || b || ''] on optional strings *)
Definition firstNonEmpty (a b : option string) : string :=
  match a with
  | Some (String c t) => String c t
  | _ => match b with
         | Some (String c t) => String c t
         | _ => ""
         end
  end.

Section ImoocPublish.
Context {World : Type}.

(** [this.runtime.fetch] and [this.runtime.headerRules] *)
Variable runtime_fetch : Request -> World -> Outcome Response * World.
Variable headerRules : option (HeaderRules (World := World)).

(** [response.blob()], which [Response] leaves out. *)
Variable blobOf : Response -> Outcome Blob.

(** [Date.now()] *)
Variable now : World -> Z.

(** [String(v)] for the values put into messages and addresses. *)
Variable stringOf : Json -> string.

(** [processImages] of the base class; its code is not part of these
    sources. *)
Variable processImages :
  string -> (string -> M (Imooc.St (World := World)) ImageUploadResult) ->
  M (Imooc.St (World := World)) string.

Definition text (v : JsValue) : string :=
  match v with
  | Some (JStr s) => s
  | Some j => stringOf j
  | None => "undefined"
  end.

(** [uploadImageByUrl]: download, then upload as a form (the name, size
    and dates of the form are derived from the blob and the clock). A
    protocol-relative address gets the [https:] scheme. Reading
    [startsWith] from anything but a string throws. *)
Definition uploadImageByUrl (url : string)
  : M (Imooc.St (World := World)) ImageUploadResult :=
  (imageResponse <- fetch runtime_fetch (mkRequest url "GET" [] NoBody) ;;
   blob <- await (blobOf imageResponse) ;;
   response <- fetch runtime_fetch
                     (mkRequest "https://www.imooc.com/article/ajaxuploadimg"
                                "POST" [] (FormBody blob)) ;;
   res <- await (resp_json response) ;;
   code <- await (getProp (Some res) "result") ;;
   if notZero code then
     throw (mkError (Juejin.messageOr stringOf (getPropOpt (Some res) "msg")
                                      "图片上传失败"))
   else
     (data <- await (getProp (Some res) "data") ;;
      imgpath <- await (getProp data "imgpath") ;;
      match imgpath with
      | Some (JStr imgUrl) =>
          ret (mkUpload (Some (JStr (if String.prefix "//" imgUrl
                                     then ("https:" ++ imgUrl)%string
                                     else imgUrl))))
      | _ => throw typeError
      end))%async.

(** The request that saves the draft; its body is the [URLSearchParams],
    given as the object it is built from. *)
Definition saveDraftRequest (article : Article) (content : string) : Request :=
  mkRequest "https://www.imooc.com/article/savedraft" "POST"
            [("Content-Type", "application/x-www-form-urlencoded")]
            (JsonBody (JObj [("editor", JStr "0"); ("draft_id", JStr "0");
                             ("title", JStr (title article));
                             ("content", JStr content)])).

(** [publish]. As in [checkAuth], the [catch] block awaits
    [removeHeaderRules]. *)
Definition publish (article : Article)
  : M (Imooc.St (World := World)) SyncResult :=
  fun st =>
    let t := now (snd st) in
    tryCatch
      (addHeaderRules headerRules ;;;
       content <- processImages (firstNonEmpty (markdown article) (html article))
                                uploadImageByUrl ;;
       response <- fetch runtime_fetch (saveDraftRequest article content) ;;
       res <- await (resp_json response) ;;
       removeHeaderRules headerRules ;;;
       data <- await (getProp (Some res) "data") ;;
       if negb (truthy data) then throw (mkError "发布失败")
       else
         ret (mkSyncResult "imooc" true data
                           (Some ("https://www.imooc.com/article/draft/id/"
                                    ++ text data)%string)
                           (Some true) None t))%async
      (fun e =>
         (removeHeaderRules headerRules ;;;
          ret (mkSyncResult "imooc" false None None None
                            (Some (message e)) t))%async)
      st.

End ImoocPublish.

(** The rule id is absent or empty: no rule is recorded as installed. *)
Definition noRuleRecorded {World : Type} (st : Imooc.St (World := World)) : Prop :=
  match fst st with
  | Some (String _ _) => False
  | _ => True
  end.

(** The header-rule capability is absent, or removing a rule never
    fails. *)
Definition removalNeverFails {World : Type}
           (headerRules : option (HeaderRules (World := World))) : Prop :=
  match headerRules with
  | None => True
  | Some rules =>
      forall ruleId w, isResolved (fst (remove rules ruleId w)) = true
  end.

(** Collaborators for the examples: rules that can be added and removed,
    a server that stores the image under a protocol-relative address and
    saves the draft, and a [processImages] that uploads one image. *)
Definition workingRules : HeaderRules (World := unit) :=
  mkHeaderRules (fun w => (Resolved "rule-1", w))
                (fun _ w => (Resolved tt, w)).

Definition imoocServer : Request -> unit -> Outcome Response * unit :=
  fun r w =>
    (Resolved
       (mkResponse true (Resolved "")
          (Resolved
             (if String.eqb (req_url r) "https://www.imooc.com/article/savedraft"
              then JObj [("data", JNum 7788)]
              else JObj [("result", JNum 0);
                         ("data", JObj [("imgpath", JStr "//img.mukewang.com/a.jpg")])]))
          (fun _ => None)),
     w).

Definition uploadFirst
  : string -> (string -> M (Imooc.St (World := unit)) ImageUploadResult) ->
    M (Imooc.St (World := unit)) string :=
  fun content upload =>
    (r <- upload "https://example.org/a.jpg" ;; ret content)%async.

End ImoocPublish.


(* ================================================================== *)
(** * Weixin adapter: image upload, error messages and publishing *)
(* ================================================================== *)

Module WeixinPublish.
Import Async Adapter JsString Weixin.
Local Open Scope string_scope.
Local Open Scope list_scope.

(** The decimal numeral of an integer, which is what [String(n)] gives
    for an integral number below 10^21 in magnitude. *)
Definition decimal (n : Z) : string :=
  NilZero.string_of_int (Z.to_int n).

(** [errorMap] of [formatError] *)
Definition errorMap : list (Z * string) :=
  [((-6), "请输入验证码"); ((-8), "请输入验证码");
   ((-1), "系统错误，请注意备份内容后重试"); ((-2), "参数错误，请注意备份内容后重试");
   ((-5), "服务错误，请注意备份内容后重试"); ((-99), "内容超出字数，请调整");
   ((-206), "服务负荷过大，请稍后重试"); (200002, "参数错误，请注意备份内容后重试");
   (200003, "登录态超时，请重新登录"); (412, "图文中含非法外链");
   (62752, "可能含有具备安全风险的链接，请检查"); (64502, "你输入的微信号不存在");
   (64505, "发送预览失败，请稍后再试"); (64506, "保存失败，链接不合法");
   (64507, "内容不能包含外部链接"); (64509, "正文中不能包含超过3个视频");
   (64515, "当前素材非最新内容，请重新打开并编辑"); (64702, "标题超出64字长度限制");
   (64703, "摘要超出120字长度限制"); (64705, "内容超出字数，请调整");
   (10806, "正文不能有违规内容，请重新编辑"); (10807, "内容不能违反公众平台协议");
   (220001, "素材管理中的存储数量已达上限"); (220002, "图片库已达到存储上限")].

(** The members that an object literal inherits from
    [Object.prototype]. *)
Definition inheritedMembers : list string :=
  ["constructor"; "toString"; "toLocaleString"; "valueOf"; "hasOwnProperty";
   "isPrototypeOf"; "propertyIsEnumerable"; "__proto__";
   "__defineGetter__"; "__defineSetter__"; "__lookupGetter__";
   "__lookupSetter__"].

(** What reading a key of the table finds: an entry of its own, a
    member it inherits (a function, or the prototype itself), or
    nothing. *)
Inductive Member : Type :=
| OwnEntry (msg : string)
| InheritedMember (name : string)
| NoMember.

(** The entry of the table itself under [key]: the keys of an object are
    strings, and a numeric key is its decimal numeral. *)
Fixpoint ownEntry (table : list (Z * string)) (key : string)
  : option string :=
  match table with
  | [] => None
  | (code, msg) :: rest =>
      if String.eqb (decimal code) key then Some msg
      else ownEntry rest key
  end.

(** [errorMap[key]] *)
Definition lookupMessage (table : list (Z * string)) (key : string)
  : Member :=
  match ownEntry table key with
  | Some msg => OwnEntry msg
  | None =>
      if existsb (String.eqb key) inheritedMembers then InheritedMember key
      else NoMember
  end.

(** [a ?? b] *)
Definition orElse (a b : JsValue) : JsValue :=
  match a with
  | None | Some JNull => b
  | _ => a
  end.

(** The double quote. *)
Definition quote : string := String (Ascii.ascii_of_nat 34) EmptyString.

(** The value of [share_imageinfo0]: an object with an empty [list]. *)
Definition shareImageInfo : string :=
  ("{" ++ quote ++ "list" ++ quote ++ ":[]}")%string.

(** What [publish] hands to [createResult] of the base class. *)
Inductive PublishResult : Type :=
| Created (postId : JsValue) (postUrl : string) (draftOnly : bool)
| Failed (error : string).

Section WeixinPublish.
Context {World : Type}.

(** [this.runtime.fetch] and the global [fetch] *)
Variable runtime_fetch : Request -> World -> Outcome Response * World.
Variable global_fetch : jsstring -> World -> Outcome Response * World.

(** [response.blob()], which [Response] leaves out. *)
Variable blobOf : Response -> Outcome Blob.

(** [String(Date.now())] and [String(Math.random())] *)
Variable clock : World -> string.
Variable random : World -> string.

(** [String(svrTime)]: the number the page carried, or the clock at the
    time of [checkAuth]. *)
Variable svrTimeText : WeixinMeta -> string.

(** [String(v)] for the values put into messages and addresses, the
    text [String] makes of a member inherited from [Object.prototype]
    (which depends on the engine), and the text of a JavaScript
    string. *)
Variable stringOf : Json -> string.
Variable memberText : string -> string.
Variable textOf : jsstring -> string.

Variable scanPage : string -> PageMatches.
Variable markdownToHtml : option jsstring -> Outcome jsstring.
Variable cleanHtml : jsstring -> Outcome jsstring.
Variable processImages :
  jsstring -> (jsstring -> M (Weixin.St (World := World)) ImageUploadResult) ->
  list jsstring -> M (Weixin.St (World := World)) jsstring.
Variable processContent : jsstring -> Outcome jsstring.

(** [String(n)]: the decimal numeral below 10^21 in magnitude, and the
    exponent form, left to [stringOf], from there on. [n] stands for the
    number that holds it. *)
Definition numberText (n : Z) : string :=
  if (Z.abs n <? 10 ^ 21)%Z then decimal n else stringOf (JNum n).

Definition text (v : JsValue) : string :=
  match v with
  | Some (JNum n) => numberText n
  | Some (JStr s) => s
  | Some j => stringOf j
  | None => "undefined"
  end.

(** [formatError], as the message that [new Error(errMsg)] carries: for
    a code that names an inherited member, [errorMap[ret]] is that
    member, which is truthy, and the message is its text. *)
Definition formatError (res : JsValue) : Outcome string :=
  match getProp res "ret" with
  | Rejected e => Rejected e
  | Resolved top =>
      let ret := orElse top (getPropOpt (getPropOpt res "base_resp") "ret") in
      Resolved
        match lookupMessage errorMap (text ret) with
        | OwnEntry (String c t) => String c t
        | InheritedMember name => memberText name
        | _ => ("同步失败 (错误码: " ++ text ret ++ ")")%string
        end
  end.

Definition globalFetch (src : jsstring)
  : M (Weixin.St (World := World)) Response :=
  fun '(meta, w) =>
    let '(out, w') := global_fetch src w in (out, (meta, w')).

(** The address of the upload, built when the request is made. *)
Definition uploadUrl (meta : WeixinMeta) (w : World) : string :=
  ("https://mp.weixin.qq.com/cgi-bin/filetransfer?action=upload_material&f=json&scene=8&writetype=doublewrite&groupid=1&ticket_id="
     ++ userName meta ++ "&ticket=" ++ ticket meta
     ++ "&svr_time=" ++ svrTimeText meta ++ "&token=" ++ token meta
     ++ "&lang=zh_CN&seq=" ++ clock w ++ "&t=" ++ random w)%string.

(** [uploadImageByUrl]: download with the global [fetch], then upload as
    a form (the type, id, name, date and size of the form are derived
    from the blob and the clock). *)
Definition uploadImageByUrl (src : jsstring)
  : M (Weixin.St (World := World)) ImageUploadResult :=
  (st <- get ;;
   match fst st with
   | None => throw (mkError "未登录")
   | Some _ =>
       imageResponse <- globalFetch src ;;
       if negb (resp_ok imageResponse)
       then throw (mkError ("图片下载失败: " ++ textOf src)%string)
       else
         (imageBlob <- await (blobOf imageResponse) ;;
          st <- get ;;
          match fst st with
          | None => throw typeError
          | Some meta =>
              response <- fetch runtime_fetch
                                (mkRequest (uploadUrl meta (snd st)) "POST" []
                                           (FormBody imageBlob)) ;;
              res <- await (resp_json response) ;;
              base_resp <- await (getProp (Some res) "base_resp") ;;
              let cdn_url := getPropOpt (Some res) "cdn_url" in
              let isOk :=
                match getPropOpt base_resp "err_msg" with
                | Some (JStr s) => String.eqb s "ok"
                | _ => false
                end in
              if negb isOk || negb (truthy cdn_url)
              then throw (mkError ("图片上传失败: " ++ textOf src)%string)
              else ret (mkUpload cdn_url)
          end)
   end)%async.

(** The form of the draft request, as the object the [URLSearchParams]
    is built from. *)
Definition draftForm (meta : WeixinMeta) (article : Article)
           (content : string) (random : string) : Json :=
  JObj
    [("token", JStr (token meta)); ("lang", JStr "zh_CN");
     ("f", JStr "json"); ("ajax", JStr "1"); ("random", JStr random);
     ("AppMsgId", JStr ""); ("count", JStr "1");
     ("data_seq", JStr "0"); ("operate_from", JStr "Chrome");
     ("isnew", JStr "0"); ("ad_video_transition0", JStr "");
     ("can_reward0", JStr "0"); ("related_video0", JStr "");
     ("is_video_recommend0", JStr "-1");
     ("title0", JStr (title article)); ("author0", JStr "");
     ("writerid0", JStr "0"); ("fileid0", JStr "");
     ("digest0", JStr ""); ("auto_gen_digest0", JStr "1");
     ("content0", JStr content); ("sourceurl0", JStr "");
     ("need_open_comment0", JStr "1");
     ("only_fans_can_comment0", JStr "0"); ("cdn_url0", JStr "");
     ("cdn_235_1_url0", JStr ""); ("cdn_1_1_url0", JStr "");
     ("cdn_url_back0", JStr ""); ("crop_list0", JStr "");
     ("music_id0", JStr ""); ("video_id0", JStr "");
     ("voteid0", JStr ""); ("voteismlt0", JStr "");
     ("supervoteid0", JStr ""); ("cardid0", JStr "");
     ("cardquantity0", JStr ""); ("cardlimit0", JStr "");
     ("vid_type0", JStr ""); ("show_cover_pic0", JStr "0");
     ("shortvideofileid0", JStr ""); ("copyright_type0", JStr "0");
     ("releasefirst0", JStr ""); ("platform0", JStr "");
     ("reprint_permit_type0", JStr ""); ("allow_reprint0", JStr "");
     ("allow_reprint_modify0", JStr "");
     ("original_article_type0", JStr "");
     ("ori_white_list0", JStr ""); ("free_content0", JStr "");
     ("fee0", JStr "0"); ("ad_id0", JStr "");
     ("guide_words0", JStr ""); ("is_share_copyright0", JStr "0");
     ("share_copyright_url0", JStr "");
     ("source_article_type0", JStr "");
     ("reprint_recommend_title0", JStr "");
     ("reprint_recommend_content0", JStr "");
     ("share_page_type0", JStr "0");
     ("share_imageinfo0", JStr shareImageInfo);
     ("share_video_id0", JStr ""); ("dot0", JStr "{}");
     ("share_voice_id0", JStr ""); ("insert_ad_mode0", JStr "");
     ("categories_list0", JStr "[]")].

Definition createUrl (meta : WeixinMeta) : string :=
  ("https://mp.weixin.qq.com/cgi-bin/operate_appmsg?t=ajax-response&sub=create&type=77&token="
     ++ token meta ++ "&lang=zh_CN")%string.

Definition draftUrl (meta : WeixinMeta) (appMsgId : JsValue) : string :=
  ("https://mp.weixin.qq.com/cgi-bin/appmsg?t=media/appmsg_edit&action=edit&type=77&appmsgid="
     ++ text appMsgId ++ "&token=" ++ token meta ++ "&lang=zh_CN")%string.

(** The request that creates the draft. *)
Definition createRequest (meta : WeixinMeta) (article : Article)
           (content : jsstring) (w : World) : Request :=
  mkRequest (createUrl meta) "POST"
            [("Content-Type", "application/x-www-form-urlencoded")]
            (JsonBody (draftForm meta article (textOf content) (random w))).

(** The [try] block of [publish]; [draftOnly] is [options?.draftOnly]. *)
Definition publishBody (article : Article) (draftOnly : option bool)
  : M (Weixin.St (World := World)) PublishResult :=
  (content <- prepareContent runtime_fetch scanPage markdownToHtml
                             cleanHtml processImages processContent
                             uploadImageByUrl article ;;
   st <- get ;;
   match fst st with
   | None => throw typeError
   | Some meta =>
       response <- fetch runtime_fetch
                         (createRequest meta article content (snd st)) ;;
       res <- await (resp_json response) ;;
       appMsgId <- await (getProp (Some res) "appMsgId") ;;
       if negb (truthy appMsgId) then
         (errMsg <- await (formatError (Some res)) ;;
          throw (mkError errMsg))
       else
         (st <- get ;;
          match fst st with
          | None => throw typeError
          | Some meta =>
              ret (Created appMsgId (draftUrl meta appMsgId)
                           (match draftOnly with
                            | Some b => b
                            | None => true
                            end))
          end)
   end)%async.

(** [publish]: whatever the [try] block throws becomes a failed result
    with the message of the error. *)
Definition publish (article : Article) (draftOnly : option bool)
  : M (Weixin.St (World := World)) PublishResult :=
  tryCatch (publishBody article draftOnly)
           (fun e => ret (Failed (message e))).

End WeixinPublish.

(** A signed-out page, for the examples: the request for the home page
    is answered, and nothing in it looks like a token. *)
Definition signedOutFetch : Request -> nat -> Outcome Response * nat :=
  fun _ n =>
    (Resolved (mkResponse true (Resolved "<html>login</html>")
                          (Rejected (mkError "SyntaxError"))
                          (fun _ => None)),
     S n).

(** A signed-in adapter and a destination that stores every image. *)
Definition signedIn : WeixinMeta :=
  mkMeta "tok" "gh_1" "nick" "tick" (Some "1700000000") "".

Definition cdnServer : Request -> nat -> Outcome Response * nat :=
  fun _ n =>
    (Resolved (mkResponse true (Resolved "")
                 (Resolved (JObj [("base_resp", JObj [("err_msg", JStr "ok")]);
                                  ("cdn_url", JStr "https://mmbiz.qpic.cn/x")]))
                 (fun _ => None)),
     S n).

Definition noMatches : string -> PageMatches :=
  fun _ => mkMatches None None None None None None None.

End WeixinPublish.


(* ================================================================== *)
(** * Juejin adapter: publishing *)
(* ================================================================== *)

Module JuejinPublish.
Import Async Adapter Juejin.
Local Open Scope string_scope.
Local Open Scope list_scope.

(** The fields of the [Article] of the core package that [publish]
    reads. *)
Record Article : Type := mkArticle {
  title : string;
  html : option string;
  markdown : option string
}.

(** What [publish] hands to [createResult] of the base class. *)
Inductive PublishResult : Type :=
| Created (postId : JsValue) (postUrl : string) (draftOnly : bool)
| Failed (error : string).

Definition skipPatterns : list string :=
  ["juejin.cn"; "p1-juejin"; "p3-juejin"; "p6-juejin"; "p9-juejin";
   "byteimg.com"].

Section JuejinPublish.
Context {World : Type}.

Variable runtime_fetch : Request -> World -> Outcome Response * World.
Variable fetch_blob : string -> World -> Outcome Blob * World.
Variable stringOf : Json -> string.

(** [String(response.status)], which [Response] leaves out, and
    [s.substring(0, 100)], counted in UTF-16 code units. *)
Variable statusText : Response -> string.
Variable first100 : string -> string.

(** [JSON.parse]; a rejection is the [SyntaxError]. *)
Variable JSON_parse : string -> Outcome Json.

(** The helpers of the base class and of the core package; their code
    is not part of these sources. *)
Variable cleanHtml : option string -> Outcome string.
Variable processImages :
  string -> (string -> M (Juejin.St (World := World)) ImageUploadResult) ->
  list string -> M (Juejin.St (World := World)) string.
Variable htmlToMarkdown : string -> Outcome string.

Definition text (v : JsValue) : string :=
  match v with
  | Some (JStr s) => s
  | Some j => stringOf j
  | None => "undefined"
  end.

(** The request that creates the draft. *)
Definition createRequest (csrfToken : string) (article : Article)
           (markdown : string) : Request :=
  mkRequest "https://api.juejin.cn/content_api/v1/article_draft/create" "POST"
            [("Content-Type", "application/json");
             ("x-secsdk-csrf-token", csrfToken)]
            (JsonBody
               (JObj [("brief_content", JStr ""); ("category_id", JStr "0");
                      ("cover_image", JStr ""); ("edit_type", JNum 10);
                      ("html_content", JStr "deprecated");
                      ("link_url", JStr ""); ("mark_content", JStr markdown);
                      ("tag_ids", JArr []); ("title", JStr (title article))])).

(** [article.html || article.markdown] *)
Definition rawHtml (article : Article) : option string :=
  match html article with
  | Some (String c t) => Some (String c t)
  | _ => markdown article
  end.

(** The [try] block of [publish]; [draftOnly] is [options?.draftOnly]. *)
Definition publishBody (article : Article) (draftOnly : option bool)
  : M (Juejin.St (World := World)) PublishResult :=
  (csrfToken <- getCsrfToken runtime_fetch ;;
   content <- await (cleanHtml (rawHtml article)) ;;
   content <- processImages content
                            (uploadImageByUrl runtime_fetch fetch_blob stringOf)
                            skipPatterns ;;
   markdown <- await (htmlToMarkdown content) ;;
   createResponse <- fetch runtime_fetch
                           (createRequest csrfToken article markdown) ;;
   responseText <- await (resp_text createResponse) ;;
   if negb (resp_ok createResponse) then
     throw (mkError ("创建草稿失败: " ++ statusText createResponse
                       ++ " - " ++ responseText)%string)
   else
     (createData <-
        await (match JSON_parse responseText with
               | Resolved d => Resolved d
               | Rejected _ =>
                   Rejected (mkError ("创建草稿失败: 响应不是有效 JSON - "
                                        ++ first100 responseText)%string)
               end) ;;
      err_no <- await (getProp (Some createData) "err_no") ;;
      if truthy err_no && notZero err_no then
        throw (mkError (messageOr stringOf
                          (getPropOpt (Some createData) "err_msg")
                          ("创建草稿失败: 错误码 " ++ text err_no)%string))
      else
        let draftId :=
          getPropOpt (getPropOpt (Some createData) "data") "id" in
        if negb (truthy draftId) then
          throw (mkError (messageOr stringOf
                            (getPropOpt (Some createData) "err_msg")
                            "创建草稿失败: 无效响应"))
        else
          ret (Created draftId
                       ("https://juejin.cn/editor/drafts/" ++ text draftId)%string
                       (match draftOnly with
                        | Some b => b
                        | None => true
                        end))))%async.

(** [publish]: whatever the [try] block throws becomes a failed result
    with the message of the error. *)
Definition publish (article : Article) (draftOnly : option bool)
  : M (Juejin.St (World := World)) PublishResult :=
  tryCatch (publishBody article draftOnly)
           (fun e => ret (Failed (message e))).

End JuejinPublish.
End JuejinPublish.
(* ================================================================== *)
(** * Properties *)
(* ================================================================== *)

Module JsIntFacts.
Import JsInt.

Lemma ToUint32_ones x : ToUint32 x = Z.land x (Z.ones 32).
Proof. unfold ToUint32. now rewrite Z.land_ones by lia. Qed.

Lemma ToUint32_range x : 0 <= ToUint32 x < 2 ^ 32.
Proof. unfold ToUint32. apply Z.mod_pos_bound. lia. Qed.

Lemma ToUint32_small x : 0 <= x < 2 ^ 32 -> ToUint32 x = x.
Proof. intros. unfold ToUint32. now apply Z.mod_small. Qed.

Lemma ToUint32_idem x : ToUint32 (ToUint32 x) = ToUint32 x.
Proof. apply ToUint32_small, ToUint32_range. Qed.

Lemma ToUint32_ToInt32 x : ToUint32 (ToInt32 x) = ToUint32 x.
Proof.
  unfold ToInt32, ToUint32.
  destruct (x mod 2 ^ 32 <? 2 ^ 31).
  - apply Z.mod_mod. lia.
  - replace (x mod 2 ^ 32 - 2 ^ 32) with (x mod 2 ^ 32 + (-1) * 2 ^ 32) by lia.
    rewrite Z.mod_add by lia. apply Z.mod_mod. lia.
Qed.

Lemma ToUint32_lxor a b :
  ToUint32 (Z.lxor a b) = Z.lxor (ToUint32 a) (ToUint32 b).
Proof.
  rewrite !ToUint32_ones. apply Z.bits_inj'. intros n Hn.
  rewrite Z.lxor_spec, !Z.land_spec, Z.lxor_spec.
  destruct (Z.testbit (Z.ones 32) n); 
    now rewrite ?andb_true_r, ?andb_false_r.
Qed.

Lemma ToUint32_xor a b :
  ToUint32 (xor a b) = Z.lxor (ToUint32 a) (ToUint32 b).
Proof. unfold xor. now rewrite ToUint32_lxor, !ToUint32_ToInt32. Qed.

(** Masking with a non-negative constant below [2^31] only looks at the
    unsigned reading of the left operand. *)
Lemma and_mask x m :
  0 <= m < 2 ^ 31 -> and x m = Z.land (ToUint32 x) m.
Proof.
  intros Hm. unfold and.
  assert (Hm' : ToInt32 m = m).
  { unfold ToInt32. rewrite Z.mod_small by lia.
    destruct (m <? 2 ^ 31) eqn:E; [reflexivity | apply Z.ltb_ge in E; lia]. }
  rewrite Hm'.
  rewrite <- (ToUint32_ToInt32 x), ToUint32_ones, <- Z.land_assoc.
  f_equal. rewrite Z.land_comm, Z.land_ones by lia.
  symmetry. apply Z.mod_small. lia.
Qed.

Lemma ushr_unsigned x n :
  0 <= n < 32 -> ushr x n = Z.shiftr (ToUint32 x) n.
Proof. intros. unfold ushr. now rewrite Z.mod_small by lia. Qed.

Lemma shiftr_range x n :
  0 <= n -> 0 <= x < 2 ^ 32 -> 0 <= Z.shiftr x n < 2 ^ 32.
Proof.
  intros Hn Hx. rewrite Z.shiftr_div_pow2 by lia. split.
  - apply Z.div_pos; lia.
  - apply Z.le_lt_trans with x; [|lia].
    apply Z.div_le_upper_bound; [lia|]. 
    assert (0 < 2 ^ n) by (apply Z.pow_pos_nonneg; lia). nia.
Qed.

End JsIntFacts.

Module Crc32Facts.
Import JsInt JsIntFacts Crc32.

(** *** The bitwise step is linear over exclusive or *)

(** Equations between exclusive ors, settled bit by bit. *)
Ltac lxor_bits :=
  apply Z.bits_inj'; intros ?n _; rewrite !Z.lxor_spec;
  repeat match goal with
         | |- context [Z.testbit ?x ?n] =>
             lazymatch x with
             | Z.lxor _ _ => fail
             | _ => destruct (Z.testbit x n)
             end
         end; reflexivity.

Lemma refStep_lxor a b :
  refStep (Z.lxor a b) = Z.lxor (refStep a) (refStep b).
Proof.
  unfold refStep. rewrite Z.lxor_spec, Z.shiftr_lxor.
  destruct (Z.testbit a 0), (Z.testbit b 0); simpl; lxor_bits.
Qed.

Lemma iter_refStep_lxor k a b :
  Nat.iter k refStep (Z.lxor a b) =
  Z.lxor (Nat.iter k refStep a) (Nat.iter k refStep b).
Proof.
  induction k as [|k IH]; simpl; [reflexivity|].
  now rewrite IH, refStep_lxor.
Qed.

Lemma refStep_shiftl h m :
  0 <= m -> refStep (Z.shiftl h (Z.succ m)) = Z.shiftl h m.
Proof.
  intros Hm. unfold refStep.
  rewrite Z.shiftl_spec_low by lia.
  rewrite Z.shiftr_shiftl_l by lia. f_equal. lia.
Qed.

Lemma iter_refStep_shiftl k h :
  Nat.iter k refStep (Z.shiftl h (Z.of_nat k)) = h.
Proof.
  induction k as [|k IH].
  - simpl. apply Z.shiftl_0_r.
  - rewrite Nat.iter_succ_r, Nat2Z.inj_succ, refStep_shiftl by lia. exact IH.
Qed.

Lemma split_low8 x :
  x = Z.lxor (Z.shiftl (Z.shiftr x 8) 8) (Z.land x 255).
Proof.
  apply Z.bits_inj'. intros n Hn.
  rewrite Z.lxor_spec, Z.land_spec.
  change 255 with (Z.ones 8).
  destruct (Z_lt_ge_dec n 8) as [Hlt|Hge].
  - rewrite Z.shiftl_spec_low by lia.
    rewrite Z.ones_spec_low by lia. now rewrite andb_true_r.
  - rewrite Z.shiftl_spec by lia. rewrite Z.shiftr_spec by lia.
    rewrite Z.ones_spec_high by lia. rewrite andb_false_r, xorb_false_r.
    f_equal. lia.
Qed.

Lemma byteZ_range b : 0 <= byteZ b < 256.
Proof.
  unfold byteZ. pose proof (Byte.to_N_bounded b) as H.
  lia.
Qed.

(** The byte-at-a-time form of the bitwise algorithm. *)
Lemma refByte_table c b :
  refByte c b =
  Z.lxor (Z.shiftr c 8)
         (Nat.iter 8 refStep (Z.land (Z.lxor c (byteZ b)) 255)).
Proof.
  unfold refByte.
  rewrite (split_low8 (Z.lxor c (byteZ b))) at 1.
  rewrite iter_refStep_lxor.
  rewrite (iter_refStep_shiftl 8). f_equal.
  rewrite Z.shiftr_lxor.
  assert (Hb : Z.shiftr (byteZ b) 8 = 0).
  { pose proof (byteZ_range b). rewrite Z.shiftr_div_pow2 by lia.
    apply Z.div_small. simpl. lia. }
  rewrite Hb. apply Z.lxor_0_r.
Qed.

(** *** The lookup table holds the eight-step images of the indices *)

Lemma and_1_testbit c :
  (and c 1 =? 0) = negb (Z.testbit (ToUint32 c) 0).
Proof.
  rewrite and_mask by lia. change 1 with (Z.ones 1).
  rewrite Z.land_ones by lia. change (2 ^ 1) with 2.
  rewrite Z.bit0_odd, Zmod_odd.
  now destruct (Z.odd (ToUint32 c)).
Qed.

Lemma entryStep_ref c :
  ToUint32 (if and c 1 =? 0 then ushr c 1 else xor 0xEDB88320 (ushr c 1))
  = refStep (ToUint32 c).
Proof.
  rewrite and_1_testbit. unfold refStep.
  rewrite ushr_unsigned by lia.
  pose proof (shiftr_range (ToUint32 c) 1 ltac:(lia) (ToUint32_range c)) as Hr.
  destruct (Z.testbit (ToUint32 c) 0); simpl negb; cbv iota.
  - rewrite ToUint32_xor, (ToUint32_small (Z.shiftr _ _)) by exact Hr.
    rewrite ToUint32_small by lia. apply Z.lxor_comm.
  - now apply ToUint32_small.
Qed.

Lemma entryLoop_ref j c :
  ToUint32 (entryLoop j c) = Nat.iter j refStep (ToUint32 c).
Proof.
  revert c. induction j as [|j IH]; intros c.
  - reflexivity.
  - cbn [entryLoop]. rewrite IH, entryStep_ref. now rewrite Nat.iter_succ_r.
Qed.

Lemma buildTable_length : List.length buildTable = 256%nat.
Proof. unfold buildTable. now rewrite length_map, length_seq. Qed.

Lemma buildTable_nth i :
  0 <= i < 256 ->
  nth (Z.to_nat i) buildTable 0 = Nat.iter 8 refStep i.
Proof.
  intros Hi. unfold buildTable.
  set (f := fun k : nat => ToUint32 (entryLoop 8 (Z.of_nat k))).
  rewrite (nth_indep _ 0 (f 0%nat)) by (rewrite length_map, length_seq; lia).
  rewrite map_nth, seq_nth by lia. unfold f.
  rewrite entryLoop_ref. simpl Nat.add. rewrite Z2Nat.id by lia.
  now rewrite ToUint32_small by lia.
Qed.

Lemma buildTable_entry_range i :
  0 <= i < 256 -> 0 <= nth (Z.to_nat i) buildTable 0 < 2 ^ 32.
Proof.
  intros Hi. unfold buildTable.
  set (f := fun k : nat => ToUint32 (entryLoop 8 (Z.of_nat k))).
  rewrite (nth_indep _ 0 (f 0%nat)) by (rewrite length_map, length_seq; lia).
  rewrite map_nth. unfold f. apply ToUint32_range.
Qed.

(** *** The table-driven loop computes the bitwise algorithm *)

Lemma land_255_range x : 0 <= Z.land x 255 < 256.
Proof.
  change 255 with (Z.ones 8). rewrite Z.land_ones by lia.
  apply Z.mod_pos_bound. lia.
Qed.

Lemma update_ref crc b :
  ToUint32 (update buildTable crc b) = refByte (ToUint32 crc) b.
Proof.
  unfold update. rewrite refByte_table.
  pose proof (byteZ_range b) as Hb.
  rewrite ToUint32_xor, and_mask, ToUint32_xor by lia.
  rewrite (ToUint32_small (byteZ b)) by lia.
  set (idx := Z.land (Z.lxor (ToUint32 crc) (byteZ b)) 255).
  pose proof (land_255_range (Z.lxor (ToUint32 crc) (byteZ b))) as Hidx.
  fold idx in Hidx.
  rewrite ushr_unsigned by lia.
  rewrite (ToUint32_small (Z.shiftr _ _))
    by (apply shiftr_range; [lia | apply ToUint32_range]).
  rewrite (ToUint32_small (nth _ _ _)) by now apply buildTable_entry_range.
  now rewrite buildTable_nth.
Qed.

Lemma fold_update_ref data crc :
  ToUint32 (fold_left (update buildTable) data crc)
  = fold_left refByte data (ToUint32 crc).
Proof.
  revert crc. induction data as [|b data IH]; intros crc; simpl.
  - reflexivity.
  - now rewrite IH, update_ref.
Qed.

Lemma final_xor_ref data :
  ushr (xor (fold_left (update buildTable) data 0xFFFFFFFF) 0xFFFFFFFF) 0
  = crc32_iso_hdlc data.
Proof.
  rewrite ushr_unsigned by lia. rewrite Z.shiftr_0_r.
  rewrite ToUint32_xor, fold_update_ref. reflexivity.
Qed.

Lemma crc32_iso_hdlc_range data : 0 <= crc32_iso_hdlc data < 2 ^ 32.
Proof.
  rewrite <- final_xor_ref, ushr_unsigned, Z.shiftr_0_r by lia.
  apply ToUint32_range.
Qed.

(** *** The hexadecimal rendering *)

Lemma hexValueOfChar_hexDigit d :
  0 <= d < 16 -> hexValueOfChar (hexDigit d) = Some d.
Proof.
  intros Hd.
  assert (H : d = 0 \/ d = 1 \/ d = 2 \/ d = 3 \/ d = 4 \/ d = 5 \/ d = 6
              \/ d = 7 \/ d = 8 \/ d = 9 \/ d = 10 \/ d = 11 \/ d = 12
              \/ d = 13 \/ d = 14 \/ d = 15) by lia.
  repeat (destruct H as [-> | H]; [reflexivity|]). now subst.
Qed.

Lemma hexValue_aux_app s1 s2 acc :
  hexValue_aux (s1 ++ s2) acc =
  match hexValue_aux s1 acc with
  | Some a => hexValue_aux s2 a
  | None => None
  end.
Proof.
  revert acc. induction s1 as [|c s1 IH]; intros acc; simpl.
  - reflexivity.
  - destruct (hexValueOfChar c); [apply IH | reflexivity].
Qed.

Lemma length_app s1 s2 :
  String.length (s1 ++ s2) = (String.length s1 + String.length s2)%nat.
Proof. induction s1; simpl; congruence. Qed.

Lemma app_assoc s1 s2 s3 : ((s1 ++ s2) ++ s3 = s1 ++ (s2 ++ s3))%string.
Proof. induction s1; simpl; congruence. Qed.

(** With enough fuel, [toString16_aux] prepends the digits of [n]: a
    non-empty numeral that reads back as [n] and has at most [k] digits
    when [n < 16^k]. *)
Lemma toString16_aux_S f n acc :
  toString16_aux (S f) n acc =
  if n / 16 =? 0 then String (hexDigit (n mod 16)) acc
  else toString16_aux f (n / 16) (String (hexDigit (n mod 16)) acc).
Proof. reflexivity. Qed.

Lemma single_digit n acc :
  0 <= n -> n / 16 = 0 ->
  let d := String (hexDigit (n mod 16)) EmptyString in
  String (hexDigit (n mod 16)) acc = (d ++ acc)%string
  /\ (forall a, hexValue_aux d a
                = Some (a * 16 ^ Z.of_nat (String.length d) + n))
  /\ (forall k, (0 < k)%nat -> n < 16 ^ Z.of_nat k ->
                (String.length d <= k)%nat)
  /\ (1 <= String.length d)%nat.
Proof.
  intros Hn E d.
  assert (Hm : 0 <= n mod 16 < 16) by (apply Z.mod_pos_bound; lia).
  assert (Hdiv : n = 16 * (n / 16) + n mod 16) by (apply Z.div_mod; lia).
  subst d. cbn [String.append String.length hexValue_aux].
  rewrite hexValueOfChar_hexDigit by exact Hm.
  change (16 ^ Z.of_nat 1) with 16.
  repeat split; intros; try lia. f_equal. lia.
Qed.

Lemma toString16_aux_spec fuel :
  forall n acc,
    0 <= n < 16 ^ Z.of_nat (S fuel) ->
    exists d,
      toString16_aux (S fuel) n acc = (d ++ acc)%string
      /\ (forall a, hexValue_aux d a
                    = Some (a * 16 ^ Z.of_nat (String.length d) + n))
      /\ (forall k, (0 < k)%nat -> n < 16 ^ Z.of_nat k ->
                    (String.length d <= k)%nat)
      /\ (1 <= String.length d)%nat.
Proof.
  induction fuel as [|f IH]; intros n acc Hn;
    assert (Hm : 0 <= n mod 16 < 16) by (apply Z.mod_pos_bound; lia);
    assert (Hdiv : n = 16 * (n / 16) + n mod 16) by (apply Z.div_mod; lia);
    rewrite toString16_aux_S;
    destruct (Z.eqb_spec (n / 16) 0) as [E|E].
  - eexists. apply single_digit; [lia | exact E].
  - exfalso. apply E. apply Z.div_small. 
    change (16 ^ Z.of_nat 1) with 16 in Hn. lia.
  - eexists. apply single_digit; [lia | exact E].
  - assert (Hq : 0 <= n / 16 < 16 ^ Z.of_nat (S f)).
    { split; [apply Z.div_pos; lia|].
      apply Z.div_lt_upper_bound; [lia|].
      rewrite (Nat2Z.inj_succ (S f)), Z.pow_succ_r in Hn by lia. lia. }
    destruct (IH (n / 16) (String (hexDigit (n mod 16)) acc) Hq)
      as (d & Hd & Hval & Hlen & Hpos).
    exists (d ++ String (hexDigit (n mod 16)) EmptyString)%string.
    rewrite Hd, app_assoc, length_app.
    cbn [String.append String.length].
    split; [reflexivity|]. split; [|split].
    + intros a. rewrite hexValue_aux_app, Hval.
      cbn [hexValue_aux]. rewrite hexValueOfChar_hexDigit by exact Hm.
      f_equal.
      replace (Z.of_nat (String.length d + 1))
        with (Z.succ (Z.of_nat (String.length d))) by lia.
      rewrite Z.pow_succ_r by lia. lia.
    + intros k Hk Hnk. destruct k as [|k]; [lia|].
      destruct k as [|k].
      { change (16 ^ Z.of_nat 1) with 16 in Hnk. 
        exfalso. apply E. apply Z.div_small. lia. }
      assert ((String.length d <= S k)%nat); [|lia].
      apply Hlen; [lia|].
      apply Z.div_lt_upper_bound; [lia|].
      rewrite (Nat2Z.inj_succ (S k)), Z.pow_succ_r in Hnk by lia. lia.
    + lia.
Qed.

Lemma toString16_fuel n :
  0 <= n -> n < 16 ^ Z.of_nat (S (Z.to_nat (Z.log2 n))).
Proof.
  intros Hn. rewrite Nat2Z.inj_succ, Z2Nat.id by apply Z.log2_nonneg.
  destruct (Z.eq_dec n 0) as [->|Hne].
  - simpl. lia.
  - pose proof (Z.log2_spec n ltac:(lia)) as [_ Hlt].
    apply Z.lt_le_trans with (2 ^ Z.succ (Z.log2 n)); [exact Hlt|].
    apply Z.pow_le_mono_l. lia.
Qed.

Lemma hexValue_repeat_zero k a :
  hexValue_aux (repeatChar k "0"%char) a = Some (a * 16 ^ Z.of_nat k).
Proof.
  revert a. induction k as [|k IH]; intros a.
  - simpl. f_equal. lia.
  - cbn [repeatChar hexValue_aux]. 
    change (hexValueOfChar "0"%char) with (Some 0). cbv iota beta.
    rewrite IH, Nat2Z.inj_succ, Z.pow_succ_r by lia. f_equal. lia.
Qed.

Lemma length_repeatChar k c : String.length (repeatChar k c) = k.
Proof. induction k; simpl; congruence. Qed.

(** [n.toString(16).padStart(8, '0')] is an eight-digit lowercase
    hexadecimal numeral of [n] whenever [n] is an unsigned 32-bit value. *)
Lemma hex8_spec n :
  0 <= n < 2 ^ 32 ->
  hexValue (padStart 8 "0"%char (toString16 n)) = Some n
  /\ String.length (padStart 8 "0"%char (toString16 n)) = 8%nat.
Proof.
  intros Hn. unfold toString16, padStart, hexValue.
  destruct (toString16_aux_spec (Z.to_nat (Z.log2 n)) n EmptyString
              (conj (proj1 Hn) (toString16_fuel n (proj1 Hn))))
    as (d & Hd & Hval & Hlen & Hpos).
  rewrite Hd.
  assert (Hnil : forall s, (s ++ "")%string = s)
    by (induction s; simpl; congruence).
  rewrite Hnil.
  assert (Hle : (String.length d <= 8)%nat).
  { apply Hlen; [lia|]. change (16 ^ Z.of_nat 8) with (2 ^ 32). lia. }
  split.
  - rewrite hexValue_aux_app, hexValue_repeat_zero, Hval. f_equal; lia.
  - rewrite length_app, length_repeatChar. lia.
Qed.

Lemma crc32_value data cache :
  cacheOk cache ->
  crc32 data cache
  = (padStart 8 "0"%char (toString16 (crc32_iso_hdlc data)), Some buildTable).
Proof.
  intros [-> | ->]; unfold crc32; cbn [getCRC32Table];
    now rewrite final_xor_ref.
Qed.

(** C6. [crc32] computes the CRC-32/ISO-HDLC value of every byte sequence
    (reflected polynomial 0xEDB88320, initial value 0xFFFFFFFF, final XOR
    0xFFFFFFFF, here the bit-by-bit reference [crc32_iso_hdlc]) and
    returns it as a numeral of exactly eight lowercase hexadecimal digits;
    on the ASCII bytes of "123456789" the result is "cbf43926". The
    lookup table has 256 entries and is built once: with an empty cache
    [getCRC32Table] builds it and stores it, and with a filled cache,
    whatever table it holds, it hands that very table back and leaves the
    cache as it is; so does [crc32], which therefore never rebuilds the
    table after the first call. *)
Theorem crc32_standard (data : list byte) (cache : TableCache) :
  (cacheOk cache ->
   hexValue (fst (crc32 data cache)) = Some (crc32_iso_hdlc data)
   /\ String.length (fst (crc32 data cache)) = 8%nat
   /\ fst (crc32 ["1";"2";"3";"4";"5";"6";"7";"8";"9"]%byte cache)
      = "cbf43926"%string
   /\ crc32_iso_hdlc ["1";"2";"3";"4";"5";"6";"7";"8";"9"]%byte = 0xCBF43926
   /\ snd (crc32 data cache) = Some buildTable)
  /\ List.length buildTable = 256%nat
  /\ getCRC32Table None = (buildTable, Some buildTable)
  /\ (forall t, getCRC32Table (Some t) = (t, Some t))
  /\ snd (crc32 data None) = Some buildTable
  /\ (forall t, snd (crc32 data (Some t)) = Some t)
  /\ (forall t,
        fst (crc32 data (Some t))
        = padStart 8 "0"%char
            (toString16
               (JsInt.ushr (JsInt.xor (fold_left (update t) data 0xFFFFFFFF)
                                      0xFFFFFFFF) 0))).
Proof.
  split.
  - intros Hc. rewrite !(crc32_value _ _ Hc). cbn [fst snd].
    destruct (hex8_spec _ (crc32_iso_hdlc_range data)) as [Hv Hl].
    split; [exact Hv|]. split; [exact Hl|].
    split; [vm_compute; reflexivity|].
    split; [vm_compute; reflexivity|]. reflexivity.
  - split; [exact buildTable_length|].
    split; [reflexivity|]. split; [reflexivity|].
    split; [reflexivity|]. split; reflexivity.
Qed.

Lemma crc32_standard_witness :
  cacheOk None
  /\ hexValue (fst (crc32 ["a";"b";"c"]%byte None))
     = Some (crc32_iso_hdlc ["a";"b";"c"]%byte).
Proof.
  split.
  - left. reflexivity.
  - apply (proj1 (crc32_standard ["a";"b";"c"]%byte None)). left. reflexivity.
Defined.

End Crc32Facts.

Module McpFacts.
Import Async Mcp.
Local Open Scope string_scope.

Section Reconnect.
Context {Result : Type}.
Implicit Type c : McpClient Result.

Lemma scheduleReconnect_pending c d :
  reconnectTimer c = Some d -> scheduleReconnect c = c.
Proof. unfold scheduleReconnect. now intros ->. Qed.

Lemma scheduleReconnect_exhausted c :
  (maxReconnectAttempts <= reconnectAttempts c)%nat ->
  scheduleReconnect c = c.
Proof.
  intros H. unfold scheduleReconnect.
  destruct (reconnectTimer c); [reflexivity|].
  apply Nat.leb_le in H. now rewrite H.
Qed.

Lemma scheduleReconnect_arms c :
  reconnectTimer c = None ->
  (reconnectAttempts c < maxReconnectAttempts)%nat ->
  scheduleReconnect c
  = mkClient (ws c) (Some (reconnectDelay (reconnectAttempts c)))
             (token c) (S (reconnectAttempts c)).
Proof.
  intros Ht Hn. unfold scheduleReconnect. rewrite Ht.
  apply Nat.leb_gt in Hn. now rewrite Hn.
Qed.

Lemma resetReconnect_attempts b c :
  (reconnectAttempts (resetReconnect b c) <= 1)%nat.
Proof.
  unfold resetReconnect, connect.
  destruct (isConnected _); [simpl; lia|].
  destruct b; [|simpl; lia].
  unfold scheduleReconnect. cbn [reconnectTimer reconnectAttempts].
  destruct (reconnectTimer c); simpl; lia.
Qed.
End Reconnect.

(** C3. When [scheduleReconnect] arms a timer at attempt counter [n], the
    delay is [min(1000 * 2^n, 30000)] ms (and the counter becomes
    [n + 1]); for [n = 0..6] the delays are 1000, 2000, 4000, 8000, 16000,
    30000, 30000; with a timer pending nothing is scheduled; with the
    counter at or above 100 nothing is scheduled, and [resetReconnect]
    brings the counter back below the maximum. *)
Theorem reconnect_backoff {Result : Type} (c : McpClient Result) :
  (reconnectTimer c = None ->
   (reconnectAttempts c < 100)%nat ->
   reconnectTimer (scheduleReconnect c)
     = Some (Z.min (1000 * 2 ^ Z.of_nat (reconnectAttempts c)) 30000)
   /\ reconnectAttempts (scheduleReconnect c) = S (reconnectAttempts c)
   /\ ws (scheduleReconnect c) = ws c
   /\ token (scheduleReconnect c) = token c)
  /\ map (@reconnectDelay) [0; 1; 2; 3; 4; 5; 6]%nat
     = [1000; 2000; 4000; 8000; 16000; 30000; 30000]
  /\ (reconnectTimer c <> None -> scheduleReconnect c = c)
  /\ ((100 <= reconnectAttempts c)%nat -> scheduleReconnect c = c)
  /\ (forall b, (reconnectAttempts (resetReconnect b c) < 100)%nat).
Proof.
  split; [|split; [|split; [|split]]].
  - intros Ht Hn. rewrite (scheduleReconnect_arms c Ht Hn). now cbn.
  - reflexivity.
  - destruct (reconnectTimer c) as [d|] eqn:E; [|congruence].
    intros _. now apply scheduleReconnect_pending with d.
  - apply scheduleReconnect_exhausted.
  - intros b. pose proof (resetReconnect_attempts b c). lia.
Qed.

Lemma reconnect_backoff_witness :
  reconnectTimer (scheduleReconnect (mkClient (Result := unit) None None None 5))
  = Some 30000.
Proof.
  apply (proj1 (reconnect_backoff (mkClient (Result := unit) None None None 5)));
    [reflexivity | cbn; lia].
Defined.

Section Gate.
Context {Result Params World : Type}.
Variable JSON_parse : string -> option (RequestMessage Params).
Implicit Type c : McpClient Result.
Implicit Type m : RequestMessage Params.
Implicit Type h : string -> option Params -> World -> Outcome Result * World.

Lemma respond_401 h m c (w : World) :
  tokenConfigured c = false ->
  respond h m c w = (rejection m 401 "MCP token not configured", w).
Proof.
  unfold tokenConfigured, respond. intros H.
  apply negb_false_iff in H. now rewrite H.
Qed.

Lemma respond_403 h m c (w : World) :
  tokenConfigured c = true -> tokenDiffers m c = true ->
  respond h m c w = (rejection m 403 "Invalid or missing token", w).
Proof.
  unfold tokenConfigured, respond. intros H Hd.
  apply negb_true_iff in H. now rewrite H, Hd.
Qed.

(** [send] never changes the ready state of the socket, the timer, the
    token or the counter. *)
Lemma send_preserves (frame : ResponseMessage Result) c :
  option_map readyState (ws (snd (send frame c)))
  = option_map readyState (ws c)
  /\ reconnectTimer (snd (send frame c)) = reconnectTimer c
  /\ token (snd (send frame c)) = token c
  /\ reconnectAttempts (snd (send frame c)) = reconnectAttempts c.
Proof.
  unfold send. destruct (ws c) as [s|] eqn:E; cbn; rewrite ?E; auto.
  destruct (readyState s) eqn:R; cbn; rewrite ?E; cbn; rewrite ?R; auto.
Qed.

Lemma send_open (frame : ResponseMessage Result) c s :
  ws c = Some s -> readyState s = OPEN ->
  ws (snd (send frame c)) = Some (mkSocket OPEN (outbox s ++ [frame])).
Proof. unfold send. intros -> ->. reflexivity. Qed.

Lemma turnedAway_intro h data m c (w : World) code msg :
  JSON_parse data = Some m ->
  (forall h', respond h' m c w = (rejection m code msg, w)) ->
  turnedAway JSON_parse h data m c w code msg
  /\ (forall h', handleMessage JSON_parse h' data c w
                 = handleMessage JSON_parse h data c w).
Proof.
  intros Hp Hr. unfold turnedAway, handleMessage. rewrite Hp.
  rewrite (Hr h). cbn [fst snd].
  destruct (send_preserves (rejection m code msg) c) as (A & B & C & D).
  split.
  - split; [reflexivity|]. split; [exact A|]. split; [exact B|].
    split; [exact C|]. split; [exact D|].
    intros s Hs Ho. now apply send_open.
  - intros h'. now rewrite (Hr h').
Qed.

(** C4. For every inbound request [{id, method, token, params}]: when no
    token is configured (the source's test [!this.token]: [null], or
    the empty string) the response carries the request's id and error
    code 401; when a token is configured and the message's token is
    absent or differs, it carries the id and code 403; in both cases
    the method table is not consulted (the outcome is the same for
    every [handleMethod]), the world behind it is unchanged, and the
    socket stays in its ready state, with exactly that response sent
    when it is open. *)
Theorem token_gate h (data : string) m c (w : World) :
  JSON_parse data = Some m ->
  (token c = None -> tokenConfigured c = false)
  /\ (tokenConfigured c = false ->
      respond h m c w = (rejection m 401 "MCP token not configured", w)
      /\ turnedAway JSON_parse h data m c w 401 "MCP token not configured"
      /\ (forall h', handleMessage JSON_parse h' data c w
                     = handleMessage JSON_parse h data c w))
  /\ (tokenConfigured c = true ->
      req_token m <> token c ->
      respond h m c w = (rejection m 403 "Invalid or missing token", w)
      /\ turnedAway JSON_parse h data m c w 403 "Invalid or missing token"
      /\ (forall h', handleMessage JSON_parse h' data c w
                     = handleMessage JSON_parse h data c w)).
Proof.
  intros Hp. split; [|split].
  - unfold tokenConfigured, tokenMissing. now intros ->.
  - intros H. split; [now apply respond_401|].
    apply turnedAway_intro; [exact Hp|]. intros h'. now apply respond_401.
  - intros H Hne.
    assert (Hd : tokenDiffers m c = true).
    { unfold tokenDiffers. destruct (req_token m) as [a|]; [|reflexivity].
      destruct (token c) as [b|]; [|reflexivity].
      destruct (String.eqb_spec a b) as [->|]; [congruence|reflexivity]. }
    split; [now apply respond_403|].
    apply turnedAway_intro; [exact Hp|]. intros h'. now apply respond_403.
Qed.
End Gate.

(** A request without a token, against a client configured with "s3cret"
    on an open socket. *)
Lemma token_gate_witness :
  let c := mkClient (Result := unit) (Some (mkSocket OPEN [])) None (Some "s3cret") 0 in
  let m := mkRequest (Params := unit) "7" "listPlatforms" None None in
  ws (fst (handleMessage (fun _ => Some m)
                         (fun _ _ (w : unit) => (Resolved tt, w)) "{}" c tt))
  = Some (mkSocket OPEN [mkResponse "7" None (Some (403, "Invalid or missing token"))]).
Proof.
  intros c m.
  pose proof (token_gate (fun _ => Some m)
                (fun _ _ (w : unit) => (Resolved tt, w)) "{}" m c tt eq_refl)
    as (_ & _ & H).
  destruct (H eq_refl ltac:(discriminate)) as (_ & T & _).
  exact (proj2 (proj2 (proj2 (proj2 (proj2 T))))
           (mkSocket OPEN []) eq_refl eq_refl).
Defined.

End McpFacts.

Module SyncFacts.
Import Async Sync.
Local Open Scope string_scope.
Local Open Scope list_scope.

(** C9. If [startSync] is invoked while no article is loaded or the
    platform selection is empty, there is no transition: the status is
    unchanged (it does not become [syncing]), the result list and the
    selection are unchanged, no call leaves the store (in particular no
    publish call), and a validation message is recorded in [error]. *)
Theorem startSync_validation (env : Env) (s : SyncState) (w : World) :
  article s = None \/ selectedPlatforms s = [] ->
  exists msg,
    startSync env (s, w) = (Resolved tt, (set_error (Some msg) s, w))
    /\ msg <> ""
    /\ status (set_error (Some msg) s) = status s
    /\ results (set_error (Some msg) s) = results s
    /\ selectedPlatforms (set_error (Some msg) s) = selectedPlatforms s
    /\ st_error (set_error (Some msg) s) = Some msg.
Proof.
  intros H. unfold startSync.
  destruct (article s) as [a|] eqn:Ea.
  - destruct H as [H|H]; [discriminate|]. rewrite H.
    exists "请选择要同步的平台". 
    split; [reflexivity|]. split; [discriminate|]. now repeat split.
  - exists "未检测到文章内容".
    split; [reflexivity|]. split; [discriminate|]. now repeat split.
Qed.

Lemma startSync_validation_witness :
  exists msg,
    startSync (mkEnv (fun w _ _ _ => (Resolved None, syncHistory w))
                     (fun w _ _ => (Resolved None, syncHistory w))
                     (fun _ => None) (fun _ _ => None) (fun _ => []))
              (mkState idle None [] ["juejin"] [] None None [] true,
               mkWorld None [])
    = (Resolved tt,
       (mkState idle None [] ["juejin"] [] (Some msg) None [] true,
        mkWorld None [])).
Proof.
  destruct (startSync_validation
              (mkEnv (fun w _ _ _ => (Resolved None, syncHistory w))
                     (fun w _ _ => (Resolved None, syncHistory w))
                     (fun _ => None) (fun _ _ => None) (fun _ => []))
              (mkState idle None [] ["juejin"] [] None None [] true)
              (mkWorld None [])
              (or_introl eq_refl)) as (msg & H & _).
  exists msg. exact H.
Defined.

(** *** The progress listener *)

Lemma progressed_refl s : progressed s s.
Proof.
  unfold progressed. repeat split. exists []. now rewrite app_nil_r.
Qed.

Lemma progressed_trans s1 s2 s3 :
  progressed s1 s2 -> progressed s2 s3 -> progressed s1 s3.
Proof.
  intros (A1 & A2 & A3 & A4 & A5 & A6 & A7 & x & A8)
         (B1 & B2 & B3 & B4 & B5 & B6 & B7 & y & B8).
  unfold progressed. repeat split; try congruence.
  exists (x ++ y). rewrite B8, A8. now rewrite <- app_assoc.
Qed.

Lemma onMessage_progressed m s : progressed s (onMessage m s).
Proof.
  destruct m as [r|p]; unfold progressed; cbn; repeat split.
  - now exists [r].
  - exists []. now rewrite app_nil_r.
Qed.

Lemma deliver_progressed ms : forall s, progressed s (deliver ms s).
Proof.
  induction ms as [|m ms IH]; intros s.
  - apply progressed_refl.
  - eapply progressed_trans; [apply (onMessage_progressed m)|]. apply IH.
Qed.

(** While a call is pending the listener only appends results and
    replaces the image progress. *)
Lemma listen_progressed env w s : progressed s (listen env w s).
Proof. apply deliver_progressed. Qed.

Lemma listen_status env w s : status (listen env w s) = status s.
Proof. apply listen_progressed. Qed.
Lemma listen_article env w s : article (listen env w s) = article s.
Proof. apply listen_progressed. Qed.
Lemma listen_platforms env w s : platforms (listen env w s) = platforms s.
Proof. apply listen_progressed. Qed.
Lemma listen_selected env w s :
  selectedPlatforms (listen env w s) = selectedPlatforms s.
Proof. apply listen_progressed. Qed.
Lemma listen_error env w s : st_error (listen env w s) = st_error s.
Proof. apply listen_progressed. Qed.
Lemma listen_history env w s : history (listen env w s) = history s.
Proof. apply listen_progressed. Qed.
Lemma listen_results env w s :
  exists extra, results (listen env w s) = results s ++ extra.
Proof. apply listen_progressed. Qed.

#[local] Arguments listen : simpl never.

Ltac listen_fields :=
  rewrite ?listen_status, ?listen_article, ?listen_platforms,
    ?listen_selected, ?listen_error, ?listen_history.

(** *** Running the publishing steps *)

Lemma publishToCms_run env a pid s w :
  exists r,
    publishToCms env a pid (s, w)
    = (Resolved r,
       (listen env w s,
        logCall (SYNC_TO_CMS pid a) (snd (onSyncToCms env w pid a)) w))
    /\ platform r = pid.
Proof.
  unfold publishToCms, tryCatch, bind, sendSyncToCms.
  destruct (onSyncToCms env w pid a) as [[[r|]|e] h]; cbn;
    eexists; split; reflexivity.
Qed.

(** The sequential loop over the CMS accounts always resolves, with one
    result per account, in order; a rejected message is a failed result,
    never a failed pass. *)
Lemma publishAllCms_run env a ids :
  forall acc s w,
  exists rs s' w',
    publishAllCms env a ids acc (s, w) = (Resolved (acc ++ rs), (s', w'))
    /\ progressed s s'
    /\ map platform rs = ids
    /\ calls w' = calls w ++ map (fun pid => SYNC_TO_CMS pid a) ids
    /\ ((forall w0 pid, snd (onSyncToCms env w0 pid a) = syncHistory w0) ->
        syncHistory w' = syncHistory w).
Proof.
  induction ids as [|pid ids IH]; intros acc s w.
  - exists [], s, w. cbn. rewrite !app_nil_r.
    split; [reflexivity|]. split; [apply progressed_refl|]. auto.
  - destruct (publishToCms_run env a pid s w) as (r & Hr & Hp).
    destruct (IH (acc ++ [r]) (listen env w s)
                 (logCall (SYNC_TO_CMS pid a) (snd (onSyncToCms env w pid a)) w))
      as (rs & s' & w' & Hrun & Hprog & Hmap & Hcalls & Hhist).
    exists (r :: rs), s', w'. cbn [publishAllCms]. unfold bind at 1.
    rewrite Hr, Hrun. rewrite <- app_assoc. cbn [app].
    split; [reflexivity|]. split; [|split; [|split]].
    + eapply progressed_trans; [apply listen_progressed|exact Hprog].
    + cbn; congruence.
    + rewrite Hcalls. cbn. now rewrite <- app_assoc.
    + intros Hkeep. rewrite (Hhist Hkeep). cbn. apply Hkeep.
Qed.

Lemma withName_platform ps rs :
  map platform (map (withName ps) rs) = map platform rs.
Proof. rewrite map_map. apply map_ext. reflexivity. Qed.


(** *** Failures of the machinery *)









(** *** Retrying *)

Lemma hasSourceType_listed ps pid :
  findPlatform ps pid <> None ->
  hasSourceType ps cms pid = negb (hasSourceType ps dsl pid).
Proof.
  unfold hasSourceType. destruct (findPlatform ps pid) as [p|]; [|congruence].
  intros _. now destruct (sourceType p).
Qed.

Lemma hasSourceType_unlisted ps kind pid :
  findPlatform ps pid = None -> hasSourceType ps kind pid = false.
Proof. unfold hasSourceType. now intros ->. Qed.

(** Listed platforms split into the built-in batch and the CMS accounts. *)
Lemma partition_by_kind ps ids :
  allListed ps ids ->
  Permutation (filter (hasSourceType ps dsl) ids
               ++ filter (hasSourceType ps cms) ids) ids.
Proof.
  induction ids as [|pid ids IH]; intros Hl.
  - constructor.
  - assert (Hl' : allListed ps ids) by (intros x Hx; apply Hl; now right).
    specialize (IH Hl'). cbn [filter].
    rewrite (hasSourceType_listed ps pid) by (apply Hl; now left).
    destruct (hasSourceType ps dsl pid); cbn [negb app].
    + now constructor.
    + apply Permutation_sym, Permutation_cons_app. now apply Permutation_sym.
Qed.

Lemma kinds_exclusive ps pid :
  hasSourceType ps dsl pid = true -> hasSourceType ps cms pid = false.
Proof.
  unfold hasSourceType. destruct (findPlatform ps pid) as [p|]; [|reflexivity].
  now destruct (sourceType p).
Qed.

(** No platform is in both partitions. *)
Lemma partition_length_le ps ids :
  (List.length (filter (hasSourceType ps dsl) ids
                ++ filter (hasSourceType ps cms) ids)
   <= List.length ids)%nat.
Proof.
  rewrite length_app. induction ids as [|pid ids IH]; [cbn; lia|].
  cbn [filter]. pose proof (kinds_exclusive ps pid) as Hx.
  destruct (hasSourceType ps dsl pid); [rewrite (Hx eq_refl)|];
    [|destruct (hasSourceType ps cms pid)]; cbn [List.length]; lia.
Qed.

(** An id that is not in the platform list is in neither. *)
Lemma partition_length_lt ps ids pid :
  In pid ids ->
  findPlatform ps pid = None ->
  (List.length (filter (hasSourceType ps dsl) ids
                ++ filter (hasSourceType ps cms) ids)
   < List.length ids)%nat.
Proof.
  intros Hin Hnone. induction ids as [|x ids IH]; [destruct Hin|].
  destruct Hin as [-> | Hin].
  - pose proof (partition_length_le ps ids) as Hle.
    rewrite length_app in *. cbn [filter]. rewrite !(hasSourceType_unlisted ps _ pid Hnone).
    cbn [List.length]. lia.
  - specialize (IH Hin). rewrite length_app in *. cbn [filter].
    pose proof (kinds_exclusive ps x) as Hx.
    destruct (hasSourceType ps dsl x); [rewrite (Hx eq_refl)|];
      [|destruct (hasSourceType ps cms x)]; cbn [List.length]; lia.
Qed.

Lemma partition_unlisted ps ids pid :
  findPlatform ps pid = None ->
  ~ In pid (filter (hasSourceType ps dsl) ids
            ++ filter (hasSourceType ps cms) ids).
Proof.
  intros Hnone Hin. apply in_app_or in Hin.
  destruct Hin as [Hin|Hin]; apply filter_In in Hin; destruct Hin as [_ Hk];
    rewrite (hasSourceType_unlisted ps _ pid Hnone) in Hk; discriminate.
Qed.

Lemma publishDsl_run env a ids s w :
  Cooperative env ->
  exists rs issued s',
    publishDsl env a ids true (s, w)
    = (Resolved rs, (s', mkWorld (syncHistory w) (calls w ++ issued)))
    /\ progressed s s'
    /\ Permutation (map platform rs) ids
    /\ filter isPublishCall issued = issued
    /\ List.concat (map publishedBy issued) = ids.
Proof.
  intros (Hbatch & _). destruct ids as [|x l].
  - exists [], [], s. cbn. rewrite app_nil_r. destruct w.
    split; [reflexivity|]. split; [apply progressed_refl|].
    repeat split. constructor.
  - destruct (Hbatch w a (x :: l) ltac:(discriminate)) as (rs & Hrs & Hperm).
    exists rs, [SYNC_ARTICLE a (x :: l) true], (listen env w s).
    unfold publishDsl, bind, sendSyncArticle. rewrite Hrs. cbn.
    rewrite app_nil_r.
    split; [reflexivity|]. split; [apply listen_progressed|].
    repeat split. exact Hperm.
Qed.

Lemma cms_calls_publish a (l : list string) :
  filter isPublishCall (map (fun pid => SYNC_TO_CMS pid a) l)
  = map (fun pid => SYNC_TO_CMS pid a) l.
Proof. induction l as [|x l IH]; [reflexivity|]. cbn. now rewrite IH. Qed.

Lemma cms_calls_address a (l : list string) :
  List.concat (map publishedBy (map (fun pid => SYNC_TO_CMS pid a) l)) = l.
Proof. induction l as [|x l IH]; [reflexivity|]. cbn. now rewrite IH. Qed.

(** With collaborators that keep their side, the publishing step of a
    retry resolves with one result per platform of the two partitions,
    and addresses exactly those. *)
Lemma publishSelected_run env a ps ids s w :
  Cooperative env ->
  exists new issued s',
    publishSelected env a ps ids true (s, w)
    = (Resolved new, (s', mkWorld (syncHistory w) (calls w ++ issued)))
    /\ progressed s s'
    /\ Permutation (map platform new)
                   (filter (hasSourceType ps dsl) ids
                    ++ filter (hasSourceType ps cms) ids)
    /\ filter isPublishCall issued = issued
    /\ List.concat (map publishedBy issued)
       = filter (hasSourceType ps dsl) ids ++ filter (hasSourceType ps cms) ids.
Proof.
  intros Hco. unfold publishSelected.
  destruct (publishDsl_run env a (filter (hasSourceType ps dsl) ids) s w Hco)
    as (rsD & issuedD & s1 & HrunD & HprogD & HpermD & HpubD & HbyD).
  destruct (publishAllCms_run env a (filter (hasSourceType ps cms) ids) rsD s1
              (mkWorld (syncHistory w) (calls w ++ issuedD)))
    as (rsC & s2 & w' & HrunC & HprogC & HmapC & HcallsC & HhistC).
  destruct Hco as (_ & Hkeep & _).
  specialize (HhistC (fun w0 pid => Hkeep w0 pid a)). cbn in HhistC, HcallsC.
  exists (map (withName ps) (rsD ++ rsC)),
         (issuedD ++ map (fun pid => SYNC_TO_CMS pid a)
                         (filter (hasSourceType ps cms) ids)),
         s2.
  unfold bind at 1. rewrite HrunD. unfold bind at 1. rewrite HrunC.
  unfold ret. destruct w' as [h' c']. cbn in HhistC, HcallsC. subst h' c'.
  rewrite <- app_assoc.
  split; [reflexivity|].
  split; [eapply progressed_trans; eassumption|]. split; [|split].
  - rewrite withName_platform, map_app, HmapC.
    now apply Permutation_app_tail.
  - rewrite filter_app, HpubD. f_equal. apply cms_calls_publish.
  - rewrite map_app, concat_app, HbyD. now rewrite cms_calls_address.
Qed.

Lemma publishCalls_app cs issued extra :
  filter isPublishCall issued = issued ->
  filter isPublishCall extra = [] ->
  filter isPublishCall (cs ++ issued ++ extra)
  = filter isPublishCall cs ++ issued.
Proof.
  intros H1 H2. now rewrite !filter_app, H1, H2, app_nil_r.
Qed.

(** What a retry does when the collaborators keep their side: it ends in
    [completed] without an error, with the successes of the pass followed
    by one new result per platform of the two partitions; the publish
    calls address exactly those platforms; and the most recent entry of
    the stored history, when there is one, keeps its id, title, cover and
    time and has its results replaced by the merged list, the older
    entries being left as they are. *)
Lemma retryFailed_run env s w a :
  Cooperative env ->
  article s = Some a ->
  failedPlatformIds (results s) <> [] ->
  exists new issued s' w',
    retryFailed env (s, w) = (Resolved tt, (s', w'))
    /\ status s' = completed
    /\ st_error s' = None
    /\ results s' = successResults (results s) ++ new
    /\ Permutation (map platform new)
         (filter (hasSourceType (platforms s) dsl) (failedPlatformIds (results s))
          ++ filter (hasSourceType (platforms s) cms)
                    (failedPlatformIds (results s)))
    /\ publishCalls w' = publishCalls w ++ issued
    /\ List.concat (map publishedBy issued)
       = filter (hasSourceType (platforms s) dsl) (failedPlatformIds (results s))
         ++ filter (hasSourceType (platforms s) cms)
                   (failedPlatformIds (results s))
    /\ (forall latest older,
          syncHistory w = Some (latest :: older) ->
          syncHistory w'
          = Some (mkHistoryItem (h_id latest) (h_title latest) (h_cover latest)
                                (h_timestamp latest) (results s') :: older)
          /\ history s'
             = mkHistoryItem (h_id latest) (h_title latest) (h_cover latest)
                             (h_timestamp latest) (results s') :: older)
    /\ (syncHistory w = None \/ syncHistory w = Some [] ->
        syncHistory w' = syncHistory w /\ history s' = history s).
Proof.
  intros Hco Ha Hf.
  destruct (publishSelected_run
              env a (platforms s) (failedPlatformIds (results s))
              (set_pass_started (successResults (results s)) s) w Hco)
    as (new & issued & s1 & Hrun & Hprog & Hperm & Hpub & Hby).
  destruct Hprog as (_ & _ & _ & _ & Herr1 & Hhist1 & _).
  destruct Hco as (_ & _ & Hget & Hset).
  exists new, issued.
  unfold retryFailed. rewrite Ha.
  destruct (failedPlatformIds (results s)) as [|f0 fs] eqn:Ef; [congruence|].
  unfold tryCatch, retryFailedBody, bind at 1. rewrite Hrun.
  unfold bind at 1, readHistory. rewrite Hget. cbn [syncHistory calls].
  destruct w as [[[|latest older]|] cs]; cbn [syncHistory calls] in *.
  - (* the stored history is empty *)
    eexists _, _. unfold bind, setState, modify, ret.
    split; [reflexivity|]. cbn. listen_fields.
    split; [reflexivity|]. split; [exact Herr1|]. split; [reflexivity|].
    split; [exact Hperm|]. split; [|split; [exact Hby|split]].
    + unfold publishCalls, logCall. cbn [calls]. rewrite <- ?app_assoc.
      now apply publishCalls_app.
    + intros latest older [=].
    + intros _. now split.
  - (* there is a most recent entry *)
    eexists _, _. unfold bind, writeHistory, setState, modify, ret.
    rewrite Hset. split; [reflexivity|]. cbn. listen_fields.
    split; [reflexivity|]. split; [exact Herr1|]. split; [reflexivity|].
    split; [exact Hperm|]. split; [|split; [exact Hby|split]].
    + unfold publishCalls, logCall. cbn [calls]. rewrite <- ?app_assoc.
      now apply publishCalls_app.
    + intros l o [= <- <-]. now split.
    + intros [[=]|[=]].
  - (* nothing was ever stored *)
    eexists _, _. unfold bind, setState, modify, ret.
    split; [reflexivity|]. cbn. listen_fields.
    split; [reflexivity|]. split; [exact Herr1|]. split; [reflexivity|].
    split; [exact Hperm|]. split; [|split; [exact Hby|split]].
    + unfold publishCalls, logCall. cbn [calls]. rewrite <- ?app_assoc.
      now apply publishCalls_app.
    + intros latest older [=].
    + intros _. now split.
Qed.

Lemma obligingEnv_cooperative : Cooperative obligingEnv.
Proof.
  repeat split; try reflexivity.
  intros w a ids _. exists (map publishedOk ids). split; [reflexivity|].
  rewrite map_map. cbn. rewrite map_id. apply Permutation_refl.
Qed.

(** When every failed platform is still in the platform list, the retry
    does what is expected of it: publish calls for exactly the M failed
    platforms, and a result list made of the N successes, verbatim and in
    order, followed by M new results, one per retried platform. *)
Lemma retry_law_listed (env : Env) (s : SyncState) (w : World) (a : Article) :
  Cooperative env ->
  article s = Some a ->
  failedPlatformIds (results s) <> [] ->
  allListed (platforms s) (failedPlatformIds (results s)) ->
  exists new issued s' w',
    retryFailed env (s, w) = (Resolved tt, (s', w'))
    /\ status s' = completed
    /\ results s' = successResults (results s) ++ new
    /\ List.length new = List.length (failedPlatformIds (results s))
    /\ Permutation (map platform new) (failedPlatformIds (results s))
    /\ publishCalls w' = publishCalls w ++ issued
    /\ Permutation (List.concat (map publishedBy issued))
                   (failedPlatformIds (results s))
    /\ (forall latest older,
          syncHistory w = Some (latest :: older) ->
          syncHistory w'
          = Some (mkHistoryItem (h_id latest) (h_title latest) (h_cover latest)
                                (h_timestamp latest) (results s') :: older))
    /\ (syncHistory w = None \/ syncHistory w = Some [] ->
        syncHistory w' = syncHistory w).
Proof.
  intros Hco Ha Hf Hl.
  destruct (retryFailed_run env s w a Hco Ha Hf)
    as (new & issued & s' & w' & Hrun & Hst & _ & Hres & Hperm & Hcalls & Hby
        & Hlatest & Hnone).
  pose proof (partition_by_kind _ _ Hl) as Hpart.
  assert (Hperm' : Permutation (map platform new)
                               (failedPlatformIds (results s)))
    by (eapply Permutation_trans; eassumption).
  exists new, issued, s', w'.
  split; [exact Hrun|]. split; [exact Hst|]. split; [exact Hres|].
  split; [rewrite <- (length_map platform new); now apply Permutation_length|].
  split; [exact Hperm'|]. split; [exact Hcalls|].
  split; [now rewrite Hby|].
  split; [intros latest older Hw; apply (Hlatest latest older Hw)|].
  intros Hw. apply (Hnone Hw).
Qed.

(** C1. The retry computes the platforms whose last result failed, but
    it sorts them into the built-in batch and the CMS accounts by looking
    each one up in the platform list; a failed platform that is no longer
    in the list falls in neither. Even with collaborators that keep their
    side, such a platform is never addressed by a publish call and gets
    no new result; the retry still ends in [completed] without an error,
    with fewer new results than there were failures, and the most recent
    entry of the stored history is overwritten with the merged list, in
    which the failure no longer appears. *)
Theorem retry_drops_unlisted_failure (env : Env) (s : SyncState) (w : World)
        (a : Article) (pid : string) :
  Cooperative env ->
  article s = Some a ->
  In pid (failedPlatformIds (results s)) ->
  findPlatform (platforms s) pid = None ->
  exists new issued s' w',
    retryFailed env (s, w) = (Resolved tt, (s', w'))
    /\ status s' = completed
    /\ st_error s' = None
    /\ results s' = successResults (results s) ++ new
    /\ ~ In pid (map platform new)
    /\ (List.length new < List.length (failedPlatformIds (results s)))%nat
    /\ publishCalls w' = publishCalls w ++ issued
    /\ ~ In pid (List.concat (map publishedBy issued))
    /\ (forall latest older,
          syncHistory w = Some (latest :: older) ->
          syncHistory w'
          = Some (mkHistoryItem (h_id latest) (h_title latest) (h_cover latest)
                                (h_timestamp latest)
                                (successResults (results s) ++ new) :: older)).
Proof.
  intros Hco Ha Hin Hnone.
  assert (Hf : failedPlatformIds (results s) <> []).
  { intros E. rewrite E in Hin. destruct Hin. }
  destruct (retryFailed_run env s w a Hco Ha Hf)
    as (new & issued & s' & w' & Hrun & Hst & Herr & Hres & Hperm & Hcalls
        & Hby & Hlatest & _).
  exists new, issued, s', w'.
  split; [exact Hrun|]. split; [exact Hst|]. split; [exact Herr|].
  split; [exact Hres|]. split; [|split; [|split; [exact Hcalls|split]]].
  - intros Hnew.
    apply (partition_unlisted (platforms s) (failedPlatformIds (results s))
                              pid Hnone).
    eapply Permutation_in; eassumption.
  - rewrite <- (length_map platform new), (Permutation_length Hperm).
    now apply partition_length_lt with pid.
  - rewrite Hby. now apply partition_unlisted.
  - intros latest older Hw. rewrite <- Hres. apply (Hlatest latest older Hw).
Qed.

(** The failing input: the sample pass, after the platform list was
    reloaded while the failed platform was signed out, retried against a
    background that publishes whatever it is asked to. The one failed
    platform is not retried, and its failure is gone from the results and
    from the stored history. *)
Lemma retry_drops_unlisted_failure_witness :
  SyncSelect.loadPlatforms SyncSelect.sampleEnv (completedPass, None)
  = (Resolved tt, (completedPassUnlisted, None))
  /\ failedPlatformIds (results completedPassUnlisted) = ["weixin"]
  /\ exists new issued s' w',
       retryFailed obligingEnv (completedPassUnlisted, sampleWorld)
       = (Resolved tt, (s', w'))
       /\ status s' = completed
       /\ st_error s' = None
       /\ results s' = [juejinOk] ++ new
       /\ ~ In "weixin" (map platform new)
       /\ (List.length new < 1)%nat
       /\ publishCalls w' = [] ++ issued
       /\ ~ In "weixin" (List.concat (map publishedBy issued))
       /\ (forall latest older,
             Some sampleHistory = Some (latest :: older) ->
             syncHistory w'
             = Some (mkHistoryItem (h_id latest) (h_title latest)
                                   (h_cover latest) (h_timestamp latest)
                                   ([juejinOk] ++ new) :: older)).
Proof.
  split; [reflexivity|]. split; [reflexivity|].
  apply (retry_drops_unlisted_failure
           obligingEnv completedPassUnlisted sampleWorld sampleArticle "weixin").
  - exact obligingEnv_cooperative.
  - reflexivity.
  - left. reflexivity.
  - reflexivity.
Defined.

(** At that input the store and the storage end as follows. *)
Lemma retry_skips_unlisted_platform :
  publishCalls (snd (snd (retryFailed obligingEnv
                            (completedPassUnlisted, sampleWorld)))) = []
  /\ results (fst (snd (retryFailed obligingEnv
                          (completedPassUnlisted, sampleWorld)))) = [juejinOk]
  /\ syncHistory (snd (snd (retryFailed obligingEnv
                              (completedPassUnlisted, sampleWorld))))
     = Some [mkHistoryItem "h1" "T" None 1700000000000 [juejinOk]].
Proof. repeat split. Qed.

End SyncFacts.


Module SignerFacts.
Import JsString Signer.

(** *** Sorting with a consistent comparator *)

Section SortFacts.
Context {A : Type}.
Variable cmp : A -> A -> Z.
Hypothesis cmp_sign : forall x y, cmp x y < 0 <-> 0 < cmp y x.
Hypothesis cmp_trans :
  forall x y z, cmp x y <= 0 -> cmp y z <= 0 -> cmp x z <= 0.

Lemma insertBy_perm x l : Permutation (insertBy cmp x l) (x :: l).
Proof.
  induction l as [|y l IH]; cbn.
  - apply Permutation_refl.
  - destruct (0 <? cmp x y).
    + eapply Permutation_trans; [apply perm_skip, IH | apply perm_swap].
    + apply Permutation_refl.
Qed.

Lemma sortBy_perm l : Permutation (sortBy cmp l) l.
Proof.
  induction l as [|x l IH]; cbn.
  - constructor.
  - eapply Permutation_trans; [apply insertBy_perm | now apply perm_skip].
Qed.

Lemma insertBy_sorted x l :
  StronglySorted (fun a b => cmp a b <= 0) l ->
  StronglySorted (fun a b => cmp a b <= 0) (insertBy cmp x l).
Proof.
  induction 1 as [|y l Hs IH Hall]; cbn.
  - repeat constructor.
  - destruct (Z.ltb_spec 0 (cmp x y)) as [Hgt|Hle].
    + constructor; [exact IH|].
      apply (Permutation_Forall (Permutation_sym (insertBy_perm x l))).
      constructor; [|exact Hall].
      apply cmp_sign in Hgt. lia.
    + constructor; [now constructor|].
      constructor; [exact Hle|].
      eapply Forall_impl; [|exact Hall].
      intros z Hyz. cbn beta in Hyz. now apply cmp_trans with y.
Qed.

Lemma sortBy_sorted l :
  StronglySorted (fun a b => cmp a b <= 0) (sortBy cmp l).
Proof.
  induction l as [|x l IH]; cbn; [constructor | now apply insertBy_sorted].
Qed.

(** Two sorted arrangements of the same elements coincide once ties are
    between equal elements only. *)
Lemma sorted_unique l1 :
  forall l2,
    StronglySorted (fun a b => cmp a b <= 0) l1 ->
    StronglySorted (fun a b => cmp a b <= 0) l2 ->
    Permutation l1 l2 ->
    (forall a b, In a l1 -> In b l1 -> cmp a b = 0 -> a = b) ->
    l1 = l2.
Proof.
  induction l1 as [|a l1 IH]; intros l2 S1 S2 P Hties.
  - now rewrite (Permutation_nil P).
  - destruct l2 as [|b l2];
      [now apply Permutation_sym, Permutation_nil_cons in P|].
    inversion S1 as [|? ? S1' F1]; subst.
    inversion S2 as [|? ? S2' F2]; subst.
    assert (Hab : a = b).
    { assert (Ha : In a (b :: l2)) by (apply (Permutation_in _ P); now left).
      assert (Hb : In b (a :: l1))
        by (apply (Permutation_in _ (Permutation_sym P)); now left).
      destruct Ha as [Ha|Ha]; [now symmetry|].
      destruct Hb as [Hb|Hb]; [assumption|].
      rewrite Forall_forall in F1, F2.
      pose proof (F1 b Hb) as H1. pose proof (F2 a Ha) as H2. cbn beta in H1, H2.
      apply Hties; [now left | now right |].
      destruct (Z.eq_dec (cmp a b) 0) as [E|E]; [exact E|].
      assert (Hlt : cmp a b < 0) by lia.
      apply cmp_sign in Hlt. lia. }
    subst b. f_equal. apply IH; try assumption.
    + now apply Permutation_cons_inv in P.
    + intros x y Hx Hy. apply Hties; now right.
Qed.

Lemma sortBy_permutation_invariant l1 l2 :
  Permutation l1 l2 ->
  (forall a b, In a l1 -> In b l1 -> cmp a b = 0 -> a = b) ->
  sortBy cmp l1 = sortBy cmp l2.
Proof.
  intros P Hties. apply sorted_unique; try apply sortBy_sorted.
  - eapply Permutation_trans; [apply sortBy_perm|].
    eapply Permutation_trans; [exact P | apply Permutation_sym, sortBy_perm].
  - intros a b Ha Hb. apply Hties; eapply Permutation_in; eauto using sortBy_perm.
Qed.
End SortFacts.

(** *** Code-unit order is a consistent comparator *)

Lemma ordinalCompare_sign x :
  forall y, ordinalCompare x y < 0 <-> 0 < ordinalCompare y x.
Proof.
  induction x as [|a x IH]; intros [|b y]; cbn; try lia.
  rewrite (N.compare_antisym a b).
  destruct (N.compare a b); cbn; try lia. apply IH.
Qed.

Lemma ordinalCompare_trans x :
  forall y z,
    ordinalCompare x y <= 0 -> ordinalCompare y z <= 0 ->
    ordinalCompare x z <= 0.
Proof.
  induction x as [|a x IH]; intros [|b y] [|c z]; cbn; try lia.
  destruct (N.compare_spec a b) as [->|Hab|Hab]; try lia.
  - destruct (N.compare_spec b c) as [->|Hbc|Hbc]; try lia. apply IH.
  - destruct (N.compare_spec b c) as [->|Hbc|Hbc]; try lia; intros _ _.
    + destruct (N.compare_spec a c); lia.
    + destruct (N.compare_spec a c); lia.
Qed.

Lemma ordinalCompare_consistent : Consistent ordinalCompare.
Proof. split; [exact ordinalCompare_sign | exact ordinalCompare_trans]. Qed.

(** Whatever the collation, two entries with the same name stay in their
    order of appearance. *)
Lemma repeated_name_any_collation
      (localeCompare : jsstring -> jsstring -> Z) (v1 v2 : jsstring) :
  localeCompare (js "a") (js "a") = 0 ->
  sortedParams localeCompare [(js "a", v1); (js "a", v2)]
  = [(js "a", v1); (js "a", v2)].
Proof.
  intros H. unfold sortedParams, sortBy. cbn [fold_right insertBy fst].
  now rewrite H.
Qed.

(** C5, as the code has it. The entries are sorted by name only, with a
    stable sort. Two query strings with the same multiset of (name, value)
    pairs in different orders have the same canonical query string
    provided that any two entries whose names compare equal under the
    comparator of the sort ([localeCompare] returns 0) are the same
    (name, value) pair. A name repeated with the same value meets the
    proviso; a name repeated with different values does not, and neither
    do two different names that the collation takes for equal. *)
Theorem canonical_order_independent
        (localeCompare : jsstring -> jsstring -> Z)
        (URLSearchParams : jsstring -> list (jsstring * jsstring))
        (q1 q2 : jsstring) :
  Consistent localeCompare ->
  Permutation (URLSearchParams q1) (URLSearchParams q2) ->
  tiesAreEqual localeCompare (URLSearchParams q1) ->
  canonicalQueryString localeCompare URLSearchParams q1
  = canonicalQueryString localeCompare URLSearchParams q2.
Proof.
  intros [Hsign Htrans] P Hties.
  unfold canonicalQueryString, canonicalOfEntries, sortedParams.
  rewrite (sortBy_permutation_invariant
             (fun a b => localeCompare (fst a) (fst b))
             (fun x y => Hsign (fst x) (fst y))
             (fun x y z => Htrans (fst x) (fst y) (fst z))
             _ _ P Hties).
  reflexivity.
Qed.

Lemma canonical_order_independent_witness :
  canonicalQueryString ordinalCompare plainEntries (js "b=2&a=1&b=2")
  = canonicalQueryString ordinalCompare plainEntries (js "a=1&b=2&b=2").
Proof.
  apply canonical_order_independent.
  - exact ordinalCompare_consistent.
  - vm_compute. apply Permutation_sym, Permutation_cons_app with (l1 := [_]).
    apply Permutation_refl.
  - intros a b Ha Hb. vm_compute in Ha, Hb.
    destruct Ha as [<-|[<-|[<-|[]]]], Hb as [<-|[<-|[<-|[]]]];
      vm_compute; intros H; first [reflexivity | discriminate H].
Defined.

(** C5 as stated fails for a repeated parameter name: the query strings
    [a=2&a=1] and [a=1&a=2] hold the same two pairs, yet their canonical
    query strings differ, because the stable sort by name keeps the two
    [a] entries in their order of appearance. *)
Lemma repeated_name_order_matters :
  Permutation (plainEntries (js "a=2&a=1")) (plainEntries (js "a=1&a=2"))
  /\ canonicalQueryString ordinalCompare plainEntries (js "a=2&a=1")
     = Some (js "a=2&a=1")
  /\ canonicalQueryString ordinalCompare plainEntries (js "a=1&a=2")
     = Some (js "a=1&a=2")
  /\ canonicalQueryString ordinalCompare plainEntries (js "a=2&a=1")
     <> canonicalQueryString ordinalCompare plainEntries (js "a=1&a=2").
Proof.
  split; [vm_compute; apply perm_swap|].
  split; [reflexivity|]. split; [reflexivity|].
  vm_compute. discriminate.
Qed.

(** The proviso is about the comparator, not about the names being the
    same string: under a collation that takes canonically equivalent
    spellings for equal, two parameters with different names, each
    occurring once, keep their order of appearance too. *)
Lemma equivalent_names_order_matters :
  Consistent equivalenceCompare
  /\ [0xE9%N] <> [0x65%N; 0x301%N]
  /\ equivalenceCompare [0xE9%N] [0x65%N; 0x301%N] = 0
  /\ canonicalOfEntries equivalenceCompare
       [([0xE9%N], js "1"); ([0x65%N; 0x301%N], js "2")]
     = Some (js "%C3%A9=1&e%CC%81=2")
  /\ canonicalOfEntries equivalenceCompare
       [([0x65%N; 0x301%N], js "2"); ([0xE9%N], js "1")]
     = Some (js "e%CC%81=2&%C3%A9=1").
Proof.
  split.
  { split.
    - intros x y. apply ordinalCompare_sign.
    - intros x y z. apply ordinalCompare_trans. }
  split; [discriminate|]. split; [reflexivity|].
  split; vm_compute; reflexivity.
Qed.

End SignerFacts.


Module LatexFacts.
Import JsString Latex.
Local Open Scope N_scope.

(** *** The classifier *)

Lemma isLatexFormula_orb text :
  isLatexFormula text
  = existsb isCommandChar text || existsb isGreekLetter text
    || existsb isMathGlyph text.
Proof.
  unfold isLatexFormula.
  destruct (existsb isCommandChar text), (existsb isGreekLetter text),
    (existsb isMathGlyph text); reflexivity.
Qed.

Lemma isLatexFormula_iff text :
  isLatexFormula text = true <-> exists c, In c text /\ isTrigger c = true.
Proof.
  rewrite isLatexFormula_orb, !orb_true_iff, !existsb_exists.
  unfold isTrigger. split.
  - intros [[(c & Hin & Hc) | (c & Hin & Hc)] | (c & Hin & Hc)];
      exists c; (split; [assumption|]); rewrite Hc;
      now rewrite ?orb_true_r.
  - intros (c & Hin & Hc). rewrite !orb_true_iff in Hc.
    destruct Hc as [[Hc|Hc]|Hc]; eauto.
Qed.

Lemma isLatexFormula_false text :
  (forall c, In c text -> isTrigger c = false) -> isLatexFormula text = false.
Proof.
  intros H. destruct (isLatexFormula text) eqn:E; [|reflexivity].
  apply isLatexFormula_iff in E. destruct E as (c & Hin & Hc).
  rewrite (H c Hin) in Hc. discriminate.
Qed.

(** *** Matching and replacing *)

Lemma stripDollars_sound n :
  forall s r, stripDollars n s = Some r -> s = dollars n ++ r.
Proof.
  induction n as [|n IH]; intros s r H; cbn in *.
  - now injection H.
  - destruct s as [|c s]; [discriminate|].
    unfold isDollar in H. destruct (N.eqb_spec c 36) as [->|]; [|discriminate].
    now rewrite (IH _ _ H).
Qed.

Lemma spanNotDollar_sound s :
  forall body rest, spanNotDollar s = (body, rest) -> s = body ++ rest.
Proof.
  induction s as [|c s IH]; intros body rest H; cbn in H.
  - now injection H as <- <-.
  - destruct (isDollar c).
    + now injection H as <- <-.
    + destruct (spanNotDollar s) as [b r]. injection H as <- <-.
      cbn. f_equal. now apply IH.
Qed.

Lemma matchAt_sound n s latex rest :
  matchAt n s = Some (latex, rest) ->
  s = (dollars n ++ latex ++ dollars n) ++ rest.
Proof.
  unfold matchAt. intros H.
  destruct (stripDollars n s) as [s1|] eqn:E1; [|discriminate].
  destruct (spanNotDollar s1) as [body s2] eqn:E2.
  destruct body as [|b body]; [discriminate|].
  destruct (stripDollars n s2) as [r|] eqn:E3; [|discriminate].
  injection H as <- <-.
  rewrite (stripDollars_sound _ _ _ E1), (spanNotDollar_sound _ _ _ E2),
    (stripDollars_sound _ _ _ E3).
  now rewrite <- !app_assoc.
Qed.

Lemma matchAt_not_dollar n c s :
  isDollar c = false -> matchAt (S n) (c :: s) = None.
Proof. intros H. unfold matchAt. cbn. now rewrite H. Qed.

Lemma spanNotDollar_noDollar s :
  forall body rest, spanNotDollar s = (body, rest) -> noDollar body = true.
Proof.
  induction s as [|c s IH]; intros body rest H; cbn in H.
  - now injection H as <- <-.
  - destruct (isDollar c) eqn:Ec.
    + now injection H as <- <-.
    + destruct (spanNotDollar s) as [b r]. injection H as <- <-.
      cbn. rewrite Ec. cbn. now apply (IH b r).
Qed.

Lemma matchAt_noDollar n s latex rest :
  matchAt n s = Some (latex, rest) -> noDollar latex = true.
Proof.
  unfold matchAt. intros H.
  destruct (stripDollars n s) as [s1|]; [|discriminate].
  destruct (spanNotDollar s1) as [body s2] eqn:E2.
  destruct body as [|b body]; [discriminate|].
  destruct (stripDollars n s2) as [r|]; [|discriminate].
  injection H as <- <-. now apply (spanNotDollar_noDollar _ _ _ E2).
Qed.

(** A callback that hands back every span found in the input leaves the
    input as it is. *)
Lemma replaceSpans_fuel_identity n callback fuel :
  forall s,
    (forall pre s' latex rest,
        s = pre ++ s' ->
        matchAt n s' = Some (latex, rest) ->
        callback (dollars n ++ latex ++ dollars n) latex
        = Some (dollars n ++ latex ++ dollars n)) ->
    replaceSpans_fuel fuel n callback s = Some s.
Proof.
  induction fuel as [|fuel IH]; intros s Hcb; [reflexivity|].
  destruct s as [|c s]; [reflexivity|]. cbn [replaceSpans_fuel].
  destruct (matchAt n (c :: s)) as [[latex rest]|] eqn:E.
  - rewrite (Hcb [] (c :: s) latex rest eq_refl E).
    pose proof (matchAt_sound _ _ _ _ E) as Hs.
    rewrite IH.
    + cbn. now rewrite <- Hs.
    + intros pre s' l r Hrest Hm.
      apply (Hcb ((dollars n ++ latex ++ dollars n) ++ pre) s' l r); [|exact Hm].
      now rewrite Hs, Hrest, <- !app_assoc.
  - rewrite IH; [reflexivity|].
    intros pre s' l r Hrest Hm.
    apply (Hcb (c :: pre) s' l r); [|exact Hm]. now rewrite Hrest.
Qed.

Lemma matchAt_nonempty n s latex rest :
  matchAt n s = Some (latex, rest) -> latex <> [].
Proof.
  unfold matchAt. intros H.
  destruct (stripDollars n s) as [s1|]; [|discriminate].
  destruct (spanNotDollar s1) as [body s2].
  destruct body as [|b body]; [discriminate|].
  destruct (stripDollars n s2) as [r|]; [|discriminate].
  injection H as <- <-. discriminate.
Qed.

(** A match consumes input, so the fuel [replaceSpans] starts with, the
    length of the input, is never used up: any larger amount gives the
    same result. *)
Lemma matchAt_shorter n s latex rest :
  matchAt n s = Some (latex, rest) -> (List.length rest < List.length s)%nat.
Proof.
  intros H. pose proof (matchAt_nonempty _ _ _ _ H) as Hne.
  rewrite (matchAt_sound _ _ _ _ H), !length_app.
  destruct latex; [congruence|]. cbn. lia.
Qed.

Lemma replaceSpans_fuel_stable n callback fuel :
  forall s fuel',
    (List.length s <= fuel)%nat -> (List.length s <= fuel')%nat ->
    replaceSpans_fuel fuel n callback s = replaceSpans_fuel fuel' n callback s.
Proof.
  induction fuel as [|fuel IH]; intros s fuel' H H'.
  - destruct s; [|cbn in H; lia]. now destruct fuel'.
  - destruct s as [|c s]; [now destruct fuel'|].
    destruct fuel' as [|fuel']; [cbn in H'; lia|].
    cbn [replaceSpans_fuel]. cbn in H, H'.
    destruct (matchAt n (c :: s)) as [[latex rest]|] eqn:E.
    + apply matchAt_shorter in E. cbn in E.
      destruct (callback (dollars n ++ latex ++ dollars n) latex);
        [|reflexivity].
      now rewrite (IH rest fuel') by lia.
    + now rewrite (IH s fuel') by lia.
Qed.

Lemma replaceSpans_enough_fuel n callback s fuel :
  (List.length s <= fuel)%nat ->
  replaceSpans_fuel fuel n callback s = replaceSpans n callback s.
Proof.
  intros H. unfold replaceSpans. now apply replaceSpans_fuel_stable.
Qed.

Lemma noDollar_app a b : noDollar (a ++ b) = noDollar a && noDollar b.
Proof. apply forallb_app. Qed.

Lemma replaceSpans_fuel_noDollar n callback fuel :
  forall s, noDollar s = true ->
            replaceSpans_fuel fuel (S n) callback s = Some s.
Proof.
  induction fuel as [|fuel IH]; intros s H; [reflexivity|].
  destruct s as [|c s]; [reflexivity|].
  cbn in H. apply andb_true_iff in H. destruct H as [Hc Hs].
  apply negb_true_iff in Hc.
  cbn [replaceSpans_fuel]. rewrite (matchAt_not_dollar n c s Hc).
  now rewrite (IH s Hs).
Qed.

Lemma replaceSpans_fuel_prefix n callback pre :
  noDollar pre = true ->
  forall k s,
    replaceSpans_fuel (List.length pre + k) (S n) callback (pre ++ s)
    = option_map (app pre) (replaceSpans_fuel k (S n) callback s).
Proof.
  induction pre as [|c pre IH]; intros H k s.
  - cbn. now destruct (replaceSpans_fuel k (S n) callback s).
  - cbn in H. apply andb_true_iff in H. destruct H as [Hc Hp].
    apply negb_true_iff in Hc.
    cbn [List.length Nat.add app replaceSpans_fuel].
    rewrite (matchAt_not_dollar n c _ Hc), (IH Hp).
    now destruct (replaceSpans_fuel k (S n) callback s).
Qed.

(** *** Spans without a trigger character are left alone *)

Lemma blockFormula_plain matched latex :
  isLatexFormula latex = false -> blockFormula matched latex = Some matched.
Proof. unfold blockFormula. now intros ->. Qed.

Lemma inlineFormula_plain matched latex :
  isLatexFormula latex = false -> inlineFormula matched latex = Some matched.
Proof. unfold inlineFormula. now intros ->. Qed.

Lemma delimiters_split n latex rest :
  (dollars (S n) ++ latex ++ dollars (S n)) ++ rest
  = dollars n ++ [36] ++ latex ++ [36] ++ dollars n ++ rest.
Proof.
  unfold dollars. cbn [repeat].
  rewrite (repeat_cons n 36) at 1.
  rewrite <- !app_assoc. reflexivity.
Qed.

(** The stretches of [content] between two dollar signs that hold no
    dollar sign themselves are not formulas. *)
Lemma replaceSpans_plain n callback content :
  (forall matched latex,
      isLatexFormula latex = false -> callback matched latex = Some matched) ->
  (forall pre latex rest,
      content = pre ++ [36] ++ latex ++ [36] ++ rest ->
      noDollar latex = true ->
      isLatexFormula latex = false) ->
  replaceSpans (S n) callback content = Some content.
Proof.
  intros Hcb Hspans. unfold replaceSpans. apply replaceSpans_fuel_identity.
  intros pre s' latex rest Hs Hm.
  apply Hcb.
  apply (Hspans (pre ++ dollars n) latex (dollars n ++ rest));
    [|now apply matchAt_noDollar with (S n) s' rest].
  rewrite Hs, (matchAt_sound _ _ _ _ Hm), delimiters_split.
  now rewrite <- !app_assoc.
Qed.

Lemma processLatex_plain content :
  (forall pre latex rest,
      content = pre ++ [36] ++ latex ++ [36] ++ rest ->
      noDollar latex = true ->
      isLatexFormula latex = false) ->
  processLatex content = Some content.
Proof.
  intros H. unfold processLatex.
  rewrite (replaceSpans_plain 1 blockFormula content blockFormula_plain H).
  exact (replaceSpans_plain 0 inlineFormula content inlineFormula_plain H).
Qed.

(** In particular when the whole markup holds no trigger character. *)
Lemma processLatex_no_trigger content :
  (forall c, In c content -> isTrigger c = false) ->
  processLatex content = Some content.
Proof.
  intros H. apply processLatex_plain. intros pre latex rest -> _.
  apply isLatexFormula_false. intros c Hc. apply H.
  rewrite !in_app_iff. auto.
Qed.

(** *** The block formula of the scenario *)

Lemma replaceSpans_fuel_step fuel n callback c s :
  replaceSpans_fuel (S fuel) n callback (c :: s)
  = match matchAt n (c :: s) with
    | Some (latex, rest) =>
        match callback (dollars n ++ latex ++ dollars n) latex with
        | Some replacement =>
            option_map (app replacement)
                       (replaceSpans_fuel fuel n callback rest)
        | None => None
        end
    | None => option_map (cons c) (replaceSpans_fuel fuel n callback s)
    end.
Proof. reflexivity. Qed.

Lemma processLatex_block_scenario pre post :
  noDollar pre = true -> noDollar post = true ->
  processLatex (pre ++ js "$$E=mc^2$$" ++ post)
  = Some (pre ++ centeredFormulaImage (js "E%3Dmc%5E2") ++ post).
Proof.
  intros Hpre Hpost. unfold processLatex, replaceSpans.
  rewrite length_app, replaceSpans_fuel_prefix by exact Hpre.
  change (js "$$E=mc^2$$") with [36; 36; 69; 61; 109; 99; 94; 50; 36; 36].
  cbn [app List.length]. rewrite replaceSpans_fuel_step.
  assert (Hm : matchAt 2 (36 :: 36 :: 69 :: 61 :: 109 :: 99 :: 94 :: 50
                             :: 36 :: 36 :: post)
               = Some ([69; 61; 109; 99; 94; 50], post)) by reflexivity.
  rewrite Hm.
  assert (Hcb : blockFormula (dollars 2 ++ [69; 61; 109; 99; 94; 50] ++ dollars 2)
                             [69; 61; 109; 99; 94; 50]
                = Some (centeredFormulaImage (js "E%3Dmc%5E2")))
    by (vm_compute; reflexivity).
  rewrite Hcb, (replaceSpans_fuel_noDollar 1 blockFormula _ post Hpost).
  cbn [option_map].
  assert (Hall : noDollar (pre ++ centeredFormulaImage (js "E%3Dmc%5E2") ++ post)
                 = true).
  { rewrite !noDollar_app, Hpre, Hpost.
    assert (Himg : noDollar (centeredFormulaImage (js "E%3Dmc%5E2")) = true)
      by (vm_compute; reflexivity).
    now rewrite Himg. }
  exact (replaceSpans_fuel_noDollar 0 inlineFormula _ _ Hall).
Qed.

(** *** The classifier, character by character *)

Lemma isCommandChar_iff c :
  isCommandChar c = true <-> In c [0x5C; 0x5E; 0x5F; 0x7B; 0x7D].
Proof.
  unfold isCommandChar. rewrite existsb_exists. split.
  - intros (x & Hin & Hx). apply N.eqb_eq in Hx. now subst.
  - intros H. exists c. split; [exact H|apply N.eqb_refl].
Qed.

Lemma isGreekLetter_iff c :
  isGreekLetter c = true
  <-> (0x3B1 <= c /\ c <= 0x3C9) \/ (0x391 <= c /\ c <= 0x3A9).
Proof.
  unfold isGreekLetter, inRange.
  rewrite orb_true_iff, !andb_true_iff, !N.leb_le. reflexivity.
Qed.

Lemma isMathGlyph_iff c :
  isMathGlyph c = true
  <-> In c [0x2211; 0x220F; 0x222B; 0x2202; 0x2207; 0x221E; 0x2260; 0x2264;
            0x2265; 0xB1; 0xD7; 0xF7; 0x221A].
Proof.
  unfold isMathGlyph. rewrite existsb_exists. split.
  - intros (x & Hin & Hx). apply N.eqb_eq in Hx. now subst.
  - intros H. exists c. split; [exact H|apply N.eqb_refl].
Qed.

Lemma isLatexFormula_chars text :
  isLatexFormula text = true
  <-> exists c,
        In c text
        /\ (In c [0x5C; 0x5E; 0x5F; 0x7B; 0x7D]
            \/ (0x3B1 <= c /\ c <= 0x3C9)
            \/ (0x391 <= c /\ c <= 0x3A9)
            \/ In c [0x2211; 0x220F; 0x222B; 0x2202; 0x2207; 0x221E; 0x2260;
                     0x2264; 0x2265; 0xB1; 0xD7; 0xF7; 0x221A]).
Proof.
  rewrite isLatexFormula_iff. unfold isTrigger.
  split; intros (c & Hin & Hc); exists c; (split; [exact Hin|]).
  - rewrite !orb_true_iff in Hc. destruct Hc as [[Hc|Hc]|Hc].
    + left. now apply isCommandChar_iff.
    + right. apply isGreekLetter_iff in Hc. tauto.
    + right. right. right. now apply isMathGlyph_iff.
  - rewrite !orb_true_iff. destruct Hc as [Hc|[Hc|[Hc|Hc]]].
    + left. left. now apply isCommandChar_iff.
    + left. right. apply isGreekLetter_iff. now left.
    + left. right. apply isGreekLetter_iff. now right.
    + right. now apply isMathGlyph_iff.
Qed.

(** *** What [encodeURIComponent] writes *)

Lemma hexUpper_plain d : plainChar (hexUpper d).
Proof.
  unfold plainChar, hexUpper. destruct (N.ltb_spec d 10); lia.
Qed.

Lemma percent_plain octet : Forall plainChar (percent octet).
Proof.
  unfold percent. repeat constructor; try apply hexUpper_plain; lia.
Qed.

Lemma flat_map_percent_plain l : Forall plainChar (flat_map percent l).
Proof.
  induction l as [|o l IH]; [constructor|].
  cbn [flat_map]. apply Forall_app. split; [apply percent_plain|exact IH].
Qed.

Lemma isUnreserved_plain c : isUnreserved c = true -> plainChar c.
Proof.
  intros H. unfold plainChar.
  repeat split; intros ->; vm_compute in H; discriminate.
Qed.

Lemma encodeURIComponent_plain_upto n :
  forall s e, (List.length s <= n)%nat ->
              encodeURIComponent s = Some e -> Forall plainChar e.
Proof.
  induction n as [|n IH]; intros s e Hlen H.
  - destruct s; [|cbn in Hlen; lia]. injection H as <-. constructor.
  - destruct s as [|c rest]; [injection H as <-; constructor|].
    cbn in Hlen. cbn [encodeURIComponent] in H.
    destruct (isUnreserved c) eqn:Eu.
    + destruct (encodeURIComponent rest) as [e'|] eqn:Er; [|discriminate].
      injection H as <-. constructor; [now apply isUnreserved_plain|].
      apply (IH rest); [lia|exact Er].
    + destruct (isLowSurrogate c); [discriminate|].
      destruct (isHighSurrogate c).
      * destruct rest as [|d rest']; [discriminate|].
        destruct (isLowSurrogate d); [|discriminate].
        destruct (encodeURIComponent rest') as [e'|] eqn:Er; [|discriminate].
        injection H as <-. apply Forall_app.
        split; [apply flat_map_percent_plain|].
        apply (IH rest'); [cbn in Hlen; lia|exact Er].
      * destruct (encodeURIComponent rest) as [e'|] eqn:Er; [|discriminate].
        injection H as <-. apply Forall_app.
        split; [apply flat_map_percent_plain|].
        apply (IH rest); [lia|exact Er].
Qed.

Lemma encodeURIComponent_plain s e :
  encodeURIComponent s = Some e -> Forall plainChar e.
Proof. apply (encodeURIComponent_plain_upto (List.length s)). lia. Qed.

Lemma plain_noDollar e : Forall plainChar e -> noDollar e = true.
Proof.
  intros H. unfold noDollar. apply forallb_forall. intros c Hc.
  rewrite Forall_forall in H. destruct (H c Hc) as (H36 & _).
  unfold isDollar. now apply negb_true_iff, N.eqb_neq.
Qed.

(** *** A flagged span is rewritten *)

Lemma stripDollars_dollars n s : stripDollars n (dollars n ++ s) = Some s.
Proof. induction n as [|n IH]; [reflexivity|]. cbn. exact IH. Qed.

Lemma spanNotDollar_span latex rest :
  noDollar latex = true ->
  spanNotDollar (latex ++ 36 :: rest) = (latex, 36 :: rest).
Proof.
  induction latex as [|c latex IH]; intros H; [reflexivity|].
  cbn in H. apply andb_true_iff in H. destruct H as [Hc Hl].
  apply negb_true_iff in Hc. cbn. rewrite Hc, (IH Hl). reflexivity.
Qed.

Lemma matchAt_complete n latex rest :
  latex <> [] -> noDollar latex = true ->
  matchAt (S n) (dollars (S n) ++ latex ++ dollars (S n) ++ rest)
  = Some (latex, rest).
Proof.
  intros Hne Hnd. unfold matchAt. rewrite stripDollars_dollars.
  change (dollars (S n) ++ rest) with (36 :: dollars n ++ rest).
  rewrite (spanNotDollar_span latex _ Hnd).
  destruct latex as [|c latex]; [congruence|].
  change (36 :: dollars n ++ rest) with (dollars (S n) ++ rest).
  now rewrite stripDollars_dollars.
Qed.

(** The block rule finds nothing in an inline span. *)
Lemma block_rule_skips_inline callback latex post :
  latex <> [] -> noDollar latex = true -> noDollar post = true ->
  replaceSpans 2 callback (36 :: latex ++ 36 :: post)
  = Some (36 :: latex ++ 36 :: post).
Proof.
  intros Hne Hnd Hpost.
  rewrite <- (replaceSpans_enough_fuel
                2 callback _ (S (List.length latex + S (List.length post))))
    by (cbn; rewrite length_app; cbn; lia).
  rewrite replaceSpans_fuel_step.
  assert (H1 : matchAt 2 (36 :: latex ++ 36 :: post) = None).
  { destruct latex as [|c latex]; [congruence|].
    cbn in Hnd. apply andb_true_iff in Hnd. destruct Hnd as [Hc _].
    apply negb_true_iff in Hc. unfold matchAt. cbn. now rewrite Hc. }
  rewrite H1, (replaceSpans_fuel_prefix 1 callback latex Hnd).
  rewrite replaceSpans_fuel_step.
  assert (H2 : matchAt 2 (36 :: post) = None).
  { destruct post as [|c post]; [reflexivity|].
    cbn in Hpost. apply andb_true_iff in Hpost. destruct Hpost as [Hc _].
    apply negb_true_iff in Hc. unfold matchAt. cbn. now rewrite Hc. }
  rewrite H2, (replaceSpans_fuel_noDollar 1 callback _ post Hpost).
  reflexivity.
Qed.

Lemma inlineFormulaImage_noDollar encoded :
  noDollar encoded = true -> noDollar (inlineFormulaImage encoded) = true.
Proof.
  intros H. unfold inlineFormulaImage. rewrite !noDollar_app, H. reflexivity.
Qed.

Lemma centeredFormulaImage_noDollar encoded :
  noDollar encoded = true -> noDollar (centeredFormulaImage encoded) = true.
Proof.
  intros H. unfold centeredFormulaImage. rewrite !noDollar_app, H. reflexivity.
Qed.

(** A flagged stretch between two single dollar signs becomes the inline
    image of its formula. *)
Lemma processLatex_inline_span pre latex post encoded :
  noDollar pre = true -> noDollar post = true ->
  latex <> [] -> noDollar latex = true ->
  isLatexFormula latex = true ->
  encodeURIComponent (trim latex) = Some encoded ->
  processLatex (pre ++ js "$" ++ latex ++ js "$" ++ post)
  = Some (pre ++ inlineFormulaImage encoded ++ post).
Proof.
  intros Hpre Hpost Hne Hnd Hflag Henc.
  change (js "$") with [36]. cbn [app].
  unfold processLatex.
  assert (Hblock : replaceSpans 2 blockFormula (pre ++ 36 :: latex ++ 36 :: post)
                   = Some (pre ++ 36 :: latex ++ 36 :: post)).
  { unfold replaceSpans. rewrite length_app, replaceSpans_fuel_prefix by exact Hpre.
    rewrite (replaceSpans_enough_fuel 2 blockFormula _ _ (Nat.le_refl _)).
    now rewrite block_rule_skips_inline. }
  rewrite Hblock. unfold replaceSpans.
  rewrite length_app, replaceSpans_fuel_prefix by exact Hpre.
  cbn [List.length]. rewrite replaceSpans_fuel_step.
  pose proof (matchAt_complete 0 latex post Hne Hnd) as Hm.
  cbn [dollars repeat app] in Hm. rewrite Hm.
  assert (Hcb : inlineFormula (dollars 1 ++ latex ++ dollars 1) latex
                = Some (inlineFormulaImage encoded)).
  { unfold inlineFormula. rewrite Hflag, Henc. reflexivity. }
  rewrite Hcb, (replaceSpans_fuel_noDollar 0 inlineFormula _ post Hpost).
  reflexivity.
Qed.

(** A flagged stretch between two double dollar signs becomes the centred
    image of its formula. *)
Lemma processLatex_block_span pre latex post encoded :
  noDollar pre = true -> noDollar post = true ->
  latex <> [] -> noDollar latex = true ->
  isLatexFormula latex = true ->
  encodeURIComponent (trim latex) = Some encoded ->
  processLatex (pre ++ js "$$" ++ latex ++ js "$$" ++ post)
  = Some (pre ++ centeredFormulaImage encoded ++ post).
Proof.
  intros Hpre Hpost Hne Hnd Hflag Henc.
  change (js "$$") with (dollars 2).
  unfold processLatex, replaceSpans.
  rewrite length_app, replaceSpans_fuel_prefix by exact Hpre.
  pose proof (matchAt_complete 1 latex post Hne Hnd) as Hm.
  remember (dollars 2 ++ latex ++ dollars 2 ++ post) as span eqn:Espan.
  destruct span as [|c span]; [discriminate Espan|].
  cbn [List.length]. rewrite replaceSpans_fuel_step, Hm.
  assert (Hcb : blockFormula (dollars 2 ++ latex ++ dollars 2) latex
                = Some (centeredFormulaImage encoded)).
  { unfold blockFormula. rewrite Hflag, Henc. reflexivity. }
  rewrite Hcb, (replaceSpans_fuel_noDollar 1 blockFormula _ post Hpost).
  cbn [option_map].
  apply (replaceSpans_fuel_noDollar 0 inlineFormula).
  rewrite !noDollar_app, Hpre, Hpost.
  rewrite centeredFormulaImage_noDollar; [reflexivity|].
  apply plain_noDollar. now apply encodeURIComponent_plain with (trim latex).
Qed.

End LatexFacts.


(* ================================================================== *)
(** * The image pipeline, as the specification describes it *)
(* ================================================================== *)

Module ImagePipelineFacts.
Import Async Adapter JsString Latex ImagePipeline.
Local Open Scope N_scope.
Local Open Scope list_scope.

Lemma startsWith_cut pat :
  ~ In 60 pat ->
  forall s rest,
    startsWith pat s = None -> startsWith pat (s ++ 60 :: rest) = None.
Proof.
  induction pat as [|p pat IH]; intros Hno s rest H; [discriminate|].
  assert (Hp : (p =? 60) = false).
  { apply N.eqb_neq. intros ->. apply Hno. now left. }
  assert (Hno' : ~ In 60 pat) by (intros Hin; apply Hno; now right).
  destruct s as [|c s]; cbn [app startsWith] in *.
  - now rewrite Hp.
  - destruct (p =? c); [|reflexivity]. now apply IH.
Qed.

Lemma findImage_cons c s :
  findImage (c :: s)
  = match startsWith imgOpen (c :: s) with
    | Some after => Some ([], after)
    | None =>
        match findImage s with
        | Some (before, after) => Some (c :: before, after)
        | None => None
        end
    end.
Proof. reflexivity. Qed.

(** An image reference cannot straddle the opening of the next tag: the
    scan of markup that holds none goes on to what follows. *)
Lemma findImage_prefix pre rest :
  findImage pre = None ->
  findImage (pre ++ 60 :: rest)
  = match findImage (60 :: rest) with
    | Some (before, after) => Some (pre ++ before, after)
    | None => None
    end.
Proof.
  induction pre as [|c pre IH]; intros H.
  - cbn [app]. now destruct (findImage (60 :: rest)) as [[b a]|].
  - rewrite findImage_cons in H.
    destruct (startsWith imgOpen (c :: pre)) eqn:Es; [discriminate|].
    destruct (findImage pre) as [[b a]|] eqn:Ef; [discriminate|].
    rewrite <- app_comm_cons, findImage_cons.
    assert (Hs : startsWith imgOpen (c :: pre ++ 60 :: rest) = None).
    { change imgOpen with (60 :: [105; 109; 103; 32; 115; 114; 99; 61; 34])
        in Es |- *.
      remember [105; 109; 103; 32; 115; 114; 99; 61; 34] as pat eqn:Epat.
      cbn [startsWith app] in Es |- *.
      destruct (60 =? c); [|reflexivity].
      apply startsWith_cut; [|exact Es].
      subst pat. cbn. intros H60.
      repeat (destruct H60 as [H60|H60]; [discriminate H60|]).
      exact H60. }
    rewrite Hs, (IH eq_refl).
    now destruct (findImage (60 :: rest)) as [[b a]|].
Qed.

Lemma spanNotQuote_span src rest :
  Forall (fun c => c <> 34) src ->
  spanNotQuote (src ++ 34 :: rest) = (src, 34 :: rest).
Proof.
  induction 1 as [|c src Hc Hsrc IH]; [reflexivity|].
  cbn. apply N.eqb_neq in Hc. now rewrite Hc, IH.
Qed.

Lemma processImages_fuel_none {State : Type} policy
      (upload : jsstring -> M State ImageUploadResult) skips fuel s :
  findImage s = None ->
  processImages_fuel policy upload skips fuel s = ret s.
Proof. intros H. destruct fuel; [reflexivity|]. cbn. now rewrite H. Qed.

(** Where the scan finds the image of the block rule. *)
Lemma findImage_centered src post :
  findImage (centeredImage src ++ post)
  = Some (js "<p style=" ++ dq ++ js "text-align: center;" ++ dq ++ js ">",
          src ++ dq ++ js " alt=" ++ dq ++ js "formula" ++ dq
          ++ js " style=" ++ dq
          ++ js "vertical-align: middle; max-width: 100%;" ++ dq
          ++ js "></p>" ++ post).
Proof.
  unfold centeredImage. rewrite <- !app_assoc. reflexivity.
Qed.

Lemma findImage_after_centered post :
  findImage post = None ->
  findImage (dq ++ js " alt=" ++ dq ++ js "formula" ++ dq
             ++ js " style=" ++ dq
             ++ js "vertical-align: middle; max-width: 100%;" ++ dq
             ++ js "></p>" ++ post) = None.
Proof.
  intros H.
  change (dq ++ js " alt=" ++ dq ++ js "formula" ++ dq
             ++ js " style=" ++ dq
             ++ js "vertical-align: middle; max-width: 100%;" ++ dq
             ++ js "></p>" ++ post)
    with (ltac:(let t := eval vm_compute in
                   (dq ++ js " alt=" ++ dq ++ js "formula" ++ dq
                    ++ js " style=" ++ dq
                    ++ js "vertical-align: middle; max-width: 100%;" ++ dq
                    ++ js "></p>") in exact t) ++ post).
  cbn [app].
  repeat (cbn [findImage]; 
          match goal with
          | |- context [startsWith imgOpen (?c :: ?l)] =>
              change (startsWith imgOpen (c :: l)) with (@None jsstring)
          end).
  now rewrite H.
Qed.

Section Rehost.
Context {State : Type}.
Variable policy : FailurePolicy.
Variable upload : jsstring -> M State ImageUploadResult.
Variable skips : list jsstring.

(** The image pipeline on markup whose one image reference is the image
    of the block rule: the reference is handed to the upload function,
    and the address it returns is written in its place. *)
Lemma processImages_centered pre src post st :
  findImage pre = None -> findImage post = None ->
  Forall (fun c => c <> 34) src ->
  skipped skips src = false ->
  processImages policy (pre ++ centeredImage src ++ post) upload skips st
  = match upload src st with
    | (Resolved r, st') =>
        match hostedUrl r with
        | Some hosted => (Resolved (pre ++ centeredImage hosted ++ post), st')
        | None =>
            match policy with
            | abortOperation => (Rejected (mkError "no address returned"), st')
            | keepOriginal => (Resolved (pre ++ centeredImage src ++ post), st')
            end
        end
    | (Rejected e, st') =>
        match policy with
        | abortOperation => (Rejected e, st')
        | keepOriginal => (Resolved (pre ++ centeredImage src ++ post), st')
        end
    end.
Proof.
  intros Hpre Hpost Hsrc Hskip. unfold processImages.
  assert (Hfind : findImage (pre ++ centeredImage src ++ post)
                  = Some (pre ++ js "<p style=" ++ dq ++ js "text-align: center;"
                              ++ dq ++ js ">",
                          src ++ dq ++ js " alt=" ++ dq ++ js "formula" ++ dq
                          ++ js " style=" ++ dq
                          ++ js "vertical-align: middle; max-width: 100%;" ++ dq
                          ++ js "></p>" ++ post)).
  { pose proof (findImage_centered src post) as Hc.
    remember (centeredImage src ++ post) as body eqn:Eb.
    destruct body as [|c body]; [discriminate Hc|].
    assert (c = 60) as ->.
    { unfold centeredImage in Eb. cbn in Eb. now injection Eb. }
    now rewrite (findImage_prefix pre body Hpre), Hc. }
  remember (pre ++ centeredImage src ++ post) as content eqn:Ec.
  destruct content as [|c0 content].
  { destruct pre; discriminate Ec. }
  cbn [List.length processImages_fuel]. rewrite Hfind.
  change (dq ++ js " alt=" ++ dq ++ js "formula" ++ dq ++ js " style=" ++ dq
          ++ js "vertical-align: middle; max-width: 100%;" ++ dq
          ++ js "></p>" ++ post)
    with (34 :: (js " alt=" ++ dq ++ js "formula" ++ dq ++ js " style=" ++ dq
          ++ js "vertical-align: middle; max-width: 100%;" ++ dq
          ++ js "></p>" ++ post)).
  rewrite (spanNotQuote_span src _ Hsrc), Hskip.
  rewrite (processImages_fuel_none policy upload skips _ _
             (findImage_after_centered post Hpost)).
  unfold rehost, tryCatch, bind, ret, throw.
  destruct (upload src st) as [[r|e] st'].
  - destruct (hostedUrl r) as [hosted|].
    + f_equal. f_equal. unfold centeredImage.
      rewrite <- !app_assoc. f_equal.
    + destruct policy; [reflexivity|].
      f_equal. f_equal. rewrite Ec. unfold centeredImage.
      rewrite <- !app_assoc. f_equal.
  - destruct policy; [reflexivity|].
    f_equal. f_equal. rewrite Ec. unfold centeredImage.
    rewrite <- !app_assoc. f_equal.
Qed.
End Rehost.

Lemma blockFormulaUrl_unquoted encoded :
  Forall plainChar encoded ->
  Forall (fun c => c <> 34) (blockFormulaUrl encoded).
Proof.
  intros H. unfold blockFormulaUrl. apply Forall_app. split.
  - apply Forall_forall. intros c Hc Heq. subst c. vm_compute in Hc.
    repeat (destruct Hc as [Hc|Hc]; [discriminate Hc|]). exact Hc.
  - eapply Forall_impl; [|exact H]. unfold plainChar. cbn. tauto.
Qed.

End ImagePipelineFacts.


Module WeixinFacts.
Import Async Adapter JsString Latex LatexFacts ImagePipeline Weixin.
Local Open Scope list_scope.

Section Pipeline.
Context {World : Type}.
Variable runtime_fetch : Request -> World -> Outcome Response * World.
Variable scanPage : string -> PageMatches.
Variable markdownToHtml : option jsstring -> Outcome jsstring.
Variable cleanHtml : jsstring -> Outcome jsstring.
Variable processContent : jsstring -> Outcome jsstring.
Variable uploadImageByUrl : jsstring -> M (St (World := World)) ImageUploadResult.

(** In [publish] the image pipeline is run on the output of the formula
    step, whatever the image pipeline is. *)
Lemma images_after_formulas processImages article meta w rawHtml cleaned latexed :
  match html article with
  | Some (c :: h) => Resolved (c :: h)
  | _ => markdownToHtml (markdown article)
  end = Resolved rawHtml ->
  cleanHtml rawHtml = Resolved cleaned ->
  processLatex cleaned = Some latexed ->
  prepareContent runtime_fetch scanPage markdownToHtml cleanHtml processImages
                 processContent uploadImageByUrl article (Some meta, w)
  = bind (processImages latexed uploadImageByUrl skipPatterns)
         (fun content => await (processContent content))
         (Some meta, w).
Proof.
  intros Hraw Hclean Hlatex.
  unfold prepareContent, bind at 1. cbn iota beta.
  unfold bind at 1, await at 1. rewrite Hraw.
  unfold bind at 1, await at 1. rewrite Hclean.
  unfold bind at 1, await at 1. rewrite Hlatex.
  reflexivity.
Qed.

(** With the image pipeline of the specification, the image of a block
    formula is uploaded, and the markup that goes on to the style
    inlining references the address the upload returned. *)
Lemma formula_image_rehosted policy article meta w rawHtml
      pre latex post encoded r hosted st' :
  match html article with
  | Some (c :: h) => Resolved (c :: h)
  | _ => markdownToHtml (markdown article)
  end = Resolved rawHtml ->
  cleanHtml rawHtml = Resolved (pre ++ js "$$" ++ latex ++ js "$$" ++ post) ->
  noDollar pre = true -> noDollar post = true ->
  latex <> [] -> noDollar latex = true ->
  isLatexFormula latex = true ->
  encodeURIComponent (trim latex) = Some encoded ->
  findImage pre = None -> findImage post = None ->
  skipped skipPatterns (blockFormulaUrl encoded) = false ->
  uploadImageByUrl (blockFormulaUrl encoded) (Some meta, w)
  = (Resolved r, st') ->
  hostedUrl r = Some hosted ->
  prepareContent runtime_fetch scanPage markdownToHtml cleanHtml
                 (processImages policy) processContent uploadImageByUrl
                 article (Some meta, w)
  = await (processContent (pre ++ centeredImage hosted ++ post)) st'.
Proof.
  intros Hraw Hclean Hpre Hpost Hne Hnd Hflag Henc Hipre Hipost Hskip Hup Hurl.
  rewrite (images_after_formulas
             (processImages policy) article meta w rawHtml _ _ Hraw Hclean
             (processLatex_block_span pre latex post encoded
                Hpre Hpost Hne Hnd Hflag Henc)).
  unfold bind.
  change (centeredFormulaImage encoded)
    with (centeredImage (blockFormulaUrl encoded)).
  rewrite (ImagePipelineFacts.processImages_centered
             policy uploadImageByUrl skipPatterns pre
             (blockFormulaUrl encoded) post (Some meta, w) Hipre Hipost).
  - now rewrite Hup, Hurl.
  - apply ImagePipelineFacts.blockFormulaUrl_unquoted.
    now apply encodeURIComponent_plain with (trim latex).
  - exact Hskip.
Qed.
End Pipeline.

(** C8, as the code has it, with the image pipeline as the specification
    describes it. The classifier flags a span exactly when it contains
    one of the characters backslash, caret, underscore, braces, a letter
    from U+03B1 to U+03C9 or from U+0391 to U+03A9, or one of the
    thirteen glyphs listed; markup in which no stretch between two
    dollar signs holds such a character comes out of the formula step
    unchanged, dollar signs included; the formula [E=mc^2] is flagged;
    a flagged stretch between the only two dollar signs of the markup
    becomes the inline image of the rendering service, and a flagged
    stretch between the only two double dollar signs becomes its centred
    image; in [publish] the image pipeline receives the output of the
    formula step; and that pipeline uploads the image of the block
    formula and writes the address the upload returns in its place. *)
Theorem formula_step :
  (forall text,
      isLatexFormula text = true
      <-> exists c,
            In c text
            /\ (In c [0x5C; 0x5E; 0x5F; 0x7B; 0x7D]
                \/ (0x3B1 <= c /\ c <= 0x3C9)
                \/ (0x391 <= c /\ c <= 0x3A9)
                \/ In c [0x2211; 0x220F; 0x222B; 0x2202; 0x2207; 0x221E;
                         0x2260; 0x2264; 0x2265; 0xB1; 0xD7; 0xF7; 0x221A])%N)
  /\ (forall content,
         (forall pre latex rest,
             content = pre ++ js "$" ++ latex ++ js "$" ++ rest ->
             noDollar latex = true ->
             isLatexFormula latex = false) ->
         processLatex content = Some content)
  /\ isLatexFormula (js "E=mc^2") = true
  /\ (forall pre latex post encoded,
         noDollar pre = true -> noDollar post = true ->
         latex <> [] -> noDollar latex = true ->
         isLatexFormula latex = true ->
         encodeURIComponent (trim latex) = Some encoded ->
         processLatex (pre ++ js "$" ++ latex ++ js "$" ++ post)
         = Some (pre ++ inlineFormulaImage encoded ++ post))
  /\ (forall pre latex post encoded,
         noDollar pre = true -> noDollar post = true ->
         latex <> [] -> noDollar latex = true ->
         isLatexFormula latex = true ->
         encodeURIComponent (trim latex) = Some encoded ->
         processLatex (pre ++ js "$$" ++ latex ++ js "$$" ++ post)
         = Some (pre ++ centeredFormulaImage encoded ++ post))
  /\ (forall (World : Type) runtime_fetch scanPage markdownToHtml cleanHtml
             processContent uploadImageByUrl processImages
             article meta (w : World) rawHtml cleaned latexed,
         match html article with
         | Some (c :: h) => Resolved (c :: h)
         | _ => markdownToHtml (markdown article)
         end = Resolved rawHtml ->
         cleanHtml rawHtml = Resolved cleaned ->
         processLatex cleaned = Some latexed ->
         prepareContent runtime_fetch scanPage markdownToHtml cleanHtml
                        processImages processContent uploadImageByUrl
                        article (Some meta, w)
         = bind (processImages latexed uploadImageByUrl skipPatterns)
                (fun content => await (processContent content))
                (Some meta, w))
  /\ (forall (World : Type) runtime_fetch scanPage markdownToHtml cleanHtml
             processContent uploadImageByUrl policy
             article meta (w : World) rawHtml pre latex post encoded
             r hosted st',
         match html article with
         | Some (c :: h) => Resolved (c :: h)
         | _ => markdownToHtml (markdown article)
         end = Resolved rawHtml ->
         cleanHtml rawHtml
         = Resolved (pre ++ js "$$" ++ latex ++ js "$$" ++ post) ->
         noDollar pre = true -> noDollar post = true ->
         latex <> [] -> noDollar latex = true ->
         isLatexFormula latex = true ->
         encodeURIComponent (trim latex) = Some encoded ->
         findImage pre = None -> findImage post = None ->
         skipped skipPatterns (blockFormulaUrl encoded) = false ->
         uploadImageByUrl (blockFormulaUrl encoded) (Some meta, w)
         = (Resolved r, st') ->
         hostedUrl r = Some hosted ->
         prepareContent runtime_fetch scanPage markdownToHtml cleanHtml
                        (processImages policy) processContent uploadImageByUrl
                        article (Some meta, w)
         = await (processContent (pre ++ centeredImage hosted ++ post)) st').
Proof.
  split; [exact isLatexFormula_chars|].
  split; [exact processLatex_plain|].
  split; [vm_compute; reflexivity|].
  split; [exact processLatex_inline_span|].
  split; [exact processLatex_block_span|].
  split.
  - intros. now apply images_after_formulas with rawHtml cleaned.
  - intros. now apply formula_image_rehosted with rawHtml latex encoded r.
Qed.

(** The scenario: the markup of the article holds the block formula
    [E=mc^2]; the draft gets the centred image with the address to which
    the rendered formula was uploaded. *)
Lemma formula_step_witness :
  prepareContent (World := unit)
    (fun _ w => (Rejected (mkError "offline"), w))
    (fun _ => mkMatches None None None None None None None)
    (fun _ => Resolved (js "<h1>H</h1><p>$$E=mc^2$$</p>"))
    (fun html => Resolved html)
    (processImages abortOperation)
    (fun html => Resolved html)
    (fun src => ret (mkUpload (Some (JStr "https://mmbiz.qpic.cn/formula.png"))))
    (mkArticle "T" None (Some (js "# H $$E=mc^2$$")))
    (Some (mkMeta "token" "gh_1" "n" "ticket" None ""), tt)
  = (Resolved (js "<h1>H</h1><p>"
               ++ centeredImage (js "https://mmbiz.qpic.cn/formula.png")
               ++ js "</p>"),
     (Some (mkMeta "token" "gh_1" "n" "ticket" None ""), tt)).
Proof.
  apply (proj2 (proj2 (proj2 (proj2 (proj2 (proj2 formula_step)))))
           unit _ _ _ _ _ _ abortOperation _ _ tt
           (js "<h1>H</h1><p>$$E=mc^2$$</p>")
           (js "<h1>H</h1><p>") (js "E=mc^2") (js "</p>") (js "E%3Dmc%5E2")
           (mkUpload (Some (JStr "https://mmbiz.qpic.cn/formula.png"))));
    try reflexivity.
  discriminate.
Defined.

(** C8 as stated fails on a currency use of the dollar sign: the text
    between the two amounts holds an underscore, the classifier flags it,
    and the span is rewritten into an image. It also fails on Greek
    letters and operator glyphs outside the sets of the classifier: alpha
    with tonos, the phi symbol and the element-of sign are not flagged. *)
Lemma currency_span_rewritten :
  isLatexFormula (js "5 for a_b and ") = true
  /\ processLatex (js "It costs $5 for a_b and $6.")
     = Some (js "It costs <img src=" ++ dq
             ++ js "https://latex.codecogs.com/png.latex?\dpi{120}5%20for%20a_b%20and"
             ++ dq ++ js " alt=" ++ dq ++ js "formula" ++ dq ++ js " style="
             ++ dq ++ js "vertical-align: middle;" ++ dq ++ js ">6.")
  /\ processLatex (js "It costs $5 for a_b and $6.")
     <> Some (js "It costs $5 for a_b and $6.")
  /\ isLatexFormula [0x3AC%N] = false
  /\ isLatexFormula [0x3D5%N] = false
  /\ isLatexFormula [0x2208%N] = false
  /\ processLatex (js "$$x" ++ [0x2208%N] ++ js "A$$")
     = Some (js "$$x" ++ [0x2208%N] ++ js "A$$").
Proof.
  split; [vm_compute; reflexivity|].
  split; [vm_compute; reflexivity|].
  split; [vm_compute; discriminate|].
  repeat split; vm_compute; reflexivity.
Qed.

End WeixinFacts.


Module JuejinFacts.
Import Async Adapter Juejin.
Local Open Scope string_scope.
Local Open Scope list_scope.

Section Upload.
Context {World : Type}.
Variable runtime_fetch : Request -> World -> Outcome Response * World.
Variable fetch_blob : string -> World -> Outcome Blob * World.
Variable stringOf : Json -> string.

#[local] Abbreviation upload := (uploadImageByUrl runtime_fetch fetch_blob stringOf).

(** A [try] block whose handler resolves always resolves. *)
Lemma tryCatch_resolves {S A} (c : M S A) (h : Error -> A) (s : S) :
  exists r s', tryCatch c (fun e => ret (h e)) s = (Resolved r, s').
Proof.
  unfold tryCatch, ret. destruct (c s) as [[a|e] s']; eauto.
Qed.

Lemma upload_resolves src st :
  exists r st', upload src st = (Resolved r, st').
Proof.
  unfold uploadImageByUrl.
  apply (tryCatch_resolves _ (fun _ => mkUpload (Some (JStr src)))).
Qed.

Lemma truthy_notZero v : truthy v = true -> notZero v = true.
Proof. destruct v as [[| | | | |]|]; cbn; auto. Qed.

Lemma truthy_prop_object data key :
  truthy (getPropOpt (Some data) key) = true ->
  getProp (Some data) key = Resolved (getPropOpt (Some data) key).
Proof. destruct data; cbn; try discriminate. reflexivity. Qed.

(** The URL path, outcome by outcome. *)
Lemma upload_url_path src cached w :
  String.prefix "data:" src = false ->
  fst (upload src (cached, w))
  = Resolved
      (mkUpload
         match runtime_fetch (urlSaveRequest src) w with
         | (Rejected _, _) => Some (JStr src)
         | (Resolved response, _) =>
             match resp_json response with
             | Rejected _ => Some (JStr src)
             | Resolved data =>
                 match getProp (Some data) "err_no" with
                 | Rejected _ => Some (JStr src)
                 | Resolved err_no =>
                     if truthy err_no && notZero err_no then Some (JStr src)
                     else if truthy (getPropOpt (Some data) "data")
                          then getPropOpt (Some data) "data"
                          else Some (JStr src)
                 end
             end
         end).
Proof.
  intros Hsrc. unfold uploadImageByUrl, tryCatch. rewrite Hsrc.
  unfold bind at 1, fetch.
  destruct (runtime_fetch (urlSaveRequest src) w) as [[response|e] w'];
    [|reflexivity].
  unfold bind at 1, await at 1.
  destruct (resp_json response) as [data|e]; [|reflexivity].
  unfold bind at 1, await at 1.
  destruct (getProp (Some data) "err_no") as [err_no|e]; [|reflexivity].
  destruct (truthy err_no && notZero err_no); [reflexivity|].
  destruct (truthy (getPropOpt (Some data) "data")); reflexivity.
Qed.

End Upload.

(** C10, as the code has it. [uploadImageByUrl] resolves for every source
    and every behaviour of the capability, data URI or not. For a source
    that is not a data URI, the result URL is the original source whenever
    the URL-upload call rejects, its body does not parse, it carries a
    business error code, or it carries no data. For a data URI the binary
    upload runs inside the same [try] block: its rejection is caught and
    the original source is returned as well. *)
Theorem upload_degrades {World : Type}
        (runtime_fetch : Request -> World -> Outcome Response * World)
        (fetch_blob : string -> World -> Outcome Blob * World)
        (stringOf : Json -> string)
        (src : string) (cached : option string) (w : World) :
  (exists r st',
      uploadImageByUrl runtime_fetch fetch_blob stringOf src (cached, w)
      = (Resolved r, st'))
  /\ (String.prefix "data:" src = false ->
      (* the call rejects *)
      (forall e w', runtime_fetch (urlSaveRequest src) w = (Rejected e, w') ->
                    fst (uploadImageByUrl runtime_fetch fetch_blob stringOf
                                          src (cached, w))
                    = Resolved (mkUpload (Some (JStr src))))
      /\ (forall response w',
             runtime_fetch (urlSaveRequest src) w = (Resolved response, w') ->
             (* the body does not parse *)
             (forall e, resp_json response = Rejected e ->
                        fst (uploadImageByUrl runtime_fetch fetch_blob stringOf
                                              src (cached, w))
                        = Resolved (mkUpload (Some (JStr src))))
             /\ (forall data,
                    resp_json response = Resolved data ->
                    (* a business error code, or no data *)
                    truthy (getPropOpt (Some data) "err_no") = true
                    \/ truthy (getPropOpt (Some data) "data") = false ->
                    fst (uploadImageByUrl runtime_fetch fetch_blob stringOf
                                          src (cached, w))
                    = Resolved (mkUpload (Some (JStr src))))))
  /\ (String.prefix "data:" src = true ->
      (forall e w', fetch_blob src w = (Rejected e, w') ->
                    fst (uploadImageByUrl runtime_fetch fetch_blob stringOf
                                          src (cached, w))
                    = Resolved (mkUpload (Some (JStr src))))
      /\ (forall blob st1 e st2,
             fetchBlob fetch_blob src (cached, w) = (Resolved blob, st1) ->
             uploadImageBinaryInternal runtime_fetch stringOf blob st1
             = (Rejected e, st2) ->
             uploadImageByUrl runtime_fetch fetch_blob stringOf src (cached, w)
             = (Resolved (mkUpload (Some (JStr src))), st2))).
Proof.
  split; [apply upload_resolves|]. split.
  - intros Hsrc.
    pose proof (upload_url_path runtime_fetch fetch_blob stringOf
                                src cached w Hsrc) as Hrun.
    split.
    + intros e w' Hf. rewrite Hrun, Hf. reflexivity.
    + intros response w' Hf. rewrite Hf in Hrun. split.
      * intros e Hj. rewrite Hrun, Hj. reflexivity.
      * intros data Hj Hcase. rewrite Hrun, Hj.
        destruct (getProp (Some data) "err_no") as [err_no|e] eqn:Eno;
          [|reflexivity].
        destruct Hcase as [Herr|Hnone].
        -- rewrite (truthy_prop_object data "err_no" Herr) in Eno.
           assert (E : err_no = getPropOpt (Some data) "err_no") by congruence.
           now rewrite E, Herr, (truthy_notZero _ Herr).
        -- rewrite Hnone. now destruct (truthy err_no && notZero err_no).
  - intros Hsrc. split.
    + intros e w' Hb. unfold uploadImageByUrl, tryCatch. rewrite Hsrc.
      unfold bind at 1, fetchBlob. rewrite Hb. reflexivity.
    + intros blob st1 e st2 Hb Hu. unfold uploadImageByUrl, tryCatch.
      rewrite Hsrc. unfold bind at 1. rewrite Hb.
      unfold bind at 1. rewrite Hu. reflexivity.
Qed.

Lemma upload_degrades_witness :
  fst (uploadImageByUrl offline blobOf (fun _ => EmptyString)
                        "https://example.org/a.png" (None, tt))
  = Resolved (mkUpload (Some (JStr "https://example.org/a.png"))).
Proof.
  apply (proj1 (proj1 (proj2 (upload_degrades
                                offline blobOf (fun _ => EmptyString)
                                "https://example.org/a.png" None tt))
                      eq_refl)
               (mkError "Failed to fetch") tt).
  reflexivity.
Defined.

(** C10 as stated fails on its last clause: for a data URI the function
    does not reject either. With every request failing, the binary upload
    of a data URI rejects (no CSRF token can be fetched), and
    [uploadImageByUrl] resolves with the data URI itself; and there is no
    capability at all under which it rejects. *)
Lemma data_uri_upload_never_rejects :
  String.prefix "data:" sampleDataUri = true
  /\ isResolved
       (fst (uploadImageBinaryInternal offline (fun _ => EmptyString)
                                       sampleDataUri (None, tt))) = false
  /\ uploadImageByUrl offline blobOf (fun _ => EmptyString)
                      sampleDataUri (None, tt)
     = (Resolved (mkUpload (Some (JStr sampleDataUri))), (None, tt))
  /\ ~ (exists (World : Type)
               (runtime_fetch : Request -> World -> Outcome Response * World)
               (fetch_blob : string -> World -> Outcome Blob * World)
               (stringOf : Json -> string) (src : string)
               (st : option string * World),
           String.prefix "data:" src = true
           /\ isResolved
                (fst (uploadImageByUrl runtime_fetch fetch_blob stringOf src st))
              = false).
Proof.
  split; [reflexivity|]. split; [reflexivity|]. split; [reflexivity|].
  intros (World & rf & fb & so & src & st & _ & H).
  destruct (upload_resolves rf fb so src st) as (r & st' & Hr).
  rewrite Hr in H. discriminate.
Qed.

End JuejinFacts.


Module CheckAuthFacts.
Import Async Adapter.
Local Open Scope string_scope.
Local Open Scope list_scope.

(** *** Weixin and Juejin: the [catch] block only builds a result *)

Lemma weixin_checkAuth_resolves {World : Type}
      (runtime_fetch : Request -> World -> Outcome Response * World)
      (scanPage : string -> Weixin.PageMatches) st :
  exists r st', Weixin.checkAuth runtime_fetch scanPage st = (Resolved r, st').
Proof.
  unfold Weixin.checkAuth.
  apply (JuejinFacts.tryCatch_resolves _ authFailed).
Qed.

Lemma juejin_checkAuth_resolves {World : Type}
      (runtime_fetch : Request -> World -> Outcome Response * World) st :
  exists r st', Juejin.checkAuth runtime_fetch st = (Resolved r, st').
Proof.
  unfold Juejin.checkAuth.
  apply (JuejinFacts.tryCatch_resolves _ authFailed).
Qed.

(** On a rejected request or an unreadable body the result is
    [{isAuthenticated: false, error}]. *)
Lemma weixin_checkAuth_failure {World : Type}
      (runtime_fetch : Request -> World -> Outcome Response * World)
      (scanPage : string -> Weixin.PageMatches) meta w :
  (forall e w',
      runtime_fetch (mkRequest "https://mp.weixin.qq.com/" "GET" [] NoBody) w
      = (Rejected e, w') ->
      Weixin.checkAuth runtime_fetch scanPage (meta, w)
      = (Resolved (authFailed e), (meta, w')))
  /\ (forall response e w',
         runtime_fetch (mkRequest "https://mp.weixin.qq.com/" "GET" [] NoBody) w
         = (Resolved response, w') ->
         resp_text response = Rejected e ->
         Weixin.checkAuth runtime_fetch scanPage (meta, w)
         = (Resolved (authFailed e), (meta, w')))
  /\ (forall response html w',
         runtime_fetch (mkRequest "https://mp.weixin.qq.com/" "GET" [] NoBody) w
         = (Resolved response, w') ->
         resp_text response = Resolved html ->
         Weixin.tokenMatch (scanPage html) = None ->
         Weixin.checkAuth runtime_fetch scanPage (meta, w)
         = (Resolved notAuthenticated, (meta, w'))).
Proof.
  unfold Weixin.checkAuth, tryCatch, bind, Weixin.fetch, await, ret.
  repeat split.
  - intros e w' ->. reflexivity.
  - intros response e w' -> ->. reflexivity.
  - intros response html w' -> -> ->. reflexivity.
Qed.

Lemma juejin_checkAuth_failure {World : Type}
      (runtime_fetch : Request -> World -> Outcome Response * World) cached w :
  (forall e w',
      runtime_fetch (mkRequest "https://api.juejin.cn/user_api/v1/user/get"
                               "GET" [] NoBody) w
      = (Rejected e, w') ->
      Juejin.checkAuth runtime_fetch (cached, w)
      = (Resolved (authFailed e), (cached, w')))
  /\ (forall response e w',
         runtime_fetch (mkRequest "https://api.juejin.cn/user_api/v1/user/get"
                                  "GET" [] NoBody) w
         = (Resolved response, w') ->
         resp_json response = Rejected e ->
         Juejin.checkAuth runtime_fetch (cached, w)
         = (Resolved (authFailed e), (cached, w')))
  /\ (forall response data w',
         runtime_fetch (mkRequest "https://api.juejin.cn/user_api/v1/user/get"
                                  "GET" [] NoBody) w
         = (Resolved response, w') ->
         resp_json response = Resolved (JObj data) ->
         truthy (getPropOpt (lookup "data" data) "user_id") = false ->
         Juejin.checkAuth runtime_fetch (cached, w)
         = (Resolved notAuthenticated, (cached, w'))).
Proof.
  unfold Juejin.checkAuth, tryCatch, bind, Juejin.fetch, await, ret.
  repeat split.
  - intros e w' ->. reflexivity.
  - intros response e w' -> ->. reflexivity.
  - intros response data w' -> -> H. cbn. now rewrite H.
Qed.

(** *** Imooc: the [catch] block awaits the removal of the header rule *)

Section Imooc.
Context {World : Type}.
Variable runtime_fetch : Request -> World -> Outcome Response * World.
Variable JSON_parse : string -> Outcome Json.

(** Without the header-rule capability [checkAuth] always resolves. *)
Lemma imooc_checkAuth_resolves_without_rules st :
  exists r st',
    Imooc.checkAuth runtime_fetch None JSON_parse st = (Resolved r, st').
Proof.
  unfold Imooc.checkAuth, tryCatch.
  match goal with |- context [?c st] =>
    destruct (c st) as [[a|e] [ruleId w]] end.
  - eauto.
  - unfold bind, Imooc.removeHeaderRules, ret. eauto.
Qed.

(** So it does when removing a rule never fails. *)
Lemma imooc_checkAuth_resolves_when_removal_succeeds rules st :
  (forall ruleId w, isResolved (fst (Imooc.remove rules ruleId w)) = true) ->
  exists r st',
    Imooc.checkAuth runtime_fetch (Some rules) JSON_parse st = (Resolved r, st').
Proof.
  intros Hrm. unfold Imooc.checkAuth, tryCatch.
  match goal with |- context [?c st] =>
    destruct (c st) as [[a|e] [ruleId w]] end.
  - eauto.
  - unfold bind, Imooc.removeHeaderRules, ret.
    destruct ruleId as [[|c t]|]; eauto.
    specialize (Hrm (String c t) w).
    destruct (Imooc.remove rules (String c t) w) as [[u|e'] w'];
      [eauto | discriminate].
Qed.
End Imooc.

(** C7 does not hold for the Imooc adapter. When the request fails after
    the header rule was added, the [catch] block awaits
    [removeHeaderRules]; if the removal rejects, so does [checkAuth], with
    the removal's error, instead of resolving to
    [{isAuthenticated: false, error}]. *)
Theorem imooc_checkAuth_rejects {World : Type}
        (runtime_fetch : Request -> World -> Outcome Response * World)
        (rules : Imooc.HeaderRules) (JSON_parse : string -> Outcome Json)
        (ruleId0 : option string) (w w1 w2 w3 : World)
        (c : Ascii.ascii) (t : string) (e e' : Error) :
  Imooc.add rules w = (Resolved (String c t), w1) ->
  runtime_fetch (mkRequest "https://www.imooc.com/u/card" "GET" [] NoBody) w1
  = (Rejected e, w2) ->
  Imooc.remove rules (String c t) w2 = (Rejected e', w3) ->
  Imooc.checkAuth runtime_fetch (Some rules) JSON_parse (ruleId0, w)
  = (Rejected e', (Some (String c t), w3)).
Proof.
  intros Hadd Hfetch Hremove.
  unfold Imooc.checkAuth, tryCatch, bind, Imooc.addHeaderRules, Imooc.fetch,
    Imooc.removeHeaderRules.
  cbn beta iota. rewrite Hadd. cbn beta iota. rewrite Hfetch.
  cbn beta iota. now rewrite Hremove.
Qed.

Lemma imooc_checkAuth_rejects_witness :
  Imooc.checkAuth Imooc.failingFetch (Some Imooc.stuckRules) Imooc.anyParse
                  (None, tt)
  = (Rejected (mkError "rule removal failed"), (Some "rule-1", tt)).
Proof.
  apply (imooc_checkAuth_rejects
           Imooc.failingFetch Imooc.stuckRules Imooc.anyParse None
           tt tt tt tt "r"%char "ule-1"
           (mkError "Failed to fetch") (mkError "rule removal failed"));
    reflexivity.
Defined.

End CheckAuthFacts.


Module McpLifeFacts.
Import Async Mcp McpLife.
Local Open Scope string_scope.
Local Open Scope list_scope.

(** *** The backoff delay *)

Lemma pow2_pos n : 1 <= 2 ^ Z.of_nat n.
Proof.
  induction n as [|n IH]; [cbn; lia|].
  rewrite Nat2Z.inj_succ, Z.pow_succ_r by lia. lia.
Qed.

Lemma reconnectDelay_bounds n :
  minReconnectInterval <= reconnectDelay n <= maxReconnectInterval.
Proof.
  unfold reconnectDelay, minReconnectInterval, maxReconnectInterval.
  pose proof (pow2_pos n). lia.
Qed.

(** X1. The reconnect delay starts at the base interval, never decreases
    as the attempt counter grows, never passes the cap, and is the cap
    exactly from the sixth attempt on (counter 5 and above). *)
Theorem reconnectDelay_profile (n m : nat) :
  (n <= m)%nat ->
  reconnectDelay 0 = 1000
  /\ 1000 <= reconnectDelay n
  /\ reconnectDelay n <= reconnectDelay m
  /\ reconnectDelay m <= 30000
  /\ (reconnectDelay n = 30000 <-> (5 <= n)%nat).
Proof.
  intros Hnm.
  pose proof (reconnectDelay_bounds n) as Hn.
  pose proof (reconnectDelay_bounds m) as Hm.
  unfold minReconnectInterval, maxReconnectInterval in *.
  split; [reflexivity|]. split; [lia|]. split; [|split; [lia|]].
  - unfold reconnectDelay, minReconnectInterval, maxReconnectInterval.
    assert (2 ^ Z.of_nat n <= 2 ^ Z.of_nat m)
      by (apply Z.pow_le_mono_r; lia).
    lia.
  - unfold reconnectDelay, minReconnectInterval, maxReconnectInterval.
    split.
    + intros H. destruct (le_lt_dec 5 n) as [Hle|Hlt]; [exact Hle|].
      exfalso.
      assert (2 ^ Z.of_nat n <= 2 ^ 4) by (apply Z.pow_le_mono_r; lia).
      change (2 ^ 4) with 16 in *. lia.
    + intros H.
      assert (2 ^ 5 <= 2 ^ Z.of_nat n) by (apply Z.pow_le_mono_r; lia).
      change (2 ^ 5) with 32 in *. lia.
Qed.

Lemma reconnectDelay_profile_witness :
  reconnectDelay 4 <= reconnectDelay 7.
Proof.
  apply (proj1 (proj2 (proj2 (reconnectDelay_profile 4 7 ltac:(lia))))).
Defined.

Section Life.
Context {Result : Type}.
Implicit Type c : McpClient Result.

(** *** Every event keeps the counter and the timer within bounds *)

Lemma scheduleReconnect_withinBounds c :
  withinBounds c -> withinBounds (scheduleReconnect c).
Proof.
  intros H. unfold scheduleReconnect.
  destruct (reconnectTimer c) as [d|]; [exact H|].
  destruct (Nat.leb_spec maxReconnectAttempts (reconnectAttempts c));
    [exact H|].
  split; cbn; [lia|]. intros d [= <-]. apply reconnectDelay_bounds.
Qed.

Lemma connect_withinBounds b c :
  withinBounds c -> withinBounds (connect b c).
Proof.
  intros H. unfold connect. destruct (isConnected c); [exact H|].
  destruct b; [apply scheduleReconnect_withinBounds|]; exact H.
Qed.

Lemma step_withinBounds c e : withinBounds c -> withinBounds (step c e).
Proof.
  intros H. destruct e; cbn [step].
  - now apply connect_withinBounds.
  - split; cbn; [lia | discriminate].
  - apply scheduleReconnect_withinBounds. exact H.
  - apply connect_withinBounds. destruct H as [Hn _].
    split; cbn; [exact Hn | discriminate].
  - split; cbn; [lia | discriminate].
  - unfold resetReconnect.
    assert (H0 : withinBounds (mkClient (ws c) (reconnectTimer c) (token c) 0))
      by (destruct H as [_ Ht]; split; cbn; [lia | exact Ht]).
    destruct (isConnected _); [exact H0 | now apply connect_withinBounds].
  - exact H.
  - exact H.
Qed.

Lemma run_app l1 l2 c : run (l1 ++ l2) c = run l2 (run l1 c).
Proof. apply fold_left_app. Qed.

(** *** A run of failed attempts *)

(** The client after the socket closed and [k] attempts failed. *)
Lemma failedAttempt_step b k c :
  ws c = None ->
  reconnectAttempts c = Nat.min (S k) 100 ->
  reconnectTimer c
  = (if (k <? 100)%nat then Some (reconnectDelay k) else None) ->
  let c' := run (failedAttempt b) c in
  ws c' = None
  /\ reconnectAttempts c' = Nat.min (S (S k)) 100
  /\ reconnectTimer c'
     = (if (S k <? 100)%nat then Some (reconnectDelay (S k)) else None)
  /\ token c' = token c.
Proof.
  intros Hws Hn Ht.
  assert (Hsched :
            forall c0 : McpClient Result,
              ws c0 = None -> reconnectTimer c0 = None ->
              reconnectAttempts c0 = Nat.min (S k) 100 ->
              ws (scheduleReconnect c0) = None
              /\ reconnectAttempts (scheduleReconnect c0) = Nat.min (S (S k)) 100
              /\ reconnectTimer (scheduleReconnect c0)
                 = (if (S k <? 100)%nat then Some (reconnectDelay (S k))
                    else None)
              /\ token (scheduleReconnect c0) = token c0).
  { intros c0 Hw0 Ht0 Hn0. unfold scheduleReconnect. rewrite Ht0.
    unfold maxReconnectAttempts.
    destruct (Nat.leb_spec 100 (reconnectAttempts c0)) as [Hge|Hlt].
    - assert (Hk : (99 <= k)%nat) by lia.
      destruct (Nat.ltb_spec (S k) 100); [lia|].
      repeat split; [exact Hw0 | lia | exact Ht0].
    - assert (Hk : (k < 99)%nat) by lia.
      destruct (Nat.ltb_spec (S k) 100); [|lia].
      cbn. repeat split; [exact Hw0 | lia |].
      do 2 f_equal. lia. }
  destruct b; cbn [failedAttempt run fold_left step].
  - unfold onReconnectTimer, connect, isConnected. cbn [ws]. rewrite Hws.
    cbn [reconnectTimer token reconnectAttempts].
    apply (Hsched (mkClient None None (token c) (reconnectAttempts c)));
      [reflexivity | reflexivity | exact Hn].
  - unfold onReconnectTimer, connect, isConnected. cbn [ws]. rewrite Hws.
    unfold onclose. cbn [reconnectTimer token reconnectAttempts ws].
    apply (Hsched (mkClient None None (token c) (reconnectAttempts c)));
      [reflexivity | reflexivity | exact Hn].
Qed.

Lemma failedAttempts_run attempts :
  forall k c,
    ws c = None ->
    reconnectAttempts c = Nat.min (S k) 100 ->
    reconnectTimer c
    = (if (k <? 100)%nat then Some (reconnectDelay k) else None) ->
    let c' := run (flat_map failedAttempt attempts) c in
    ws c' = None
    /\ reconnectAttempts c' = Nat.min (S (k + List.length attempts)) 100
    /\ reconnectTimer c'
       = (if (k + List.length attempts <? 100)%nat
          then Some (reconnectDelay (k + List.length attempts)) else None)
    /\ token c' = token c.
Proof.
  induction attempts as [|b attempts IH]; intros k c Hws Hn Ht.
  - cbn [flat_map run fold_left List.length]. rewrite Nat.add_0_r. auto.
  - cbn [flat_map List.length]. rewrite run_app.
    destruct (failedAttempt_step b k c Hws Hn Ht) as (Hws' & Hn' & Ht' & Htok).
    destruct (IH (S k) _ Hws' Hn' Ht') as (A & B & C & D).
    replace (k + S (List.length attempts))%nat
      with (S k + List.length attempts)%nat by lia.
    repeat split; try assumption. now rewrite D.
Qed.

End Life.

(** X2. Starting from a fresh client, whatever sequence of events happens
    (calls of the public methods and callbacks, in any order), the attempt
    counter stays at or below 100 and a pending reconnect timer carries a
    delay between 1000 and 30000 ms. *)
Theorem client_stays_within_bounds {Result : Type} (events : list Event) :
  (reconnectAttempts (run events (initial (Result := Result))) <= 100)%nat
  /\ (forall d,
         reconnectTimer (run events (initial (Result := Result))) = Some d ->
         1000 <= d <= 30000).
Proof.
  assert (H : withinBounds (run events (initial (Result := Result)))).
  { unfold run. rewrite <- fold_left_rev_right.
    induction (rev events) as [|e l IH]; cbn [fold_right].
    - split; cbn; [lia | discriminate].
    - now apply step_withinBounds. }
  exact H.
Qed.

(** X3. When the socket of a connected client closes and every reconnect
    attempt after that fails (the constructor throws, or the new socket
    closes before it opens), the k-th failure, for k below 100, leaves a
    timer armed with the delay of counter k; the 100th failure leaves no
    timer, and none is armed afterwards. The hundred delays add up to
    2,881,000 ms. *)
Theorem outage_gives_up {Result : Type} (attempts : list bool) :
  let c := run (outage attempts) (connectedClient (Result := Result)) in
  let k := List.length attempts in
  ws c = None
  /\ reconnectAttempts c = Nat.min (S k) 100
  /\ reconnectTimer c = (if (k <? 100)%nat then Some (reconnectDelay k) else None)
  /\ totalDelay 100 = 2881000.
Proof.
  cbn zeta. unfold outage. change (Closed :: ?l) with ([Closed] ++ l).
  rewrite run_app.
  destruct (failedAttempts_run attempts 0
              (run [Closed] (connectedClient (Result := Result)))
              eq_refl eq_refl eq_refl) as (A & B & C & _).
  cbn [Nat.add] in B, C.
  split; [exact A|]. split; [exact B|]. split; [exact C|].
  vm_compute. reflexivity.
Qed.

(** X4. After [disconnect] the client holds no socket and no timer, and
    close notifications, further disconnects and token changes never arm
    a timer or open a socket; a later [resetReconnect] puts the counter
    back and either starts a connection or arms the 1000 ms timer. *)
Theorem disconnect_is_final {Result : Type} (c : McpClient Result)
        (events : list Event) :
  forallb isPassive events = true ->
  let c' := run events (disconnect c) in
  ws c' = None
  /\ reconnectTimer c' = None
  /\ reconnectAttempts c' = 100%nat
  /\ (forall b,
         (b = false /\ ws (resetReconnect b c') = Some (mkSocket CONNECTING [])
          /\ reconnectAttempts (resetReconnect b c') = 0%nat)
         \/ (b = true /\ ws (resetReconnect b c') = None
             /\ reconnectTimer (resetReconnect b c') = Some 1000
             /\ reconnectAttempts (resetReconnect b c') = 1%nat)).
Proof.
  intros Hev. cbn zeta.
  assert (H : ws (run events (disconnect c)) = None
              /\ reconnectTimer (run events (disconnect c)) = None
              /\ reconnectAttempts (run events (disconnect c)) = 100%nat).
  { unfold run. rewrite <- fold_left_rev_right.
    assert (Hrev : forallb isPassive (rev events) = true).
    { rewrite forallb_forall in *. intros e He. apply Hev.
      now apply in_rev. }
    clear Hev. induction (rev events) as [|e l IH]; cbn [fold_right].
    - repeat split.
    - cbn in Hrev. apply andb_true_iff in Hrev. destruct Hrev as [He Hl].
      destruct (IH Hl) as (A & B & C).
      destruct e; try discriminate He; cbn [step].
      + unfold onclose, scheduleReconnect. cbn. rewrite B, C. cbn.
        repeat split.
      + repeat split.
      + cbn. auto.
      + cbn. auto. }
  destruct H as (A & B & C).
  split; [exact A|]. split; [exact B|]. split; [exact C|].
  intros b. unfold resetReconnect, connect, isConnected. cbn [ws].
  rewrite A. destruct b; [right | left].
  - unfold scheduleReconnect. cbn. rewrite B. cbn. repeat split.
  - cbn. repeat split.
Qed.

Lemma disconnect_is_final_witness :
  reconnectTimer
    (run [Closed; SetToken "t"; Closed]
         (disconnect (connectedClient (Result := unit)))) = None.
Proof.
  apply (proj1 (proj2 (disconnect_is_final
                         (connectedClient (Result := unit))
                         [Closed; SetToken "t"; Closed] eq_refl))).
Defined.

End McpLifeFacts.


Module McpMethodsFacts.
Import Async Adapter Mcp McpMethods.
Local Open Scope string_scope.
Local Open Scope list_scope.

Section Validation.
Context {World : Type}.
Variable backend : Backend (World := World).

Lemma unknown_method method params (w : World) :
  ~ In method knownMethods ->
  handleMethod backend method params w
  = (Rejected (mkError ("Unknown method: " ++ method)), w).
Proof.
  intros Hn. unfold handleMethod.
  assert (H : forall known, In known knownMethods ->
                            String.eqb method known = false).
  { intros known Hk. destruct (String.eqb_spec method known) as [->|];
      [contradiction | reflexivity]. }
  rewrite !H by (cbn; auto 10). reflexivity.
Qed.

(** X5. [handleMethod] turns a request down before anything else happens
    (the world behind the method table is untouched, whatever the backend)
    when the method is not one of the five of the table, when [checkAuth]
    has no platform, when [syncArticle] has no platforms, no article title
    or neither markdown nor content, and when [uploadImage] has no image
    data or no MIME type; each case has its own message. *)
Theorem rejects_before_side_effects (method : string) (params : JsValue)
        (w : World) :
  (~ In method knownMethods ->
   handleMethod backend method params w
   = (Rejected (mkError ("Unknown method: " ++ method)), w))
  /\ (truthy (getPropOpt params "platform") = false ->
      handleMethod backend "checkAuth" params w
      = (Rejected (mkError "Missing platform parameter"), w))
  /\ (truthy (lengthOf (getPropOpt params "platforms")) = false ->
      handleMethod backend "syncArticle" params w
      = (Rejected (mkError "Missing platforms parameter"), w))
  /\ (truthy (lengthOf (getPropOpt params "platforms")) = true ->
      truthy (getPropOpt (getPropOpt params "article") "title") = false ->
      handleMethod backend "syncArticle" params w
      = (Rejected (mkError "Missing article title"), w))
  /\ (truthy (lengthOf (getPropOpt params "platforms")) = true ->
      truthy (getPropOpt (getPropOpt params "article") "title") = true ->
      truthy (getPropOpt (getPropOpt params "article") "markdown") = false ->
      truthy (getPropOpt (getPropOpt params "article") "content") = false ->
      handleMethod backend "syncArticle" params w
      = (Rejected
           (mkError "Missing article content (markdown or content required)"),
         w))
  /\ (truthy (getPropOpt params "imageData") = false ->
      handleMethod backend "uploadImage" params w
      = (Rejected (mkError "Missing imageData parameter"), w))
  /\ (truthy (getPropOpt params "imageData") = true ->
      truthy (getPropOpt params "mimeType") = false ->
      handleMethod backend "uploadImage" params w
      = (Rejected (mkError "Missing mimeType parameter"), w)).
Proof.
  split; [apply unknown_method|].
  split.
  { intros H. unfold handleMethod. cbn [String.eqb Ascii.eqb Bool.eqb].
    destruct (getPropOpt params "platform") as [p|]; [|reflexivity].
    now rewrite H. }
  split.
  { intros H. unfold handleMethod. cbn [String.eqb Ascii.eqb Bool.eqb].
    now rewrite H. }
  split.
  { intros H1 H2. unfold handleMethod. cbn [String.eqb Ascii.eqb Bool.eqb].
    now rewrite H1, H2. }
  split.
  { intros H1 H2 H3 H4. unfold handleMethod.
    cbn [String.eqb Ascii.eqb Bool.eqb]. now rewrite H1, H2, H3, H4. }
  split.
  { intros H. unfold handleMethod. cbn [String.eqb Ascii.eqb Bool.eqb].
    now rewrite H. }
  intros H1 H2. unfold handleMethod. cbn [String.eqb Ascii.eqb Bool.eqb].
  now rewrite H1, H2.
Qed.
End Validation.

(** A backend that answers every call with [undefined]. *)
Lemma rejects_before_side_effects_witness :
  let backend :=
    mkBackend (World := nat)
      (fun _ w => (Resolved None, S w)) (fun _ w => (Resolved None, S w))
      (fun j => Resolved j) (fun _ w => (Resolved None, S w))
      (fun w => (Resolved None, S w)) (fun _ w => (Resolved None, S w))
      (fun _ w => (Resolved None, S w)) (fun _ => "") in
  handleMethod backend "syncArticle"
               (Some (JObj [("platforms", JArr [JStr "juejin"]);
                            ("article", JObj [("markdown", JStr "# T")])]))
               0%nat
  = (Rejected (mkError "Missing article title"), 0%nat).
Proof.
  intros backend.
  apply (proj1 (proj2 (proj2 (proj2
           (rejects_before_side_effects backend "syncArticle"
              (Some (JObj [("platforms", JArr [JStr "juejin"]);
                           ("article", JObj [("markdown", JStr "# T")])]))
              0%nat)))));
    reflexivity.
Defined.

Section Answer.
Context {Result Params World : Type}.
Variable JSON_parse : string -> option (RequestMessage Params).
Variable h : string -> option Params -> World -> Outcome Result * World.

(** X6. A request whose token is the configured one is dispatched, and on
    an open socket exactly one response is sent: it carries the request's
    id and either the result of the method, or the error code -1 with the
    message of what the method threw; the world is the one the method
    left. *)
Theorem authorised_request_answered (data : string)
        (m : RequestMessage Params) (c : McpClient Result) (w : World)
        (s : WebSocket Result) :
  JSON_parse data = Some m ->
  tokenConfigured c = true ->
  req_token m = token c ->
  ws c = Some s ->
  readyState s = OPEN ->
  exists frame,
    ws (fst (handleMessage JSON_parse h data c w))
    = Some (mkSocket OPEN (outbox s ++ [frame]))
    /\ resp_id frame = req_id m
    /\ snd (handleMessage JSON_parse h data c w)
       = snd (h (req_method m) (req_params m) w)
    /\ match fst (h (req_method m) (req_params m) w) with
       | Resolved r => resp_result frame = Some r /\ resp_error frame = None
       | Rejected e =>
           resp_result frame = None
           /\ resp_error frame = Some (-1, message e)
       end.
Proof.
  intros Hp Hc Ht Hs Ho.
  assert (Hd : tokenDiffers m c = false).
  { unfold tokenDiffers. rewrite Ht.
    unfold tokenConfigured, tokenMissing in Hc.
    destruct (token c) as [t|]; [|discriminate].
    now rewrite String.eqb_refl. }
  unfold handleMessage, respond. rewrite Hp.
  apply negb_true_iff in Hc. rewrite Hc, Hd.
  destruct (h (req_method m) (req_params m) w) as [[r|e] w'];
    cbn [fst snd]; unfold send; rewrite Hs, Ho; cbn [snd ws];
    eexists; repeat split.
Qed.
End Answer.

Lemma authorised_request_answered_witness :
  let c := mkClient (Result := JsValue) (Some (mkSocket OPEN [])) None
                    (Some "s3cret") 0 in
  let m := Mcp.mkRequest (Params := Json) "42" "ping" (Some "s3cret") None in
  let backend :=
    mkBackend (World := unit)
      (fun _ w => (Resolved None, w)) (fun _ w => (Resolved None, w))
      (fun j => Resolved j) (fun _ w => (Resolved None, w))
      (fun w => (Resolved None, w)) (fun _ w => (Resolved None, w))
      (fun _ w => (Resolved None, w)) (fun _ => "") in
  exists frame,
    ws (fst (handleMessage (fun _ => Some m) (handleMethod backend) "{}" c tt))
    = Some (mkSocket OPEN [frame])
    /\ resp_id frame = "42"
    /\ resp_error frame = Some (-1, "Unknown method: ping").
Proof.
  intros c m backend.
  destruct (authorised_request_answered
              (fun _ => Some m) (handleMethod backend) "{}" m c tt
              (mkSocket OPEN []) eq_refl eq_refl eq_refl eq_refl eq_refl)
    as (frame & Hws & Hid & _ & Hres).
  exists frame. split; [exact Hws|]. split; [exact Hid|]. exact (proj2 Hres).
Defined.

End McpMethodsFacts.


(* ================================================================== *)
(** * The passes of the sync store, whatever the collaborators do *)
(* ================================================================== *)

Module SyncPassFacts.
Import Async Sync SyncTrace.
Local Open Scope string_scope.
Local Open Scope list_scope.

#[local] Arguments listen : simpl never.

Lemma hasSourceType_found ps kind pid :
  hasSourceType ps kind pid = true -> findPlatform ps pid <> None.
Proof.
  unfold hasSourceType. destruct (findPlatform ps pid); [discriminate|].
  discriminate.
Qed.

Lemma filter_kind_listed ps kind ids pid :
  In pid (filter (hasSourceType ps kind) ids) ->
  In pid ids /\ findPlatform ps pid <> None.
Proof.
  intros H. apply filter_In in H. destruct H as [Hin Hk].
  split; [exact Hin|]. eapply hasSourceType_found; eauto.
Qed.

(** Whatever the collaborators do, the batch step changes the store only
    through the progress listener and sends at most the one batch
    message. *)
Lemma publishDsl_any env a ids skip s w :
  exists out s' w' issued,
    publishDsl env a ids skip (s, w) = (out, (s', w'))
    /\ progressed s s'
    /\ calls w' = calls w ++ issued
    /\ forallb isPublishCall issued = true
    /\ incl (addressed issued) ids.
Proof.
  destruct ids as [|x l].
  - exists (Resolved []), s, w, []. cbn. rewrite app_nil_r.
    split; [reflexivity|]. split; [apply SyncFacts.progressed_refl|].
    repeat split. intros y [].
  - unfold publishDsl, bind, sendSyncArticle.
    destruct (onSyncArticle env w a (x :: l) skip) as [[[r|]|e] h];
      eexists _, _, _, [SYNC_ARTICLE a (x :: l) skip]; cbn;
      (split; [reflexivity|]);
      (split; [apply SyncFacts.listen_progressed|]);
      (split; [reflexivity|]);
      (split; [reflexivity|]); rewrite app_nil_r; apply incl_refl.
Qed.

Lemma publishSelected_any env a ps ids skip s w :
  exists out s' w' issued,
    publishSelected env a ps ids skip (s, w) = (out, (s', w'))
    /\ progressed s s'
    /\ calls w' = calls w ++ issued
    /\ forallb isPublishCall issued = true
    /\ (forall pid, In pid (addressed issued) ->
                    In pid ids /\ findPlatform ps pid <> None).
Proof.
  unfold publishSelected.
  destruct (publishDsl_any env a (filter (hasSourceType ps dsl) ids) skip s w)
    as ([rsD|e] & s1 & w1 & issuedD & HrunD & HprogD & HcallsD & HpubD & HinclD).
  - destruct (SyncFacts.publishAllCms_run
                env a (filter (hasSourceType ps cms) ids) rsD s1 w1)
      as (rsC & s2 & w2 & HrunC & HprogC & _ & HcallsC & _).
    eexists _, s2, w2,
      (issuedD ++ map (fun pid => SYNC_TO_CMS pid a)
                      (filter (hasSourceType ps cms) ids)).
    unfold bind at 1. rewrite HrunD. unfold bind at 1. rewrite HrunC.
    split; [reflexivity|].
    split; [eapply SyncFacts.progressed_trans; eassumption|].
    split; [|split].
    + rewrite HcallsC, HcallsD. now rewrite app_assoc.
    + rewrite forallb_app, HpubD. cbn.
      apply forallb_forall. intros c Hc. apply in_map_iff in Hc.
      destruct Hc as (pid & <- & _). reflexivity.
    + intros pid Hin. unfold addressed in Hin.
      rewrite map_app, concat_app in Hin. apply in_app_or in Hin.
      destruct Hin as [Hin|Hin].
      * apply (filter_kind_listed ps dsl). now apply HinclD.
      * rewrite SyncFacts.cms_calls_address in Hin.
        now apply (filter_kind_listed ps cms).
  - exists (Rejected e), s1, w1, issuedD.
    unfold bind at 1. rewrite HrunD.
    split; [reflexivity|]. split; [exact HprogD|].
    split; [exact HcallsD|]. split; [exact HpubD|].
    intros pid Hin. apply (filter_kind_listed ps dsl). now apply HinclD.
Qed.

Lemma publishCalls_issued w w' issued extra :
  calls w' = (calls w ++ issued) ++ extra ->
  forallb isPublishCall issued = true ->
  forallb (fun c => negb (isPublishCall c)) extra = true ->
  publishCalls w' = publishCalls w ++ issued.
Proof.
  intros Hc Hi He. unfold publishCalls. rewrite Hc, !filter_app.
  assert (Hx : filter isPublishCall extra = []).
  { clear Hc. induction extra as [|c l IH]; [reflexivity|].
    cbn in He. apply andb_true_iff in He. destruct He as [Hc Hl].
    cbn. apply negb_true_iff in Hc. rewrite Hc. now apply IH. }
  assert (Hy : filter isPublishCall issued = issued).
  { clear Hc. induction issued as [|c l IH]; [reflexivity|].
    cbn in Hi. apply andb_true_iff in Hi. destruct Hi as [Hc Hl].
    cbn. rewrite Hc. f_equal. now apply IH. }
  rewrite Hx, Hy. now rewrite app_nil_r.
Qed.

(** X7. Whatever the background and the storage answer, and whatever
    progress messages arrive meanwhile, [startSync] resolves, and a pass
    that it starts never stays in [syncing]: either a validation message
    was recorded and nothing else happened (no pass was started), or the
    pass ended in [completed] without an error, or in [idle] with an
    error. In both endings of a pass the image progress is cleared. The
    article, the platform list and the selection are never touched, and
    every publish call addresses a selected platform that is in the
    platform list. *)
Theorem startSync_settles (env : Env) (s : SyncState) (w : World) :
  exists s' w' issued,
    startSync env (s, w) = (Resolved tt, (s', w'))
    /\ article s' = article s
    /\ platforms s' = platforms s
    /\ selectedPlatforms s' = selectedPlatforms s
    /\ ((exists msg, s' = set_error (Some msg) s /\ w' = w)
        \/ (status s' = completed /\ st_error s' = None
            /\ imageProgress s' = None)
        \/ (status s' = idle /\ imageProgress s' = None
            /\ exists e, st_error s' = Some e))
    /\ publishCalls w' = publishCalls w ++ issued
    /\ Forall (fun pid => In pid (selectedPlatforms s)
                           /\ findPlatform (platforms s) pid <> None)
              (addressed issued).
Proof.
  unfold startSync.
  destruct (article s) as [a|] eqn:Ea.
  2:{ exists (set_error (Some "未检测到文章内容") s), w, [].
      split; [reflexivity|].
      repeat (split; [solve [reflexivity | cbn; assumption]|]).
      split; [left; eexists; split; reflexivity|].
      split; [now rewrite app_nil_r|]. constructor. }
  destruct (selectedPlatforms s) as [|x l] eqn:Es.
  { exists (set_error (Some "请选择要同步的平台") s), w, [].
    split; [reflexivity|].
    repeat (split; [solve [reflexivity | cbn; assumption]|]).
    split; [left; eexists; split; reflexivity|].
    split; [now rewrite app_nil_r|]. constructor. }
  destruct (publishSelected_any env a (platforms s) (x :: l) false
                                (set_pass_started [] s) w)
    as (out & s1 & w1 & issued & Hrun & Hprog & Hcalls & Hpub & Haddr).
  destruct Hprog as (_ & Har & Hpl & Hsel & Herr & _).
  cbn in Har, Hpl, Hsel, Herr.
  unfold tryCatch, startSyncBody, bind at 1. rewrite Hrun.
  destruct out as [rs|e].
  - unfold bind, readHistory, setState, modify.
    destruct (storageGetFails env w1) as [e|].
    + eexists _, _, issued. split; [reflexivity|].
      cbn -[publishCalls addressed]. SyncFacts.listen_fields.
      split; [congruence|]. split; [exact Hpl|]. split; [congruence|].
      split; [right; right; split; [reflexivity|]; split; [reflexivity|]; eexists; reflexivity|].
      split; [|apply Forall_forall; exact Haddr].
      apply (publishCalls_issued _ _ _ [StorageGetHistory]);
        [cbn; now rewrite Hcalls | exact Hpub | reflexivity].
    + eexists _, _, issued. split; [reflexivity|].
      cbn -[publishCalls addressed]. SyncFacts.listen_fields.
      split; [congruence|]. split; [exact Hpl|]. split; [congruence|].
      split; [right; left; split; [reflexivity|]; split; [exact Herr|reflexivity]|].
      split; [|apply Forall_forall; exact Haddr].
      apply (publishCalls_issued _ _ _ [StorageGetHistory]);
        [cbn; now rewrite Hcalls | exact Hpub | reflexivity].
  - unfold setState, modify.
    eexists _, _, issued. split; [reflexivity|].
    cbn -[publishCalls addressed].
    split; [congruence|]. split; [exact Hpl|]. split; [congruence|].
    split; [right; right; split; [reflexivity|]; split; [reflexivity|]; eexists; reflexivity|].
    split; [|apply Forall_forall; exact Haddr].
    apply (publishCalls_issued _ _ _ []);
      [now rewrite app_nil_r | exact Hpub | reflexivity].
Qed.

(** The listener is at work during a pass: when the background reports a
    platform done and then goes away, the pass ends in [idle] with that
    result in the result list. *)
Lemma failed_pass_keeps_progress :
  startSync droppingEnv (completedPass, sampleWorld)
  = (Resolved tt,
     (mkState idle (Some sampleArticle) (platforms completedPass)
              ["juejin"; "weixin"] [juejinOk]
              (Some "The message port closed before a response was received.")
              None sampleHistory true,
      mkWorld (Some sampleHistory)
              [SYNC_ARTICLE sampleArticle ["juejin"; "weixin"] false])).
Proof. reflexivity. Qed.

(** X8. Whatever the background and the storage answer, and whatever
    progress messages arrive meanwhile, a retry with an article and at
    least one failed result resolves in [completed] with the image
    progress cleared; the successes of the pass are kept verbatim at the
    head of the result list; the article, the platform list and the
    selection are not touched; every publish call addresses a failed
    platform that is in the platform list. Either no error is recorded,
    or the machinery failed: then the error is recorded and the history
    of the store is kept. *)
Theorem retry_outcome (env : Env) (s : SyncState) (w : World) (a : Article) :
  article s = Some a ->
  failedPlatformIds (results s) <> [] ->
  exists s' w' new issued,
    retryFailed env (s, w) = (Resolved tt, (s', w'))
    /\ status s' = completed
    /\ imageProgress s' = None
    /\ results s' = successResults (results s) ++ new
    /\ article s' = article s
    /\ platforms s' = platforms s
    /\ selectedPlatforms s' = selectedPlatforms s
    /\ (st_error s' = None
        \/ (history s' = history s /\ exists e, st_error s' = Some e))
    /\ publishCalls w' = publishCalls w ++ issued
    /\ Forall (fun pid => In pid (failedPlatformIds (results s))
                           /\ findPlatform (platforms s) pid <> None)
              (addressed issued).
Proof.
  intros Ea Hf.
  destruct (publishSelected_any env a (platforms s)
              (failedPlatformIds (results s)) true
              (set_pass_started (successResults (results s)) s) w)
    as (out & s1 & w1 & issued & Hrun & Hprog & Hcalls & Hpub & Haddr).
  destruct Hprog as (_ & Har & Hpl & Hsel & Herr & Hhist & _ & x1 & Hres).
  cbn in Har, Hpl, Hsel, Herr, Hhist, Hres.
  unfold retryFailed. rewrite Ea.
  destruct (failedPlatformIds (results s)) as [|f0 fs] eqn:Ef; [congruence|].
  unfold tryCatch, retryFailedBody, bind at 1. rewrite Hrun.
  destruct out as [rs|e].
  - unfold bind at 1, readHistory.
    destruct (SyncFacts.listen_results env w1 s1) as (x2 & Hres2).
    destruct (storageGetFails env w1) as [e|].
    + (* the history cannot be read *)
      eexists _, _, (x1 ++ x2), issued. unfold setState, modify.
      split; [reflexivity|]. cbn -[publishCalls addressed]. SyncFacts.listen_fields.
      split; [reflexivity|]. split; [reflexivity|].
      split; [now rewrite Hres2, Hres, app_assoc|].
      split; [congruence|]. split; [exact Hpl|]. split; [congruence|].
      split; [right; split; [exact Hhist|]; eexists; reflexivity|].
      split; [apply (publishCalls_issued _ _ _ [StorageGetHistory]);
              [cbn; now rewrite Hcalls | exact Hpub | reflexivity]|].
      apply Forall_forall; exact Haddr.
    + destruct (match syncHistory w1 with Some h => h | None => [] end)
        as [|latest older] eqn:Eh.
      * (* nothing stored: only the store is updated *)
        eexists _, _, rs, issued. unfold bind, ret, setState, modify.
        split; [reflexivity|]. cbn -[publishCalls addressed]. SyncFacts.listen_fields.
        split; [reflexivity|]. split; [reflexivity|]. split; [reflexivity|].
        split; [congruence|]. split; [exact Hpl|]. split; [congruence|].
        split; [left; exact Herr|].
        split; [apply (publishCalls_issued _ _ _ [StorageGetHistory]);
                [cbn; now rewrite Hcalls | exact Hpub | reflexivity]|].
        apply Forall_forall; exact Haddr.
      * unfold bind at 1, bind at 1, writeHistory.
        cbn [syncHistory logCall].
        match goal with
        | |- context [listen env ?w0 (listen env w1 s1)] =>
            destruct (SyncFacts.listen_results env w0 (listen env w1 s1))
              as (x3 & Hres3)
        end.
        match goal with
        | |- context [storageSetFails env ?w0 ?h0] =>
            destruct (storageSetFails env w0 h0) as [e|]
        end.
        -- (* the history cannot be written *)
           eexists _, _, ((x1 ++ x2) ++ x3), issued. unfold setState, modify.
           split; [reflexivity|]. cbn -[publishCalls addressed]. SyncFacts.listen_fields.
           split; [reflexivity|]. split; [reflexivity|].
           split; [cbn in Hres3; rewrite Hres3, Hres2, Hres;
                   now rewrite !app_assoc|].
           split; [congruence|]. split; [exact Hpl|]. split; [congruence|].
           split; [right; split; [exact Hhist|]; eexists; reflexivity|].
           split; [eapply (publishCalls_issued _ _ _
                             [StorageGetHistory; StorageSetHistory _]);
                   [cbn; rewrite Hcalls; now rewrite <- !app_assoc
                   | exact Hpub | reflexivity]|].
           apply Forall_forall; exact Haddr.
        -- eexists _, _, rs, issued. unfold bind, ret, setState, modify.
           split; [reflexivity|]. cbn -[publishCalls addressed]. SyncFacts.listen_fields.
           split; [reflexivity|]. split; [reflexivity|].
           split; [reflexivity|].
           split; [congruence|]. split; [exact Hpl|]. split; [congruence|].
           split; [left; exact Herr|].
           split; [eapply (publishCalls_issued _ _ _
                             [StorageGetHistory; StorageSetHistory _]);
                   [cbn; rewrite Hcalls; now rewrite <- !app_assoc
                   | exact Hpub | reflexivity]|].
           apply Forall_forall; exact Haddr.
  - (* the publishing step itself rejects *)
    eexists _, _, x1, issued. unfold setState, modify.
    split; [reflexivity|]. cbn -[publishCalls addressed].
    split; [reflexivity|]. split; [reflexivity|]. split; [exact Hres|].
    split; [congruence|]. split; [exact Hpl|]. split; [congruence|].
    split; [right; split; [exact Hhist|]; eexists; reflexivity|].
    split; [apply (publishCalls_issued _ _ _ []);
            [now rewrite app_nil_r | exact Hpub | reflexivity]|].
    apply Forall_forall; exact Haddr.
Qed.

Lemma retry_outcome_witness :
  exists s' w' new,
    retryFailed unreachableEnv (completedPass, sampleWorld)
    = (Resolved tt, (s', w'))
    /\ status s' = completed
    /\ results s' = [juejinOk] ++ new
    /\ publishCalls w' = [SYNC_ARTICLE sampleArticle ["weixin"] true].
Proof.
  destruct (retry_outcome unreachableEnv completedPass sampleWorld
                          sampleArticle eq_refl)
    as (s' & w' & new & issued & Hrun & Hst & _ & Hres & _).
  - cbv. discriminate.
  - exists s', w', new. split; [exact Hrun|]. split; [exact Hst|].
    split; [exact Hres|].
    cbv in Hrun. injection Hrun as <- <-. reflexivity.
Defined.

End SyncPassFacts.


(* ================================================================== *)
(** * Sync store: the platform list and the selection *)
(* ================================================================== *)

Module SyncSelectFacts.
Import Async Sync SyncSelect.
Local Open Scope string_scope.
Local Open Scope list_scope.

Lemma includes_In ids pid : includes ids pid = true <-> In pid ids.
Proof.
  unfold includes. rewrite existsb_exists. split.
  - intros (x & Hin & Heq). apply String.eqb_eq in Heq. now subst.
  - intros Hin. exists pid. split; [exact Hin | apply String.eqb_refl].
Qed.

Lemma includes_false ids pid : includes ids pid = false <-> ~ In pid ids.
Proof.
  rewrite <- includes_In. destruct (includes ids pid); split; congruence.
Qed.

Lemma saveSelectedPlatforms_run env ids s slot :
  saveSelectedPlatforms env ids (s, slot)
  = (Resolved tt, (s, if selectionSetFails env ids then slot else Some ids)).
Proof.
  unfold saveSelectedPlatforms, tryCatch.
  now destruct (selectionSetFails env ids).
Qed.

Lemma togglePlatform_run env pid s slot :
  let ids :=
    if includes (selectedPlatforms s) pid
    then filter (fun id => negb (String.eqb id pid)) (selectedPlatforms s)
    else selectedPlatforms s ++ [pid] in
  togglePlatform env pid (s, slot)
  = (Resolved tt,
     (set_selected ids s, if selectionSetFails env ids then slot else Some ids)).
Proof.
  intros ids. unfold togglePlatform, bind, get, setStore, modify.
  cbn [fst]. apply saveSelectedPlatforms_run.
Qed.

Lemma filter_other_In pid ids x :
  In x (filter (fun id => negb (String.eqb id pid)) ids)
  <-> In x ids /\ x <> pid.
Proof.
  rewrite filter_In, negb_true_iff, String.eqb_neq. reflexivity.
Qed.

Lemma filter_absent pid ids :
  ~ In pid ids -> filter (fun id => negb (String.eqb id pid)) ids = ids.
Proof.
  induction ids as [|x l IH]; [reflexivity|].
  intros Hn. cbn. destruct (String.eqb_spec x pid) as [->|Hne].
  - exfalso. apply Hn. now left.
  - cbn. f_equal. apply IH. intros H. apply Hn. now right.
Qed.

(** X9. [togglePlatform] on a selection without repetitions flips the
    membership of the given id and of no other, and keeps the selection
    free of repetitions: a selected id is removed, an unselected one is
    appended at the end, so the size moves by one. Nothing else in the
    store changes, the new selection is what is written to the storage
    (when the write succeeds), and toggling an unselected id twice gives
    the selection back as it was. The id is not checked against the
    platform list. *)
Theorem togglePlatform_flips (env : Env) (pid : string) (s : SyncState)
        (slot : option (list string)) :
  NoDup (selectedPlatforms s) ->
  exists s' slot',
    togglePlatform env pid (s, slot) = (Resolved tt, (s', slot'))
    /\ s' = set_selected (selectedPlatforms s') s
    /\ NoDup (selectedPlatforms s')
    /\ (In pid (selectedPlatforms s') <-> ~ In pid (selectedPlatforms s))
    /\ (forall other, other <> pid ->
          (In other (selectedPlatforms s')
           <-> In other (selectedPlatforms s)))
    /\ List.length (selectedPlatforms s')
       = (if includes (selectedPlatforms s) pid
          then List.length (selectedPlatforms s) - 1
          else List.length (selectedPlatforms s) + 1)%nat
    /\ slot' = (if selectionSetFails env (selectedPlatforms s')
                then slot else Some (selectedPlatforms s'))
    /\ (~ In pid (selectedPlatforms s) ->
        selectedPlatforms (fst (snd (togglePlatform env pid (s', slot'))))
        = selectedPlatforms s).
Proof.
  intros Hnd. eexists _, _. rewrite togglePlatform_run.
  split; [reflexivity|]. split; [reflexivity|]. cbn [selectedPlatforms set_selected].
  destruct (includes (selectedPlatforms s) pid) eqn:Ei.
  - apply includes_In in Ei.
    split; [now apply NoDup_filter|]. split.
    { rewrite filter_other_In. tauto. }
    split.
    { intros other Hne. rewrite filter_other_In. tauto. }
    split.
    { clear - Hnd Ei. induction (selectedPlatforms s) as [|x l IH];
        [destruct Ei|].
      inversion Hnd as [|? ? Hx Hl]; subst. cbn.
      destruct (String.eqb_spec x pid) as [->|Hne]; cbn.
      - rewrite filter_absent by exact Hx. lia.
      - destruct Ei as [->|Ei]; [congruence|]. specialize (IH Hl Ei).
        destruct l; [destruct Ei|]. cbn in *. lia. }
    split; [reflexivity|]. intros Hn. contradiction.
  - apply includes_false in Ei.
    split.
    { apply NoDup_app; [exact Hnd | repeat constructor; intros [] |].
      intros x Hx [<-|[]]. contradiction. }
    split.
    { rewrite in_app_iff. cbn. tauto. }
    split.
    { intros other Hne. rewrite in_app_iff. cbn. split; [|tauto].
      intros [H|[H|[]]]; [exact H | congruence]. }
    split; [rewrite length_app; reflexivity|].
    split; [reflexivity|]. intros _.
    rewrite togglePlatform_run. cbn [fst snd selectedPlatforms set_selected].
    assert (Hin : includes (selectedPlatforms s ++ [pid]) pid = true).
    { apply includes_In, in_or_app. right. now left. }
    rewrite Hin, filter_app, filter_absent by exact Ei. cbn.
    rewrite String.eqb_refl. cbn. apply app_nil_r.
Qed.

Lemma togglePlatform_flips_witness :
  exists s' slot',
    togglePlatform sampleEnv "weixin" (completedPass, None)
    = (Resolved tt, (s', slot'))
    /\ selectedPlatforms s' = ["juejin"]
    /\ slot' = Some ["juejin"].
Proof.
  assert (Hnd : NoDup (selectedPlatforms completedPass)).
  { repeat constructor; cbn; intuition discriminate. }
  destruct (togglePlatform_flips sampleEnv "weixin" completedPass None Hnd)
    as (s' & slot' & Hrun & _).
  exists s', slot'. split; [exact Hrun|].
  cbv in Hrun. injection Hrun as <- <-. split; reflexivity.
Defined.

Lemma loadSelectedPlatforms_run env s slot :
  loadSelectedPlatforms env (s, slot)
  = (Resolved (if selectionGetFails env then None else slot), (s, slot)).
Proof.
  unfold loadSelectedPlatforms, tryCatch.
  now destruct (selectionGetFails env).
Qed.

Lemma asDsl_authenticated ps :
  Forall (fun p => isAuthenticated p = true)
         (map asDsl (filter isAuthenticated ps)).
Proof.
  apply Forall_forall. intros p Hp. apply in_map_iff in Hp.
  destruct Hp as (q & <- & Hq). apply filter_In in Hq. exact (proj2 Hq).
Qed.

Lemma asCms_authenticated accounts :
  Forall (fun p => isAuthenticated p = true) (map asCms accounts).
Proof.
  apply Forall_forall. intros p Hp. apply in_map_iff in Hp.
  now destruct Hp as (q & <- & _).
Qed.

Lemma findPlatform_listed ps pid :
  In pid (map id ps) -> findPlatform ps pid <> None.
Proof.
  intros Hin. apply in_map_iff in Hin. destruct Hin as (p & Hid & Hp).
  unfold findPlatform. intros Hnone.
  apply (find_none _ _ Hnone) in Hp. rewrite Hid, String.eqb_refl in Hp.
  discriminate.
Qed.

(** The selection [loadPlatforms] computes from what was saved. *)
Lemma restored_selection_listed ps saved :
  Forall (fun pid => findPlatform ps pid <> None)
         (match saved with
          | Some (x :: l) =>
              filter (includes (map id (filter isAuthenticated ps))) (x :: l)
          | _ => []
          end).
Proof.
  destruct saved as [[|x l]|]; try constructor.
  apply Forall_forall. intros pid Hin. apply filter_In in Hin.
  destruct Hin as [_ Hin]. apply includes_In in Hin.
  apply findPlatform_listed. apply in_map_iff in Hin.
  destruct Hin as (p & Hid & Hp). apply filter_In in Hp.
  apply in_map_iff. exists p. tauto.
Qed.

(** X10. Whatever the background and the storage answer, [loadPlatforms]
    resolves, writes nothing to the storage and leaves the article, the
    results and the history alone. During or after a pass ([syncing],
    [completed]) it keeps the status, the selection and the error, and at
    most replaces the platform list. Otherwise it ends in [idle], never in
    [loading]: with the platform list and the selection replaced, or,
    when loading failed, with the error recorded and both kept. A
    replaced platform list holds authenticated platforms only, and a
    replaced selection holds only ids of that list. *)
Theorem loadPlatforms_outcome (env : Env) (s : SyncState)
        (slot : option (list string)) :
  exists s',
    loadPlatforms env (s, slot) = (Resolved tt, (s', slot))
    /\ article s' = article s
    /\ results s' = results s
    /\ history s' = history s
    /\ (platforms s' = platforms s
        \/ Forall (fun p => isAuthenticated p = true) (platforms s'))
    /\ (if preserved (status s)
        then status s' = status s
             /\ selectedPlatforms s' = selectedPlatforms s
             /\ st_error s' = st_error s
        else status s' = idle
             /\ ((platforms s' = platforms s
                  /\ selectedPlatforms s' = selectedPlatforms s
                  /\ exists e, st_error s' = Some e)
                 \/ (st_error s' = st_error s
                     /\ Forall (fun p => isAuthenticated p = true)
                               (platforms s')
                     /\ Forall (fun pid =>
                                  findPlatform (platforms s') pid <> None)
                               (selectedPlatforms s')))).
Proof.
  unfold loadPlatforms, bind at 1, get. cbn [fst].
  destruct (authAndAccounts env) as [[[listed|] accounts]|e] eqn:Eboth; clear Eboth.
  - (* both calls answered *)
    destruct (preserved (status s)) eqn:Ep.
    + unfold bind, ret, tryCatch, Adapter.await.
      rewrite loadSelectedPlatforms_run. unfold setStore, modify.
      eexists. split; [reflexivity|]. cbn.
      repeat (split; [reflexivity|]).
      split; [|now repeat split].
      right. apply Forall_app. split;
        [destruct listed; [apply asDsl_authenticated | constructor]
        | apply asCms_authenticated].
    + unfold bind, ret, tryCatch, Adapter.await, setStore, modify.
      rewrite loadSelectedPlatforms_run.
      eexists. split; [reflexivity|]. cbn.
      repeat (split; [reflexivity|]).
      assert (Hauth : Forall (fun p => isAuthenticated p = true)
                        (match listed with
                         | Some ps => map asDsl (filter isAuthenticated ps)
                         | None => []
                         end
                         ++ map asCms
                              (filter acc_isConnected
                                 match accounts with
                                 | Some l => l
                                 | None => []
                                 end))).
      { apply Forall_app. split;
          [destruct listed; [apply asDsl_authenticated | constructor]
          | apply asCms_authenticated]. }
      split; [right; exact Hauth|]. split; [reflexivity|].
      right. split; [reflexivity|]. split; [exact Hauth|].
      apply restored_selection_listed.
  - (* the message was answered with undefined *)
    destruct (preserved (status s)) eqn:Ep;
      unfold bind, ret, tryCatch, Adapter.await, throw, setStore, modify;
      eexists; (split; [reflexivity|]); cbn;
      repeat (split; [reflexivity|]); (split; [now left|]).
    + now repeat split.
    + split; [reflexivity|]. left. repeat split. eexists; reflexivity.
  - (* one of the two calls rejected *)
    destruct (preserved (status s)) eqn:Ep;
      unfold bind, ret, tryCatch, Adapter.await, throw, setStore, modify;
      eexists; (split; [reflexivity|]); cbn;
      repeat (split; [reflexivity|]); (split; [now left|]).
    + now repeat split.
    + split; [reflexivity|]. left. repeat split. eexists; reflexivity.
Qed.

(** X11. A selection survives a reload of the platform list through the
    storage: when the write of [togglePlatform] and the read of
    [loadPlatforms] succeed, the background answers, and the store is not
    in or after a pass, the selection after the reload is the toggled
    selection with the ids that are not authenticated platforms of the
    fresh list dropped, in the same order. *)
Theorem selection_survives_reload (env : Env) (pid : string) (s : SyncState)
        (slot : option (list string)) (listed : option (list Platform))
        (accounts : option (list CmsAccount)) :
  (forall ids, selectionSetFails env ids = false) ->
  selectionGetFails env = false ->
  authAndAccounts env = Resolved (Some listed, accounts) ->
  preserved (status s) = false ->
  exists s1 s2 slot',
    togglePlatform env pid (s, slot) = (Resolved tt, (s1, slot'))
    /\ loadPlatforms env (s1, slot') = (Resolved tt, (s2, slot'))
    /\ selectedPlatforms s2
       = filter (fun x => match findPlatform (platforms s2) x with
                          | Some p => isAuthenticated p
                          | None => false
                          end)
                (selectedPlatforms s1).
Proof.
  intros Hset Hget Hboth Hp.
  eexists _, _, _. rewrite togglePlatform_run, Hset.
  split; [reflexivity|].
  unfold loadPlatforms, bind at 1, get. cbn [fst status set_selected].
  rewrite Hp.
  unfold bind, ret, tryCatch, Adapter.await, setStore, modify. rewrite Hboth.
  rewrite loadSelectedPlatforms_run, Hget.
  split; [reflexivity|]. cbn [fst snd selectedPlatforms set_loaded platforms].
  set (fresh := match listed with
                | Some ps => map asDsl (filter isAuthenticated ps)
                | None => []
                end ++ _).
  set (toggled := if includes (selectedPlatforms s) pid then _ else _).
  assert (Hsame : forall x,
             includes (map id (filter isAuthenticated fresh)) x
             = match findPlatform fresh x with
               | Some p => isAuthenticated p
               | None => false
               end).
  { assert (Hall : Forall (fun p => isAuthenticated p = true) fresh).
    { apply Forall_app. split;
        [destruct listed; [apply asDsl_authenticated | constructor]
        | apply asCms_authenticated]. }
    intros x. clear - Hall. induction fresh as [|p l IH]; [reflexivity|].
    inversion Hall as [|? ? Hp Hl]; subst. cbn. rewrite Hp. cbn.
    unfold findPlatform. cbn. rewrite String.eqb_sym.
    destruct (String.eqb (id p) x); [now rewrite Hp|]. cbn.
    now apply IH. }
  destruct toggled as [|x l]; [reflexivity|].
  apply filter_ext. exact Hsame.
Qed.

Lemma selection_survives_reload_witness :
  exists s1 s2 slot',
    togglePlatform sampleEnv "blog"
                   (mkState idle None [] ["juejin"; "weixin"] [] None None
                            [] false, None)
    = (Resolved tt, (s1, slot'))
    /\ loadPlatforms sampleEnv (s1, slot') = (Resolved tt, (s2, slot'))
    /\ selectedPlatforms s1 = ["juejin"; "weixin"; "blog"]
    /\ selectedPlatforms s2 = ["juejin"; "blog"].
Proof.
  destruct (selection_survives_reload
              sampleEnv "blog"
              (mkState idle None [] ["juejin"; "weixin"] [] None None
                       [] false)
              None
              (Some [mkPlatform "juejin" "掘金" true dsl;
                     mkPlatform "weixin" "微信公众号" false dsl])
              (Some [mkAccount "blog" "My blog" true])
              (fun _ => eq_refl) eq_refl eq_refl eq_refl)
    as (s1 & s2 & slot' & Htoggle & Hload & Hsel).
  exists s1, s2, slot'. split; [exact Htoggle|]. split; [exact Hload|].
  cbv in Htoggle. injection Htoggle as <- <-.
  cbv in Hload. injection Hload as <-. split; reflexivity.
Defined.

End SyncSelectFacts.


(* ================================================================== *)
(** * Request signer: hexadecimal text, dates and signed headers *)
(* ================================================================== *)

Module SignerTextFacts.
Import JsString Signer SignerText.
Local Open Scope list_scope.

(** *** Hexadecimal text *)

Lemma hex_of_octet (b : byte) :
  exists hi lo,
    Crc32.padStart 2 "0"%char (Crc32.toString16 (Crc32.byteZ b))
    = String hi (String lo EmptyString)
    /\ match Crc32.hexValueOfChar hi, Crc32.hexValueOfChar lo with
       | Some h, Some l => (16 * h + l)%Z = Crc32.byteZ b
       | _, _ => False
       end.
Proof.
  destruct b; do 2 eexists; (split; [vm_compute; reflexivity|]);
    vm_compute; reflexivity.
Qed.

Lemma concat_empty_cons (s : string) (l : list string) :
  String.concat "" (s :: l) = (s ++ String.concat "" l)%string.
Proof.
  destruct l as [|x l]; cbn.
  - clear. induction s as [|c s IH]; [reflexivity|]. cbn. now rewrite <- IH.
  - reflexivity.
Qed.

(** X12. [arrayBufferToHex] writes two lowercase hexadecimal digits per
    octet, most significant first, and nothing else: the text is twice as
    long as the buffer, and reading it back two digits at a time gives
    the octets again. So the text determines the buffer; a 32-octet
    digest gives 64 characters. *)
Theorem arrayBufferToHex_round_trip (buffer : list byte) :
  String.length (arrayBufferToHex buffer) = (2 * List.length buffer)%nat
  /\ fromHex (List.length buffer) (arrayBufferToHex buffer)
     = Some (map Crc32.byteZ buffer).
Proof.
  unfold arrayBufferToHex.
  induction buffer as [|b l [IHlen IHval]]; [split; reflexivity|].
  cbn [map]. rewrite concat_empty_cons.
  destruct (hex_of_octet b) as (hi & lo & -> & Hv).
  cbn [String.append String.length List.length fromHex].
  rewrite IHlen, IHval.
  split; [lia|].
  destruct (Crc32.hexValueOfChar hi) as [h|]; [|contradiction].
  destruct (Crc32.hexValueOfChar lo) as [v|]; [|contradiction].
  now rewrite Hv.
Qed.

(** *** Dates *)

Lemma digit_isDigit n : isDigit (48 + n mod 10) = true.
Proof.
  unfold isDigit, inRange.
  pose proof (N.mod_upper_bound n 10 ltac:(discriminate)) as H.
  remember (n mod 10)%N as r. clear Heqr.
  apply andb_true_iff. split; apply N.leb_le; lia.
Qed.

Lemma digits_all_digits w : forall n, forallb isDigit (digits w n) = true.
Proof.
  induction w as [|w IH]; intros n; [reflexivity|].
  cbn [digits]. rewrite forallb_app, IH. cbn [forallb andb].
  now rewrite digit_isDigit.
Qed.

Lemma digits_length w : forall n, List.length (digits w n) = w.
Proof.
  induction w as [|w IH]; intros n; [reflexivity|].
  cbn. rewrite length_app, IH. cbn. lia.
Qed.

Lemma isDigit_plain c :
  isDigit c = true ->
  N.eqb c 58 = false /\ N.eqb c 45 = false /\ N.eqb c 46 = false.
Proof.
  unfold isDigit, inRange. intros H. apply andb_true_iff in H.
  destruct H as [H1 H2]. apply N.leb_le in H1, H2.
  repeat split; apply N.eqb_neq; lia.
Qed.

Lemma stripAmz_digits ds rest :
  forallb isDigit ds = true ->
  stripAmz (ds ++ rest) = ds ++ stripAmz rest.
Proof.
  induction ds as [|c ds IH]; [reflexivity|].
  cbn [forallb]. intros H. apply andb_true_iff in H. destruct H as [Hc Hds].
  destruct (isDigit_plain c Hc) as (H1 & H2 & H3).
  cbn [app stripAmz]. rewrite H1, H2, H3. cbn. now rewrite IH.
Qed.

Lemma stripHyphens_digits ds :
  forallb isDigit ds = true -> stripHyphens ds = ds.
Proof.
  unfold stripHyphens. induction ds as [|c ds IH]; [reflexivity|].
  cbn [forallb]. intros H. apply andb_true_iff in H. destruct H as [Hc Hds].
  destruct (isDigit_plain c Hc) as (_ & H2 & _).
  cbn. rewrite H2. cbn. now rewrite IH.
Qed.

Lemma three_digits n :
  exists d1 d2 d3,
    digits 3 n = [d1; d2; d3]
    /\ isDigit d1 = true /\ isDigit d2 = true /\ isDigit d3 = true.
Proof.
  do 3 eexists. split; [reflexivity|]. repeat split; apply digit_isDigit.
Qed.

(** X13. For a date in the years 0 to 9999, [formatAmzDate] is the
    sixteen characters YYYYMMDD, T, HHmmss, Z (the milliseconds are
    dropped), and [formatDateStamp] is its first eight: the date of the
    credential scope is always the date of the [x-amz-date] header when
    both are taken from the same instant. *)
Theorem amz_date_and_stamp_agree (date : Date) :
  (0 <= year date <= 9999)%Z ->
  formatAmzDate date
  = digits 4 (Z.to_N (year date)) ++ digits 2 (month date)
    ++ digits 2 (day date) ++ js "T" ++ digits 2 (hours date)
    ++ digits 2 (minutes date) ++ digits 2 (seconds date) ++ js "Z"
  /\ formatDateStamp date = firstn 8 (formatAmzDate date)
  /\ List.length (formatAmzDate date) = 16%nat
  /\ List.length (formatDateStamp date) = 8%nat.
Proof.
  intros [Hlo Hhi].
  assert (Hamz :
    formatAmzDate date
    = digits 4 (Z.to_N (year date)) ++ digits 2 (month date)
      ++ digits 2 (day date) ++ js "T" ++ digits 2 (hours date)
      ++ digits 2 (minutes date) ++ digits 2 (seconds date) ++ js "Z").
  { unfold formatAmzDate, toISOString.
    apply Z.leb_le in Hlo, Hhi. rewrite Hlo, Hhi. cbn [andb].
    rewrite stripAmz_digits by apply digits_all_digits. f_equal.
    change (js "-") with [45%N]. change (js ":") with [58%N].
    change (js ".") with [46%N]. change (js "T") with [84%N].
    change (js "Z") with [90%N]. cbn [app].
    assert (Hsep : forall c r, (N.eqb c 58 || N.eqb c 45) = true ->
                               stripAmz (c :: r) = stripAmz r).
    { intros c r H. cbn [stripAmz]. now rewrite H. }
    rewrite (Hsep 45%N) by reflexivity.
    rewrite stripAmz_digits by apply digits_all_digits. f_equal.
    rewrite (Hsep 45%N) by reflexivity.
    rewrite stripAmz_digits by apply digits_all_digits. f_equal.
    change (stripAmz (84%N :: ?r)) with (84%N :: stripAmz r). f_equal.
    rewrite stripAmz_digits by apply digits_all_digits. f_equal.
    rewrite (Hsep 58%N) by reflexivity.
    rewrite stripAmz_digits by apply digits_all_digits. f_equal.
    rewrite (Hsep 58%N) by reflexivity.
    rewrite stripAmz_digits by apply digits_all_digits. f_equal.
    destruct (three_digits (milliseconds date))
      as (d1 & d2 & d3 & -> & H1 & H2 & H3).
    cbn [app stripAmz]. change (N.eqb 46 58 || N.eqb 46 45) with false.
    change (N.eqb 46 46) with true. cbn iota.
    rewrite H1, H2, H3. reflexivity. }
  split; [exact Hamz|].
  assert (Hstamp :
    formatDateStamp date
    = digits 4 (Z.to_N (year date)) ++ digits 2 (month date)
      ++ digits 2 (day date)).
  { unfold formatDateStamp, toISOString.
    apply Z.leb_le in Hlo, Hhi. rewrite Hlo, Hhi. cbn [andb].
    set (y := digits 4 _). set (m := digits 2 (month date)).
    set (d := digits 2 (day date)).
    assert (Hy : List.length y = 4%nat) by apply digits_length.
    assert (Hm : List.length m = 2%nat) by apply digits_length.
    assert (Hd : List.length d = 2%nat) by apply digits_length.
    replace (y ++ js "-" ++ m ++ js "-" ++ d ++ _)
      with ((y ++ js "-" ++ m ++ js "-" ++ d) ++
            (js "T" ++ digits 2 (hours date) ++ js ":" ++
             digits 2 (minutes date) ++ js ":" ++ digits 2 (seconds date) ++
             js "." ++ digits 3 (milliseconds date) ++ js "Z"))
      by (now rewrite <- !app_assoc).
    rewrite firstn_app.
    replace (10 - List.length (y ++ js "-" ++ m ++ js "-" ++ d))%nat with 0%nat
      by (rewrite !length_app, Hy, Hm, Hd; reflexivity).
    rewrite firstn_all2
      by (rewrite !length_app, Hy, Hm, Hd; cbn; lia).
    cbn [firstn]. rewrite app_nil_r.
    subst y m d. unfold stripHyphens. rewrite !filter_app.
    change (filter _ (js "-")) with (@nil N). cbn [app].
    fold (stripHyphens (digits 4 (Z.to_N (year date)))).
    fold (stripHyphens (digits 2 (month date))).
    fold (stripHyphens (digits 2 (day date))).
    rewrite !stripHyphens_digits by apply digits_all_digits.
    reflexivity. }
  split.
  { rewrite Hstamp, Hamz.
    replace (digits 4 (Z.to_N (year date)) ++ digits 2 (month date) ++
             digits 2 (day date) ++ _)
      with ((digits 4 (Z.to_N (year date)) ++ digits 2 (month date)
             ++ digits 2 (day date))
            ++ (js "T" ++ digits 2 (hours date) ++ digits 2 (minutes date)
                ++ digits 2 (seconds date) ++ js "Z"))
      by (now rewrite <- !app_assoc).
    rewrite firstn_app.
    rewrite !length_app, !digits_length.
    rewrite firstn_all2 by (rewrite !length_app, !digits_length; cbn; lia).
    change (8 - (4 + (2 + 2)))%nat with 0%nat. cbn [firstn].
    now rewrite app_nil_r. }
  split.
  - rewrite Hamz, !length_app, !digits_length. reflexivity.
  - rewrite Hstamp, !length_app, !digits_length. reflexivity.
Qed.

Lemma amz_date_and_stamp_agree_witness :
  formatAmzDate (mkDate 2026 3 7 9 5 1 42) = js "20260307T090501Z"
  /\ formatDateStamp (mkDate 2026 3 7 9 5 1 42) = js "20260307".
Proof.
  destruct (amz_date_and_stamp_agree (mkDate 2026 3 7 9 5 1 42))
    as (Hamz & Hstamp & _).
  - cbn. lia.
  - split; [rewrite Hamz | rewrite Hstamp, Hamz]; reflexivity.
Defined.

(** *** Signed headers *)

Lemma insertBy_map {A B : Type} (f : A -> B) (cmp : B -> B -> Z) x l :
  insertBy cmp (f x) (map f l)
  = map f (insertBy (fun a b => cmp (f a) (f b)) x l).
Proof.
  induction l as [|y l IH]; [reflexivity|].
  cbn. destruct (0 <? cmp (f x) (f y))%Z; cbn; [now rewrite IH | reflexivity].
Qed.

Lemma sortBy_map {A B : Type} (f : A -> B) (cmp : B -> B -> Z) l :
  sortBy cmp (map f l) = map f (sortBy (fun a b => cmp (f a) (f b)) l).
Proof.
  induction l as [|x l IH]; [reflexivity|].
  cbn [map sortBy fold_right]. fold (sortBy cmp (map f l)).
  fold (sortBy (fun a b => cmp (f a) (f b)) l).
  rewrite IH. apply insertBy_map.
Qed.

Lemma ordinalCompare_eq x : forall y, ordinalCompare x y = 0%Z -> x = y.
Proof.
  induction x as [|a x IH]; intros [|b y]; cbn; try discriminate;
    [reflexivity|].
  destruct (N.compare_spec a b) as [->|H|H]; try discriminate.
  intros E. f_equal. now apply IH.
Qed.

Lemma ordinalCompare_refl x : ordinalCompare x x = 0%Z.
Proof.
  induction x as [|a x IH]; [reflexivity|]. cbn. now rewrite N.compare_refl.
Qed.

Lemma ordinalCompare_common_prefix k x y :
  ordinalCompare (k ++ x) (k ++ y) = ordinalCompare x y.
Proof.
  induction k as [|a k IH]; [reflexivity|]. cbn. now rewrite N.compare_refl.
Qed.

(** When neither of two different names is a prefix of the other, what
    follows them has no part in the comparison. *)
Lemma ordinalCompare_apart a :
  forall b s t,
    properPrefix a b = false -> properPrefix b a = false -> a <> b ->
    ordinalCompare (a ++ s) (b ++ t) = ordinalCompare a b.
Proof.
  induction a as [|x a IH]; intros [|y b] s t Hab Hba Hne;
    try discriminate; [congruence|].
  cbn in *. rewrite (N.eqb_sym y x) in Hba.
  destruct (N.compare_spec x y) as [->|H|H]; try reflexivity.
  rewrite N.eqb_refl in Hab, Hba. cbn in Hab, Hba.
  apply IH; congruence.
Qed.

Lemma prefixFree_spec names a b :
  prefixFree names = true -> In a names -> In b names ->
  properPrefix a b = false.
Proof.
  unfold prefixFree. intros H Ha Hb.
  rewrite forallb_forall in H. specialize (H a Ha).
  rewrite forallb_forall in H. specialize (H b Hb).
  now apply negb_true_iff in H.
Qed.

Lemma StronglySorted_map_in {A B : Type} (R : A -> A -> Prop)
      (R' : B -> B -> Prop) (f : A -> B) l :
  StronglySorted R l ->
  (forall a b, In a l -> In b l -> R a b -> R' (f a) (f b)) ->
  StronglySorted R' (map f l).
Proof.
  induction 1 as [|x l Hs IH Hall]; intros Himp; cbn; constructor.
  - apply IH. intros a b Ha Hb. apply Himp; now right.
  - apply Forall_forall. intros y Hy. apply in_map_iff in Hy.
    destruct Hy as (b & <- & Hb). rewrite Forall_forall in Hall.
    apply Himp; [now left | now right | now apply Hall].
Qed.

Section HeaderFacts.
Variable toLowerCase : jsstring -> jsstring.

(** X14. The signed header names are sorted by name and the canonical
    header lines are sorted as whole lines (name, colon, trimmed value).
    When no lower-cased name is a proper prefix of another, the two
    orders agree: there is one arrangement of the headers that gives the
    signed names and the canonical lines at once, so the i-th line is
    the line of the i-th name. *)
Theorem canonical_headers_follow_names (obj : list (jsstring * jsstring)) :
  prefixFree (map (headerName toLowerCase) obj) = true ->
  exists arranged,
    Permutation arranged obj
    /\ signedNames toLowerCase obj = map (headerName toLowerCase) arranged
    /\ canonicalLines toLowerCase obj
       = map (headerLine toLowerCase) arranged.
Proof.
  intros Hfree.
  set (byLine := fun a b : jsstring * jsstring =>
                   ordinalCompare (headerLine toLowerCase a)
                                  (headerLine toLowerCase b)).
  assert (Hsign : forall x y, (byLine x y < 0)%Z <-> (0 < byLine y x)%Z)
    by (intros; apply SignerFacts.ordinalCompare_sign).
  assert (Htrans : forall x y z, (byLine x y <= 0)%Z -> (byLine y z <= 0)%Z ->
                                 (byLine x z <= 0)%Z)
    by (intros x y z; apply SignerFacts.ordinalCompare_trans).
  exists (sortBy byLine obj).
  split; [apply SignerFacts.sortBy_perm|].
  split; [|exact (sortBy_map (headerLine toLowerCase) ordinalCompare obj)].
  unfold signedNames, sortStrings.
  apply (SignerFacts.sorted_unique ordinalCompare
                                   SignerFacts.ordinalCompare_sign).
  - apply SignerFacts.sortBy_sorted;
      [apply SignerFacts.ordinalCompare_sign
      | apply SignerFacts.ordinalCompare_trans].
  - apply (StronglySorted_map_in (fun a b => (byLine a b <= 0)%Z)).
    + now apply SignerFacts.sortBy_sorted.
    + intros a b Ha Hb Hle.
      assert (Hin : forall e, In e (sortBy byLine obj) ->
                              In (headerName toLowerCase e)
                                 (map (headerName toLowerCase) obj)).
      { intros e He. apply in_map.
        eapply Permutation_in; [apply SignerFacts.sortBy_perm | exact He]. }
      destruct (list_eq_dec N.eq_dec (headerName toLowerCase a)
                            (headerName toLowerCase b)) as [E|E].
      * rewrite E, ordinalCompare_refl. lia.
      * unfold byLine, headerLine in Hle.
        fold (headerName toLowerCase a) in Hle.
        fold (headerName toLowerCase b) in Hle.
        rewrite ordinalCompare_apart in Hle;
          eauto using prefixFree_spec.
  - eapply Permutation_trans; [apply SignerFacts.sortBy_perm|].
    apply Permutation_map, Permutation_sym, SignerFacts.sortBy_perm.
  - intros a b _ _. apply ordinalCompare_eq.
Qed.

(** X15. Without that condition the two orders can differ. Take a header
    name and a second one that continues it with a character below the
    colon (a hyphen, a full stop, a digit): the shorter name is signed
    first, but its line comes last among the canonical lines. *)
Theorem canonical_headers_out_of_order (k s v1 v2 : jsstring) (c : N) :
  (c < 58)%N ->
  toLowerCase k = k ->
  toLowerCase (k ++ c :: s) = k ++ c :: s ->
  signedNames toLowerCase [(k, v1); (k ++ c :: s, v2)] = [k; k ++ c :: s]
  /\ canonicalLines toLowerCase [(k, v1); (k ++ c :: s, v2)]
     = [(k ++ c :: s) ++ js ":" ++ trim v2; k ++ js ":" ++ trim v1].
Proof.
  intros Hc Hk Hks.
  unfold signedNames, canonicalLines, sortStrings, sortBy, headerName,
    headerLine.
  cbn [map fold_right insertBy fst snd]. rewrite Hk, Hks. split.
  - rewrite <- (app_nil_r k) at 1.
    rewrite ordinalCompare_common_prefix. reflexivity.
  - rewrite <- app_assoc. rewrite ordinalCompare_common_prefix.
    change (js ":" ++ trim v1) with (58%N :: trim v1).
    cbn [app ordinalCompare].
    destruct (N.compare_spec 58 c) as [E|E|E]; try lia. reflexivity.
Qed.
End HeaderFacts.

Lemma canonical_headers_follow_names_witness :
  exists arranged,
    Permutation arranged
      (signedHeadersObj (js "20260307T090501Z") (Some (js "t0k"))
                        [(js "Content-Type", js " image/png ")])
    /\ signedNames asciiLower
         (signedHeadersObj (js "20260307T090501Z") (Some (js "t0k"))
                           [(js "Content-Type", js " image/png ")])
       = map (headerName asciiLower) arranged
    /\ canonicalLines asciiLower
         (signedHeadersObj (js "20260307T090501Z") (Some (js "t0k"))
                           [(js "Content-Type", js " image/png ")])
       = map (headerLine asciiLower) arranged.
Proof.
  apply (canonical_headers_follow_names asciiLower
           (signedHeadersObj (js "20260307T090501Z") (Some (js "t0k"))
                             [(js "Content-Type", js " image/png ")])).
  vm_compute. reflexivity.
Defined.

Lemma canonical_headers_out_of_order_witness :
  signedNames asciiLower [(js "x-amz-meta", js "1"); (js "x-amz-meta-a", js "2")]
  = [js "x-amz-meta"; js "x-amz-meta-a"]
  /\ canonicalLines asciiLower
       [(js "x-amz-meta", js "1"); (js "x-amz-meta-a", js "2")]
     = [js "x-amz-meta-a:2"; js "x-amz-meta:1"].
Proof.
  apply (canonical_headers_out_of_order asciiLower (js "x-amz-meta") (js "a")
           (js "1") (js "2") 45%N); reflexivity.
Defined.

End SignerTextFacts.


(* ================================================================== *)
(** * Article extractor: formulas *)
(* ================================================================== *)

Module ReaderFacts.
Import JsString Reader.
Local Open Scope list_scope.

Lemma lookupGreek_In table c v :
  lookupGreek table c = Some v -> In (c, v) table.
Proof.
  induction table as [|[k w] rest IH]; [discriminate|].
  cbn. destruct (N.eqb_spec k c) as [->|_].
  - intros [= ->]. now left.
  - intros H. right. now apply IH.
Qed.

(** The replacements are written in ASCII: a second pass leaves them
    alone, and none of their characters is a letter of the table. *)
Lemma replacements_are_plain :
  forallb (fun kv => forallb (fun c => negb (inGreekClass c)) (snd kv))
          greekMap = true.
Proof. vm_compute. reflexivity. Qed.

Lemma unicodeToLatex_plain s :
  forallb (fun c => negb (inGreekClass c)) s = true -> unicodeToLatex s = s.
Proof.
  unfold unicodeToLatex. induction s as [|c s IH]; [reflexivity|].
  cbn [forallb flat_map]. intros H. apply andb_true_iff in H.
  destruct H as [Hc Hs]. apply negb_true_iff in Hc. rewrite Hc.
  cbn. now rewrite IH.
Qed.

Lemma greekToLatex_cases c :
  greekToLatex c = [c]
  \/ forallb (fun x => negb (inGreekClass x)) (greekToLatex c) = true.
Proof.
  unfold greekToLatex.
  destruct (lookupGreek greekMap c) as [[|x r]|] eqn:E; auto.
  right. apply lookupGreek_In in E.
  pose proof replacements_are_plain as H.
  rewrite forallb_forall in H. exact (H _ E).
Qed.

Lemma plain_not_mapped s :
  forallb (fun x => negb (inGreekClass x)) s = true ->
  forallb (fun x => negb (isMapped x)) s = true.
Proof.
  intros H. rewrite forallb_forall in *. intros x Hx.
  specialize (H x Hx). apply negb_true_iff in H.
  unfold isMapped. now rewrite H.
Qed.

Lemma unicodeToLatex_cons c s :
  unicodeToLatex (c :: s)
  = (if inGreekClass c then greekToLatex c else [c]) ++ unicodeToLatex s.
Proof. reflexivity. Qed.

Lemma unicodeToLatex_app a b :
  unicodeToLatex (a ++ b) = unicodeToLatex a ++ unicodeToLatex b.
Proof. apply flat_map_app. Qed.

Lemma replacement_fixed c :
  unicodeToLatex (if inGreekClass c then greekToLatex c else [c])
  = (if inGreekClass c then greekToLatex c else [c]).
Proof.
  destruct (inGreekClass c) eqn:Ec.
  - destruct (greekToLatex_cases c) as [H|H].
    + rewrite H. rewrite unicodeToLatex_cons, Ec, H. reflexivity.
    + now apply unicodeToLatex_plain.
  - rewrite unicodeToLatex_cons, Ec. reflexivity.
Qed.

Lemma unicodeToLatex_unmapped latex :
  forallb (fun c => negb (isMapped c)) (unicodeToLatex latex) = true.
Proof.
  unfold unicodeToLatex. induction latex as [|c s IH]; [reflexivity|].
  cbn [flat_map]. rewrite forallb_app, IH, andb_true_r.
  destruct (inGreekClass c) eqn:Ec.
  - destruct (greekToLatex_cases c) as [H|H].
    + rewrite H. cbn. rewrite andb_true_r. apply negb_true_iff.
      destruct (isMapped c) eqn:Em; [|reflexivity].
      unfold isMapped in Em. rewrite Ec in Em. cbn [andb] in Em.
      unfold greekToLatex in H.
      destruct (lookupGreek greekMap c) as [[|x r]|] eqn:El;
        try discriminate.
      apply lookupGreek_In in El.
      pose proof replacements_are_plain as Hp.
      rewrite forallb_forall in Hp. specialize (Hp _ El). cbn in Hp.
      injection H as -> ->. cbn in Hp. now rewrite Ec in Hp.
    + now apply plain_not_mapped.
  - cbn. unfold isMapped. now rewrite Ec.
Qed.

Lemma unicodeToLatex_length latex :
  (List.length latex <= List.length (unicodeToLatex latex))%nat.
Proof.
  unfold unicodeToLatex. induction latex as [|c s IH]; [constructor|].
  cbn [flat_map]. rewrite length_app. cbn [List.length].
  assert (1 <= List.length (if inGreekClass c then greekToLatex c else [c]))%nat.
  { destruct (inGreekClass c); [|cbn; lia]. unfold greekToLatex.
    destruct (lookupGreek greekMap c) as [[|x r]|]; cbn; lia. }
  lia.
Qed.

(** X16. [unicodeToLatex] rewrites every letter that has an entry in its
    table and nothing else: its result holds no such letter, a second
    pass changes nothing, a text without letters of the pattern comes
    back as it was, and the text never gets shorter. *)
Theorem unicodeToLatex_normalises (latex : jsstring) :
  forallb (fun c => negb (isMapped c)) (unicodeToLatex latex) = true
  /\ unicodeToLatex (unicodeToLatex latex) = unicodeToLatex latex
  /\ (List.length latex <= List.length (unicodeToLatex latex))%nat
  /\ (if forallb (fun c => negb (inGreekClass c)) latex
      then unicodeToLatex latex = latex else True).
Proof.
  split; [apply unicodeToLatex_unmapped|].
  split; [|split; [apply unicodeToLatex_length|]].
  - induction latex as [|c s IH]; [reflexivity|].
    rewrite unicodeToLatex_cons, unicodeToLatex_app, IH.
    now rewrite replacement_fixed.
  - destruct (forallb _ latex) eqn:E; [|exact I].
    now apply unicodeToLatex_plain.
Qed.

Lemma unicodeToLatex_nonempty s : s <> [] -> unicodeToLatex s <> [].
Proof.
  intros Hs H. pose proof (unicodeToLatex_length s) as Hl.
  rewrite H in Hl. destruct s; [congruence | cbn in Hl; lia].
Qed.

Lemma pickLine_spec lines line :
  pickLine lines = Some line ->
  In line lines
  /\ (isLatexLine line = true
      \/ forallb (fun l => negb (isLatexLine l)) lines = true).
Proof.
  unfold pickLine.
  destruct (find isLatexLine (rev lines)) as [found|] eqn:E.
  - intros [= <-]. apply find_some in E. destruct E as [Hin Hl].
    split; [now apply <- in_rev | now left].
  - destruct (rev lines) as [|last rest] eqn:Er; [discriminate|].
    intros [= <-]. split.
    + apply <- in_rev. rewrite Er. now left.
    + right. apply forallb_forall. intros l Hl. apply negb_true_iff.
      apply (find_none _ _ E). rewrite <- Er. now apply -> in_rev.
Qed.

(** X17. A formula that [extractLatex] returns is never empty and holds
    no letter of the table. It is the conversion of the trimmed text of
    the annotation whenever the annotation has any text (the fallback is
    not consulted then); otherwise it is the conversion of one of the
    trimmed, non-empty lines of the fallback text, and that line holds a
    LaTeX character unless no line does. *)
Theorem extractLatex_formula (container : Container) (formula : jsstring) :
  extractLatex container = Some formula ->
  formula <> []
  /\ forallb (fun c => negb (isMapped c)) formula = true
  /\ exists source,
       formula = unicodeToLatex source
       /\ match annotationText container with
          | Some (c :: t) => source = trim (c :: t)
          | _ =>
              exists text,
                mathmlText container = Some text
                /\ In source (candidateLines (trim text))
                /\ (isLatexLine source = true
                    \/ forallb (fun l => negb (isLatexLine l))
                               (candidateLines (trim text)) = true)
          end.
Proof.
  unfold extractLatex. intros H.
  assert (Hgen : forall latex,
             match latex with
             | Some (c :: t) => Some (unicodeToLatex (c :: t))
             | _ => None
             end = Some formula ->
             latex = Some (match latex with Some s => s | None => [] end)
             /\ formula
                = unicodeToLatex (match latex with Some s => s | None => [] end)
             /\ formula <> []).
  { intros [[|c t]|]; try discriminate. intros E.
    assert (Ef : formula = unicodeToLatex (c :: t)) by congruence.
    split; [reflexivity|]. split; [exact Ef|].
    rewrite Ef. apply unicodeToLatex_nonempty. discriminate. }
  apply Hgen in H. destruct H as (Hl & Hf & Hne).
  split; [exact Hne|]. split.
  { rewrite Hf. apply unicodeToLatex_unmapped. }
  eexists. split; [exact Hf|].
  destruct (annotationText container) as [[|c t]|].
  - destruct (mathmlText container) as [[|c t]|]; try discriminate.
    exists (c :: t). split; [reflexivity|].
    apply pickLine_spec. exact Hl.
  - reflexivity.
  - destruct (mathmlText container) as [[|c t]|]; try discriminate.
    exists (c :: t). split; [reflexivity|].
    apply pickLine_spec. exact Hl.
Qed.

Lemma extractLatex_formula_witness :
  extractLatex (mkContainer None
                            (Some (js "x" ++ [10%N] ++ [0x3B1%N] ++ js "^2"
                                      ++ [10%N] ++ js "done ")))
  = Some (js "\alpha^2")
  /\ forallb (fun c => negb (isMapped c)) (js "\alpha^2") = true.
Proof.
  split; [reflexivity|].
  apply (extractLatex_formula
           (mkContainer None
                        (Some (js "x" ++ [10%N] ++ [0x3B1%N] ++ js "^2"
                                  ++ [10%N] ++ js "done ")))
           (js "\alpha^2") eq_refl).
Defined.

End ReaderFacts.


(* ================================================================== *)
(** * Juejin adapter: the token and the requests *)
(* ================================================================== *)

Module JuejinTokenFacts.
Import Async Adapter Juejin JuejinTrace.
Local Open Scope string_scope.
Local Open Scope list_scope.

Section Token.
Context {World : Type}.
Variable runtime_fetch : Request -> World -> Outcome Response * World.

Lemma getCsrfToken_cached c t w :
  getCsrfToken runtime_fetch (Some (String c t), w)
  = (Resolved (String c t), (Some (String c t), w)).
Proof. reflexivity. Qed.

(** A call that finds no usable token in the cache asks for one; what it
    does to the world does not depend on what the cache held. *)
Lemma getCsrfToken_cold cached w :
  match cached with Some (String _ _) => False | _ => True end ->
  getCsrfToken runtime_fetch (cached, w)
  = match runtime_fetch tokenRequest w with
    | (Resolved response, w') =>
        match resp_header response "x-ware-csrf-token" with
        | None | Some EmptyString =>
            (Rejected (mkError "Failed to get CSRF token"), (cached, w'))
        | Some wareToken =>
            match split wareToken with
            | _ :: part1 :: _ => (Resolved part1, (Some part1, w'))
            | _ => (Rejected (mkError "Invalid CSRF token format"),
                    (cached, w'))
            end
        end
    | (Rejected e, w') => (Rejected e, (cached, w'))
    end.
Proof.
  intros Hcold. unfold getCsrfToken, bind, fetch.
  fold tokenRequest.
  destruct cached as [[|c t]|]; try contradiction;
    destruct (runtime_fetch tokenRequest w) as [[response|e] w'];
    try reflexivity;
    destruct (resp_header response "x-ware-csrf-token") as [[|c t]|];
    try reflexivity;
    destruct (split (String c t)) as [|a [|part1 rest]]; reflexivity.
Qed.

(** X18. The token that [getCsrfToken] resolves with is the one it
    leaves in the cache, and once a non-empty token is cached no request
    is made for it again: the next call resolves with the same token and
    leaves the world as it is. A rejected call leaves the cache as it
    was. *)
Theorem csrf_token_cached (st st' : Juejin.St (World := World))
        (out : Outcome string) :
  getCsrfToken runtime_fetch st = (out, st') ->
  match out with
  | Resolved token =>
      fst st' = Some token
      /\ (if String.eqb token "" then True
          else getCsrfToken runtime_fetch st' = (Resolved token, st'))
  | Rejected _ => fst st' = fst st
  end.
Proof.
  destruct st as [cached w].
  assert (Hwarm : forall token w',
             (if String.eqb token "" then True
              else getCsrfToken runtime_fetch (Some token, w')
                   = (Resolved token, (Some token, w')))).
  { intros [|c t] w'; [exact I | apply getCsrfToken_cached]. }
  destruct cached as [[|c t]|].
  - rewrite getCsrfToken_cold by exact I.
    destruct (runtime_fetch tokenRequest w) as [[response|e] w'].
    + destruct (resp_header response "x-ware-csrf-token") as [[|c t]|];
        try (intros [= <- <-]; reflexivity).
      destruct (split (String c t)) as [|a [|part1 rest]];
        intros [= <- <-]; try reflexivity.
      split; [reflexivity | apply Hwarm].
    + intros [= <- <-]. reflexivity.
  - intros [= <- <-]. split; [reflexivity | apply (Hwarm (String c t))].
  - rewrite getCsrfToken_cold by exact I.
    destruct (runtime_fetch tokenRequest w) as [[response|e] w'].
    + destruct (resp_header response "x-ware-csrf-token") as [[|c t]|];
        try (intros [= <- <-]; reflexivity).
      destruct (split (String c t)) as [|a [|part1 rest]];
        intros [= <- <-]; try reflexivity.
      split; [reflexivity | apply Hwarm].
    + intros [= <- <-]. reflexivity.
Qed.
End Token.

Lemma csrf_token_cached_witness :
  getCsrfToken (logged friendly) (None, [])
  = (Resolved "tok123", (Some "tok123", [tokenRequest]))
  /\ getCsrfToken (logged friendly) (Some "tok123", [tokenRequest])
     = (Resolved "tok123", (Some "tok123", [tokenRequest])).
Proof.
  split; [reflexivity|].
  exact (proj2 (csrf_token_cached (logged friendly) (None, [])
                  (Some "tok123", [tokenRequest]) (Resolved "tok123")
                  eq_refl)).
Defined.

Section Upload.
Variable respond : Request -> list Request -> Outcome Response.
Variable stringOf : Json -> string.

(** X19. What [uploadImageBinaryInternal] sends. With a non-empty token
    in the cache it sends the upload request alone, carrying that token.
    Otherwise it asks for a token first, and the upload request follows
    only when the answer has a non-empty [x-ware-csrf-token] header with
    at least two comma-separated fields: it carries the second field,
    which is cached as the token; that field may be empty, and the image
    is then sent with an empty token. When no token is obtained the call
    rejects, with the error of the request or with one of the two
    messages of [getCsrfToken], the cache is left as it was and no image
    is sent. Nothing else is sent. *)
Theorem binary_upload_carries_token (file : Blob) (cached : option string)
        (log : list Request) :
  exists out cached' issued,
    uploadImageBinaryInternal (logged respond) stringOf file (cached, log)
    = (out, (cached', log ++ issued))
    /\ ((* a token in the cache *)
        (exists token,
            cached = Some token /\ token <> ""
            /\ cached' = cached
            /\ issued = [uploadRequest token file])
        \/ (* a token is obtained *)
        ((cached = None \/ cached = Some "")
         /\ exists response wareToken first token rest,
              respond tokenRequest log = Resolved response
              /\ resp_header response "x-ware-csrf-token" = Some wareToken
              /\ wareToken <> ""
              /\ split wareToken = first :: token :: rest
              /\ cached' = Some token
              /\ issued = [tokenRequest; uploadRequest token file])
        \/ (* no token is obtained *)
        ((cached = None \/ cached = Some "")
         /\ cached' = cached
         /\ issued = [tokenRequest]
         /\ ((exists e, respond tokenRequest log = Rejected e
                        /\ out = Rejected e)
             \/ (exists response,
                    respond tokenRequest log = Resolved response
                    /\ (resp_header response "x-ware-csrf-token" = None
                        \/ resp_header response "x-ware-csrf-token" = Some "")
                    /\ out = Rejected (mkError "Failed to get CSRF token"))
             \/ (exists response wareToken,
                    respond tokenRequest log = Resolved response
                    /\ resp_header response "x-ware-csrf-token" = Some wareToken
                    /\ wareToken <> ""
                    /\ (List.length (split wareToken) < 2)%nat
                    /\ out = Rejected (mkError "Invalid CSRF token format"))))).
Proof.
  assert (Hrest : forall token log0,
             exists out,
               (response <- fetch (logged respond) (uploadRequest token file) ;;
               data <- await (resp_json response) ;;
               inner <- await (getProp (Some data) "data") ;;
               if truthy (getPropOpt inner "url") then
                 match getPropOpt inner "url" with
                 | Some u => ret u
                 | None => throw typeError
                 end
               else throw (mkError (messageOr stringOf
                                      (getPropOpt (Some data) "err_msg")
                                      "Failed to upload image")))%async
                 (Some token, log0)
               = (out, (Some token, log0 ++ [uploadRequest token file]))).
  { intros token log0. unfold bind, fetch, logged, await.
    destruct (respond (uploadRequest token file) log0) as [response|e];
      [|eexists; reflexivity].
    destruct (resp_json response) as [data|e]; [|eexists; reflexivity].
    destruct (getProp (Some data) "data") as [inner|e];
      [|eexists; reflexivity].
    destruct (truthy (getPropOpt inner "url")); [|eexists; reflexivity].
    destruct (getPropOpt inner "url"); eexists; reflexivity. }
  assert (Hcold : forall cached0,
             cached0 = None \/ cached0 = Some "" ->
             exists out cached' issued,
               uploadImageBinaryInternal (logged respond) stringOf file
                                         (cached0, log)
               = (out, (cached', log ++ issued))
               /\ (((cached0 = None \/ cached0 = Some "")
                    /\ exists response wareToken first token rest,
                         respond tokenRequest log = Resolved response
                         /\ resp_header response "x-ware-csrf-token"
                            = Some wareToken
                         /\ wareToken <> ""
                         /\ split wareToken = first :: token :: rest
                         /\ cached' = Some token
                         /\ issued = [tokenRequest; uploadRequest token file])
                   \/ ((cached0 = None \/ cached0 = Some "")
                       /\ cached' = cached0
                       /\ issued = [tokenRequest]
                       /\ ((exists e, respond tokenRequest log = Rejected e
                                      /\ out = Rejected e)
                           \/ (exists response,
                                  respond tokenRequest log = Resolved response
                                  /\ (resp_header response "x-ware-csrf-token"
                                      = None
                                      \/ resp_header response "x-ware-csrf-token"
                                         = Some "")
                                  /\ out = Rejected
                                             (mkError "Failed to get CSRF token"))
                           \/ (exists response wareToken,
                                  respond tokenRequest log = Resolved response
                                  /\ resp_header response "x-ware-csrf-token"
                                     = Some wareToken
                                  /\ wareToken <> ""
                                  /\ (List.length (split wareToken) < 2)%nat
                                  /\ out = Rejected
                                             (mkError "Invalid CSRF token format")))))).
  { intros cached0 Hc.
    unfold uploadImageBinaryInternal. unfold bind at 1.
    rewrite getCsrfToken_cold by (destruct Hc as [-> | ->]; exact I).
    unfold logged at 1.
    destruct (respond tokenRequest log) as [response|e] eqn:Er.
    - destruct (resp_header response "x-ware-csrf-token") as [[|c t]|] eqn:Eh.
      + eexists _, _, _. split; [reflexivity|]. right.
        split; [exact Hc|]. split; [reflexivity|]. split; [reflexivity|].
        right. left. exists response. auto.
      + destruct (split (String c t)) as [|a [|part1 rest]] eqn:Es.
        * eexists _, _, _. split; [reflexivity|]. right.
          split; [exact Hc|]. split; [reflexivity|]. split; [reflexivity|].
          right. right. exists response, (String c t).
          rewrite Es. repeat split; try assumption; [discriminate|cbn; lia].
        * eexists _, _, _. split; [reflexivity|]. right.
          split; [exact Hc|]. split; [reflexivity|]. split; [reflexivity|].
          right. right. exists response, (String c t).
          rewrite Es. repeat split; try assumption; [discriminate|cbn; lia].
        * destruct (Hrest part1 (log ++ [tokenRequest])) as (out & Hout).
          fold (uploadRequest part1 file). rewrite Hout.
          eexists _, _, _. rewrite <- app_assoc. split; [reflexivity|].
          left. split; [exact Hc|].
          exists response, (String c t), a, part1, rest.
          repeat split; try assumption. discriminate.
      + eexists _, _, _. split; [reflexivity|]. right.
        split; [exact Hc|]. split; [reflexivity|]. split; [reflexivity|].
        right. left. exists response. auto.
    - eexists _, _, _. split; [reflexivity|]. right.
      split; [exact Hc|]. split; [reflexivity|]. split; [reflexivity|].
      left. exists e. auto. }
  destruct cached as [[|c t]|].
  - destruct (Hcold (Some "") (or_intror eq_refl))
      as (out & cached' & issued & Hrun & H).
    exists out, cached', issued. split; [exact Hrun|]. now right.
  - unfold uploadImageBinaryInternal. unfold bind at 1.
    rewrite getCsrfToken_cached.
    destruct (Hrest (String c t) log) as (out & Hout).
    fold (uploadRequest (String c t) file). rewrite Hout.
    eexists _, _, _. split; [reflexivity|].
    left. exists (String c t). repeat split. discriminate.
  - destruct (Hcold None (or_introl eq_refl))
      as (out & cached' & issued & Hrun & H).
    exists out, cached', issued. split; [exact Hrun|]. now right.
Qed.
End Upload.

(** A header whose second field is empty makes the adapter cache the
    empty token and send the image with it. *)
Lemma binary_upload_empty_token :
  uploadImageBinaryInternal (logged blankToken) (fun _ => "") "png" (None, [])
  = (Resolved (JStr "https://p3-juejin.byteimg.com/1.png"),
     (Some "", [tokenRequest; uploadRequest "" "png"])).
Proof. reflexivity. Qed.

End JuejinTokenFacts.


(* ================================================================== *)
(** * Imooc adapter: image upload and publishing *)
(* ================================================================== *)

Module AsyncFacts.
Import Async Adapter.

Lemma bind_resolved {S A B} (c : M S A) (k : A -> M S B) st r st' :
  bind c k st = (Resolved r, st') ->
  exists x st1, c st = (Resolved x, st1) /\ k x st1 = (Resolved r, st').
Proof.
  unfold bind. destruct (c st) as [[x|e] st1]; [eauto | discriminate].
Qed.

Lemma tryCatch_settled {S A} (c : M S A) (h : Error -> M S A) st out st' :
  tryCatch c h st = (out, st') ->
  (exists x, c st = (Resolved x, st') /\ out = Resolved x)
  \/ (exists e st1, c st = (Rejected e, st1) /\ h e st1 = (out, st')).
Proof.
  unfold tryCatch. destruct (c st) as [[x|e] st1].
  - intros [= <- <-]. left. eauto.
  - intros H. right. eauto.
Qed.

Lemma await_state {S A} (o : Outcome A) (st : S) out st' :
  await o st = (out, st') -> out = o /\ st' = st.
Proof. unfold await. intros [= <- <-]. auto. Qed.

Lemma ret_state {S A} (a : A) (st : S) out st' :
  ret a st = (out, st') -> out = Resolved a /\ st' = st.
Proof. unfold ret. intros [= <- <-]. auto. Qed.

End AsyncFacts.

Module ImoocPublishFacts.
Import Async Adapter Imooc ImoocPublish AsyncFacts.
Local Open Scope string_scope.
Local Open Scope list_scope.

Section Facts.
Context {World : Type}.
Variable runtime_fetch : Request -> World -> Outcome Response * World.
Variable headerRules : option (HeaderRules (World := World)).
Variable blobOf : Response -> Outcome Blob.
Variable now : World -> Z.
Variable stringOf : Json -> string.
Variable JSON_parse : string -> Outcome Json.
Variable processImages :
  string -> (string -> M (Imooc.St (World := World)) ImageUploadResult) ->
  M (Imooc.St (World := World)) string.

Lemma fetch_rule r st out st' :
  fetch runtime_fetch r st = (out, st') -> fst st' = fst st.
Proof.
  destruct st as [ruleId w]. unfold fetch.
  destruct (runtime_fetch r w) as [o w']. now intros [= <- <-].
Qed.

(** X20. [uploadImageByUrl] of the Imooc adapter aborts instead of
    falling back. It resolves exactly when the image was downloaded, its
    blob read, the upload answered with a body whose [result] is the
    number 0 and whose [data.imgpath] is a string; the address it
    resolves with is that string, with [https:] put in front when it
    starts with two slashes. Every failure on the way rejects: with the
    error of the step that failed, with the [msg] of the answer (or
    the fixed message) when [result] is not 0, and with a type error
    when [imgpath] is not a string. The header rule id is not touched
    either way. *)
Theorem imooc_upload_url (url : string) (st st' : Imooc.St (World := World))
        (out : Outcome ImageUploadResult) :
  uploadImageByUrl runtime_fetch blobOf stringOf url st = (out, st') ->
  fst st' = fst st
  /\ match out with
     | Resolved r =>
         exists imageResponse st1 blob response res code data imgUrl,
           fetch runtime_fetch (mkRequest url "GET" [] NoBody) st
           = (Resolved imageResponse, st1)
           /\ blobOf imageResponse = Resolved blob
           /\ fetch runtime_fetch
                    (mkRequest "https://www.imooc.com/article/ajaxuploadimg"
                               "POST" [] (FormBody blob)) st1
              = (Resolved response, st')
           /\ resp_json response = Resolved res
           /\ getProp (Some res) "result" = Resolved code
           /\ notZero code = false
           /\ getProp (Some res) "data" = Resolved data
           /\ getProp data "imgpath" = Resolved (Some (JStr imgUrl))
           /\ r = mkUpload (Some (JStr (if String.prefix "//" imgUrl
                                        then "https:" ++ imgUrl
                                        else imgUrl)))
     | Rejected e =>
         (* the download *)
         fetch runtime_fetch (mkRequest url "GET" [] NoBody) st
         = (Rejected e, st')
         \/ (exists imageResponse,
                fetch runtime_fetch (mkRequest url "GET" [] NoBody) st
                = (Resolved imageResponse, st')
                /\ blobOf imageResponse = Rejected e)
         \/ (exists imageResponse st1 blob,
                fetch runtime_fetch (mkRequest url "GET" [] NoBody) st
                = (Resolved imageResponse, st1)
                /\ blobOf imageResponse = Resolved blob
                /\ ((* the upload *)
                    fetch runtime_fetch
                          (mkRequest "https://www.imooc.com/article/ajaxuploadimg"
                                     "POST" [] (FormBody blob)) st1
                    = (Rejected e, st')
                    \/ exists response,
                         fetch runtime_fetch
                               (mkRequest "https://www.imooc.com/article/ajaxuploadimg"
                                          "POST" [] (FormBody blob)) st1
                         = (Resolved response, st')
                         /\ ((* the answer *)
                             resp_json response = Rejected e
                             \/ exists res,
                                  resp_json response = Resolved res
                                  /\ (getProp (Some res) "result" = Rejected e
                                      \/ (exists code,
                                             getProp (Some res) "result"
                                             = Resolved code
                                             /\ notZero code = true
                                             /\ e = mkError
                                                      (Juejin.messageOr stringOf
                                                         (getPropOpt (Some res) "msg")
                                                         "图片上传失败"))
                                      \/ (exists code,
                                             getProp (Some res) "result"
                                             = Resolved code
                                             /\ notZero code = false
                                             /\ (getProp (Some res) "data"
                                                 = Rejected e
                                                 \/ exists data,
                                                      getProp (Some res) "data"
                                                      = Resolved data
                                                      /\ (getProp data "imgpath"
                                                          = Rejected e
                                                          \/ exists imgpath,
                                                               getProp data "imgpath"
                                                               = Resolved imgpath
                                                               /\ (forall s, imgpath <> Some (JStr s))
                                                               /\ e = typeError)))))))
     end.
Proof.
  unfold uploadImageByUrl, bind. intros H.
  destruct (fetch runtime_fetch (mkRequest url "GET" [] NoBody) st)
    as [[imageResponse|e] st1] eqn:E1.
  2:{ injection H as <- <-. split; [exact (fetch_rule _ _ _ _ E1)|]. now left. }
  pose proof (fetch_rule _ _ _ _ E1) as R1. unfold await in H.
  destruct (blobOf imageResponse) as [blob|e] eqn:Eb.
  2:{ injection H as <- <-. split; [exact R1|]. right. left. eauto. }
  match type of H with
  | context [fetch runtime_fetch ?r st1] =>
      destruct (fetch runtime_fetch r st1) as [[response|e] st2] eqn:E2
  end.
  2:{ injection H as <- <-. pose proof (fetch_rule _ _ _ _ E2) as R2.
      rewrite R1 in R2. split; [exact R2|]. right. right.
      exists imageResponse, st1, blob.
      split; [solve [reflexivity | eassumption]|]. split; [solve [reflexivity | eassumption]|]. now left. }
  pose proof (fetch_rule _ _ _ _ E2) as R2. rewrite R1 in R2.
  destruct (resp_json response) as [res|e] eqn:Ej.
  2:{ injection H as <- <-. split; [exact R2|]. right. right.
      exists imageResponse, st1, blob.
      split; [solve [reflexivity | eassumption]|]. split; [solve [reflexivity | eassumption]|].
      right. exists response. split; [solve [reflexivity | eassumption]|]. now left. }
  destruct (getProp (Some res) "result") as [code|e] eqn:Ec.
  2:{ injection H as <- <-. split; [exact R2|]. right. right.
      exists imageResponse, st1, blob.
      split; [solve [reflexivity | eassumption]|]. split; [solve [reflexivity | eassumption]|].
      right. exists response. split; [solve [reflexivity | eassumption]|]. right.
      exists res. split; [solve [reflexivity | eassumption]|]. now left. }
  destruct (notZero code) eqn:En.
  { injection H as <- <-. split; [exact R2|]. right. right.
    exists imageResponse, st1, blob.
    split; [solve [reflexivity | eassumption]|]. split; [solve [reflexivity | eassumption]|].
    right. exists response. split; [solve [reflexivity | eassumption]|]. right.
    exists res. split; [solve [reflexivity | eassumption]|]. right. left.
    exists code. repeat split; solve [reflexivity | eassumption]. }
  destruct (getProp (Some res) "data") as [data|e] eqn:Ed.
  2:{ injection H as <- <-. split; [exact R2|]. right. right.
      exists imageResponse, st1, blob.
      split; [solve [reflexivity | eassumption]|]. split; [solve [reflexivity | eassumption]|].
      right. exists response. split; [solve [reflexivity | eassumption]|]. right.
      exists res. split; [solve [reflexivity | eassumption]|]. right. right.
      exists code. split; [solve [reflexivity | eassumption]|]. split; [solve [reflexivity | eassumption]|]. now left. }
  destruct (getProp data "imgpath") as [imgpath|e] eqn:Ei.
  2:{ injection H as <- <-. split; [exact R2|]. right. right.
      exists imageResponse, st1, blob.
      split; [solve [reflexivity | eassumption]|]. split; [solve [reflexivity | eassumption]|].
      right. exists response. split; [solve [reflexivity | eassumption]|]. right.
      exists res. split; [solve [reflexivity | eassumption]|]. right. right.
      exists code. split; [solve [reflexivity | eassumption]|]. split; [solve [reflexivity | eassumption]|]. right.
      exists data. split; [solve [reflexivity | eassumption]|]. now left. }
  assert (Hbad : (forall s, imgpath <> Some (JStr s)) ->
                 out = Rejected typeError -> st' = st2 ->
                 fst st' = fst st
                 /\ match out with
                    | Resolved _ => False
                    | Rejected e => e = typeError
                    end).
  { intros _ -> ->. now split. }
  destruct imgpath as [[| | |imgUrl| |]|];
    try (injection H as <- <-; split; [exact R2|]; right; right;
         exists imageResponse, st1, blob;
         (split; [solve [reflexivity | eassumption]|]); (split; [solve [reflexivity | eassumption]|]);
         right; exists response; split; [solve [reflexivity | eassumption]|]; right;
         exists res; split; [solve [reflexivity | eassumption]|]; right; right;
         exists code; (split; [solve [reflexivity | eassumption]|]); (split; [solve [reflexivity | eassumption]|]); right;
         exists data; split; [solve [reflexivity | eassumption]|]; right;
         eexists; split; [solve [reflexivity | eassumption]|]; split; [intros s; discriminate|reflexivity]).
  injection H as <- <-. split; [exact R2|].
  exists imageResponse, st1, blob, response, res, code, data, imgUrl.
  repeat split; solve [reflexivity | eassumption].
Qed.
Lemma removeHeaderRules_clears st st' :
  headerRules <> None ->
  removeHeaderRules headerRules st = (Resolved tt, st') ->
  noRuleRecorded st'.
Proof.
  intros Hsome. unfold removeHeaderRules, noRuleRecorded.
  destruct st as [ruleId w]. destruct headerRules as [rules|]; [|congruence].
  destruct ruleId as [[|c t]|]; try (intros [= <-]; exact I).
  destruct (remove rules (String c t) w) as [[u|e] w'];
    [intros [= <-]; exact I | discriminate].
Qed.

(** X21. With the header-rule capability present, [checkAuth] and
    [publish] never resolve with a rule still recorded as installed:
    whichever way they went, the removal was awaited last, and the rule
    id they leave is absent or empty. *)
Theorem imooc_leaves_no_rule (article : Article)
        (st st1 st2 : Imooc.St (World := World)) (auth : AuthResult)
        (result : SyncResult) :
  headerRules <> None ->
  (checkAuth runtime_fetch headerRules JSON_parse st = (Resolved auth, st1) ->
   noRuleRecorded st1)
  /\ (publish runtime_fetch headerRules blobOf now stringOf processImages
              article st
      = (Resolved result, st2) ->
      noRuleRecorded st2).
Proof.
  intros Hsome. split.
  - unfold checkAuth. intros H. apply tryCatch_settled in H.
    destruct H as [(x & H & _) | (e & sta & _ & H)].
    + apply bind_resolved in H. destruct H as (_ & sa & _ & H).
      apply bind_resolved in H. destruct H as (response & sb & _ & H).
      apply bind_resolved in H. destruct H as (text & sc & _ & H).
      apply bind_resolved in H. destruct H as (parsed & sd & _ & H).
      apply bind_resolved in H. destruct H as ([] & se & Hrm & H).
      apply removeHeaderRules_clears in Hrm; [|exact Hsome].
      apply bind_resolved in H. destruct H as (code & sf & Hc & H).
      apply await_state in Hc. destruct Hc as [_ ->].
      destruct (notZero code).
      * apply ret_state in H. now destruct H as [_ ->].
      * apply bind_resolved in H. destruct H as (data & sg & Hd & H).
        apply await_state in Hd. destruct Hd as [_ ->].
        apply bind_resolved in H. destruct H as (uid & sh & Hu & H).
        apply await_state in Hu. destruct Hu as [_ ->].
        apply bind_resolved in H. destruct H as (nick & si & Hn & H).
        apply await_state in Hn. destruct Hn as [_ ->].
        apply bind_resolved in H. destruct H as (img & sj & Hi & H).
        apply await_state in Hi. destruct Hi as [_ ->].
        apply ret_state in H. now destruct H as [_ ->].
    + apply bind_resolved in H. destruct H as ([] & sb & Hrm & H).
      apply removeHeaderRules_clears in Hrm; [|exact Hsome].
      apply ret_state in H. now destruct H as [_ ->].
  - unfold publish. intros H. apply tryCatch_settled in H.
    destruct H as [(x & H & _) | (e & sta & _ & H)].
    + apply bind_resolved in H. destruct H as (_ & sa & _ & H).
      apply bind_resolved in H. destruct H as (content & sb & _ & H).
      apply bind_resolved in H. destruct H as (response & sc & _ & H).
      apply bind_resolved in H. destruct H as (res & sd & _ & H).
      apply bind_resolved in H. destruct H as ([] & se & Hrm & H).
      apply removeHeaderRules_clears in Hrm; [|exact Hsome].
      apply bind_resolved in H. destruct H as (data & sf & Hd & H).
      apply await_state in Hd. destruct Hd as [_ ->].
      destruct (negb (truthy data)); [discriminate|].
      apply ret_state in H. now destruct H as [_ ->].
    + apply bind_resolved in H. destruct H as ([] & sb & Hrm & H).
      apply removeHeaderRules_clears in Hrm; [|exact Hsome].
      apply ret_state in H. now destruct H as [_ ->].
Qed.

Lemma removeHeaderRules_resolves st :
  removalNeverFails headerRules ->
  exists st', removeHeaderRules headerRules st = (Resolved tt, st').
Proof.
  unfold removalNeverFails, removeHeaderRules. intros Hrm.
  destruct st as [ruleId w]. destruct headerRules as [rules|]; [|eauto].
  destruct ruleId as [[|c t]|]; eauto.
  specialize (Hrm (String c t) w).
  destruct (remove rules (String c t) w) as [[u|e] w'];
    [eauto | discriminate].
Qed.

(** X22. When removing a header rule never fails (or the capability is
    absent), [publish] of the Imooc adapter always resolves, with a
    result for the platform [imooc] stamped with the clock at the call.
    A success is a draft: it carries the truthy [data] of the response as
    post id and the address of that draft; a failure carries the message
    of what was thrown and nothing else. *)
Theorem imooc_publish_settles (article : Article)
        (st : Imooc.St (World := World)) :
  removalNeverFails headerRules ->
  exists result st',
    publish runtime_fetch headerRules blobOf now stringOf processImages
            article st
    = (Resolved result, st')
    /\ platform result = "imooc"
    /\ timestamp result = now (snd st)
    /\ (if success result
        then truthy (postId result) = true
             /\ postUrl result
                = Some ("https://www.imooc.com/article/draft/id/"
                          ++ text stringOf (postId result))%string
             /\ draftOnly result = Some true
             /\ error result = None
        else postId result = None /\ postUrl result = None
             /\ draftOnly result = None
             /\ exists msg, error result = Some msg).
Proof.
  intros Hrm. unfold publish, tryCatch.
  match goal with
  | |- context [match ?body st with _ => _ end] =>
      destruct (body st) as [[result|e] st1] eqn:E
  end.
  - exists result, st1. split; [reflexivity|].
    apply bind_resolved in E. destruct E as (_ & sa & _ & H).
    apply bind_resolved in H. destruct H as (content & sb & _ & H).
    apply bind_resolved in H. destruct H as (response & sc & _ & H).
    apply bind_resolved in H. destruct H as (res & sd & _ & H).
    apply bind_resolved in H. destruct H as ([] & se & _ & H).
    apply bind_resolved in H. destruct H as (data & sf & _ & H).
    destruct (truthy data) eqn:Et; [|discriminate].
    cbn [negb] in H. apply ret_state in H. destruct H as [[= ->] _].
    cbn. now rewrite Et.
  - destruct (removeHeaderRules_resolves st1 Hrm) as (st2 & Hst2).
    unfold bind. rewrite Hst2. eexists _, _. split; [reflexivity|].
    cbn. repeat split. eexists; reflexivity.
Qed.
End Facts.

Lemma imooc_upload_url_witness :
  uploadImageByUrl imoocServer (fun r => Resolved "blob") (fun _ => "")
                   "https://example.org/a.jpg" (None, tt)
  = (Resolved (mkUpload (Some (JStr "https://img.mukewang.com/a.jpg"))),
     (None, tt))
  /\ exists imageResponse st1 blob response res code data imgUrl,
       fetch imoocServer (mkRequest "https://example.org/a.jpg" "GET" [] NoBody)
             (None, tt)
       = (Resolved imageResponse, st1)
       /\ Resolved "blob" = Resolved blob
       /\ fetch imoocServer
                (mkRequest "https://www.imooc.com/article/ajaxuploadimg"
                           "POST" [] (FormBody blob)) st1
          = (Resolved response, (None, tt))
       /\ resp_json response = Resolved res
       /\ getProp (Some res) "result" = Resolved code
       /\ notZero code = false
       /\ getProp (Some res) "data" = Resolved data
       /\ getProp data "imgpath" = Resolved (Some (JStr imgUrl))
       /\ mkUpload (Some (JStr "https://img.mukewang.com/a.jpg"))
          = mkUpload (Some (JStr (if String.prefix "//" imgUrl
                                  then "https:" ++ imgUrl else imgUrl))).
Proof.
  split; [reflexivity|].
  exact (proj2 (imooc_upload_url
                  imoocServer (fun r => Resolved "blob") (fun _ => "")
                  "https://example.org/a.jpg" (None, tt) (None, tt)
                  (Resolved (mkUpload (Some (JStr "https://img.mukewang.com/a.jpg"))))
                  eq_refl)).
Defined.

Lemma imooc_leaves_no_rule_witness :
  publish imoocServer (Some workingRules) (fun r => Resolved "blob")
          (fun _ => 1700000000000%Z) (fun _ => "7788") uploadFirst
          (mkArticle "T" None (Some "# T")) (None, tt)
  = (Resolved (mkSyncResult "imooc" true (Some (JNum 7788))
                 (Some "https://www.imooc.com/article/draft/id/7788")
                 (Some true) None 1700000000000),
     (None, tt))
  /\ noRuleRecorded (World := unit) (None, tt).
Proof.
  split; [reflexivity|].
  refine (proj2 (imooc_leaves_no_rule
                   imoocServer (Some workingRules) (fun r => Resolved "blob")
                   (fun _ => 1700000000000%Z) (fun _ => "7788") anyParse
                   uploadFirst (mkArticle "T" None (Some "# T"))
                   (None, tt) (None, tt) (None, tt) notAuthenticated
                   (mkSyncResult "imooc" true (Some (JNum 7788))
                      (Some "https://www.imooc.com/article/draft/id/7788")
                      (Some true) None 1700000000000)
                   _) eq_refl).
  discriminate.
Defined.

Lemma imooc_publish_settles_witness :
  exists result st',
    publish failingFetch (Some workingRules) (fun r => Resolved "blob")
            (fun _ => 1700000000000%Z) (fun _ => "") uploadFirst
            (mkArticle "T" None (Some "# T")) (None, tt)
    = (Resolved result, st')
    /\ success result = false
    /\ error result = Some "Failed to fetch".
Proof.
  destruct (imooc_publish_settles
              failingFetch (Some workingRules) (fun r => Resolved "blob")
              (fun _ => 1700000000000%Z) (fun _ => "") uploadFirst
              (mkArticle "T" None (Some "# T")) (None, tt))
    as (result & st' & Hrun & _).
  - intros ruleId w. reflexivity.
  - exists result, st'. split; [exact Hrun|].
    cbv in Hrun. injection Hrun as <- <-. split; reflexivity.
Defined.

End ImoocPublishFacts.


(* ================================================================== *)
(** * Weixin adapter: image upload, error messages and publishing *)
(* ================================================================== *)

Module WeixinPublishFacts.
Import Async Adapter JsString Weixin WeixinPublish AsyncFacts.
Local Open Scope string_scope.
Local Open Scope list_scope.






Section Facts.
Context {World : Type}.
Variable runtime_fetch : Request -> World -> Outcome Response * World.
Variable global_fetch : jsstring -> World -> Outcome Response * World.
Variable blobOf : Response -> Outcome Blob.
Variable clock : World -> string.
Variable random : World -> string.
Variable svrTimeText : WeixinMeta -> string.
Variable stringOf : Json -> string.
Variable memberText : string -> string.
Variable textOf : jsstring -> string.
Variable scanPage : string -> PageMatches.
Variable markdownToHtml : option jsstring -> Outcome jsstring.
Variable cleanHtml : jsstring -> Outcome jsstring.
Variable processImages :
  jsstring -> (jsstring -> M (Weixin.St (World := World)) ImageUploadResult) ->
  list jsstring -> M (Weixin.St (World := World)) jsstring.
Variable processContent : jsstring -> Outcome jsstring.


(** Codes of each kind, on a signed-in adapter. *)
Lemma formatError_examples :
  formatError stringOf memberText (Some (JObj [("ret", JNum 200003)]))
  = Resolved "登录态超时，请重新登录"
  /\ formatError stringOf memberText
       (Some (JObj [("base_resp", JObj [("ret", JNum (-1))])]))
     = Resolved "系统错误，请注意备份内容后重试"
  /\ formatError stringOf memberText (Some (JObj [("ret", JNum 0)]))
     = Resolved "同步失败 (错误码: 0)"
  /\ formatError stringOf memberText (Some (JObj [("ret", JStr "constructor")]))
     = Resolved (memberText "constructor").
Proof. repeat split. Qed.

Lemma globalFetch_meta src st out st' :
  globalFetch global_fetch src st = (out, st') -> fst st' = fst st.
Proof.
  destruct st as [meta w]. unfold globalFetch.
  destruct (global_fetch src w) as [o w']. now intros [= <- <-].
Qed.

Lemma weixin_fetch_meta r st out st' :
  Weixin.fetch runtime_fetch r st = (out, st') -> fst st' = fst st.
Proof.
  destruct st as [meta w]. unfold Weixin.fetch.
  destruct (runtime_fetch r w) as [o w']. now intros [= <- <-].
Qed.

(** X24. [uploadImageByUrl] of the Weixin adapter aborts instead of
    falling back. Without the login data it rejects at once with the
    message of not being signed in, and touches nothing. Signed in, it
    resolves exactly when the download answered with an [ok] response
    whose blob could be read, and the upload answered with a body whose
    [base_resp.err_msg] is [ok] and whose [cdn_url] is truthy: it
    resolves with that [cdn_url]. Every failure on the way rejects: with
    the error of the step that failed, with the download message and the
    source when the download is not [ok], and with the upload message
    and the source when the answer of the upload is not as above. The
    login data is not touched either way. *)
Theorem weixin_upload_aborts (src : jsstring)
        (st st' : Weixin.St (World := World))
        (out : Outcome ImageUploadResult) :
  uploadImageByUrl runtime_fetch global_fetch blobOf clock random svrTimeText
                   textOf src st
  = (out, st') ->
  fst st' = fst st
  /\ match out with
     | Resolved r =>
         exists meta imageResponse st1 imageBlob response res base_resp,
           fst st = Some meta
           /\ globalFetch global_fetch src st = (Resolved imageResponse, st1)
           /\ resp_ok imageResponse = true
           /\ blobOf imageResponse = Resolved imageBlob
           /\ Weixin.fetch runtime_fetch
                (mkRequest (uploadUrl clock random svrTimeText meta (snd st1))
                           "POST" [] (FormBody imageBlob)) st1
              = (Resolved response, st')
           /\ resp_json response = Resolved res
           /\ getProp (Some res) "base_resp" = Resolved base_resp
           /\ getPropOpt base_resp "err_msg" = Some (JStr "ok")
           /\ truthy (getPropOpt (Some res) "cdn_url") = true
           /\ r = mkUpload (getPropOpt (Some res) "cdn_url")
     | Rejected e =>
         (fst st = None /\ e = mkError "未登录" /\ st' = st)
         \/ exists meta,
              fst st = Some meta
              /\ (globalFetch global_fetch src st = (Rejected e, st')
                  \/ exists imageResponse st1,
                       globalFetch global_fetch src st
                       = (Resolved imageResponse, st1)
                       /\ ((resp_ok imageResponse = false /\ st' = st1
                            /\ e = mkError ("图片下载失败: " ++ textOf src))
                           \/ (resp_ok imageResponse = true
                               /\ ((blobOf imageResponse = Rejected e
                                    /\ st' = st1)
                                   \/ exists imageBlob,
                                        blobOf imageResponse = Resolved imageBlob
                                        /\ (Weixin.fetch runtime_fetch
                                              (mkRequest
                                                 (uploadUrl clock random
                                                    svrTimeText meta (snd st1))
                                                 "POST" [] (FormBody imageBlob))
                                              st1
                                            = (Rejected e, st')
                                            \/ exists response,
                                                 Weixin.fetch runtime_fetch
                                                   (mkRequest
                                                      (uploadUrl clock random
                                                         svrTimeText meta
                                                         (snd st1))
                                                      "POST" []
                                                      (FormBody imageBlob))
                                                   st1
                                                 = (Resolved response, st')
                                                 /\ (resp_json response
                                                     = Rejected e
                                                     \/ exists res,
                                                          resp_json response
                                                          = Resolved res
                                                          /\ (getProp (Some res) "base_resp"
                                                              = Rejected e
                                                              \/ exists base_resp,
                                                                   getProp (Some res) "base_resp"
                                                                   = Resolved base_resp
                                                                   /\ (getPropOpt base_resp "err_msg"
                                                                       <> Some (JStr "ok")
                                                                       \/ truthy (getPropOpt (Some res) "cdn_url")
                                                                          = false)
                                                                   /\ e = mkError
                                                                            ("图片上传失败: "
                                                                               ++ textOf src))))))))
     end.
Proof.
  unfold uploadImageByUrl, bind at 1, get.
  destruct st as [[meta|] w]; cbn [fst];
    [|intros [= <- <-]; split; [solve [reflexivity | eassumption]|]; left; repeat split].
  unfold bind at 1.
  destruct (globalFetch global_fetch src (Some meta, w))
    as [[imageResponse|e] st1] eqn:E1;
    pose proof (globalFetch_meta _ _ _ _ E1) as R1; cbn [fst] in R1.
  2:{ intros [= <- <-]. split; [exact R1|]. right. exists meta.
      split; [solve [reflexivity | eassumption]|]. now left. }
  destruct (resp_ok imageResponse) eqn:Eok; cbn [negb].
  2:{ intros [= <- <-]. split; [exact R1|]. right. exists meta.
      split; [solve [reflexivity | eassumption]|]. right. exists imageResponse, st1.
      split; [solve [reflexivity | eassumption]|]. left. split; [exact Eok|]. split; reflexivity. }
  unfold bind at 1, await.
  destruct (blobOf imageResponse) as [imageBlob|e] eqn:Eb.
  2:{ intros [= <- <-]. split; [exact R1|]. right. exists meta.
      split; [solve [reflexivity | eassumption]|]. right. exists imageResponse, st1.
      split; [solve [reflexivity | eassumption]|]. right. split; [solve [reflexivity | eassumption]|]. left. split; [solve [reflexivity | eassumption] | reflexivity]. }
  unfold bind at 1, get. rewrite R1.
  unfold bind at 1.
  match goal with
  | |- context [Weixin.fetch runtime_fetch ?r st1] =>
      destruct (Weixin.fetch runtime_fetch r st1) as [[response|e] st2] eqn:E2
  end;
    pose proof (weixin_fetch_meta _ _ _ _ E2) as R2; rewrite R1 in R2.
  2:{ intros [= <- <-]. split; [exact R2|]. right. exists meta.
      split; [solve [reflexivity | eassumption]|]. right. exists imageResponse, st1.
      split; [solve [reflexivity | eassumption]|]. right. split; [solve [reflexivity | eassumption]|]. right.
      exists imageBlob. split; [solve [reflexivity | eassumption]|]. now left. }
  unfold bind, await.
  destruct (resp_json response) as [res|e] eqn:Ej.
  2:{ intros [= <- <-]. split; [exact R2|]. right. exists meta.
      split; [solve [reflexivity | eassumption]|]. right. exists imageResponse, st1.
      split; [solve [reflexivity | eassumption]|]. right. split; [solve [reflexivity | eassumption]|]. right.
      exists imageBlob. split; [solve [reflexivity | eassumption]|]. right.
      exists response. split; [exact E2|]. now left. }
  destruct (getProp (Some res) "base_resp") as [base_resp|e] eqn:Ebr.
  2:{ intros [= <- <-]. split; [exact R2|]. right. exists meta.
      split; [solve [reflexivity | eassumption]|]. right. exists imageResponse, st1.
      split; [solve [reflexivity | eassumption]|]. right. split; [solve [reflexivity | eassumption]|]. right.
      exists imageBlob. split; [solve [reflexivity | eassumption]|]. right.
      exists response. split; [exact E2|]. right.
      exists res. split; [solve [reflexivity | eassumption]|]. now left. }
  assert (Hok : (match getPropOpt base_resp "err_msg" with
                 | Some (JStr s) => String.eqb s "ok"
                 | _ => false
                 end) = true
                <-> getPropOpt base_resp "err_msg" = Some (JStr "ok")).
  { destruct (getPropOpt base_resp "err_msg") as [[| | |s| |]|];
      try (split; [discriminate|congruence]).
    split.
    - intros H. apply String.eqb_eq in H. now subst.
    - intros [= ->]. reflexivity. }
  destruct (negb _ || negb (truthy (getPropOpt (Some res) "cdn_url")))
    eqn:Et.
  - intros [= <- <-]. split; [exact R2|]. right. exists meta.
    split; [solve [reflexivity | eassumption]|]. right. exists imageResponse, st1.
    split; [solve [reflexivity | eassumption]|]. right. split; [solve [reflexivity | eassumption]|]. right.
    exists imageBlob. split; [solve [reflexivity | eassumption]|]. right.
    exists response. split; [exact E2|]. right.
    exists res. split; [solve [reflexivity | eassumption]|]. right.
    exists base_resp. split; [solve [reflexivity | eassumption]|]. split; [|reflexivity].
    apply orb_true_iff in Et. destruct Et as [Et|Et];
      apply negb_true_iff in Et.
    + left. intros H. apply Hok in H. congruence.
    + now right.
  - intros [= <- <-]. split; [exact R2|].
    apply orb_false_iff in Et. destruct Et as [Et1 Et2].
    apply negb_false_iff in Et1, Et2.
    exists meta, imageResponse, st1, imageBlob, response, res, base_resp.
    split; [solve [reflexivity | eassumption]|]. split; [solve [reflexivity | eassumption]|]. split; [solve [reflexivity | eassumption]|].
    split; [solve [reflexivity | eassumption]|]. split; [exact E2|]. split; [solve [reflexivity | eassumption]|].
    split; [solve [reflexivity | eassumption]|]. split; [now apply Hok|]. split; [exact Et2|].
    reflexivity.
Qed.

(** X25. [publish] of the Weixin adapter never rejects: it resolves
    with a draft exactly when its [try] block resolves, and otherwise
    with a failed result whose error is the message of what the block
    threw, in the state in which it was thrown. A draft is reported only
    for a response with a truthy [appMsgId], only with the login data
    present, under the edit address built from that id and the token,
    and as draft-only unless the options say otherwise. A response
    without a truthy [appMsgId] gives the failed result with the message
    of [formatError]. *)
Theorem weixin_publish_settles (article : Article) (draftOnly : option bool)
        (st : Weixin.St (World := World)) :
  exists result st',
    publish runtime_fetch global_fetch blobOf clock random svrTimeText
            stringOf memberText textOf scanPage markdownToHtml cleanHtml
            processImages processContent article draftOnly st
    = (Resolved result, st')
    /\ match result with
       | Created appMsgId postUrl flag =>
           publishBody runtime_fetch global_fetch blobOf clock random
                       svrTimeText stringOf memberText textOf scanPage
                       markdownToHtml cleanHtml processImages processContent
                       article draftOnly st
           = (Resolved result, st')
           /\ truthy appMsgId = true
           /\ flag = match draftOnly with Some b => b | None => true end
           /\ (exists meta,
                  fst st' = Some meta
                  /\ postUrl = draftUrl stringOf meta appMsgId)
           /\ exists content sa meta0 response res,
                prepareContent runtime_fetch scanPage markdownToHtml cleanHtml
                               processImages processContent
                               (uploadImageByUrl runtime_fetch global_fetch
                                  blobOf clock random svrTimeText textOf)
                               article st
                = (Resolved content, sa)
                /\ fst sa = Some meta0
                /\ Weixin.fetch runtime_fetch
                     (createRequest random textOf meta0 article content (snd sa))
                     sa
                   = (Resolved response, st')
                /\ resp_json response = Resolved res
                /\ getProp (Some res) "appMsgId" = Resolved appMsgId
       | Failed msg =>
           exists e,
             publishBody runtime_fetch global_fetch blobOf clock random
                         svrTimeText stringOf memberText textOf scanPage
                         markdownToHtml cleanHtml processImages processContent
                         article draftOnly st
             = (Rejected e, st')
             /\ msg = message e
       end
    /\ (forall content sa meta response sc res appMsgId errMsg,
           prepareContent runtime_fetch scanPage markdownToHtml cleanHtml
                          processImages processContent
                          (uploadImageByUrl runtime_fetch global_fetch
                             blobOf clock random svrTimeText textOf)
                          article st
           = (Resolved content, sa) ->
           fst sa = Some meta ->
           Weixin.fetch runtime_fetch
             (createRequest random textOf meta article content (snd sa)) sa
           = (Resolved response, sc) ->
           resp_json response = Resolved res ->
           getProp (Some res) "appMsgId" = Resolved appMsgId ->
           truthy appMsgId = false ->
           formatError stringOf memberText (Some res) = Resolved errMsg ->
           result = Failed errMsg /\ st' = sc).
Proof.
  unfold publish, tryCatch.
  destruct (publishBody runtime_fetch global_fetch blobOf clock random
              svrTimeText stringOf memberText textOf scanPage markdownToHtml
              cleanHtml processImages processContent article draftOnly st)
    as [[result|e] st1] eqn:E.
  - exists result, st1. split; [reflexivity|].
    pose proof E as Hbody. unfold publishBody in E.
    apply bind_resolved in E. destruct E as (content & sa & Hprep & H).
    apply bind_resolved in H. destruct H as (x & sb & Hget & H).
    unfold get in Hget. injection Hget as <- <-.
    destruct (fst sa) as [meta|] eqn:Esa; [|discriminate].
    apply bind_resolved in H. destruct H as (response & sc & Hfetch & H).
    apply bind_resolved in H. destruct H as (res & sd & Hjson & H).
    apply await_state in Hjson. destruct Hjson as [Hjson ->].
    apply bind_resolved in H. destruct H as (appMsgId & se & Hid & H).
    apply await_state in Hid. destruct Hid as [Hid ->].
    destruct (truthy appMsgId) eqn:Et; cbn [negb] in H.
    + apply bind_resolved in H. destruct H as (x & sf & Hget & H).
      unfold get in Hget. injection Hget as <- <-.
      destruct (fst sc) as [meta'|] eqn:Em; [|discriminate].
      apply ret_state in H. destruct H as [[= ->] ->].
      split.
      * split; [reflexivity|]. split; [exact Et|]. split; [reflexivity|].
        split; [eauto|].
        exists content, sa, meta, response, res.
        repeat split; try assumption; now symmetry.
      * intros content' sa' meta2 response' sc' res' appMsgId' errMsg
               Hprep' Hsa' Hfetch' Hjson' Hid' Ht' _.
        rewrite Hprep in Hprep'. injection Hprep' as <- <-.
        rewrite Esa in Hsa'. injection Hsa' as <-.
        rewrite Hfetch in Hfetch'. injection Hfetch' as <- <-.
        rewrite <- Hjson in Hjson'. injection Hjson' as <-.
        rewrite <- Hid in Hid'. injection Hid' as <-.
        congruence.
    + apply bind_resolved in H. destruct H as (errMsg & sf & _ & H).
      discriminate.
  - exists (Failed (message e)), st1. split; [reflexivity|].
    split; [exists e; split; reflexivity|].
    intros content sa meta response sc res appMsgId errMsg
           Hprep Hsa Hfetch Hjson Hid Ht Hfmt.
    unfold publishBody, bind at 1 in E. rewrite Hprep in E.
    unfold bind at 1, get in E. rewrite Hsa in E.
    unfold bind at 1 in E. rewrite Hfetch in E.
    unfold bind at 1, await at 1 in E. rewrite Hjson in E.
    unfold bind at 1, await at 1 in E. rewrite Hid, Ht in E.
    cbn [negb] in E. unfold bind, await, throw in E. rewrite Hfmt in E.
    injection E as <- <-. now split.
Qed.

(** X26. Without login data [publish] first checks the login; when that
    check does not come back authenticated (the request failed, the page
    could not be read, or it holds no token), [publish] stops there with
    the failed result asking to sign in: the state is the one the check
    left, so no content was prepared, no image uploaded and no draft
    request sent. *)
Theorem weixin_publish_requires_login (article : Article)
        (draftOnly : option bool) (w : World) (auth : AuthResult)
        (st1 : Weixin.St (World := World)) :
  checkAuth runtime_fetch scanPage (None, w) = (Resolved auth, st1) ->
  isAuthenticated auth = false ->
  publish runtime_fetch global_fetch blobOf clock random svrTimeText
          stringOf memberText textOf scanPage markdownToHtml cleanHtml
          processImages processContent article draftOnly (None, w)
  = (Resolved (Failed "请先登录微信公众号"), st1).
Proof.
  intros Hcheck Hauth.
  unfold publish, publishBody, tryCatch, prepareContent,
    bind at 1, bind at 1, bind at 1.
  rewrite Hcheck, Hauth. reflexivity.
Qed.
End Facts.

Lemma weixin_upload_aborts_witness :
  uploadImageByUrl cdnServer
                   (fun _ n => cdnServer (mkRequest "" "GET" [] NoBody) n)
                   (fun _ => Resolved "blob") (fun _ => "0") (fun _ => "0.5")
                   (fun _ => "0") (fun _ => "x.png") (js "x.png")
                   (Some signedIn, 0%nat)
  = (Resolved (mkUpload (Some (JStr "https://mmbiz.qpic.cn/x"))),
     (Some signedIn, 2%nat))
  /\ fst (Some signedIn, 2%nat) = fst (Some signedIn, 0%nat).
Proof.
  split; [reflexivity|].
  exact (proj1
           (weixin_upload_aborts
              cdnServer
              (fun _ n => cdnServer (mkRequest "" "GET" [] NoBody) n)
              (fun _ => Resolved "blob") (fun _ => "0") (fun _ => "0.5")
              (fun _ => "0") (fun _ => "x.png") (js "x.png")
              (Some signedIn, 0%nat) (Some signedIn, 2%nat)
              (Resolved (mkUpload (Some (JStr "https://mmbiz.qpic.cn/x"))))
              eq_refl)).
Defined.

Lemma weixin_publish_requires_login_witness :
  publish signedOutFetch
          (fun _ n => signedOutFetch (mkRequest "" "GET" [] NoBody) n)
          (fun _ => Resolved "blob") (fun _ => "0") (fun _ => "0.5")
          (fun _ => "0") (fun _ => "") (fun _ => "") (fun _ => "") noMatches
          (fun _ => Resolved []) (fun h => Resolved h)
          (fun c _ _ => ret c) (fun c => Resolved c)
          (Weixin.mkArticle "T" (Some (js "<p>x</p>")) None) None
          (None, 0%nat)
  = (Resolved (Failed "请先登录微信公众号"), (None, 1%nat)).
Proof.
  apply (weixin_publish_requires_login
           signedOutFetch
           (fun _ n => signedOutFetch (mkRequest "" "GET" [] NoBody) n)
           (fun _ => Resolved "blob") (fun _ => "0") (fun _ => "0.5")
           (fun _ => "0") (fun _ => "") (fun _ => "") (fun _ => "") noMatches
           (fun _ => Resolved []) (fun h => Resolved h)
           (fun c _ _ => ret c) (fun c => Resolved c)
           (Weixin.mkArticle "T" (Some (js "<p>x</p>")) None) None
           0%nat notAuthenticated (None, 1%nat));
    reflexivity.
Defined.

End WeixinPublishFacts.


(* ================================================================== *)
(** * Weixin adapter: the login data *)
(* ================================================================== *)

Module WeixinLoginFacts.
Import Async Adapter Weixin AsyncFacts.
Local Open Scope string_scope.
Local Open Scope list_scope.

Section Login.
Context {World : Type}.
Variable runtime_fetch : Request -> World -> Outcome Response * World.
Variable scanPage : string -> PageMatches.

Lemma upgraded_avatar a :
  String.prefix "http://"
    (if String.prefix "http://" a then replaceFirst "http://" "https://" a
     else a) = false.
Proof.
  destruct (String.prefix "http://" a) eqn:E; [|exact E].
  destruct a as [|c a]; [discriminate|].
  cbn [replaceFirst]. rewrite E. reflexivity.
Qed.

(** X27. What [checkAuth] of the Weixin adapter leaves behind. When it
    reports a login, the login data is stored, its token is the one found
    in the page, the result repeats its user name, nick name and avatar,
    and the avatar address never starts with [http://]. When it reports
    none, whatever login data was there before is still there: a failed
    check does not sign the adapter out. *)
Theorem weixin_checkAuth_meta (st st' : Weixin.St (World := World))
        (auth : AuthResult) :
  checkAuth runtime_fetch scanPage st = (Resolved auth, st') ->
  if isAuthenticated auth
  then exists meta html,
         fst st' = Some meta
         /\ tokenMatch (scanPage html) = Some (token meta)
         /\ userId auth = Some (JStr (userName meta))
         /\ username auth = Some (JStr (nickName meta))
         /\ avatar auth = Some (JStr (meta_avatar meta))
         /\ String.prefix "http://" (meta_avatar meta) = false
  else fst st' = fst st.
Proof.
  destruct st as [meta0 w].
  unfold checkAuth, tryCatch, bind, fetch, await, setMeta, ret.
  destruct (runtime_fetch _ w) as [[response|e] w1];
    [|intros [= <- <-]; reflexivity].
  destruct (resp_text response) as [html|e];
    [|intros [= <- <-]; reflexivity].
  destruct (tokenMatch (scanPage html)) as [t|] eqn:Et;
    [|intros [= <- <-]; reflexivity].
  intros [= <- <-]. cbn [isAuthenticated].
  eexists _, html. split; [reflexivity|]. cbn [token].
  split; [exact Et|]. repeat (split; [reflexivity|]).
  cbn [meta_avatar]. apply upgraded_avatar.
Qed.
End Login.

Lemma weixin_checkAuth_meta_witness :
  checkAuth WeixinPublish.signedOutFetch WeixinPublish.noMatches
            (Some WeixinPublish.signedIn, 0%nat)
  = (Resolved notAuthenticated, (Some WeixinPublish.signedIn, 1%nat))
  /\ fst (Some WeixinPublish.signedIn, 1%nat)
     = fst (Some WeixinPublish.signedIn, 0%nat).
Proof.
  split; [reflexivity|].
  exact (weixin_checkAuth_meta
           WeixinPublish.signedOutFetch WeixinPublish.noMatches
           (Some WeixinPublish.signedIn, 0%nat)
           (Some WeixinPublish.signedIn, 1%nat) notAuthenticated eq_refl).
Defined.

End WeixinLoginFacts.


(* ================================================================== *)
(** * Juejin adapter: publishing *)
(* ================================================================== *)

Module JuejinPublishFacts.
Import Async Adapter Juejin JuejinPublish AsyncFacts.
Local Open Scope string_scope.
Local Open Scope list_scope.

Section Facts.
Context {World : Type}.
Variable runtime_fetch : Request -> World -> Outcome Response * World.
Variable fetch_blob : string -> World -> Outcome Blob * World.
Variable stringOf : Json -> string.
Variable statusText : Response -> string.
Variable first100 : string -> string.
Variable JSON_parse : string -> Outcome Json.
Variable cleanHtml : option string -> Outcome string.
Variable processImages :
  string -> (string -> M (Juejin.St (World := World)) ImageUploadResult) ->
  list string -> M (Juejin.St (World := World)) string.
Variable htmlToMarkdown : string -> Outcome string.

(** X28. [publish] of the Juejin adapter never rejects: it resolves
    with a draft exactly when its [try] block resolves, and otherwise
    with a failed result whose error is the message of what the block
    threw, in the state in which it was thrown. A draft is reported only
    with a truthy draft id, under the editor address of that draft, and
    as draft-only unless the options say otherwise. Once the answer to
    the draft request was read, the result is settled by it: an answer
    that is not [ok] fails with its status and text, a text that is not
    JSON with its first hundred characters, an error code with the
    [err_msg] of the answer or the code, a missing draft id with the
    [err_msg] or the fixed message, and anything else is the draft. *)
Theorem juejin_publish_settles (article : Article) (draftOnly : option bool)
        (st : Juejin.St (World := World)) :
  exists result st',
    publish runtime_fetch fetch_blob stringOf statusText first100 JSON_parse
            cleanHtml processImages htmlToMarkdown article draftOnly st
    = (Resolved result, st')
    /\ match result with
       | Created draftId postUrl flag =>
           publishBody runtime_fetch fetch_blob stringOf statusText first100
                       JSON_parse cleanHtml processImages htmlToMarkdown
                       article draftOnly st
           = (Resolved result, st')
           /\ truthy draftId = true
           /\ postUrl
              = ("https://juejin.cn/editor/drafts/" ++ text stringOf draftId)%string
           /\ flag = match draftOnly with Some b => b | None => true end
       | Failed msg =>
           exists e,
             publishBody runtime_fetch fetch_blob stringOf statusText first100
                         JSON_parse cleanHtml processImages htmlToMarkdown
                         article draftOnly st
             = (Rejected e, st')
             /\ msg = message e
       end
    /\ (forall csrfToken sa content content' sc md createResponse se
               responseText,
           getCsrfToken runtime_fetch st = (Resolved csrfToken, sa) ->
           cleanHtml (rawHtml article) = Resolved content ->
           processImages content
                         (uploadImageByUrl runtime_fetch fetch_blob stringOf)
                         skipPatterns sa
           = (Resolved content', sc) ->
           htmlToMarkdown content' = Resolved md ->
           fetch runtime_fetch (createRequest csrfToken article md) sc
           = (Resolved createResponse, se) ->
           resp_text createResponse = Resolved responseText ->
           st' = se
           /\ (resp_ok createResponse = false ->
               result = Failed ("创建草稿失败: " ++ statusText createResponse
                                  ++ " - " ++ responseText)%string)
           /\ (resp_ok createResponse = true ->
               (forall err,
                   JSON_parse responseText = Rejected err ->
                   result = Failed ("创建草稿失败: 响应不是有效 JSON - "
                                      ++ first100 responseText)%string)
               /\ (forall createData err_no,
                      JSON_parse responseText = Resolved createData ->
                      getProp (Some createData) "err_no" = Resolved err_no ->
                      (truthy err_no && notZero err_no = true ->
                       result
                       = Failed (messageOr stringOf
                                   (getPropOpt (Some createData) "err_msg")
                                   ("创建草稿失败: 错误码 "
                                      ++ text stringOf err_no)%string))
                      /\ (truthy err_no && notZero err_no = false ->
                          truthy (getPropOpt
                                    (getPropOpt (Some createData) "data") "id")
                          = false ->
                          result
                          = Failed (messageOr stringOf
                                      (getPropOpt (Some createData) "err_msg")
                                      "创建草稿失败: 无效响应"))
                      /\ (truthy err_no && notZero err_no = false ->
                          truthy (getPropOpt
                                    (getPropOpt (Some createData) "data") "id")
                          = true ->
                          result
                          = Created
                              (getPropOpt (getPropOpt (Some createData) "data")
                                          "id")
                              ("https://juejin.cn/editor/drafts/"
                                 ++ text stringOf
                                      (getPropOpt
                                         (getPropOpt (Some createData) "data")
                                         "id"))%string
                              (match draftOnly with
                               | Some b => b
                               | None => true
                               end))))).
Proof.
  assert (Htotal : exists result st',
             publish runtime_fetch fetch_blob stringOf statusText first100
                     JSON_parse cleanHtml processImages htmlToMarkdown
                     article draftOnly st
             = (Resolved result, st')).
  { unfold publish, tryCatch.
    destruct (publishBody runtime_fetch fetch_blob stringOf statusText
                first100 JSON_parse cleanHtml processImages htmlToMarkdown
                article draftOnly st) as [[result|e] st1];
      eexists _, _; reflexivity. }
  destruct Htotal as (result & st' & Hrun).
  exists result, st'. split; [exact Hrun|]. split.
  - unfold publish, tryCatch in Hrun.
    destruct (publishBody runtime_fetch fetch_blob stringOf statusText
                first100 JSON_parse cleanHtml processImages htmlToMarkdown
                article draftOnly st) as [[r|e] st1] eqn:E.
    + injection Hrun as <- <-. unfold publishBody in E.
      apply bind_resolved in E. destruct E as (csrfToken & sa & _ & H).
      apply bind_resolved in H. destruct H as (content & sb & _ & H).
      apply bind_resolved in H. destruct H as (content' & sc & _ & H).
      apply bind_resolved in H. destruct H as (md & sd & _ & H).
      apply bind_resolved in H. destruct H as (createResponse & se & _ & H).
      apply bind_resolved in H. destruct H as (responseText & sf & _ & H).
      destruct (resp_ok createResponse); cbn [negb] in H; [|discriminate].
      apply bind_resolved in H. destruct H as (createData & sg & _ & H).
      apply bind_resolved in H. destruct H as (err_no & sh & _ & H).
      destruct (truthy err_no && notZero err_no); [discriminate|].
      destruct (truthy (getPropOpt (getPropOpt (Some createData) "data") "id"))
        eqn:Et; cbn [negb] in H; [|discriminate].
      apply ret_state in H. destruct H as [[= ->] _].
      split; [reflexivity|]. split; [exact Et|]. split; reflexivity.
    + unfold ret in Hrun. injection Hrun as <- <-.
      exists e. split; reflexivity.
  - intros csrfToken sa content content' sc md createResponse se responseText
           Htok Hclean Himg Hmd Hfetch Htext.
    unfold publish, tryCatch, publishBody, bind at 1 in Hrun.
    rewrite Htok in Hrun. unfold bind at 1, await at 1 in Hrun.
    rewrite Hclean in Hrun. unfold bind at 1 in Hrun. rewrite Himg in Hrun.
    unfold bind at 1, await at 1 in Hrun. rewrite Hmd in Hrun.
    unfold bind at 1 in Hrun. rewrite Hfetch in Hrun.
    unfold bind at 1, await at 1 in Hrun. rewrite Htext in Hrun.
    destruct (resp_ok createResponse); cbn [negb] in Hrun.
    + unfold bind at 1, await at 1 in Hrun.
      destruct (JSON_parse responseText) as [createData|err].
      * unfold bind at 1, await at 1 in Hrun.
        destruct (getProp (Some createData) "err_no") as [err_no|err] eqn:En.
        -- destruct (truthy err_no && notZero err_no) eqn:Ee.
           ++ unfold throw, ret in Hrun. injection Hrun as <- <-.
              split; [reflexivity|]. split; [discriminate|]. intros _.
              split; [discriminate|].
              intros d n [= <-] Hn. rewrite En in Hn. injection Hn as <-.
              rewrite Ee.
              split; [reflexivity|]. split; discriminate.
           ++ destruct (truthy (getPropOpt
                                  (getPropOpt (Some createData) "data") "id"))
                eqn:Et; cbn [negb] in Hrun;
                unfold throw, ret in Hrun; injection Hrun as <- <-;
                (split; [reflexivity|]); (split; [discriminate|]); intros _;
                (split; [discriminate|]);
                intros d n [= <-] Hn; rewrite En in Hn; injection Hn as <-;
                rewrite Ee, Et;
                (split; [discriminate|]); split; first [reflexivity | discriminate].
        -- unfold ret in Hrun. injection Hrun as <- <-.
           split; [reflexivity|]. split; [discriminate|]. intros _.
           split; [discriminate|]. intros d n [= <-] Hn.
           rewrite En in Hn. discriminate Hn.
      * unfold ret in Hrun. injection Hrun as <- <-.
        split; [reflexivity|]. split; [discriminate|]. intros _.
        split; [reflexivity|]. intros d n. discriminate.
    + unfold throw, ret in Hrun. injection Hrun as <- <-.
      split; [reflexivity|]. split; [reflexivity|]. discriminate.
Qed.

(** X29. The first thing [publish] does is to get the token. When that
    fails, nothing else happens: the result is the failure with the
    message of the token step, and the state is the one that step
    left. *)
Theorem juejin_publish_requires_token (article : Article)
        (draftOnly : option bool) (st st1 : Juejin.St (World := World))
        (e : Error) :
  getCsrfToken runtime_fetch st = (Rejected e, st1) ->
  publish runtime_fetch fetch_blob stringOf statusText first100 JSON_parse
          cleanHtml processImages htmlToMarkdown article draftOnly st
  = (Resolved (Failed (message e)), st1).
Proof.
  intros H. unfold publish, publishBody, tryCatch, bind at 1. now rewrite H.
Qed.
End Facts.

Lemma juejin_publish_requires_token_witness :
  publish offline blobOf (fun _ => "") (fun _ => "0") (fun s => s)
          (fun _ => Resolved JNull) (fun _ => Resolved "")
          (fun c _ _ => ret c) (fun c => Resolved c)
          (mkArticle "T" (Some "<p>x</p>") None) None (None, tt)
  = (Resolved (Failed "Failed to fetch"), (None, tt)).
Proof.
  apply (juejin_publish_requires_token
           offline blobOf (fun _ => "") (fun _ => "0") (fun s => s)
           (fun _ => Resolved JNull) (fun _ => Resolved "")
           (fun c _ _ => ret c) (fun c => Resolved c)
           (mkArticle "T" (Some "<p>x</p>") None) None (None, tt) (None, tt)
           (mkError "Failed to fetch")).
  reflexivity.
Defined.

End JuejinPublishFacts.


(* ================================================================== *)
(** * Control channel: the article of [syncArticle] *)
(* ================================================================== *)

Module McpSyncArticleFacts.
Import Async Adapter Mcp McpMethods.
Local Open Scope string_scope.
Local Open Scope list_scope.

Lemma articleHtml_ignores_content {World : Type}
      (backend : Backend (World := World)) content1 content2 markdown :
  truthy (Some markdown) = true ->
  articleHtml backend content1 markdown = articleHtml backend content2 markdown.
Proof. unfold articleHtml. now intros ->. Qed.

Lemma orDefault_truthy v fallback :
  truthy v = true -> truthy (Some (orDefault v fallback)) = true.
Proof.
  unfold orDefault. destruct v as [j|]; [|discriminate].
  intros H. now rewrite H.
Qed.

(** X30. In [syncArticle] the markdown, when there is any, decides
    everything: two requests that agree on the platforms and on the
    title, cover and (truthy) markdown of the article are handled alike,
    whatever their [content] fields hold. The content is only used when
    there is no markdown. *)
Theorem markdown_overrides_content {World : Type}
        (backend : Backend (World := World)) (params1 params2 : JsValue)
        (w : World) :
  getPropOpt params1 "platforms" = getPropOpt params2 "platforms" ->
  getPropOpt (getPropOpt params1 "article") "title"
  = getPropOpt (getPropOpt params2 "article") "title" ->
  getPropOpt (getPropOpt params1 "article") "cover"
  = getPropOpt (getPropOpt params2 "article") "cover" ->
  getPropOpt (getPropOpt params1 "article") "markdown"
  = getPropOpt (getPropOpt params2 "article") "markdown" ->
  truthy (getPropOpt (getPropOpt params1 "article") "markdown") = true ->
  handleMethod backend "syncArticle" params1 w
  = handleMethod backend "syncArticle" params2 w.
Proof.
  intros Hp Ht Hc Hm Htruthy.
  unfold handleMethod. cbn [String.eqb Ascii.eqb Bool.eqb].
  rewrite Hp, Ht, Hc, Hm. rewrite Hm in Htruthy. rewrite Htruthy.
  cbn [negb andb].
  rewrite (articleHtml_ignores_content backend
             (orDefault (getPropOpt (getPropOpt params1 "article") "content")
                        (JStr ""))
             (orDefault (getPropOpt (getPropOpt params2 "article") "content")
                        (JStr "")))
    by (now apply orDefault_truthy).
  reflexivity.
Qed.

Lemma markdown_overrides_content_witness :
  let backend :=
    mkBackend (World := list SyncArticleMessage)
      (fun _ w => (Resolved None, w)) (fun _ w => (Resolved None, w))
      (fun md => Resolved (JStr "<h1>T</h1>"))
      (fun m w => (Resolved (Some (JObj [("results", JArr [])])), w ++ [m]))
      (fun w => (Resolved None, w)) (fun _ w => (Resolved None, w))
      (fun _ w => (Resolved None, w)) (fun _ => "") in
  let request content :=
    Some (JObj [("platforms", JArr [JStr "juejin"]);
                ("article", JObj [("title", JStr "T");
                                  ("markdown", JStr "# T");
                                  ("content", JStr content)])]) in
  handleMethod backend "syncArticle" (request "<p>old</p>") []
  = handleMethod backend "syncArticle" (request "") [].
Proof.
  intros backend request.
  apply (markdown_overrides_content backend (request "<p>old</p>")
                                    (request "") []);
    reflexivity.
Defined.

End McpSyncArticleFacts.
